(** * The regex-based biography field extractor ([test.py])

    A shallow embedding of [parse_astronaut_profile] and its helpers.

    Text is a list of code points.  The development covers the code points
    U+0000..U+00FF, which fit the 8-bit [ascii] type; the character tables
    below ([\s], [\d], [\w], case folding) are the ones of Python's [str]
    patterns on that range.

    The extractor is driven by Python's [re] module, so the first part of the
    file is a backtracking matcher with the priorities of [re] (leftmost
    match, alternatives in order, greedy and lazy repetition, captures,
    [^] and [$] under [re.M], [\b], negative lookahead).  Each pattern of the
    source is then written as a value of the [regex] type. *)

From Stdlib Require Import Ascii String Bool Arith ZArith Lia Permutation List.
Import ListNotations.



(** ** Text *)

Definition text := list ascii.

(** [str "abc"] is the text of a string literal. *)
Definition str (s : string) : text := list_ascii_of_string s.

Definition text_eq_dec : forall a b : text, {a = b} + {a <> b} :=
  list_eq_dec ascii_dec.

Fixpoint text_eqb (a b : text) : bool :=
  match a, b with
  | [], [] => true
  | x :: a', y :: b' => Ascii.eqb x y && text_eqb a' b'
  | _, _ => false
  end.

(** ** Character tables *)

Module Chars.

Definition code (c : ascii) : nat := nat_of_ascii c.

Definition between (lo hi : nat) (c : ascii) : bool :=
  (lo <=? code c) && (code c <=? hi).

(** [str.isspace], which is also [\s] and what [str.strip()] removes. *)
Definition is_space (c : ascii) : bool :=
  between 9 13 c || between 28 32 c || (code c =? 133) || (code c =? 160).

(** [\d]. *)
Definition is_digit (c : ascii) : bool := between 48 57 c.

Definition is_upper (c : ascii) : bool := between 65 90 c.
Definition is_lower (c : ascii) : bool := between 97 122 c.

(** [\w], used by [\b]. *)
Definition is_word (c : ascii) : bool :=
  is_digit c || is_upper c || is_lower c || (code c =? 95)
  || (code c =? 170) || (code c =? 178) || (code c =? 179)
  || (code c =? 181) || (code c =? 185) || (code c =? 186)
  || between 188 190 c || between 192 214 c || between 216 246 c
  || between 248 255 c.

(** Case folding of the letters a pattern of the program can contain. *)
Definition swapcase (c : ascii) : ascii :=
  if is_upper c then ascii_of_nat (code c + 32)
  else if is_lower c then ascii_of_nat (code c - 32)
  else c.

Definition newline : ascii := ascii_of_nat 10.

End Chars.

(** ** Regular expressions *)

(** An item of a bracketed class. *)
Inductive citem : Type :=
| CChar (c : ascii)
| CRange (lo hi : ascii).

Inductive regex : Type :=
| Eps
| Lit (c : ascii)                        (* a literal character *)
| Any                                    (* [.] *)
| Cls (neg : bool) (items : list citem)  (* [[...]] and [[^...]] *)
| Ws                                  (* [\s] *)
| Digit                                  (* [\d] *)
| Bol                                    (* [^] *)
| Eol                                    (* [$] *)
| WordB                                  (* [\b] *)
| Seq (r1 r2 : regex)
| Alt (r1 r2 : regex)
| Star (greedy : bool) (r : regex)       (* [r*] and [r*?] *)
| Group (n : nat) (r : regex)            (* the [n]-th capturing group *)
| NotAhead (r : regex).                  (* [(?!r)] *)

(** [re.I] and [re.M]. *)
Record flags : Type := { icase : bool; multiline : bool }.

Definition IM : flags := {| icase := true; multiline := true |}.
Definition NOFLAGS : flags := {| icase := false; multiline := false |}.

Module Re.

(** Sugar, with the priorities of the backtracking matcher. *)
Fixpoint seqs (rs : list regex) : regex :=
  match rs with
  | [] => Eps
  | [r] => r
  | r :: rs' => Seq r (seqs rs')
  end.

Fixpoint alts (rs : list regex) : regex :=
  match rs with
  | [] => Eps
  | [r] => r
  | r :: rs' => Alt r (alts rs')
  end.

Fixpoint lit_list (cs : text) : regex :=
  match cs with
  | [] => Eps
  | [c] => Lit c
  | c :: cs' => Seq (Lit c) (lit_list cs')
  end.

Definition lit (s : string) : regex := lit_list (str s).

Definition plus (greedy : bool) (r : regex) : regex := Seq r (Star greedy r).

Definition opt (greedy : bool) (r : regex) : regex :=
  if greedy then Alt r Eps else Alt Eps r.

(** [r{n}] *)
Fixpoint rep (n : nat) (r : regex) : regex :=
  match n with
  | 0 => Eps
  | 1 => r
  | S n' => Seq r (rep n' r)
  end.

(** [r{0,n}], greedy *)
Fixpoint upto (n : nat) (r : regex) : regex :=
  match n with
  | 0 => Eps
  | S n' => Alt (Seq r (upto n' r)) Eps
  end.

(** [r{lo,hi}], greedy *)
Definition range (lo hi : nat) (r : regex) : regex :=
  match lo with
  | 0 => upto hi r
  | _ => Seq (rep lo r) (upto (hi - lo) r)
  end.

(** *** Matching one character *)

Definition item_has (i : citem) (c : ascii) : bool :=
  match i with
  | CChar x => Ascii.eqb x c
  | CRange lo hi => Chars.between (Chars.code lo) (Chars.code hi) c
  end.

Definition set_has (items : list citem) (c : ascii) : bool :=
  existsb (fun i => item_has i c) items.

Definition lit_ok (fl : flags) (x c : ascii) : bool :=
  Ascii.eqb x c || (icase fl && Ascii.eqb x (Chars.swapcase c)).

Definition cls_ok (fl : flags) (neg : bool) (items : list citem) (c : ascii) : bool :=
  let inside := set_has items c || (icase fl && set_has items (Chars.swapcase c)) in
  if neg then negb inside else inside.

(** *** The state of a match attempt *)

Record mstate : Type := {
  prev : option ascii;            (* the character before the position *)
  rest : text;                    (* the text from the position on *)
  caps : list (nat * text)        (* the captures made so far *)
}.

Definition advance (c : ascii) (t : text) (s : mstate) : mstate :=
  {| prev := Some c; rest := t; caps := caps s |}.

Fixpoint lookup (n : nat) (cs : list (nat * text)) : option text :=
  match cs with
  | [] => None
  | (k, v) :: cs' => if Nat.eqb k n then Some v else lookup n cs'
  end.

(** What was consumed between two states of one attempt. *)
Definition taken (s s1 : mstate) : text :=
  firstn (length (rest s) - length (rest s1)) (rest s).

Definition set_cap (n : nat) (w : text) (s : mstate) : mstate :=
  {| prev := prev s; rest := rest s; caps := (n, w) :: caps s |}.

Definition at_bol (fl : flags) (s : mstate) : bool :=
  match prev s with
  | None => true
  | Some c => multiline fl && Ascii.eqb c Chars.newline
  end.

Definition at_eol (fl : flags) (s : mstate) : bool :=
  match rest s with
  | [] => true
  | [c] => Ascii.eqb c Chars.newline         (* [$] also matches before a final newline *)
  | c :: _ => multiline fl && Ascii.eqb c Chars.newline
  end.

Definition word_before (s : mstate) : bool :=
  match prev s with Some c => Chars.is_word c | None => false end.

Definition word_after (s : mstate) : bool :=
  match rest s with c :: _ => Chars.is_word c | [] => false end.

Definition at_wordb (s : mstate) : bool :=
  negb (Bool.eqb (word_before s) (word_after s)).

Definition one (p : ascii -> bool) (s : mstate)
    (k : mstate -> option mstate) : option mstate :=
  match rest s with
  | c :: t => if p c then k (advance c t s) else None
  | [] => None
  end.

Definition guard (b : bool) (s : mstate)
    (k : mstate -> option mstate) : option mstate :=
  if b then k s else None.

(** *** The backtracking matcher

    [run fl r s k] tries [r] at [s] and hands every way of matching it, in
    priority order, to the continuation [k], stopping at the first one [k]
    accepts. *)

Definition cont : Type := mstate -> option mstate.

(** The loop of a repetition of [body].  An iteration that consumes
    nothing ends it.  [n] bounds the iterations left; the matcher starts
    it at the length of the remaining text, which the iterations cannot
    exceed ([star_loop_fuel] below). *)
Fixpoint star_loop (body : mstate -> cont -> option mstate) (greedy : bool)
    (k : cont) (n : nat) (s0 : mstate) {struct n} : option mstate :=
  match n with
  | 0 => k s0
  | S n' =>
      let more (s1 : mstate) :=
        if length (rest s1) <? length (rest s0)
        then star_loop body greedy k n' s1 else None in
      if greedy then
        match body s0 more with
        | Some x => Some x
        | None => k s0
        end
      else
        match k s0 with
        | Some x => Some x
        | None => body s0 more
        end
  end.

Fixpoint run (fl : flags) (r : regex) (s : mstate) (k : cont)
    {struct r} : option mstate :=
  match r with
  | Eps => k s
  | Lit x => one (lit_ok fl x) s k
  | Any => one (fun c => negb (Ascii.eqb c Chars.newline)) s k
  | Cls neg items => one (cls_ok fl neg items) s k
  | Ws => one Chars.is_space s k
  | Digit => one Chars.is_digit s k
  | Bol => guard (at_bol fl s) s k
  | Eol => guard (at_eol fl s) s k
  | WordB => guard (at_wordb s) s k
  | Seq r1 r2 => run fl r1 s (fun s1 => run fl r2 s1 k)
  | Alt r1 r2 =>
      match run fl r1 s k with
      | Some x => Some x
      | None => run fl r2 s k
      end
  | Star greedy r1 => star_loop (run fl r1) greedy k (length (rest s)) s
  | Group n r1 => run fl r1 s (fun s1 => k (set_cap n (taken s s1) s1))
  | NotAhead r1 =>
      match run fl r1 s (fun s1 => Some s1) with
      | Some _ => None
      | None => k s
      end
  end.

(** *** Match objects and the functions of [re] *)

Record match_obj : Type := {
  m_start : nat;                  (* offset of the match in the text *)
  m_whole : text;                 (* [m.group(0)] *)
  m_caps : list (nat * text);
  m_after : mstate                (* the position after the match *)
}.

(** [m.group(n)]: [None] when the group took no part in the match. *)
Definition group (n : nat) (m : match_obj) : option text := lookup n (m_caps m).

Definition start_state (p : option ascii) (t : text) : mstate :=
  {| prev := p; rest := t; caps := [] |}.

(** One attempt, at the position with [p] before it and [t] from it on. *)
Definition match_at (fl : flags) (r : regex) (p : option ascii) (t : text)
    (off : nat) : option match_obj :=
  match run fl r (start_state p t) (fun s1 => Some s1) with
  | Some s1 =>
      Some {| m_start := off;
              m_whole := taken (start_state p t) s1;
              m_caps := caps s1;
              m_after := s1 |}
  | None => None
  end.

(** The leftmost match, scanning from offset [off]. *)
Fixpoint search_from (fl : flags) (r : regex) (p : option ascii) (t : text)
    (off : nat) : option match_obj :=
  match match_at fl r p t off with
  | Some m => Some m
  | None =>
      match t with
      | [] => None
      | c :: t' => search_from fl r (Some c) t' (S off)
      end
  end.

(** [re.search(r, t, fl)] *)
Definition search (fl : flags) (r : regex) (t : text) : option match_obj :=
  search_from fl r None t 0.

(** The successive non-overlapping matches, left to right ([re.finditer]).
    The scan resumes where a match ended.  The patterns this program gives
    to [findall], [split] and [sub] match no empty text; on an empty match
    the scan moves one character on. *)
Fixpoint scan (fl : flags) (r : regex) (fuel : nat) (p : option ascii)
    (t : text) (off : nat) : list match_obj :=
  match fuel with
  | 0 => []
  | S fuel' =>
      match search_from fl r p t off with
      | None => []
      | Some m =>
          let s1 := m_after m in
          m :: match m_whole m, rest s1 with
               | [], [] => []
               | [], c :: t' => scan fl r fuel' (Some c) t' (S (m_start m))
               | _ :: _, _ =>
                   scan fl r fuel' (prev s1) (rest s1)
                     (m_start m + length (m_whole m))
               end
      end
  end.

Definition finditer (fl : flags) (r : regex) (t : text) : list match_obj :=
  scan fl r (S (length t)) None t 0.

(** [re.findall(r, t, fl)] for a pattern without capturing group: the
    matches. *)
Definition findall0 (fl : flags) (r : regex) (t : text) : list text :=
  map (@m_whole) (finditer fl r t).

(** [re.findall(r, t, fl)] for a pattern with one capturing group: what the
    group captured in each match, the empty text when it took no part. *)
Definition findall1 (fl : flags) (r : regex) (t : text) : list text :=
  map (fun m => match group 1 m with Some w => w | None => [] end)
      (finditer fl r t).

(** The pieces of [t] between the matches ([re.split], pattern without
    group). *)
Fixpoint pieces (t : text) (from : nat) (ms : list match_obj) : list text :=
  match ms with
  | [] => [t]
  | m :: ms' =>
      let upto := m_start m - from in
      let len := length (m_whole m) in
      firstn upto t :: pieces (skipn (upto + len) t) (m_start m + len) ms'
  end.

Definition split (fl : flags) (r : regex) (t : text) : list text :=
  pieces t 0 (finditer fl r t).

(** [re.sub(r, by, t)] with a replacement without escapes. *)
Definition sub (fl : flags) (r : regex) (by_ : text) (t : text) : text :=
  let ps := pieces t 0 (finditer fl r t) in
  match ps with
  | [] => []
  | p :: ps' => p ++ flat_map (fun q => by_ ++ q) ps'
  end.

End Re.

(** ** Python built-ins the extractor uses *)

Module Py.

(** Exceptions the code can meet. *)
Inductive exn : Type := ValueError | AttributeError.

(** The outcome of a computation that can raise. *)
Inductive res (A : Type) : Type :=
| Ok (a : A)
| Raise (e : exn).
Arguments Ok {A} a.
Arguments Raise {A} e.

Definition bind {A B : Type} (c : res A) (f : A -> res B) : res B :=
  match c with
  | Ok a => f a
  | Raise e => Raise e
  end.

(** [try: c  except ValueError: pass], then [otherwise]. *)
Definition try_value_error {A : Type} (c : res A) (otherwise : res A) : res A :=
  match c with
  | Ok a => Ok a
  | Raise ValueError => otherwise
  | Raise e => Raise e
  end.

(** Truth value of a [str]. *)
Definition truthy (t : text) : bool :=
  match t with [] => false | _ => true end.

Fixpoint lstrip (p : ascii -> bool) (t : text) : text :=
  match t with
  | c :: t' => if p c then lstrip p t' else t
  | [] => []
  end.

Definition rstrip (p : ascii -> bool) (t : text) : text :=
  rev (lstrip p (rev t)).

(** [s.strip(chars)], the characters given by a predicate. *)
Definition strip_by (p : ascii -> bool) (t : text) : text :=
  rstrip p (lstrip p t).

(** [s.strip()] *)
Definition strip (t : text) : text := strip_by Chars.is_space t.

(** [s.strip(" .;:")] *)
Definition in_chars (cs : text) (c : ascii) : bool :=
  existsb (Ascii.eqb c) cs.

(** [s.split(sep)] for a one-character separator. *)
Fixpoint split_char (sep : ascii) (t : text) : list text :=
  match t with
  | [] => [[]]
  | c :: t' =>
      if Ascii.eqb c sep then [] :: split_char sep t'
      else match split_char sep t' with
           | p :: ps => (c :: p) :: ps
           | [] => [[c]]
           end
  end.

Definition digit_val (c : ascii) : Z := Z.of_nat (Chars.code c - 48).

(** [int(s)] on a text of decimal digits, which is all the extractor
    converts (captures of [[0-9]{1,3}] and [\d{4}], and the numeric fields of
    [strptime]); another text is refused with [ValueError]. *)
Definition int (t : text) : res Z :=
  match t with
  | [] => Raise ValueError
  | _ =>
      if forallb Chars.is_digit t
      then Ok (fold_left (fun acc c => (10 * acc + digit_val c)%Z) t 0%Z)
      else Raise ValueError
  end.

End Py.

Notation "x <- c ;; k" := (Py.bind c (fun x => k))
  (at level 61, c at next level, right associativity).

(** ** Dates: [datetime.date] and [datetime.strptime] *)

Module Date.

Record date : Type := { year : Z; month : Z; day : Z }.

Definition is_leap (y : Z) : bool :=
  ((y mod 4 =? 0) && negb (y mod 100 =? 0) || (y mod 400 =? 0))%Z.

Definition days_in_month (y m : Z) : Z :=
  if (m =? 2)%Z then (if is_leap y then 29 else 28)%Z
  else if ((m =? 4) || (m =? 6) || (m =? 9) || (m =? 11))%Z then 30%Z
  else 31%Z.

(** The check of the [date] constructor; a failure is a [ValueError]. *)
Definition valid (y m d : Z) : bool :=
  ((1 <=? y) && (y <=? 9999) && (1 <=? m) && (m <=? 12)
   && (1 <=? d) && (d <=? days_in_month y m))%Z.

Definition make (y m d : Z) : Py.res date :=
  if valid y m d then Py.Ok {| year := y; month := m; day := d |}
  else Py.Raise Py.ValueError.

(** [(a.month, a.day) < (b.month, b.day)] *)
Definition md_before (a b : date) : bool :=
  ((month a <? month b) || ((month a =? month b) && (day a <? day b)))%Z.

Definition month_names : list string :=
  ["January"; "February"; "March"; "April"; "May"; "June"; "July";
   "August"; "September"; "October"; "November"; "December"]%string.

(** The directives of a format. *)
Inductive directive : Type :=
| FY                      (* [%Y] *)
| Fm                      (* [%m] *)
| Fd                      (* [%d] *)
| FB                      (* [%B] *)
| FWs                     (* white space in the format *)
| FChar (c : ascii).      (* any other character *)

Definition gY := 1.
Definition gm := 2.
Definition gd := 3.
Definition gB := 4.

Definition digits (lo hi : ascii) : regex := Cls false [CRange lo hi].

(** The regular expression [_strptime] builds for each directive. *)
Definition directive_regex (d : directive) : regex :=
  match d with
  | FY => Group gY (Re.rep 4 Digit)
  | Fm => Group gm (Re.alts [Seq (Re.lit "1") (digits "0" "2");
                             Seq (Re.lit "0") (digits "1" "9");
                             digits "1" "9"])
  | Fd => Group gd (Re.alts [Seq (Re.lit "3") (digits "0" "1");
                             Seq (digits "1" "2") Digit;
                             Seq (Re.lit "0") (digits "1" "9");
                             digits "1" "9";
                             Seq (Re.lit " ") (digits "1" "9")])
  | FB => Group gB (Re.alts (map Re.lit month_names))
  | FWs => Re.plus true Ws
  | FChar c => Lit c
  end.

Definition format_regex (fmt : list directive) : regex :=
  Re.seqs (map directive_regex fmt).

Fixpoint index_of (names : list string) (w : text) (i : Z) : option Z :=
  match names with
  | [] => None
  | n :: names' =>
      if text_eqb (map (fun c => if Chars.is_upper c then Chars.swapcase c else c) (str n))
                  (map (fun c => if Chars.is_upper c then Chars.swapcase c else c) w)
      then Some i else index_of names' w (i + 1)%Z
  end.

Definition field (n : nat) (m : Re.match_obj) (default : Z) : Py.res Z :=
  match Re.group n m with
  | None => Py.Ok default
  | Some w => Py.int (Py.lstrip (Ascii.eqb " ") w)
  end.

(** [datetime.strptime(data, fmt).date()]: the format's expression must
    match at the start of [data] and use all of it, and the fields must
    make a date. *)
Definition strptime (data : text) (fmt : list directive) : Py.res date :=
  match Re.match_at IM (format_regex fmt) None data 0 with
  | None => Py.Raise Py.ValueError
  | Some m =>
      if negb (length (Re.m_whole m) =? length data) then Py.Raise Py.ValueError
      else
        y <- field gY m 1900 ;;
        d <- field gd m 1 ;;
        mo <- match Re.group gB m with
              | Some w => match index_of month_names w 1 with
                          | Some i => Py.Ok i
                          | None => Py.Raise Py.ValueError
                          end
              | None => field gm m 1
              end ;;
        make y mo d
  end.

(** ["%Y-%m-%d"], ["%B %d, %Y"], ["%d %B %Y"] *)
Definition fmt_iso : list directive := [FY; FChar "-"; Fm; FChar "-"; Fd].
Definition fmt_BdY : list directive := [FB; FWs; Fd; FChar ","; FWs; FY].
Definition fmt_dBY : list directive := [Fd; FWs; FB; FWs; FY].

End Date.

(** ** The extractor *)

Import Py.

(** *** The patterns of the source, in source order *)

Module Pat.

Import Re.

Definition letters : list citem := [CRange "A" "Z"; CRange "a" "z"].
Definition digit09 : citem := CRange "0" "9".

(** [MONTHS], the names joined by [|] *)
Definition MONTHS : list regex := map lit Date.month_names.

(** [,|\band\b] *)
Definition COMMA_AND : regex :=
  Alt (lit ",") (seqs [WordB; lit "and"; WordB]).

(** [Born:\s*\(\s*(\d{4}-\d{2}-\d{2})\s*\)] *)
Definition BORN_ISO : regex :=
  seqs [lit "Born:"; Star true Ws; lit "("; Star true Ws;
        Group 1 (seqs [rep 4 Digit; lit "-"; rep 2 Digit; lit "-"; rep 2 Digit]);
        Star true Ws; lit ")"].

(** [({MONTHS}\s+\d{1,2},\s+\d{4})]: the names are alternatives at the top
    of the group, so the day and the year belong to the last one only. *)
Definition MONTH_D_YYYY : regex :=
  Group 1 (alts [lit "January"; lit "February"; lit "March"; lit "April";
                 lit "May"; lit "June"; lit "July"; lit "August";
                 lit "September"; lit "October"; lit "November";
                 seqs [lit "December"; plus true Ws; range 1 2 Digit;
                       lit ","; plus true Ws; rep 4 Digit]]).

(** [(\d{1,2}\s+(?:{MONTHS})\s+\d{4})] *)
Definition D_MONTH_YYYY : regex :=
  Group 1 (seqs [range 1 2 Digit; plus true Ws; alts MONTHS;
                 plus true Ws; rep 4 Digit]).

(** [\(age\s*([0-9]{1,3})\)] *)
Definition AGE : regex :=
  seqs [lit "(age"; Star true Ws;
        Group 1 (range 1 3 (Cls false [digit09])); lit ")"].

(** [^\s*-\s*(?:Revin|He|She)??.*?(graduated|post-graduate|qualified as).*?$] *)
Definition EDU_LINES : regex :=
  seqs [Bol; Star true Ws; lit "-"; Star true Ws;
        opt false (alts [lit "Revin"; lit "He"; lit "She"]);
        Star false Any;
        Group 1 (alts [lit "graduated"; lit "post-graduate"; lit "qualified as"]);
        Star false Any; Eol].

(** [^\s*-\s*Revin.*?qualified.*?$|^\s*-\s*.*?post-graduate.*?$] *)
Definition EDU_SECTION : regex :=
  Alt (seqs [Bol; Star true Ws; lit "-"; Star true Ws; lit "Revin";
             Star false Any; lit "qualified"; Star false Any; Eol])
      (seqs [Bol; Star true Ws; lit "-"; Star true Ws;
             Star false Any; lit "post-graduate"; Star false Any; Eol]).

(** [[A-Z][A-Za-z0-9 .\-()']+] *)
Definition inst_name : regex :=
  Seq (Cls false [CRange "A" "Z"])
      (plus true (Cls false (letters ++
         [digit09; CChar " "; CChar "."; CChar "-";
          CChar "("; CChar ")"; CChar "'"]))).

(** [from the ([A-Z][A-Za-z0-9 .\-()']+)] *)
Definition INST_FROM : regex := Seq (lit "from the ") (Group 1 inst_name).

(** [at the ([A-Z][A-Za-z0-9 .\-()']+)] *)
Definition INST_AT : regex := Seq (lit "at the ") (Group 1 inst_name).

(** [(?:in|,)\s*(\d{4})(?!\d)] *)
Definition YEAR : regex :=
  seqs [Alt (lit "in") (lit ","); Star true Ws; Group 1 (rep 4 Digit);
        NotAhead Digit].

(** [qualified as (?:an? )?([A-Za-z \-]+?)(?:\.|,|$)] *)
Definition QUAL : regex :=
  seqs [lit "qualified as ";
        opt true (seqs [lit "a"; opt true (lit "n"); lit " "]);
        Group 1 (plus false (Cls false (letters ++ [CChar " "; CChar "-"])));
        alts [lit "."; lit ","; Eol]].

(** [(Candidate of [A-Za-z ]+ \(\d{4}\))] *)
Definition CANDIDATE : regex :=
  Group 1 (seqs [lit "Candidate of ";
                 plus true (Cls false (letters ++ [CChar " "]));
                 lit " ("; rep 4 Digit; lit ")"]).

(** [\s+] *)
Definition SPACES : regex := plus true Ws.

(** [^-+\s*Occupation\(s\):\s*([^\n]+)$] *)
Definition OCCUPATION : regex :=
  seqs [Bol; plus true (lit "-"); Star true Ws; lit "Occupation(s):";
        Star true Ws; Group 1 (plus true (Cls true [CChar Chars.newline])); Eol].

(** [^-+\s*Nationality:\s*([A-Za-z \-]+)$] *)
Definition NATIONALITY : regex :=
  seqs [Bol; plus true (lit "-"); Star true Ws; lit "Nationality:";
        Star true Ws;
        Group 1 (plus true (Cls false (letters ++ [CChar " "; CChar "-"])));
        Eol].

(** [^-+\s*Time in space:\s*([^\n]+)$] *)
Definition TIME_IN_SPACE : regex :=
  seqs [Bol; plus true (lit "-"); Star true Ws; lit "Time in space:";
        Star true Ws; Group 1 (plus true (Cls true [CChar Chars.newline])); Eol].

(** [\benjoys\s+([^.\n]+)] *)
Definition ENJOYS : regex :=
  seqs [WordB; lit "enjoys"; plus true Ws;
        Group 1 (plus true (Cls true [CChar "."; CChar Chars.newline]))].

End Pat.

(** *** The helpers *)

(** [_extract_first], always called with the default flags [re.I|re.M].
    [m.group(1)] is [None] for a group that took no part in the match, and
    [None.strip()] raises. *)
Definition _extract_first (pattern : regex) (t : text) : res (option text) :=
  match Re.search IM pattern t with
  | Some m =>
      match Re.group 1 m with
      | Some g => Ok (Some (strip g))
      | None => Raise AttributeError
      end
  | None => Ok None
  end.

(** [_extract_all] on a pattern with one group, and on a pattern with none. *)
Definition _extract_all1 (pattern : regex) (t : text) : list text :=
  map strip (Re.findall1 IM pattern t).

Definition _extract_all0 (pattern : regex) (t : text) : list text :=
  map strip (Re.findall0 IM pattern t).

Definition punct : ascii -> bool := in_chars (str " .;:").

Definition _clean_commas_list (s : text) : list text :=
  let parts := Re.split NOFLAGS Pat.COMMA_AND s in
  map (strip_by punct)
      (filter (fun p => truthy p && truthy (strip_by punct p)) parts).

(** One block of [_parse_birthdate]: search the pattern; when it matched, try
    to parse what it captured, and on [ValueError] go on with [next], as
    when it did not match. *)
Definition attempt (pattern : regex) (fmt : list Date.directive) (t : text)
    (next : res (option Date.date)) : res (option Date.date) :=
  found <- _extract_first pattern t ;;
  match found with
  | Some w =>
      if truthy w
      then try_value_error (d <- Date.strptime w fmt ;; Ok (Some d)) next
      else next
  | None => next
  end.

Definition _parse_birthdate (t : text) : res (option Date.date) :=
  attempt Pat.BORN_ISO Date.fmt_iso t
    (attempt Pat.MONTH_D_YYYY Date.fmt_BdY t
       (attempt Pat.D_MONTH_YYYY Date.fmt_dBY t (Ok None))).

(** [_parse_age]; [today] is what [date.today()] returns. *)
Definition _parse_age (today : Date.date) (t : text)
    (birth : option Date.date) : res (option Z) :=
  age_explicit <- _extract_first Pat.AGE t ;;
  let fallback :=
    match birth with
    | Some b =>
        Ok (Some (Date.year today - Date.year b
                  - (if Date.md_before today b then 1 else 0))%Z)
    | None => Ok None
    end in
  match age_explicit with
  | Some w =>
      if truthy w
      then try_value_error (n <- int w ;; Ok (Some n)) fallback
      else fallback
  | None => fallback
  end.

(** *** Degrees and education *)

Record education_entry : Type := {
  institution : option text;
  year : option Z;
  qualification : option text
}.

Definition truthy_opt (o : option text) : bool :=
  match o with Some w => truthy w | None => false end.

(** [any(entry.values())]: a value counts when it is neither [None], nor an
    empty text, nor the number 0. *)
Definition any_values (e : education_entry) : bool :=
  truthy_opt (institution e)
  || match year e with Some n => negb (n =? 0)%Z | None => false end
  || truthy_opt (qualification e).

(** [any(v is not None for v in e.values())] *)
Definition any_not_none (e : education_entry) : bool :=
  match institution e, year e, qualification e with
  | None, None, None => false
  | _, _, _ => true
  end.

(** The f-strings of the degree. *)
Definition degree_string (qual : text) (inst year : option text) : text :=
  match truthy_opt inst, truthy_opt year with
  | true, true =>
      qual ++ str " (" ++ match inst with Some i => i | None => [] end
           ++ str ", " ++ match year with Some y => y | None => [] end ++ str ")"
  | true, false =>
      qual ++ str " (" ++ match inst with Some i => i | None => [] end ++ str ")"
  | false, true =>
      qual ++ str " (" ++ match year with Some y => y | None => [] end ++ str ")"
  | false, false => qual
  end.

(** What one candidate line contributes: the three parts found in it. *)
Definition parse_line (line : text)
    : res (option text * option text * option text) :=
  inst0 <- _extract_first Pat.INST_FROM line ;;
  inst <- (if negb (truthy_opt inst0)
           then _extract_first Pat.INST_AT line else Ok inst0) ;;
  year <- _extract_first Pat.YEAR line ;;
  qual <- _extract_first Pat.QUAL line ;;
  Ok (inst, year, qual).

(** The body of the loop over the candidate lines, on the two lists it
    appends to. *)
Definition line_step (line : text) (acc : list text * list education_entry)
    : res (list text * list education_entry) :=
  let '(degrees, education) := acc in
  parts <- parse_line line ;;
  let '(inst, year, qual) := parts in
  y <- (if truthy_opt year
        then (n <- int (match year with Some w => w | None => [] end) ;; Ok (Some n))
        else Ok None) ;;
  let entry := {| institution := inst; year := y; qualification := qual |} in
  let education' := if any_values entry then education ++ [entry] else education in
  let degrees' :=
    match qual with
    | Some q => if truthy q then degrees ++ [degree_string q inst year] else degrees
    | None => degrees
    end in
  Ok (degrees', education').

Fixpoint lines_loop (lines : list text) (acc : list text * list education_entry)
    : res (list text * list education_entry) :=
  match lines with
  | [] => Ok acc
  | line :: more => acc' <- line_step line acc ;; lines_loop more acc'
  end.

(** [_norm] *)
Definition _norm (s : text) : text := strip (Re.sub NOFLAGS Pat.SPACES (str " ") s).

(** The loop that removes duplicates, with its [seen] set. *)
Fixpoint dedup_loop (seen : list text) (ds : list text) : list text :=
  match ds with
  | [] => []
  | d :: ds' =>
      if in_dec text_eq_dec d seen then dedup_loop seen ds'
      else d :: dedup_loop (d :: seen) ds'
  end.

(** [_parse_degrees_and_education].  [set_order l] is the order in which
    [list(set(l))] lists the distinct elements of [l]; Python fixes it per
    interpreter run, from the hashes of the strings. *)
Definition _parse_degrees_and_education (set_order : list text -> list text)
    (t : text) : res (list text * list education_entry) :=
  let edu_lines := _extract_all1 Pat.EDU_LINES t in
  let edu_section_lines := _extract_all0 Pat.EDU_SECTION t in
  let candidate_lines := set_order (edu_lines ++ edu_section_lines) in
  acc <- lines_loop candidate_lines ([], []) ;;
  let '(degrees, education) := acc in
  let explicit_degrees := _extract_all1 Pat.CANDIDATE t in
  let degrees := map _norm (degrees ++ explicit_degrees) in
  let dedup_degrees := dedup_loop [] degrees in
  let cleaned_edu := filter any_not_none education in
  Ok (dedup_degrees, cleaned_edu).

(** *** The public function *)

Record profile : Type := {
  degrees : list text;
  education : list education_entry;
  occupations : list text;
  time_in_space : option text;
  interests : list text;
  nationality : option text;
  age : option Z
}.

(** What the process supplies: the date of the day and the iteration order of
    its sets. *)
Record env : Type := {
  today : Date.date;
  set_order : list text -> list text
}.

(** An iteration order lists each distinct element once. *)
Definition set_order_ok (ord : list text -> list text) : Prop :=
  forall l, NoDup (ord l) /\ forall x, In x (ord l) <-> In x l.

Definition parse_astronaut_profile (e : env) (t : text) : res profile :=
  occ_line <- _extract_first Pat.OCCUPATION t ;;
  let occupations :=
    match occ_line with
    | Some l =>
        if truthy l
        then map strip (filter (fun o => truthy (strip o)) (split_char "," l))
        else []
    | None => []
    end in
  nationality <- _extract_first Pat.NATIONALITY t ;;
  time_in_space <- _extract_first Pat.TIME_IN_SPACE t ;;
  enjoys <- _extract_first Pat.ENJOYS t ;;
  let interests :=
    match enjoys with
    | Some w => if truthy w then _clean_commas_list w else []
    | None => []
    end in
  de <- _parse_degrees_and_education (set_order e) t ;;
  let '(degrees, education) := de in
  birth <- _parse_birthdate t ;;
  age <- _parse_age (today e) t birth ;;
  Ok {| degrees := degrees;
        education := education;
        occupations := occupations;
        time_in_space := time_in_space;
        interests := interests;
        nationality := nationality;
        age := age |}.

(** Insertion order, one of the orders a set can have. *)
Definition first_seen_order (l : list text) : list text := dedup_loop [] l.

Definition env0 : env :=
  {| today := {| Date.year := 2025; Date.month := 6; Date.day := 15 |};
     set_order := first_seen_order |}.

(** ** The fields as functions of the text

    What the public function puts in each field when nothing raises; the
    lemma [Total.profile_eq] below shows that nothing ever does. *)

(** The first match of a pattern: what its group captured, stripped. *)
Definition first_of (pattern : regex) (t : text) : option text :=
  match Re.search IM pattern t with
  | Some m => option_map strip (Re.group 1 m)
  | None => None
  end.

Definition tokens (value : option text) : list text :=
  match value with
  | Some l =>
      if truthy l
      then map strip (filter (fun o => truthy (strip o)) (split_char "," l))
      else []
  | None => []
  end.

Definition phrases (value : option text) : list text :=
  match value with
  | Some w => if truthy w then _clean_commas_list w else []
  | None => []
  end.

(** What a candidate line adds to the list of degrees and to the list of
    education entries. *)
Definition line_degrees (line : text) : list text :=
  match parse_line line with
  | Ok (inst, year, Some q) =>
      if truthy q then [degree_string q inst year] else []
  | _ => []
  end.

Definition line_education (line : text) : list education_entry :=
  match parse_line line with
  | Ok (inst, year, qual) =>
      let entry :=
        {| institution := inst;
           year := match year with
                   | Some w => match int w with Ok n => Some n | Raise _ => None end
                   | None => None
                   end;
           qualification := qual |} in
      if any_values entry then [entry] else []
  | Raise _ => []
  end.

Definition candidate_lines (ord : list text -> list text) (t : text) : list text :=
  ord (_extract_all1 Pat.EDU_LINES t ++ _extract_all0 Pat.EDU_SECTION t).

(** ** A declarative reading of the matcher *)

Module Sem.

Import Re.

(** The test of a one-character expression, and of a zero-width one. *)
Definition char_pred (fl : flags) (r : regex) : option (ascii -> bool) :=
  match r with
  | Lit x => Some (lit_ok fl x)
  | Any => Some (fun c => negb (Ascii.eqb c Chars.newline))
  | Cls neg items => Some (cls_ok fl neg items)
  | Ws => Some Chars.is_space
  | Digit => Some Chars.is_digit
  | _ => None
  end.

Definition guard_pred (fl : flags) (r : regex) : option (mstate -> bool) :=
  match r with
  | Bol => Some (at_bol fl)
  | Eol => Some (at_eol fl)
  | WordB => Some at_wordb
  | _ => None
  end.

(** [Run fl r s s1]: some way of matching [r] leads from [s] to [s1].
    The relation forgets the priorities: it says which matches exist, the
    matcher says which one is taken. *)
Inductive Run (fl : flags) : regex -> mstate -> mstate -> Prop :=
| Run_eps : forall s, Run fl Eps s s
| Run_char : forall r p s c t,
    char_pred fl r = Some p -> rest s = c :: t -> p c = true ->
    Run fl r s (advance c t s)
| Run_guard : forall r g s,
    guard_pred fl r = Some g -> g s = true -> Run fl r s s
| Run_seq : forall r1 r2 s s1 s2,
    Run fl r1 s s1 -> Run fl r2 s1 s2 -> Run fl (Seq r1 r2) s s2
| Run_alt_l : forall r1 r2 s s1, Run fl r1 s s1 -> Run fl (Alt r1 r2) s s1
| Run_alt_r : forall r1 r2 s s1, Run fl r2 s s1 -> Run fl (Alt r1 r2) s s1
| Run_star_done : forall g r s, Run fl (Star g r) s s
| Run_star_more : forall g r s s1 s2,
    Run fl r s s1 -> length (rest s1) < length (rest s) ->
    Run fl (Star g r) s1 s2 -> Run fl (Star g r) s s2
| Run_group : forall n r s s1,
    Run fl r s s1 -> Run fl (Group n r) s (set_cap n (taken s s1) s1)
| Run_not_ahead : forall r s,
    run fl r s (fun s1 => Some s1) = None -> Run fl (NotAhead r) s s.

(** The character before the position reached after reading [w]. *)
Definition prev_after (p : option ascii) (w : text) : option ascii :=
  fold_left (fun _ c => Some c) w p.

(** Every match of [r] reads at least one character. *)
Fixpoint consuming (r : regex) : bool :=
  match r with
  | Lit _ | Any | Cls _ _ | Ws | Digit => true
  | Seq r1 r2 => consuming r1 || consuming r2
  | Alt r1 r2 => consuming r1 && consuming r2
  | Group _ r1 => consuming r1
  | _ => false
  end.

(** Group [n] takes part in every match of [r]. *)
Fixpoint sets_group (n : nat) (r : regex) : bool :=
  match r with
  | Group m r1 => Nat.eqb m n || sets_group n r1
  | Seq r1 r2 => sets_group n r1 || sets_group n r2
  | Alt r1 r2 => sets_group n r1 && sets_group n r2
  | _ => false
  end.

(** [t] begins with the literal [lab], as the matcher compares literals
    under [fl]. *)
Fixpoint starts_with (fl : flags) (lab t : text) : bool :=
  match lab, t with
  | [], _ => true
  | x :: lab', c :: t' => lit_ok fl x c && starts_with fl lab' t'
  | _ :: _, [] => false
  end.

(** The offset of the first occurrence of [lab] in [t]. *)
Fixpoint find (fl : flags) (lab t : text) : option nat :=
  if starts_with fl lab t then Some 0
  else match t with
       | [] => None
       | _ :: t' => option_map S (find fl lab t')
       end.

Definition is_hyphen (c : ascii) : bool := Ascii.eqb c "-".

(** [t] begins with one or more hyphens, white space if any, and the label
    [lab] in any case. *)
Definition bullet (lab t : text) : bool :=
  match t with
  | c :: t' =>
      is_hyphen c
      && starts_with IM lab (Py.lstrip Chars.is_space (Py.lstrip is_hyphen t'))
  | [] => false
  end.

Definition line_start (p : option ascii) : bool :=
  match p with
  | None => true
  | Some c => Ascii.eqb c Chars.newline
  end.

(** The offset of the first line start of [t] where such a bullet stands;
    [p] is the character before [t]. *)
Fixpoint find_bullet (lab : text) (p : option ascii) (t : text) : option nat :=
  if line_start p && bullet lab t then Some 0
  else match t with
       | [] => None
       | c :: t' => option_map S (find_bullet lab (Some c) t')
       end.

(** The shape of the three labelled-line patterns: [^-+\s*] then the
    label, then [tail]. *)
Definition labelled (lab : text) (tail : regex) : regex :=
  Seq Bol (Seq (plus true (Lit "-"))
               (Seq (Star true Ws) (Seq (lit_list lab) tail))).

(** No line of [t] begins with a hyphen; [p] is the character before
    [t]. *)
Fixpoint no_hyphen_start (p : option ascii) (t : text) : bool :=
  match t with
  | [] => true
  | c :: t' => negb (line_start p && is_hyphen c) && no_hyphen_start (Some c) t'
  end.

(** The texts of a list joined by commas. *)
Fixpoint join_commas (ps : list text) : text :=
  match ps with
  | [] => []
  | [p] => p
  | p :: ps' => p ++ ","%char :: join_commas ps'
  end.

(** The pieces [ps] of a text put back around the separators [seps]. *)
Fixpoint interleave (ps seps : list text) : text :=
  match ps, seps with
  | p :: ps', s :: seps' => p ++ s ++ interleave ps' seps'
  | p :: _, [] => p
  | [], _ => []
  end.

(** A state of the matcher, written in one piece. *)
Definition st (p : option ascii) (t : text) (cs : list (nat * text)) : mstate :=
  {| prev := p; rest := t; caps := cs |}.

(** A run of characters accepted by [f] cannot go on into [t]. *)
Definition stops (f : ascii -> bool) (t : text) : bool :=
  match t with
  | [] => true
  | c :: _ => negb (f c)
  end.

(** A letter of a label that no hyphen and no white space can stand for. *)
Definition plain (x : ascii) : Prop :=
  forall c, lit_ok IM x c = true -> is_hyphen c = false /\ Chars.is_space c = false.

(** [[0-9]] *)
Definition d09 : regex := Cls false [Pat.digit09].

Definition is_comma (c : ascii) : bool := Ascii.eqb c ",".

(** [t] is empty or begins with a newline: a line ends here. *)
Definition line_end (t : text) : bool :=
  match t with
  | [] => true
  | c :: _ => Ascii.eqb c Chars.newline
  end.

(** Some position of [t] begins a match of [r]. *)
Definition has_match (r : regex) (t : text) : Prop :=
  exists pre suf s1,
    t = pre ++ suf
    /\ Run IM r (start_state (prev_after None pre) suf) s1.

End Sem.

(** ** The JSON value of a profile

    [json.dumps(result)] writes the dictionary as an object with these
    members. *)

Module Json.

#[local] Unset Elimination Schemes.
Inductive json : Type :=
| JNull
| JNum (n : Z)
| JStr (s : text)
| JArr (items : list json)
| JObj (members : list (string * json)).
#[local] Set Elimination Schemes.

Definition of_text (o : option text) : json :=
  match o with Some s => JStr s | None => JNull end.

Definition of_int (o : option Z) : json :=
  match o with Some n => JNum n | None => JNull end.

Definition of_entry (e : education_entry) : json :=
  JObj [("institution", of_text (institution e));
        ("year", of_int (year e));
        ("qualification", of_text (qualification e))]%string.

Definition of_profile (p : profile) : json :=
  JObj [("degrees", JArr (map JStr (degrees p)));
        ("education", JArr (map of_entry (education p)));
        ("occupations", JArr (map JStr (occupations p)));
        ("time_in_space", of_text (time_in_space p));
        ("interests", JArr (map JStr (interests p)));
        ("nationality", of_text (nationality p));
        ("age", of_int (age p))]%string.

Fixpoint assoc (key : string) (ms : list (string * json)) : option json :=
  match ms with
  | [] => None
  | (k, v) :: ms' => if String.eqb k key then Some v else assoc key ms'
  end.

Definition member (key : string) (j : json) : option json :=
  match j with
  | JObj ms => assoc key ms
  | _ => None
  end.

Definition is_array (o : option json) : Prop :=
  exists items, o = Some (JArr items).

End Json.

(** ** Texts the statements below speak about *)

Definition graduated_text : text :=
  str "- He graduated from the Moscow Institute of Electronic Technology in 1989.".

Definition textual_birth : text := str "Born: January 12, 1966".

Definition born_line : text := str "Born: (1966-01-12) January 12, 1966".

Definition jan_12_1966 : Date.date :=
  {| Date.year := 1966; Date.month := 1; Date.day := 12 |}.

Definition qualified_text : text := str "- She qualified as a test cosmonaut.".

Definition post_graduate_text : text :=
  str "- He did post-graduate studies at the Korolev School, 2003.".

Definition year_zero_line : text := str "- post-graduate course, 0000".

Definition occupation_line : text :=
  str "- Occupation(s): Cosmonaut, Lieutenant Colonel, Russian Air Force".

Definition occupation_label_line : text :=
  str "Occupation(s): Cosmonaut, Lieutenant Colonel, Russian Air Force".

Definition three_occupations : list text :=
  [str "Cosmonaut"; str "Lieutenant Colonel"; str "Russian Air Force"].



(** Two different lines that give the same degree. *)
Definition twice_qualified : text :=
  str "- Revin qualified as an engineer.
-  Revin qualified as an engineer.".

(** Two lines that give two degrees and two education entries. *)
Definition two_qualifications : text :=
  str "- Revin qualified as an engineer.
- Revin qualified as a pilot.".

Definition empty_profile : profile :=
  {| degrees := []; education := []; occupations := []; time_in_space := None;
     interests := []; nationality := None; age := None |}.

(** Labels at the start of their lines, without a hyphen. *)
Definition plain_labels : text :=
  str "Occupation(s): Cosmonaut
Nationality: Russian
Time in space: 12 days".

(** The reverse of the insertion order, another order a set can have. *)
Definition last_seen_order (l : list text) : list text := rev (dedup_loop [] l).

Definition env1 : env :=
  {| today := today env0; set_order := last_seen_order |}.

(** ** Reference functions

    Plain functions on texts, against which the regex-driven code is
    compared. *)

Definition not_space (c : ascii) : bool := negb (Chars.is_space c).

(** A word: a text that is not empty and has no white space. *)
Definition is_word_text (w : text) : Prop := w <> [] /\ forallb not_space w = true.

(** [s.split()]: the maximal runs of characters that are not white space. *)
Definition cons_head (c : ascii) (ws : list text) : list text :=
  match ws with
  | w :: ws' => (c :: w) :: ws'
  | [] => [[c]]
  end.

Fixpoint words (t : text) : list text :=
  match t with
  | [] => []
  | c :: t' =>
      if Chars.is_space c then words t'
      else match t' with
           | [] => [[c]]
           | c' :: _ => if Chars.is_space c' then [c] :: words t'
                        else cons_head c (words t')
           end
  end.

(** [t] begins with white space. *)
Definition starts_space (t : text) : bool :=
  match t with
  | c :: _ => Chars.is_space c
  | [] => false
  end.

(** [" ".join(ws)] *)
Fixpoint unwords (ws : list text) : text :=
  match ws with
  | [] => []
  | [w] => w
  | w :: ws' => w ++ " "%char :: unwords ws'
  end.

(** Each run of white space replaced by one space; [in_run] tells that the
    character before was white space. *)
Fixpoint squeeze (in_run : bool) (t : text) : text :=
  match t with
  | [] => []
  | c :: t' =>
      if Chars.is_space c
      then if in_run then squeeze true t' else " "%char :: squeeze true t'
      else c :: squeeze false t'
  end.

(** White space occurs in [t] only as single spaces between two other
    characters; [first] tells that no character that is not white space came
    before. *)
Fixpoint spaced (first : bool) (t : text) : bool :=
  match t with
  | [] => true
  | c :: t' =>
      if Chars.is_space c
      then Ascii.eqb c " " && negb first
           && match t' with
              | [] => false
              | c' :: _ => negb (Chars.is_space c')
              end
           && spaced false t'
      else spaced false t'
  end.

Definition single_spaced (t : text) : bool := spaced true t.

(** What [re.sub(r, by, ...)] makes of the text [t] that stands at offset
    [off], after the character [p]. *)
Definition sub_from (fl : flags) (r : regex) (by_ : text) (fuel : nat)
    (p : option ascii) (t : text) (off : nat) : text :=
  match Re.pieces t off (Re.scan fl r fuel p t off) with
  | [] => []
  | x :: xs => x ++ flat_map (fun q => by_ ++ q) xs
  end.

(** [g] is a contiguous part of [t]. *)
Definition part_of (g t : text) : Prop := exists a b, t = a ++ g ++ b.

(** Every capture of [cs] is a part of [T]. *)
Definition caps_in (T : text) (cs : list (nat * text)) : Prop :=
  forall n g, Re.lookup n cs = Some g -> part_of g T.

(** ** Classes of characters *)

Definition is_letter (c : ascii) : bool := Chars.is_upper c || Chars.is_lower c.

(** What [[A-Za-z \-]] accepts under [re.I]. *)
Definition name_char (c : ascii) : bool :=
  is_letter c || Ascii.eqb c " " || Ascii.eqb c "-".

(** What [[A-Za-z0-9 .\-()']] accepts under [re.I]. *)
Definition inst_char (c : ascii) : bool :=
  is_letter c || Chars.is_digit c || in_chars (str " .-()'") c.

(** What [[^\n]] accepts. *)
Definition not_newline (c : ascii) : bool := negb (Ascii.eqb c Chars.newline).

(** No capturing group occurs in [r]. *)
Fixpoint group_free (r : regex) : bool :=
  match r with
  | Seq r1 r2 | Alt r1 r2 => group_free r1 && group_free r2
  | Star _ r1 | NotAhead r1 => group_free r1
  | Group _ _ => false
  | _ => true
  end.

Definition carriage_return : ascii := ascii_of_nat 13.

(** The lines of [t] end with a carriage return and a newline, the last one
    too; [p] is the character before [t]. *)
Fixpoint crlf_lines (p : option ascii) (t : text) : bool :=
  match t with
  | [] => match p with
          | None => true
          | Some c => Ascii.eqb c Chars.newline
          end
  | c :: t' =>
      (if Ascii.eqb c Chars.newline
       then match p with
            | Some b => Ascii.eqb b carriage_return
            | None => false
            end
       else true)
      && crlf_lines (Some c) t'
  end.

(** ** Bullet lines *)

(** [n + 1] hyphens. *)
Definition hyphens (n : nat) : text := repeat "-"%char (S n).

(** A bullet: hyphens, white space if any, a label, white space if any, and
    a value. *)
Definition bullet_line (n : nat) (ws1 lab ws2 v : text) : text :=
  hyphens n ++ ws1 ++ lab ++ ws2 ++ v.

(** The position after [pre] is not inside a word and not at the end of
    one. *)
Definition no_word_before (pre : text) : bool :=
  match Sem.prev_after None pre with
  | Some c => negb (Chars.is_word c)
  | None => true
  end.

(** ** Dates in order *)

(** [a] is the day [b] or a day before it. *)
Definition on_or_before (a b : Date.date) : Prop :=
  (Date.year a < Date.year b
   \/ (Date.year a = Date.year b
       /\ (Date.month a < Date.month b
           \/ (Date.month a = Date.month b /\ Date.day a <= Date.day b))))%Z.

(** The month and the day of [b], [k] years later. *)
Definition anniversary (b : Date.date) (k : Z) : Date.date :=
  {| Date.year := Date.year b + k; Date.month := Date.month b; Date.day := Date.day b |}.

(** ** Texts up to the case of their letters *)

(** The small letter of a capital A to Z, any other character itself. *)
Definition lower (c : ascii) : ascii :=
  if Chars.is_upper c then Chars.swapcase c else c.

Definition fold_case (t : text) : text := map lower t.

(** Two texts that differ by the case of letters A to Z only. *)
Definition same_but_case (a b : text) : Prop := fold_case a = fold_case b.

Definition fold_caps (cs : list (nat * text)) : list (nat * text) :=
  map (fun nw => (fst nw, fold_case (snd nw))) cs.

Definition fold_state (s : Re.mstate) : Re.mstate :=
  {| Re.prev := option_map lower (Re.prev s);
     Re.rest := fold_case (Re.rest s);
     Re.caps := fold_caps (Re.caps s) |}.

(** A test on characters that does not tell a capital from its small
    letter. *)
Definition case_blind (p : ascii -> bool) : Prop :=
  forall c, p (Chars.swapcase c) = p c.

(** Two continuations that agree up to case. *)
Definition same_cont (k k' : Re.cont) : Prop :=
  forall x x', fold_state x = fold_state x' ->
    option_map fold_state (k x) = option_map fold_state (k' x').

(** Two results of a search that agree up to case. *)
Definition same_match (a b : option Re.match_obj) : Prop :=
  match a, b with
  | Some m, Some m' =>
      Re.m_start m = Re.m_start m'
      /\ fold_case (Re.m_whole m) = fold_case (Re.m_whole m')
      /\ fold_caps (Re.m_caps m) = fold_caps (Re.m_caps m')
  | None, None => True
  | _, _ => False
  end.

(** What [[^.\n]] accepts. *)
Definition in_sentence (c : ascii) : bool :=
  negb (Ascii.eqb c ".") && negb (Ascii.eqb c Chars.newline).

(** ** Dates written out *)

(** The character of the digit [n]. *)
Definition digit_char (n : Z) : ascii := ascii_of_nat (48 + Z.to_nat n).

(** [f"{n:02d}"] and [f"{n:04d}"] *)
Definition two_digits (n : Z) : text :=
  [digit_char (n / 10); digit_char (n mod 10)].

Definition four_digits (n : Z) : text :=
  [digit_char (n / 1000); digit_char (n / 100 mod 10);
   digit_char (n / 10 mod 10); digit_char (n mod 10)].

(** [d.isoformat()] *)
Definition isoformat (d : Date.date) : text :=
  four_digits (Date.year d)
  ++ "-"%char :: two_digits (Date.month d)
  ++ "-"%char :: two_digits (Date.day d).

(** A date of birth as the profiles give it: the label, then the date
    between parentheses, with white space where the pattern takes some. *)
Definition born_iso (ws1 ws2 : text) (d : Date.date) (ws3 : text) : text :=
  str "Born:" ++ ws1 ++ "("%char :: ws2 ++ isoformat d ++ ws3 ++ [")"%char].

(** * The page scraper ([sc.py])

    The functions of the scraper that compute on texts and rows, and the
    retry loop and the reading of the search reply, with what the network
    answers given as an argument. *)

Module Sc.

(** ** Rows of the CSV file *)

(** A cell of a row, as the functions below look at it: a text, a number
    with its truth value and the text [str()] gives of it, the missing
    value [NaN], or [None]. *)
Inductive cell : Type :=
| CStr (s : text)
| CNum (nonzero : bool) (shown : text)
| CNaN
| CNone.

(** [row.get(key)]: a row maps column names to cells. *)
Definition row : Type := list (string * cell).

Fixpoint get (key : string) (r : row) : option cell :=
  match r with
  | [] => None
  | (k, v) :: r' => if String.eqb k key then Some v else get key r'
  end.

(** [str(v)] *)
Definition py_str (v : cell) : text :=
  match v with
  | CStr s => s
  | CNum _ shown => shown
  | CNaN => str "nan"
  | CNone => str "None"
  end.

(** [pd.notna(v)] *)
Definition notna (v : cell) : bool :=
  match v with
  | CNaN | CNone => false
  | _ => true
  end.

(** ** [sanitize_filename] *)

Definition double_quote : ascii := ascii_of_nat 34.

(** The characters of the class of the pattern: backslash, slash, star,
    question mark, colon, double quote, the angle brackets and the bar. *)
Definition forbidden_chars : text :=
  ["\"; "/"; "*"; "?"; ":"; double_quote; "<"; ">"; "|"]%char.

Definition FORBIDDEN : regex := Cls false (map CChar forbidden_chars).

(** [sanitize_filename]; the callers pass texts, of which [str(name)] is
    the text itself. *)
Definition sanitize_filename (name : text) : text :=
  Re.sub NOFLAGS FORBIDDEN [] name.

Definition forbidden (c : ascii) : bool := in_chars forbidden_chars c.

Definition allowed (c : ascii) : bool := negb (forbidden c).

(** ** [normalize_name] *)

(** [t.split(sep, 1)] for a text that holds [sep]: what stands before the
    first [sep], and what stands after it. *)
Fixpoint split_once (sep : ascii) (t : text) : text * text :=
  match t with
  | [] => ([], [])
  | c :: t' =>
      if Ascii.eqb c sep then ([], t')
      else let (a, b) := split_once sep t' in (c :: a, b)
  end.

(** [sep in t] *)
Definition contains (sep : ascii) (t : text) : bool :=
  existsb (Ascii.eqb sep) t.

Definition normalize_name (v : cell) : text :=
  match v with
  | CStr name0 =>
      let name := strip name0 in
      if contains "," name then
        let (last0, first0) := split_once "," name in
        let last := strip last0 in
        let first := strip first0 in
        if truthy first && truthy last
        then strip (first ++ " "%char :: last)
        else name
      else name
  | _ => []
  end.

(** ** [guess_id] *)

Definition id_candidates : list string :=
  ["Profile.ID"; "Profile.Id"; "ProfileId"; "ID"; "Id"; "id";
   "AstronautID"; "Astronaut.Id"; "PersonID"]%string.

(** The test of the loop of [guess_id] on one column. *)
Definition usable (c : string) (r : row) : option text :=
  match get c r with
  | Some v =>
      if notna v && truthy (strip (py_str v)) then Some (strip (py_str v))
      else None
  | None => None
  end.

(** The loop of [guess_id]: the first column that passes the test. *)
Fixpoint first_usable (cs : list string) (r : row) : option text :=
  match cs with
  | [] => None
  | c :: cs' =>
      match usable c r with
      | Some i => Some i
      | None => first_usable cs' r
      end
  end.

Definition guess_id (r : row) : text :=
  match first_usable id_candidates r with
  | Some i => i
  | None =>
      let nm :=
        normalize_name (match get "Profile.Name" r with
                        | Some v => v
                        | None => CStr []
                        end) in
      match sanitize_filename nm with
      | [] => str "unknown"
      | s => s
      end
  end.

(** ** [http_get] *)

Definition MAX_RETRIES : nat := 3.

(** What one request meets: a response with its status, one of the two
    errors that [http_get] catches ([aiohttp.ClientError],
    [asyncio.TimeoutError]), or another exception. *)
Inductive outcome : Type :=
| Answer (status : Z)
| NetError
| OtherError.

(** What the function does besides returning. *)
Inductive event : Type :=
| Request
| Release
| Sleep (attempt : nat).   (* for [BACKOFF_BASE ** attempt] seconds and a jitter *)

(** How a call ends. *)
Inductive ending (A : Type) : Type :=
| Returned (a : A)
| Propagated.
Arguments Returned {A} a.
Arguments Propagated {A}.

(** [resp.status in (429, 500, 502, 503, 504)] *)
Definition retried (status : Z) : bool :=
  ((status =? 429) || (status =? 500) || (status =? 502)
   || (status =? 503) || (status =? 504))%Z.

(** The network: the outcome of the [n]-th request made, the number of
    requests made so far, and the events so far. *)
Record net : Type := {
  server : nat -> outcome;
  made : nat;
  log : list event
}.

Definition record (es : list event) (w : net) : net :=
  {| server := server w; made := made w; log := log w ++ es |}.

(** [session.get(url, ...)] *)
Definition request (w : net) : outcome * net :=
  (server w (made w),
   {| server := server w; made := S (made w); log := log w ++ [Request] |}).

(** The loop [for attempt in range(1, MAX_RETRIES + 1)], on the attempts
    left. *)
Fixpoint http_get_loop (attempts : list nat) (w : net)
    : ending (option Z) * net :=
  match attempts with
  | [] => (Returned None, w)
  | attempt :: more =>
      let (o, w1) := request w in
      match o with
      | Answer status =>
          if retried status
          then http_get_loop more (record [Release; Sleep attempt] w1)
          else (Returned (Some status), w1)
      | NetError => http_get_loop more (record [Sleep attempt] w1)
      | OtherError => (Propagated, w1)
      end
  end.

(** [http_get]; the response returned is given by its status. *)
Definition http_get (w : net) : ending (option Z) * net :=
  http_get_loop (seq 1 MAX_RETRIES) w.

(** An outcome after which the loop goes on. *)
Definition failed (o : outcome) : bool :=
  match o with
  | Answer status => retried status
  | NetError => true
  | OtherError => false
  end.

(** The attempts after which the function slept, in order. *)
Definition sleeps (es : list event) : list nat :=
  flat_map (fun e => match e with Sleep n => [n] | _ => [] end) es.

(** The number of responses released. *)
Definition releases (es : list event) : nat :=
  length (filter (fun e => match e with Release => true | _ => false end) es).

(** ** [wiki_search_best_title] *)

(** A value read from JSON. *)
#[local] Unset Elimination Schemes.
Inductive value : Type :=
| VNull
| VBool (b : bool)
| VNum (n : Z)
| VStr (s : text)
| VList (items : list value)
| VDict (members : list (string * value)).
#[local] Set Elimination Schemes.

(** Truth value. *)
Definition value_truthy (v : value) : bool :=
  match v with
  | VNull => false
  | VBool b => b
  | VNum n => negb (n =? 0)%Z
  | VStr s => truthy s
  | VList items => match items with [] => false | _ => true end
  | VDict members => match members with [] => false | _ => true end
  end.

Fixpoint lookup_member (key : string) (ms : list (string * value)) : option value :=
  match ms with
  | [] => None
  | (k, v) :: ms' => if String.eqb k key then Some v else lookup_member key ms'
  end.

(** [d.get(key, default)]: only a dictionary has the method. *)
Definition dict_get (d : value) (key : string) (default : value) : ending value :=
  match d with
  | VDict ms =>
      Returned (match lookup_member key ms with Some v => v | None => default end)
  | _ => Propagated
  end.

(** [hits[0]] *)
Definition first_item (v : value) : ending value :=
  match v with
  | VList (x :: _) => Returned x
  | VStr (c :: _) => Returned (VStr [c])
  | _ => Propagated
  end.

(** [s.strip()]: only a text has the method. *)
Definition value_strip (v : value) : ending text :=
  match v with
  | VStr s => Returned (strip s)
  | _ => Propagated
  end.

Definition and_then {A B : Type} (c : ending A) (f : A -> ending B) : ending B :=
  match c with
  | Returned a => f a
  | Propagated => Propagated
  end.

(** What the search request meets: one of the two errors caught, another
    exception, or a response with its status and what [r.json()] makes of
    its body. *)
Inductive body : Type :=
| Parsed (data : value)
| ContentTypeError     (* an [aiohttp.ClientError]: caught *)
| DecodeError.         (* a [ValueError]: not caught *)

Inductive search_outcome : Type :=
| SearchAnswer (status : Z) (b : body)
| SearchNetError
| SearchOtherError.

Definition wiki_search_best_title (o : search_outcome) : ending (option text) :=
  match o with
  | SearchAnswer status b =>
      if (status =? 200)%Z then
        match b with
        | Parsed data =>
            and_then (dict_get data "query" (VDict [])) (fun q =>
            and_then (dict_get q "search" (VList [])) (fun hits =>
            if value_truthy hits then
              and_then (first_item hits) (fun hit =>
              and_then (dict_get hit "title" (VStr [])) (fun tv =>
              and_then (value_strip tv) (fun title =>
              Returned (if truthy title then Some title else None))))
            else Returned None))
        | ContentTypeError => Returned None
        | DecodeError => Propagated
        end
      else Returned None
  | SearchNetError => Returned None
  | SearchOtherError => Propagated
  end.

(** The reply of the search API with [title] as the title of its first
    hit, among other members. *)
Definition search_reply (title : text) (more_members : list (string * value))
    (more_hits : list value) (more_query more_data : list (string * value)) : value :=
  VDict (("query"%string,
          VDict (("search"%string,
                  VList (VDict (("title"%string, VStr title) :: more_members)
                         :: more_hits))
                 :: more_query))
         :: more_data).

(** ** [scrape_one] *)

(** [s.replace(a, b)] for two characters. *)
Definition replace_char (a b : ascii) (s : text) : text :=
  map (fun c => if Ascii.eqb c a then b else c) s.

(** Truth value of a cell; [NaN] is a number other than zero. *)
Definition cell_truthy (v : cell) : bool :=
  match v with
  | CStr s => truthy s
  | CNum nonzero _ => nonzero
  | CNaN => true
  | CNone => false
  end.

(** [row.get(key, default)] with the empty text as default. *)
Definition get_or_empty (key : string) (r : row) : cell :=
  match get key r with
  | Some v => v
  | None => CStr []
  end.

(** [a or b] *)
Definition or_else (a b : cell) : cell := if cell_truthy a then a else b.

(** The name of the second copy of the page:
    [sanitize_filename(f"{title_text}.html") or "page.html"]. *)
Definition titled_filename (title_text : text) : text :=
  match sanitize_filename (title_text ++ str ".html") with
  | [] => str "page.html"
  | s => s
  end.

(** What the function reads off a response with status 200: whether
    [is_disambiguation_page] holds of the parsed page, the text of its
    first heading if it has one, and [str(resp.url)]. *)
Record page : Type := {
  disambiguation : bool;
  heading : option text;
  address : text
}.

(** The member "status" of the metadata: "ok", "search_failed", or
    "http_" followed by the status of the response, or by "noresp" when
    there is none. *)
Inductive status_text : Type :=
| StatusOk
| StatusSearchFailed
| StatusHttp (resp : option Z).

(** The dictionary [meta].  An address requested is given by its title,
    [name.replace(" ", "_")], which the source quotes and appends to
    [WIKI_BASE]. *)
Record meta : Type := {
  raw_name : cell;
  normalized_name : text;
  attempted_titles : list text;
  requested_url : option text;
  final_url : option text;
  status : option status_text;
  notes : list text
}.

Definition add_title (t : text) (m : meta) : meta :=
  {| raw_name := raw_name m; normalized_name := normalized_name m;
     attempted_titles := attempted_titles m ++ [t];
     requested_url := requested_url m; final_url := final_url m;
     status := status m; notes := notes m |}.

Definition add_note (n : string) (m : meta) : meta :=
  {| raw_name := raw_name m; normalized_name := normalized_name m;
     attempted_titles := attempted_titles m;
     requested_url := requested_url m; final_url := final_url m;
     status := status m; notes := notes m ++ [str n] |}.

Definition set_requested_url (u : text) (m : meta) : meta :=
  {| raw_name := raw_name m; normalized_name := normalized_name m;
     attempted_titles := attempted_titles m;
     requested_url := Some u; final_url := final_url m;
     status := status m; notes := notes m |}.

Definition set_final_url (u : text) (m : meta) : meta :=
  {| raw_name := raw_name m; normalized_name := normalized_name m;
     attempted_titles := attempted_titles m;
     requested_url := requested_url m; final_url := Some u;
     status := status m; notes := notes m |}.

Definition set_status (s : status_text) (m : meta) : meta :=
  {| raw_name := raw_name m; normalized_name := normalized_name m;
     attempted_titles := attempted_titles m;
     requested_url := requested_url m; final_url := final_url m;
     status := Some s; notes := notes m |}.

(** What the function leaves on the disk; the files are named inside the
    folder of the person. *)
Inductive output : Type :=
| MakeDir (name : text)
| WriteMeta (m : meta)                    (* [meta.json] *)
| WriteIndex (p : page)                   (* [index.html] *)
| WriteTitled (name : text) (p : page).

(** The [return] by which the function ends: of the row without name, of
    the search without result, of the fallback page not retrieved, of the
    last test of the response, and the end of the function. *)
Inductive exit : Type :=
| Skipped
| NoSearchResult
| FallbackFailed
| NotRetrieved
| Saved.

(** [resp and resp.status == code] *)
Definition has_status (code : Z) (resp : option Z) : bool :=
  match resp with
  | Some s => (s =? code)%Z
  | None => false
  end.

(** From the last test of the response to the end of the function. *)
Definition save_page (norm_name : text) (resp : option Z) (soup : option page)
    (m : meta) (done : list output) (w : net) : ending exit * list output * net :=
  match soup with
  | Some pg =>
      if has_status 200 resp then
        let m1 := set_status StatusOk (set_final_url (address pg) m) in
        let title_text :=
          match heading pg with
          | Some h => h
          | None => norm_name
          end in
        let name := titled_filename title_text in
        (Returned Saved,
         done ++ [WriteIndex pg]
         ++ (if text_eqb name (str "index.html") then [] else [WriteTitled name pg])
         ++ [WriteMeta m1],
         w)
      else (Returned NotRetrieved,
            done ++ [WriteMeta (set_status (StatusHttp resp) m)], w)
  | None => (Returned NotRetrieved,
             done ++ [WriteMeta (set_status (StatusHttp resp) m)], w)
  end.

(** [scrape_one].  [content n] is the page that the response to the
    request number [n] carries, and [found] what the one search request
    meets.  The semaphore and the pause before the first request, which
    only delay, and the messages printed and logged are left out. *)
Definition scrape_one (r : row) (content : nat -> page) (found : search_outcome)
    (w : net) : ending exit * list output * net :=
  let raw := or_else (get_or_empty "Profile.Name" r)
               (or_else (get_or_empty "Name" r) (get_or_empty "FullName" r)) in
  let norm_name := normalize_name raw in
  let person_id := guess_id r in
  let m0 := {| raw_name := raw; normalized_name := norm_name;
               attempted_titles := []; requested_url := None;
               final_url := None; status := None; notes := [] |} in
  if negb (truthy (strip norm_name)) then (Returned Skipped, [], w)
  else
    let done := [MakeDir (sanitize_filename person_id)] in
    let m1 := add_title norm_name
                (set_requested_url (replace_char " " "_" norm_name) m0) in
    match http_get w with
    | (Propagated, w1) => (Propagated, done, w1)
    | (Returned resp, w1) =>
        let '(need_fallback, soup, m2) :=
          if has_status 200 resp then
            let pg := content (made w1 - 1) in
            if negb (disambiguation pg) then (false, Some pg, m1)
            else (true, Some pg,
                  add_note "Disambiguation detected; using search fallback." m1)
          else if has_status 404 resp then
            (true, None, add_note "Direct page 404; using search fallback." m1)
          else (true, None, m1) in
        if need_fallback then
          match wiki_search_best_title found with
          | Propagated => (Propagated, done, w1)
          | Returned best_title =>
              match best_title with
              | Some (c :: t) =>
                  let m3 := add_title (c :: t) m2 in
                  match http_get w1 with
                  | (Propagated, w2) => (Propagated, done, w2)
                  | (Returned resp2, w2) =>
                      if has_status 200 resp2 then
                        save_page norm_name resp2
                          (Some (content (made w2 - 1))) m3 done w2
                      else
                        (Returned FallbackFailed,
                         done ++ [WriteMeta (set_status (StatusHttp resp2) m3)],
                         w2)
                  end
              | _ =>
                  (Returned NoSearchResult,
                   done ++ [WriteMeta
                              (add_note "Wikipedia search returned no results."
                                 (set_status StatusSearchFailed m2))],
                   w1)
              end
          end
        else save_page norm_name resp soup m2 done w1
    end.

End Sc.

(** * The structured extraction ([linto.py]) *)

Module Linto.

Import Sc.

(** [strip_list_items], the validator that runs on the raw value of the
    three list fields.  Iterating a text gives its characters, iterating a
    dictionary its keys; a number and [True] cannot be iterated. *)
Definition items_of (v : value) : ending (list value) :=
  match v with
  | VList items => Returned items
  | VStr s => Returned (map (fun c => VStr [c]) s)
  | VDict members => Returned (map (fun kv => VStr (str (fst kv))) members)
  | _ => Propagated
  end.

Definition kept (item : value) : list text :=
  match item with
  | VStr s => if truthy (strip s) then [strip s] else []
  | _ => []
  end.

Definition strip_list_items (v : value) : ending (list text) :=
  if negb (value_truthy v) then Returned []
  else and_then (items_of v) (fun items => Returned (flat_map kept items)).

(** [guess_name_from_folder], from the name of the folder. *)
Definition guess_name_from_folder (folder_name : text) : text :=
  strip (replace_char "_" " " folder_name).

End Linto.

(** ** The phrases of a list, cut by hand

    What the specification says of the interests, written without regular
    expression: the text is cut at every comma and at every word "and" that
    stands alone. *)





(** ** Labels in any case *)

(** [w] is the label [lab], up to the case of its letters. *)
Definition written_as (lab w : text) : bool :=
  Nat.eqb (length w) (length lab) && Sem.starts_with IM lab w.

(** ** Numbers written out *)

(** [str(n)] for a number from 0 to 999. *)
Definition decimal (n : Z) : text :=
  if (n <? 10)%Z then [digit_char n]
  else if (n <? 100)%Z then two_digits n
  else [digit_char (n / 100); digit_char (n / 10 mod 10); digit_char (n mod 10)].

(** ** Labels at the start of a line *)

(** Some line of [t] begins with the label [lab], in any case, and so
    without a hyphen; [p] is the character before [t]. *)
Fixpoint label_starts_line (lab : text) (p : option ascii) (t : text) : bool :=
  (Sem.line_start p && Sem.starts_with IM lab t)
  || match t with
     | [] => false
     | c :: t' => label_starts_line lab (Some c) t'
     end.

(** ** Texts on which the fields are computed *)

(** Three labels, each at the start of a line without hyphen, below a line
    that holds a hyphen only. *)
Definition labels_below_hyphens : text :=
  str "-
Occupation(s): Cosmonaut
-
Nationality: Russian
-
Time in space: 12 days".

(** A bullet with the label and nothing after it on its line. *)
Definition empty_occupation_bullet : text :=
  str "- Occupation(s):
- Nationality: Russian".

(** Two annotations of an age, and no date of birth. *)
Definition two_annotations : text :=
  str "On the 1978 photo (age 12) and today (age 59).".





(** * Facts about the matcher *)

Module ReFacts.

Import Re Sem.

Lemma one_inv : forall p s k x,
  one p s k = Some x ->
  exists c t, rest s = c :: t /\ p c = true /\ k (advance c t s) = Some x.
Proof.
  unfold one. intros p s k x H.
  destruct (rest s) as [|c t]; [discriminate|].
  destruct (p c) eqn:E; [|discriminate].
  exists c, t. auto.
Qed.

Lemma guard_inv : forall b s k x,
  guard b s k = Some x -> b = true /\ k s = Some x.
Proof. unfold guard. intros [] s k x H; [auto|discriminate]. Qed.

(** The matcher only uses its continuation through its values. *)
Lemma star_loop_ext : forall body g,
  (forall s k1 k2, (forall s', k1 s' = k2 s') -> body s k1 = body s k2) ->
  forall n s k1 k2, (forall s', k1 s' = k2 s') ->
  star_loop body g k1 n s = star_loop body g k2 n s.
Proof.
  intros body g Hb. induction n as [|n IH]; intros s k1 k2 Hk; simpl.
  - apply Hk.
  - assert (Hm : body s (fun s1 => if length (rest s1) <? length (rest s)
                                    then star_loop body g k1 n s1 else None)
               = body s (fun s1 => if length (rest s1) <? length (rest s)
                                    then star_loop body g k2 n s1 else None)).
    { apply Hb. intros s'. destruct (_ <? _); [apply IH; assumption|reflexivity]. }
    rewrite Hm, (Hk s). reflexivity.
Qed.

Lemma run_ext : forall fl r s k1 k2,
  (forall s', k1 s' = k2 s') -> run fl r s k1 = run fl r s k2.
Proof.
  intros fl. induction r; intros s k1 k2 Hk; simpl;
    try (unfold one; destruct (rest s); [reflexivity|];
         match goal with |- (if ?b then _ else _) = _ => destruct b end;
         [apply Hk|reflexivity]);
    try (unfold guard;
         match goal with |- (if ?b then _ else _) = _ => destruct b end;
         [apply Hk|reflexivity]).
  - apply Hk.
  - apply IHr1. intros s'. apply IHr2. assumption.
  - rewrite (IHr1 s k1 k2 Hk), (IHr2 s k1 k2 Hk). reflexivity.
  - apply star_loop_ext; [|assumption]. intros; apply IHr; assumption.
  - apply IHr. intros s'. apply Hk.
  - rewrite (Hk s). reflexivity.
Qed.

Lemma star_loop_S : forall body g k n s0,
  star_loop body g k (S n) s0 =
  if g then
    match body s0 (fun s1 => if length (rest s1) <? length (rest s0)
                             then star_loop body g k n s1 else None) with
    | Some x => Some x
    | None => k s0
    end
  else
    match k s0 with
    | Some x => Some x
    | None => body s0 (fun s1 => if length (rest s1) <? length (rest s0)
                                 then star_loop body g k n s1 else None)
    end.
Proof. reflexivity. Qed.

(** A continuation that refuses everything makes the attempt fail. *)
Lemma star_loop_none : forall body g,
  (forall s, body s (fun _ => None) = None) ->
  (forall s k1 k2, (forall s', k1 s' = k2 s') -> body s k1 = body s k2) ->
  forall n s, star_loop body g (fun _ => None) n s = None.
Proof.
  intros body g Hb He. induction n as [|n IH]; intros s; simpl; [reflexivity|].
  rewrite (He s _ (fun _ => None)).
  - rewrite Hb. destruct g; reflexivity.
  - intros s'. destruct (_ <? _); [apply IH|reflexivity].
Qed.

Lemma run_none : forall fl r s, run fl r s (fun _ => None) = None.
Proof.
  intros fl. induction r; intros s; simpl;
    try (unfold one; destruct (rest s); [reflexivity|];
         match goal with |- (if ?b then _ else _) = _ => destruct b end;
         reflexivity);
    try (unfold guard;
         match goal with |- (if ?b then _ else _) = _ => destruct b end;
         reflexivity).
  - reflexivity.
  - rewrite (run_ext fl r1 s _ (fun _ => None)); [apply IHr1|apply IHr2].
  - rewrite IHr1. apply IHr2.
  - apply star_loop_none; [apply IHr|]. intros; apply run_ext; assumption.
  - apply IHr.
Qed.

Lemma run_refused : forall fl r s k,
  (forall s', k s' = None) -> run fl r s k = None.
Proof.
  intros fl r s k Hk.
  rewrite (run_ext fl r s k (fun _ => None)); [apply run_none|assumption].
Qed.

(** The counter of a repetition never runs out: any bound from the length
    of the remaining text on gives the same result. *)
Lemma star_loop_end : forall fl r g k n s,
  rest s = [] -> star_loop (run fl r) g k n s = k s.
Proof.
  intros fl r g k n s E. destruct n as [|n]; simpl; [reflexivity|].
  rewrite run_refused.
  - destruct g; [reflexivity|destruct (k s); reflexivity].
  - intros s'. rewrite E. reflexivity.
Qed.

Lemma star_loop_fuel : forall fl r g k n m s,
  length (rest s) <= n -> length (rest s) <= m ->
  star_loop (run fl r) g k n s = star_loop (run fl r) g k m s.
Proof.
  intros fl r g k. induction n as [|n IH]; intros m s Hn Hm.
  - assert (E : rest s = []) by (destruct (rest s); [reflexivity|simpl in Hn; lia]).
    rewrite !star_loop_end by assumption. reflexivity.
  - destruct m as [|m].
    + assert (E : rest s = []) by (destruct (rest s); [reflexivity|simpl in Hm; lia]).
      rewrite !star_loop_end by assumption. reflexivity.
    + simpl.
      rewrite (run_ext fl r s
                 (fun s1 => if length (rest s1) <? length (rest s)
                            then star_loop (run fl r) g k n s1 else None)
                 (fun s1 => if length (rest s1) <? length (rest s)
                            then star_loop (run fl r) g k m s1 else None)).
      * reflexivity.
      * intros s'. destruct (_ <? _) eqn:L; [|reflexivity].
        apply Nat.ltb_lt in L. apply IH; lia.
Qed.

(** *** The matcher finds only matches of the declarative reading *)

Lemma star_loop_sound : forall fl r g,
  (forall s k x, run fl r s k = Some x ->
                 exists s1, Run fl r s s1 /\ k s1 = Some x) ->
  forall n s k x, star_loop (run fl r) g k n s = Some x ->
                  exists s1, Run fl (Star g r) s s1 /\ k s1 = Some x.
Proof.
  intros fl r g Hr. induction n as [|n IH]; intros s k x H; simpl in H.
  - exists s. split; [constructor|assumption].
  - assert (Body : forall y,
             run fl r s (fun s1 => if length (rest s1) <? length (rest s)
                                   then star_loop (run fl r) g k n s1 else None) = Some y ->
             exists s1, Run fl (Star g r) s s1 /\ k s1 = Some y).
    { intros y Hy. apply Hr in Hy. destruct Hy as (s1 & R1 & K1).
      destruct (_ <? _) eqn:L in K1; [|discriminate].
      apply Nat.ltb_lt in L. apply IH in K1. destruct K1 as (s2 & R2 & K2).
      exists s2. split; [|assumption].
      eapply Run_star_more; eassumption. }
    destruct g.
    + destruct (run fl r s _) eqn:E.
      * inversion H; subst. apply Body. reflexivity.
      * exists s. split; [constructor|assumption].
    + destruct (k s) eqn:E.
      * inversion H; subst. exists s. split; [constructor|assumption].
      * apply Body. assumption.
Qed.

Ltac sound_char H :=
  apply one_inv in H; destruct H as (?c & ?t & ?E & ?P & ?K);
  eexists; split; [eapply Run_char; [reflexivity|eassumption|assumption]|assumption].

Ltac sound_guard H :=
  apply guard_inv in H; destruct H as (?G & ?K);
  eexists; split; [eapply Run_guard; [reflexivity|assumption]|assumption].

Theorem run_sound : forall fl r s k x,
  run fl r s k = Some x -> exists s1, Run fl r s s1 /\ k s1 = Some x.
Proof.
  intros fl.
  induction r as [| c | | neg items | | | | | | r1 IHr1 r2 IHr2
                  | r1 IHr1 r2 IHr2 | g r IHr | n r IHr | r IHr];
    intros s k x H; simpl in H.
  - exists s. split; [constructor|assumption].
  - sound_char H.
  - sound_char H.
  - sound_char H.
  - sound_char H.
  - sound_char H.
  - sound_guard H.
  - sound_guard H.
  - sound_guard H.
  - apply IHr1 in H. destruct H as (s1 & R1 & H).
    apply IHr2 in H. destruct H as (s2 & R2 & H).
    exists s2. split; [econstructor; eassumption|assumption].
  - destruct (run fl r1 s k) eqn:E.
    + inversion H; subst. apply IHr1 in E. destruct E as (s1 & R1 & K).
      exists s1. split; [apply Run_alt_l|]; assumption.
    + apply IHr2 in H. destruct H as (s1 & R1 & K).
      exists s1. split; [apply Run_alt_r|]; assumption.
  - eapply star_loop_sound; eassumption.
  - apply IHr in H. destruct H as (s1 & R1 & K).
    eexists. split; [apply Run_group; eassumption|assumption].
  - destruct (run fl r s _) eqn:E; [discriminate|].
    exists s. split; [apply Run_not_ahead|]; assumption.
Qed.

(** *** Every match of the declarative reading is found, or one before it *)

Theorem run_complete : forall fl r s s1,
  Run fl r s s1 -> forall k x, k s1 = Some x -> exists y, run fl r s k = Some y.
Proof.
  intros fl r s s1 R. induction R; intros k x K.
  - exists x. assumption.
  - destruct r; try discriminate; simpl in H; inversion H; subst;
      simpl; unfold one; rewrite H0, H1; eauto.
  - destruct r; try discriminate; simpl in H; inversion H; subst;
      simpl; unfold guard; rewrite H0; eauto.
  - simpl. destruct (IHR2 k x K) as (y & Hy). eapply IHR1. exact Hy.
  - simpl. destruct (IHR k x K) as (y & Hy). rewrite Hy. eauto.
  - simpl. destruct (run fl r1 s k); [eauto|]. eapply IHR; eassumption.
  - simpl. destruct (length (rest s)); simpl.
    + eauto.
    + destruct g.
      * destruct (run fl r s _); eauto.
      * rewrite K. eauto.
  - destruct (IHR2 k x K) as (y & Hy).
    change (run fl (Star g r) s1 k)
      with (star_loop (run fl r) g k (length (rest s1)) s1) in Hy.
    change (run fl (Star g r) s k)
      with (star_loop (run fl r) g k (length (rest s)) s).
    destruct (length (rest s)) as [|n] eqn:L; [lia|].
    rewrite star_loop_S, L.
    assert (B : exists z,
             run fl r s (fun s0 => if (length (rest s0) <? S n)
                                   then star_loop (run fl r) g k n s0 else None) = Some z).
    { eapply IHR1. assert (L1 : (length (rest s1) <? S n) = true) by (apply Nat.ltb_lt; lia).
      rewrite L1. rewrite (star_loop_fuel fl r g k n (length (rest s1))); [eassumption|lia|lia]. }
    destruct B as (z & Hz). rewrite Hz.
    destruct g; [eauto|]. destruct (k s); eauto.
  - simpl. eapply IHR. eassumption.
  - simpl. rewrite H. eauto.
Qed.

(** *** What a match consumes and captures *)

Lemma char_pred_run : forall fl r p s k,
  char_pred fl r = Some p -> run fl r s k = one p s k.
Proof. intros fl r p s k H. destruct r; inversion H; reflexivity. Qed.

Lemma Run_char_inv : forall fl r p s s1,
  char_pred fl r = Some p -> Run fl r s s1 ->
  exists c t, rest s = c :: t /\ p c = true /\ s1 = advance c t s.
Proof.
  intros fl r p s s1 H R.
  destruct r; inversion H; subst; inversion R; subst;
    try discriminate;
    match goal with
    | E : char_pred _ _ = Some _ |- _ => simpl in E; inversion E; subst
    end; eauto.
Qed.

Lemma Run_guard_inv : forall fl r g s s1,
  guard_pred fl r = Some g -> Run fl r s s1 -> s1 = s /\ g s = true.
Proof.
  intros fl r g s s1 H R.
  destruct r; inversion H; subst; inversion R; subst;
    try discriminate;
    match goal with
    | E : guard_pred _ _ = Some _ |- _ => simpl in E; inversion E; subst
    end; auto.
Qed.

(** A match consumes a prefix of the remaining text. *)
Lemma Run_rest : forall fl r s s1,
  Run fl r s s1 ->
  exists w, rest s = w ++ rest s1 /\ prev s1 = prev_after (prev s) w.
Proof.
  intros fl r s s1 R. induction R.
  - exists []. auto.
  - exists [c]. simpl. rewrite H0. auto.
  - exists []. auto.
  - destruct IHR1 as (w1 & E1 & P1). destruct IHR2 as (w2 & E2 & P2).
    exists (w1 ++ w2). rewrite E1, E2, P2, P1, app_assoc.
    unfold prev_after. rewrite fold_left_app. auto.
  - assumption.
  - assumption.
  - exists []. auto.
  - destruct IHR1 as (w1 & E1 & P1). destruct IHR2 as (w2 & E2 & P2).
    exists (w1 ++ w2). rewrite E1, E2, P2, P1, app_assoc.
    unfold prev_after. rewrite fold_left_app. auto.
  - destruct IHR as (w & E & P). exists w. auto.
  - exists []. auto.
Qed.

Lemma taken_app : forall s s1 w, rest s = w ++ rest s1 -> taken s s1 = w.
Proof.
  intros s s1 w E. unfold taken. rewrite E, length_app.
  replace (length w + length (rest s1) - length (rest s1)) with (length w) by lia.
  rewrite firstn_app, firstn_all, Nat.sub_diag. simpl. apply app_nil_r.
Qed.

Lemma Run_taken : forall fl r s s1,
  Run fl r s s1 -> rest s = taken s s1 ++ rest s1.
Proof.
  intros fl r s s1 R. destruct (Run_rest _ _ _ _ R) as (w & E & _).
  rewrite (taken_app _ _ _ E). assumption.
Qed.

(** A group that takes part in every match is set after a match. *)
Lemma Run_sets_group : forall fl n r s s1,
  Run fl r s s1 ->
  sets_group n r = true \/ lookup n (caps s) <> None ->
  lookup n (caps s1) <> None.
Proof.
  intros fl n r s s1 R. induction R; intros Hs; simpl in Hs.
  - destruct Hs; [discriminate|assumption].
  - destruct Hs as [Hs|Hs]; [destruct r; discriminate|assumption].
  - destruct Hs as [Hs|Hs]; [destruct r; discriminate|assumption].
  - apply IHR2. destruct Hs as [Hs|Hs].
    + apply orb_prop in Hs. destruct Hs as [Hs|Hs]; [right; apply IHR1|]; auto.
    + right. apply IHR1. auto.
  - apply IHR. destruct Hs as [Hs|Hs]; [|auto].
    apply andb_prop in Hs. tauto.
  - apply IHR. destruct Hs as [Hs|Hs]; [|auto].
    apply andb_prop in Hs. tauto.
  - destruct Hs; [discriminate|assumption].
  - apply IHR2. right. apply IHR1. destruct Hs; [discriminate|auto].
  - simpl. destruct (Nat.eqb n0 n) eqn:E; [discriminate|].
    apply IHR. simpl in Hs. destruct Hs; auto.
  - destruct Hs; [discriminate|assumption].
Qed.

(** A match never goes backwards, and a consuming expression moves on. *)
Lemma Run_length : forall fl r s s1,
  Run fl r s s1 -> length (rest s1) <= length (rest s).
Proof.
  intros fl r s s1 R. destruct (Run_rest _ _ _ _ R) as (w & E & _).
  rewrite E, length_app. lia.
Qed.

Lemma Run_consuming : forall fl r s s1,
  Run fl r s s1 -> consuming r = true -> length (rest s1) < length (rest s).
Proof.
  intros fl r s s1 R. induction R; intros C; simpl in C; try discriminate.
  - rewrite H0. simpl. lia.
  - destruct r; discriminate.
  - apply orb_prop in C. destruct C as [C|C].
    + specialize (IHR1 C). apply Run_length in R2. lia.
    + specialize (IHR2 C). apply Run_length in R1. lia.
  - apply andb_prop in C. destruct C as (C & _). auto.
  - apply andb_prop in C. destruct C as (_ & C). auto.
  - simpl. auto.
Qed.

(** The patterns given to [findall], [split] and [sub] match no empty
    text. *)
Lemma scanned_patterns_consume :
  consuming Pat.EDU_LINES = true /\ consuming Pat.EDU_SECTION = true
  /\ consuming Pat.CANDIDATE = true /\ consuming Pat.COMMA_AND = true
  /\ consuming Pat.SPACES = true.
Proof. repeat split; reflexivity. Qed.

End ReFacts.

(** * Facts about searching *)

Module SearchFacts.

Import Re Sem ReFacts.

Lemma match_at_None : forall fl r p t off,
  match_at fl r p t off = None <->
  run fl r (start_state p t) (fun s1 => Some s1) = None.
Proof.
  intros fl r p t off. unfold match_at.
  destruct (run fl r (start_state p t) _); split; intros H;
    try discriminate; reflexivity.
Qed.

Lemma match_at_Some : forall fl r p t off m,
  match_at fl r p t off = Some m ->
  run fl r (start_state p t) (fun s1 => Some s1) = Some (m_after m)
  /\ m_start m = off
  /\ m_caps m = caps (m_after m)
  /\ m_whole m = taken (start_state p t) (m_after m).
Proof.
  intros fl r p t off m. unfold match_at.
  destruct (run fl r (start_state p t) _); intros H; inversion H; subst.
  simpl. auto.
Qed.

(** A match found at a position is a match of the declarative reading. *)
Lemma match_at_Run : forall fl r p t off m,
  match_at fl r p t off = Some m ->
  Run fl r (start_state p t) (m_after m)
  /\ t = m_whole m ++ rest (m_after m)
  /\ m_caps m = caps (m_after m).
Proof.
  intros fl r p t off m H.
  apply match_at_Some in H. destruct H as (R & _ & C & W).
  apply run_sound in R. destruct R as (s1 & R & E). inversion E; subst s1.
  split; [assumption|]. split; [|assumption].
  rewrite W. apply (Run_taken _ _ _ _ R).
Qed.

Lemma prev_after_app : forall p a b,
  prev_after p (a ++ b) = prev_after (prev_after p a) b.
Proof. intros. unfold prev_after. apply fold_left_app. Qed.

(** The scan passes over the positions where no attempt succeeds. *)
Lemma search_from_skip : forall fl r pre p t off,
  (forall p1 c p2, pre = p1 ++ c :: p2 ->
     run fl r (start_state (prev_after p p1) (c :: p2 ++ t)) (fun s1 => Some s1) = None) ->
  search_from fl r p (pre ++ t) off
  = search_from fl r (prev_after p pre) t (off + length pre).
Proof.
  intros fl r. induction pre as [|c pre IH]; intros p t off H.
  - simpl. rewrite Nat.add_0_r. reflexivity.
  - simpl app. simpl search_from.
    assert (M : match_at fl r p (c :: pre ++ t) off = None).
    { apply match_at_None. apply (H [] c pre). reflexivity. }
    rewrite M. rewrite IH.
    + simpl. f_equal. lia.
    + intros p1 c' p2 E. apply (H (c :: p1) c' p2). rewrite E. reflexivity.
Qed.

(** What the leftmost match is. *)
Lemma search_from_Some : forall fl r t p off m,
  search_from fl r p t off = Some m ->
  exists pre suf,
    t = pre ++ suf
    /\ match_at fl r (prev_after p pre) suf (off + length pre) = Some m
    /\ forall p1 c p2, pre = p1 ++ c :: p2 ->
         run fl r (start_state (prev_after p p1) (c :: p2 ++ suf))
             (fun s1 => Some s1) = None.
Proof.
  intros fl r. induction t as [|c t IH]; intros p off m H; simpl in H.
  - destruct (match_at fl r p [] off) eqn:M; [|discriminate].
    inversion H; subst. exists [], []. simpl. rewrite Nat.add_0_r.
    repeat split; [assumption|]. intros [|? ?] ? ?; discriminate.
  - destruct (match_at fl r p (c :: t) off) eqn:M.
    + inversion H; subst. exists [], (c :: t). simpl. rewrite Nat.add_0_r.
      repeat split; [assumption|]. intros [|? ?] ? ?; discriminate.
    + apply IH in H. destruct H as (pre & suf & E & A & B).
      exists (c :: pre), suf. subst t. simpl.
      replace (off + S (length pre)) with (S off + length pre) by lia.
      repeat split; [assumption|].
      intros [|c1 p1] c' p2 E.
      * inversion E; subst. simpl. apply match_at_None in M. exact M.
      * inversion E; subst. simpl. apply B. reflexivity.
Qed.

Lemma search_from_None : forall fl r t p off,
  search_from fl r p t off = None ->
  forall pre suf, t = pre ++ suf ->
    run fl r (start_state (prev_after p pre) suf) (fun s1 => Some s1) = None.
Proof.
  intros fl r. induction t as [|c t IH]; intros p off H pre suf E; simpl in H.
  - destruct pre; [|discriminate]. simpl in E. subst suf.
    destruct (match_at fl r p [] off) eqn:M; [discriminate|].
    apply match_at_None in M. exact M.
  - destruct (match_at fl r p (c :: t) off) eqn:M; [discriminate|].
    destruct pre as [|c' pre].
    + simpl in E. subst suf. apply match_at_None in M. exact M.
    + inversion E; subst. simpl. eapply IH; [eassumption|reflexivity].
Qed.

Lemma search_from_found : forall fl r pre suf p off,
  run fl r (start_state (prev_after p pre) suf) (fun s1 => Some s1) <> None ->
  search_from fl r p (pre ++ suf) off <> None.
Proof.
  intros fl r pre suf p off H N. apply H.
  eapply search_from_None; [eassumption|reflexivity].
Qed.


(** *** [_extract_first] *)

Lemma extract_first_total : forall r t,
  sets_group 1 r = true -> exists o, _extract_first r t = Ok o.
Proof.
  intros r t G. unfold _extract_first, search.
  destruct (search_from IM r None t 0) as [m|] eqn:S; [|eauto].
  apply search_from_Some in S. destruct S as (pre & suf & _ & M & _).
  apply match_at_Run in M. destruct M as (R & _ & C).
  unfold group. rewrite C.
  destruct (lookup 1 (caps (m_after m))) eqn:L; [eauto|].
  exfalso. revert L. eapply Run_sets_group; [eassumption|auto].
Qed.

Lemma extract_first_None : forall r t,
  _extract_first r t = Ok None <-> search IM r t = None.
Proof.
  intros r t. unfold _extract_first.
  destruct (search IM r t) as [m|]; [|tauto].
  destruct (group 1 m); split; intros H; discriminate.
Qed.

End SearchFacts.

(** * Reading a match of a given pattern *)

Module Inv.

Import Re Sem ReFacts SearchFacts.

Lemma Run_eps_inv : forall fl s s1, Run fl Eps s s1 -> s1 = s.
Proof. intros fl s s1 R. inversion R; subst; auto; discriminate. Qed.

Lemma Run_seq_inv : forall fl a b s s2,
  Run fl (Seq a b) s s2 -> exists s1, Run fl a s s1 /\ Run fl b s1 s2.
Proof. intros fl a b s s2 R. inversion R; subst; eauto; discriminate. Qed.

Lemma Run_alt_inv : forall fl a b s s1,
  Run fl (Alt a b) s s1 -> Run fl a s s1 \/ Run fl b s s1.
Proof. intros fl a b s s1 R. inversion R; subst; auto; discriminate. Qed.

Lemma Run_group_inv : forall fl n r s s2,
  Run fl (Group n r) s s2 ->
  exists s1, Run fl r s s1 /\ s2 = set_cap n (taken s s1) s1.
Proof. intros fl n r s s2 R. inversion R; subst; eauto; discriminate. Qed.

Lemma Run_not_ahead_inv : forall fl r s s1,
  Run fl (NotAhead r) s s1 ->
  s1 = s /\ run fl r s (fun x => Some x) = None.
Proof. intros fl r s s1 R. inversion R; subst; auto; discriminate. Qed.

(** A repetition of a one-character expression reads a run of such
    characters and touches no capture. *)
Lemma Run_star_chars : forall fl g r p s s1,
  char_pred fl r = Some p -> Run fl (Star g r) s s1 ->
  exists w, rest s = w ++ rest s1 /\ forallb p w = true
            /\ caps s1 = caps s /\ prev s1 = prev_after (prev s) w.
Proof.
  intros fl g r p s s1 P R.
  remember (Star g r) as e eqn:E. revert E.
  induction R; intros E; try discriminate.
  - subst r0. destruct r; discriminate.
  - subst r0. discriminate.
  - exists []. auto.
  - inversion E; subst g0 r0. clear IHR1.
    destruct (IHR2 eq_refl) as (w & Ew & Fw & Cw & Pw).
    destruct (Run_char_inv _ _ _ _ _ P R1) as (c & t & Ec & Pc & Es).
    subst s1. simpl in *.
    exists (c :: w). simpl. rewrite Ec, Ew, Pc, Fw. auto.
Qed.

Lemma Run_rep_chars : forall fl r p,
  char_pred fl r = Some p ->
  forall n s s1, Run fl (rep (S n) r) s s1 ->
  exists w, length w = S n /\ forallb p w = true
            /\ rest s = w ++ rest s1 /\ caps s1 = caps s.
Proof.
  intros fl r p P. induction n as [|n IH]; intros s s1 R.
  - simpl in R. destruct (Run_char_inv _ _ _ _ _ P R) as (c & t & Ec & Pc & Es).
    subst s1. exists [c]. simpl. rewrite Pc, Ec. auto.
  - change (rep (S (S n)) r) with (Seq r (rep (S n) r)) in R.
    apply Run_seq_inv in R. destruct R as (s0 & R0 & R1).
    destruct (Run_char_inv _ _ _ _ _ P R0) as (c & t & Ec & Pc & Es).
    destruct (IH _ _ R1) as (w & Lw & Fw & Ew & Cw).
    subst s0. simpl in *. exists (c :: w). simpl.
    rewrite Lw, Pc, Fw, Ec, Ew. auto.
Qed.

(** A literal reads a text equal to it up to the case rule of [fl]. *)
Lemma Run_lit_list : forall fl cs s s1,
  Run fl (lit_list cs) s s1 ->
  exists w, rest s = w ++ rest s1 /\ length w = length cs
            /\ starts_with fl cs w = true /\ caps s1 = caps s
            /\ prev s1 = prev_after (prev s) w.
Proof.
  intros fl. induction cs as [|c cs IH]; intros s s1 R.
  - simpl in R. apply Run_eps_inv in R. subst. exists []. auto.
  - destruct cs as [|c' cs].
    + simpl in R.
      destruct (Run_char_inv fl (Lit c) (lit_ok fl c) _ _ eq_refl R) as (a & t & Ea & Pa & Es).
      subst s1. exists [a]. simpl. rewrite Ea, Pa. auto.
    + change (lit_list (c :: c' :: cs)) with (Seq (Lit c) (lit_list (c' :: cs))) in R.
      apply Run_seq_inv in R. destruct R as (s0 & R0 & R1).
      destruct (Run_char_inv fl (Lit c) (lit_ok fl c) _ _ eq_refl R0) as (a & t & Ea & Pa & Es).
      destruct (IH _ _ R1) as (w & Ew & Lw & Sw & Cw & Pw).
      subst s0. simpl in Ew, Cw, Pw. exists (a :: w).
      split; [rewrite Ea, Ew; reflexivity|].
      split; [simpl; rewrite Lw; reflexivity|].
      split; [|split; assumption].
      change (lit_ok fl c a && starts_with fl (c' :: cs) w = true).
      rewrite Pa, Sw. reflexivity.
Qed.

Lemma starts_with_app : forall fl cs w t,
  starts_with fl cs w = true -> starts_with fl cs (w ++ t) = true.
Proof.
  intros fl. induction cs as [|c cs IH]; intros w t H; simpl in *; [reflexivity|].
  destruct w as [|a w]; [discriminate|]. simpl.
  apply andb_prop in H. destruct H as (H1 & H2).
  rewrite H1. simpl. apply IH. assumption.
Qed.

(** *** What [_extract_first] returns comes from a match *)

Lemma extract_first_Some : forall r t w,
  _extract_first r t = Ok (Some w) ->
  exists pre suf s1 g,
    t = pre ++ suf
    /\ Run IM r (start_state (prev_after None pre) suf) s1
    /\ lookup 1 (caps s1) = Some g
    /\ w = strip g.
Proof.
  intros r t w. unfold _extract_first, search.
  destruct (search_from IM r None t 0) as [m|] eqn:S; [|discriminate].
  apply search_from_Some in S. destruct S as (pre & suf & E & M & _).
  apply match_at_Run in M. destruct M as (R & _ & C).
  unfold group. rewrite C.
  destruct (lookup 1 (caps (m_after m))) as [g|] eqn:L; [|discriminate].
  intros H. inversion H; subst w.
  exists pre, suf, (m_after m), g. auto.
Qed.

Lemma extract_first_match : forall r t,
  search IM r t <> None ->
  exists pre suf s1,
    t = pre ++ suf /\ Run IM r (start_state (prev_after None pre) suf) s1.
Proof.
  intros r t. unfold search.
  destruct (search_from IM r None t 0) as [m|] eqn:S; [|congruence].
  intros _. apply search_from_Some in S. destruct S as (pre & suf & E & M & _).
  apply match_at_Run in M. destruct M as (R & _ & C).
  exists pre, suf, (m_after m). auto.
Qed.

End Inv.

(** * The extractor never raises *)

Module Total.

Import Re Sem ReFacts SearchFacts Inv.

Lemma int_raises : forall w e, int w = Raise e -> e = ValueError.
Proof.
  intros w e. unfold int. destruct w; [intros H; inversion H; reflexivity|].
  destruct (forallb _ _); intros H; inversion H; reflexivity.
Qed.

Lemma int_digits : forall w,
  w <> [] -> forallb Chars.is_digit w = true -> exists n, int w = Ok n.
Proof.
  intros w N D. unfold int. destruct w; [contradiction|]. rewrite D. eauto.
Qed.

Lemma make_raises : forall y m d e, Date.make y m d = Raise e -> e = ValueError.
Proof.
  intros y m d e. unfold Date.make.
  destruct (Date.valid y m d); intros H; inversion H; reflexivity.
Qed.

Lemma field_raises : forall n m d e, Date.field n m d = Raise e -> e = ValueError.
Proof.
  intros n m d e. unfold Date.field.
  destruct (group n m); [apply int_raises|discriminate].
Qed.

Lemma bind_raises : forall (A B : Type) (c : res A) (f : A -> res B) e,
  bind c f = Raise e -> c = Raise e \/ exists a, c = Ok a /\ f a = Raise e.
Proof.
  intros A B [a|e'] f e H; simpl in H.
  - right. exists a. auto.
  - left. inversion H. reflexivity.
Qed.

Lemma strptime_raises : forall w f e,
  Date.strptime w f = Raise e -> e = ValueError.
Proof.
  intros w f e. unfold Date.strptime.
  destruct (match_at _ _ _ _ _) as [m|]; [|intros H; inversion H; reflexivity].
  destruct (negb _); [intros H; inversion H; reflexivity|].
  intros H.
  apply bind_raises in H. destruct H as [H|(y & _ & H)]; [eapply field_raises; eassumption|].
  apply bind_raises in H. destruct H as [H|(d & _ & H)]; [eapply field_raises; eassumption|].
  apply bind_raises in H. destruct H as [H|(mo & _ & H)]; [|eapply make_raises; eassumption].
  destruct (group Date.gB m) as [b|].
  - destruct (Date.index_of Date.month_names b 1); inversion H; reflexivity.
  - eapply field_raises; eassumption.
Qed.

Lemma try_total : forall (A : Type) (c o : res A),
  (forall e, c = Raise e -> e = ValueError) ->
  (exists a, o = Ok a) -> exists a, try_value_error c o = Ok a.
Proof.
  intros A c o H (a & Ho). destruct c as [x|e]; simpl; [eauto|].
  rewrite (H e eq_refl). eauto.
Qed.

Lemma parse_date_raises : forall w f e,
  (d <- Date.strptime w f ;; Ok (Some d)) = Raise e -> e = ValueError.
Proof.
  intros w f e. destruct (Date.strptime w f) eqn:S; simpl; [discriminate|].
  intros H. inversion H; subst. eapply strptime_raises; eassumption.
Qed.

Lemma attempt_total : forall pattern fmt t next,
  sets_group 1 pattern = true ->
  (exists b, next = Ok b) -> exists b, attempt pattern fmt t next = Ok b.
Proof.
  intros pattern fmt t next G N. unfold attempt.
  destruct (extract_first_total pattern t G) as (o & Ho). rewrite Ho. simpl.
  destruct o as [w|]; [|assumption]. destruct (truthy w); [|assumption].
  apply try_total; [apply parse_date_raises|assumption].
Qed.

Lemma birthdate_total : forall t, exists b, _parse_birthdate t = Ok b.
Proof.
  intros t. unfold _parse_birthdate.
  repeat (apply attempt_total; [reflexivity|]). eauto.
Qed.

Lemma age_total : forall today t birth,
  exists a, _parse_age today t birth = Ok a.
Proof.
  intros today t birth. unfold _parse_age.
  destruct (extract_first_total Pat.AGE t eq_refl) as (o & Ho). rewrite Ho. simpl.
  assert (F : exists a,
    match birth with
    | Some b => Ok (Some (Date.year today - Date.year b
                          - (if Date.md_before today b then 1 else 0))%Z)
    | None => Ok None
    end = Ok a) by (destruct birth; eauto).
  destruct o as [w|]; [|assumption]. destruct (truthy w); [|assumption].
  apply try_total; [|assumption].
  intros e. destruct (int w) eqn:I; simpl; [discriminate|].
  intros H. inversion H; subst. eapply int_raises; eassumption.
Qed.

(** *** The year handed to [int] is made of four digits *)

Lemma digit_not_space : forall c,
  Chars.is_digit c = true -> Chars.is_space c = false.
Proof.
  intros c. destruct c as [[] [] [] [] [] [] [] []];
    vm_compute; intros H; congruence.
Qed.

Lemma lstrip_keep : forall p w,
  match w with c :: _ => p c = false | [] => True end -> lstrip p w = w.
Proof. intros p [|c w] H; simpl; [reflexivity|]. rewrite H. reflexivity. Qed.

Lemma strip_by_keep : forall p w,
  forallb (fun c => negb (p c)) w = true -> strip_by p w = w.
Proof.
  intros p w H. unfold strip_by, rstrip.
  rewrite (lstrip_keep p w).
  - rewrite lstrip_keep; [apply rev_involutive|].
    destruct (rev w) as [|c l] eqn:E; [exact I|].
    rewrite forallb_forall in H.
    assert (In c w) by (apply in_rev; rewrite E; left; reflexivity).
    apply H in H0. destruct (p c); [discriminate|reflexivity].
  - destruct w as [|c l]; [exact I|]. simpl in H.
    destruct (p c); [discriminate|reflexivity].
Qed.

Lemma strip_digits : forall w,
  forallb Chars.is_digit w = true -> strip w = w.
Proof.
  intros w H. apply strip_by_keep.
  rewrite forallb_forall in *. intros c Hc.
  rewrite (digit_not_space c (H c Hc)). reflexivity.
Qed.

Lemma year_capture : forall line w,
  _extract_first Pat.YEAR line = Ok (Some w) ->
  length w = 4 /\ forallb Chars.is_digit w = true.
Proof.
  intros line w H.
  apply extract_first_Some in H.
  destruct H as (pre & suf & s1 & g & _ & R & L & W).
  cbv [Pat.YEAR seqs] in R.
  apply Run_seq_inv in R. destruct R as (sa & _ & R).
  apply Run_seq_inv in R. destruct R as (sb & _ & R).
  apply Run_seq_inv in R. destruct R as (sd & R & N).
  apply Run_not_ahead_inv in N. destruct N as (N & _). subst s1.
  apply Run_group_inv in R. destruct R as (sc & R & E). subst sd.
  simpl in L. inversion L; subst g. clear L.
  destruct (Run_rep_chars IM Digit Chars.is_digit eq_refl 3 _ _ R)
    as (d & Ld & Fd & Ed & _).
  rewrite (taken_app _ _ _ Ed) in W.
  rewrite (strip_digits _ Fd) in W. subst w. auto.
Qed.

Lemma year_int : forall line w,
  _extract_first Pat.YEAR line = Ok (Some w) ->
  truthy w = true /\ exists n, int w = Ok n.
Proof.
  intros line w H. destruct (year_capture _ _ H) as (L & F).
  destruct w; [discriminate|]. split; [reflexivity|].
  apply int_digits; [discriminate|assumption].
Qed.

(** *** The loop over the candidate lines *)

Lemma parse_line_total : forall line,
  exists inst year qual,
    parse_line line = Ok (inst, year, qual)
    /\ _extract_first Pat.YEAR line = Ok year
    /\ _extract_first Pat.QUAL line = Ok qual.
Proof.
  intros line. unfold parse_line.
  destruct (extract_first_total Pat.INST_FROM line eq_refl) as (i0 & H0).
  destruct (extract_first_total Pat.INST_AT line eq_refl) as (i1 & H1).
  destruct (extract_first_total Pat.YEAR line eq_refl) as (y & Hy).
  destruct (extract_first_total Pat.QUAL line eq_refl) as (q & Hq).
  rewrite H0. simpl. destruct (negb (truthy_opt i0)).
  - rewrite H1. simpl. rewrite Hy. simpl. rewrite Hq. simpl. eauto 7.
  - simpl. rewrite Hy. simpl. rewrite Hq. simpl. eauto 7.
Qed.

Lemma line_step_eq : forall line ds es,
  line_step line (ds, es)
  = Ok (ds ++ line_degrees line, es ++ line_education line).
Proof.
  intros line ds es. unfold line_step, line_degrees, line_education.
  destruct (parse_line_total line) as (inst & y & q & P & Hy & Hq).
  rewrite P. simpl bind.
  destruct y as [w|].
  - destruct (year_int _ _ Hy) as (T & n & I).
    simpl truthy_opt. rewrite T, I. simpl bind.
    destruct (any_values _); destruct q as [q|]; try destruct (truthy q);
      rewrite ?app_nil_r; reflexivity.
  - simpl truthy_opt. simpl bind.
    destruct (any_values _); destruct q as [q|]; try destruct (truthy q);
      rewrite ?app_nil_r; reflexivity.
Qed.

Lemma lines_loop_eq : forall lines ds es,
  lines_loop lines (ds, es)
  = Ok (ds ++ flat_map line_degrees lines, es ++ flat_map line_education lines).
Proof.
  induction lines as [|l lines IH]; intros ds es; cbn [lines_loop flat_map].
  - rewrite !app_nil_r. reflexivity.
  - rewrite line_step_eq. cbn [bind]. rewrite IH, <- !app_assoc. reflexivity.
Qed.

Lemma degrees_education_eq : forall ord t,
  _parse_degrees_and_education ord t
  = Ok (dedup_loop [] (map _norm (flat_map line_degrees (candidate_lines ord t)
                                  ++ _extract_all1 Pat.CANDIDATE t)),
        filter any_not_none (flat_map line_education (candidate_lines ord t))).
Proof.
  intros ord t. unfold _parse_degrees_and_education.
  rewrite lines_loop_eq. reflexivity.
Qed.

(** *** The public function *)

Lemma extract_first_eq : forall r t,
  sets_group 1 r = true -> _extract_first r t = Ok (first_of r t).
Proof.
  intros r t G. destruct (extract_first_total r t G) as (o & H).
  rewrite H. f_equal. unfold _extract_first, first_of in *.
  destruct (search IM r t) as [m|]; [|inversion H; reflexivity].
  destruct (group 1 m); inversion H; reflexivity.
Qed.

Lemma profile_eq : forall e t,
  exists birth a,
    _parse_birthdate t = Ok birth
    /\ _parse_age (today e) t birth = Ok a
    /\ parse_astronaut_profile e t
       = Ok {| degrees :=
                 dedup_loop []
                   (map _norm (flat_map line_degrees (candidate_lines (set_order e) t)
                               ++ _extract_all1 Pat.CANDIDATE t));
               education :=
                 filter any_not_none
                   (flat_map line_education (candidate_lines (set_order e) t));
               occupations := tokens (first_of Pat.OCCUPATION t);
               time_in_space := first_of Pat.TIME_IN_SPACE t;
               interests := phrases (first_of Pat.ENJOYS t);
               nationality := first_of Pat.NATIONALITY t;
               age := a |}.
Proof.
  intros e t.
  destruct (birthdate_total t) as (birth & B).
  destruct (age_total (today e) t birth) as (a & A).
  exists birth, a. split; [assumption|]. split; [assumption|].
  unfold parse_astronaut_profile.
  rewrite (extract_first_eq Pat.OCCUPATION t eq_refl).
  rewrite (extract_first_eq Pat.NATIONALITY t eq_refl).
  rewrite (extract_first_eq Pat.TIME_IN_SPACE t eq_refl).
  rewrite (extract_first_eq Pat.ENJOYS t eq_refl).
  cbn [bind]. rewrite degrees_education_eq. cbn [bind].
  rewrite B. cbn [bind]. rewrite A. reflexivity.
Qed.

End Total.

(** * Following the matcher on a text with an unknown context *)

Module Eval.

Import Re Sem ReFacts SearchFacts Inv.

Lemma star_nil : forall fl g r p cs k,
  run fl (Star g r) (st p [] cs) k = k (st p [] cs).
Proof. intros. reflexivity. Qed.

(** One step of a repetition of a one-character expression. *)
Lemma star_cons : forall fl g r f p c t cs k,
  char_pred fl r = Some f ->
  run fl (Star g r) (st p (c :: t) cs) k
  = if f c then
      if g then
        match run fl (Star g r) (st (Some c) t cs) k with
        | Some x => Some x
        | None => k (st p (c :: t) cs)
        end
      else
        match k (st p (c :: t) cs) with
        | Some x => Some x
        | None => run fl (Star g r) (st (Some c) t cs) k
        end
    else k (st p (c :: t) cs).
Proof.
  intros fl g r f p c t cs k F.
  change (run fl (Star g r) (st p (c :: t) cs) k)
    with (star_loop (run fl r) g k (S (length t)) (st p (c :: t) cs)).
  rewrite star_loop_S. rewrite (char_pred_run fl r f _ _ F).
  unfold one, advance, st. cbn [rest caps length].
  assert (L : (length t <? S (length t)) = true) by (apply Nat.ltb_lt; lia).
  destruct (f c).
  - rewrite L. reflexivity.
  - destruct g; [reflexivity|]. destruct (k _); reflexivity.
Qed.

(** A greedy repetition reads the whole run of characters when what
    follows in the pattern accepts there. *)
Lemma star_greedy_run : forall fl r f k x w p t cs,
  char_pred fl r = Some f ->
  forallb f w = true -> stops f t = true ->
  k (st (prev_after p w) t cs) = Some x ->
  run fl (Star true r) (st p (w ++ t) cs) k = Some x.
Proof.
  intros fl r f k x w p t cs F. revert p.
  induction w as [|c w IH]; intros p W S K.
  - simpl app. simpl in K. destruct t as [|c t].
    + rewrite star_nil. assumption.
    + rewrite (star_cons fl true r f _ _ _ _ _ F). simpl in S.
      destruct (f c); [discriminate|assumption].
  - simpl app. rewrite (star_cons fl true r f _ _ _ _ _ F).
    simpl in W. apply andb_prop in W. destruct W as (W1 & W2).
    rewrite W1. rewrite (IH (Some c) W2 S K). reflexivity.
Qed.

(** *** Rules to follow one attempt by hand

    Each rule reduces a goal [run fl r s k = Some x] (or [= None]) to the
    goal of what the matcher does next. *)

Lemma go_char : forall fl r f p c t cs k x,
  char_pred fl r = Some f -> f c = true ->
  k (st (Some c) t cs) = x ->
  run fl r (st p (c :: t) cs) k = x.
Proof.
  intros fl r f p c t cs k x F C K.
  rewrite (char_pred_run fl r f _ _ F). unfold one. simpl. rewrite C. exact K.
Qed.

Lemma no_char : forall fl r f p c t cs k,
  char_pred fl r = Some f -> f c = false ->
  run fl r (st p (c :: t) cs) k = None.
Proof.
  intros fl r f p c t cs k F C.
  rewrite (char_pred_run fl r f _ _ F). unfold one. simpl. rewrite C. reflexivity.
Qed.

Lemma go_guard : forall fl r g s k x,
  guard_pred fl r = Some g -> g s = true -> k s = x -> run fl r s k = x.
Proof.
  intros fl r g s k x G B K.
  destruct r; inversion G; subst g; simpl; unfold guard; rewrite B; exact K.
Qed.

Lemma go_seq : forall fl a b s k x,
  run fl a s (fun s1 => run fl b s1 k) = x -> run fl (Seq a b) s k = x.
Proof. intros. assumption. Qed.

Lemma go_group : forall fl n r s k x,
  run fl r s (fun s1 => k (set_cap n (taken s s1) s1)) = x ->
  run fl (Group n r) s k = x.
Proof. intros. assumption. Qed.

Lemma go_eps : forall fl s k x, k s = x -> run fl Eps s k = x.
Proof. intros. assumption. Qed.

Lemma go_alt_l : forall fl a b s k x,
  run fl a s k = Some x -> run fl (Alt a b) s k = Some x.
Proof. intros fl a b s k x H. simpl. rewrite H. reflexivity. Qed.

Lemma go_alt_r : forall fl a b s k x,
  run fl a s k = None -> run fl b s k = x -> run fl (Alt a b) s k = x.
Proof. intros fl a b s k x H K. simpl. rewrite H. exact K. Qed.

Lemma go_star_run : forall fl r f k x w p t cs,
  char_pred fl r = Some f ->
  forallb f w = true -> stops f t = true ->
  k (st (prev_after p w) t cs) = Some x ->
  run fl (Star true r) (st p (w ++ t) cs) k = Some x.
Proof. intros. eapply star_greedy_run; eassumption. Qed.

Lemma taken_st : forall p p' w t cs cs',
  taken (st p (w ++ t) cs) (st p' t cs') = w.
Proof. intros. apply taken_app. reflexivity. Qed.

Lemma search_from_here : forall fl r p t off s1,
  run fl r (start_state p t) (fun s => Some s) = Some s1 ->
  search_from fl r p t off
  = Some {| m_start := off;
            m_whole := taken (start_state p t) s1;
            m_caps := caps s1;
            m_after := s1 |}.
Proof.
  intros fl r p t off s1 H.
  assert (M : match_at fl r p t off
              = Some {| m_start := off; m_whole := taken (start_state p t) s1;
                        m_caps := caps s1; m_after := s1 |}).
  { unfold match_at. rewrite H. reflexivity. }
  destruct t; simpl; rewrite M; reflexivity.
Qed.

(** *** The first occurrence of a label *)

Lemma find_first : forall fl lab t n,
  find fl lab t = Some n ->
  forall a c b, t = a ++ c :: b -> length a < n ->
    starts_with fl lab (c :: b) = false.
Proof.
  intros fl lab. induction t as [|x t IH]; intros n H a c b E L; simpl in H.
  - destruct a; discriminate.
  - destruct (starts_with fl lab (x :: t)) eqn:S.
    + inversion H; subst. lia.
    + destruct (find fl lab t) as [m|] eqn:F; [|discriminate].
      simpl in H. inversion H; subst n.
      destruct a as [|y a].
      * simpl in E. inversion E; subst. assumption.
      * simpl in E. inversion E; subst. eapply IH; [reflexivity|reflexivity|].
        simpl in L. lia.
Qed.

Lemma find_none : forall fl lab t,
  find fl lab t = None ->
  forall a b, t = a ++ b -> starts_with fl lab b = false.
Proof.
  intros fl lab. induction t as [|x t IH]; intros H a b E; simpl in H.
  - destruct a; [|discriminate]. simpl in E. subst b.
    destruct (starts_with fl lab []); [discriminate|reflexivity].
  - destruct (starts_with fl lab (x :: t)) eqn:S; [discriminate|].
    destruct (find fl lab t) as [m|] eqn:F; [discriminate|].
    destruct a as [|y a].
    + simpl in E. subst b. assumption.
    + simpl in E. inversion E; subst. eapply IH; reflexivity.
Qed.

Lemma line_start_after : forall p a,
  line_start (prev_after p a) = true -> at_bol IM (st (prev_after p a) [] []) = true.
Proof. intros p a H. unfold at_bol. simpl. destruct (prev_after p a); assumption. Qed.

Lemma find_bullet_first : forall lab t p n,
  find_bullet lab p t = Some n ->
  forall a c b, t = a ++ c :: b -> length a < n ->
    line_start (prev_after p a) && bullet lab (c :: b) = false.
Proof.
  intros lab. induction t as [|x t IH]; intros p n H a c b E L; cbn [find_bullet] in H.
  - destruct a; discriminate.
  - destruct (line_start p && bullet lab (x :: t)) eqn:S.
    + inversion H; subst. lia.
    + destruct (find_bullet lab (Some x) t) as [m|] eqn:F; [|discriminate].
      simpl in H. inversion H; subst n.
      destruct a as [|y a].
      * simpl in E. inversion E; subst. assumption.
      * simpl in E. inversion E; subst. simpl prev_after.
        eapply IH; [eassumption|reflexivity|]. simpl in L. lia.
Qed.

Lemma find_bullet_none : forall lab t p,
  find_bullet lab p t = None ->
  forall a b, t = a ++ b ->
    line_start (prev_after p a) && bullet lab b = false.
Proof.
  intros lab. induction t as [|x t IH]; intros p H a b E; cbn [find_bullet] in H.
  - destruct a; [|discriminate]. simpl in E. subst b. simpl.
    apply andb_false_r.
  - destruct (line_start p && bullet lab (x :: t)) eqn:S; [discriminate|].
    destruct (find_bullet lab (Some x) t) as [m|] eqn:F; [discriminate|].
    destruct a as [|y a].
    + simpl in E. subst b. assumption.
    + simpl in E. inversion E; subst. simpl prev_after.
      eapply IH; [eassumption|reflexivity].
Qed.

End Eval.

(** * Where the patterns of the extractor can match *)

Module Where.

Import Re Sem ReFacts SearchFacts Inv Eval.

Ltac each_char c := destruct c as [[] [] [] [] [] [] [] []].

Lemma lit_hyphen : forall c, lit_ok IM "-" c = is_hyphen c.
Proof. intros c. each_char c; reflexivity. Qed.

Lemma space_not_hyphen : forall c, Chars.is_space c = true -> is_hyphen c = false.
Proof. intros c. each_char c; vm_compute; congruence. Qed.

Ltac plain_char :=
  let c := fresh "c" in
  intros c; each_char c; vm_compute; try discriminate; auto.

Lemma plain_O : plain "O".
Proof. plain_char. Qed.

Lemma plain_N : plain "N".
Proof. plain_char. Qed.

Lemma plain_T : plain "T".
Proof. plain_char. Qed.

Lemma lstrip_run : forall f a b,
  forallb f a = true -> stops f b = true -> lstrip f (a ++ b) = b.
Proof.
  intros f. induction a as [|c a IH]; intros b A B; simpl.
  - destruct b as [|c b]; [reflexivity|]. simpl in B. simpl.
    destruct (f c); [discriminate|reflexivity].
  - simpl in A. apply andb_prop in A. destruct A as (A1 & A2).
    rewrite A1. apply IH; assumption.
Qed.

Lemma forallb_eq : forall (f g : ascii -> bool) l,
  (forall c, f c = g c) -> forallb f l = forallb g l.
Proof.
  intros f g l H. induction l as [|c l IH]; simpl; [reflexivity|].
  rewrite H, IH. reflexivity.
Qed.

(** A labelled-line pattern matches only where a bullet with the label
    stands at the start of a line. *)
Lemma Run_labelled : forall x lab tail s s1,
  plain x ->
  Run IM (labelled (x :: lab) tail) s s1 ->
  line_start (prev s) = true /\ bullet (x :: lab) (rest s) = true.
Proof.
  intros x lab tail s s1 Px R. unfold labelled, plus in R.
  apply Run_seq_inv in R. destruct R as (s0 & B & R).
  destruct (Run_guard_inv IM Bol (at_bol IM) _ _ eq_refl B) as (E0 & B0). subst s0.
  apply Run_seq_inv in R. destruct R as (sa & H & R).
  apply Run_seq_inv in H. destruct H as (sh & H1 & H2).
  destruct (Run_char_inv IM (Lit "-") (lit_ok IM "-") _ _ eq_refl H1)
    as (c & t & Ec & Pc & Es). subst sh.
  destruct (Run_star_chars IM true (Lit "-") (lit_ok IM "-") _ _ eq_refl H2)
    as (hy & Eh & Fh & _ & _). simpl in Eh.
  apply Run_seq_inv in R. destruct R as (sb & W & R).
  destruct (Run_star_chars IM true Ws Chars.is_space _ _ eq_refl W)
    as (ws & Ew & Fw & _ & _).
  apply Run_seq_inv in R. destruct R as (sc & L & _).
  destruct (Run_lit_list IM _ _ _ L) as (w & El & _ & Sl & _ & _).
  split.
  - unfold at_bol in B0. unfold line_start. destruct (prev s); assumption.
  - rewrite Ec. unfold bullet. rewrite <- lit_hyphen, Pc, andb_true_l.
    rewrite Eh, Ew, El.
    assert (Hw : exists c' w', w = c' :: w' /\ is_hyphen c' = false
                               /\ Chars.is_space c' = false).
    { destruct w as [|c' w']; [discriminate|]. simpl in Sl.
      apply andb_prop in Sl. destruct Sl as (Sx & _).
      destruct (Px c' Sx). eauto. }
    destruct Hw as (c' & w' & Hw & Hh & Hs).
    rewrite lstrip_run.
    + rewrite lstrip_run; [apply starts_with_app; assumption|assumption|].
      subst w. simpl. rewrite Hs. reflexivity.
    + rewrite (forallb_eq is_hyphen (lit_ok IM "-")); [assumption|].
      intros; symmetry; apply lit_hyphen.
    + destruct ws as [|a ws].
      * subst w. simpl. rewrite Hh. reflexivity.
      * simpl. simpl in Fw. apply andb_prop in Fw. destruct Fw as (Fa & _).
        rewrite (space_not_hyphen a Fa). reflexivity.
Qed.

Lemma labelled_fails : forall x lab tail p t,
  plain x ->
  line_start p && bullet (x :: lab) t = false ->
  run IM (labelled (x :: lab) tail) (start_state p t) (fun s1 => Some s1) = None.
Proof.
  intros x lab tail p t Px H.
  destruct (run IM _ _ _) as [s1|] eqn:R; [|reflexivity].
  apply run_sound in R. destruct R as (s1' & R & _).
  apply (Run_labelled _ _ _ _ _ Px) in R. simpl in R. destruct R as (A & B).
  rewrite A, B in H. discriminate.
Qed.

(** A pattern that begins with a literal matches only where the literal
    stands; a [\b] before the literal changes nothing to that. *)
Lemma prefixed_fails : forall fl lab tail p t,
  starts_with fl lab t = false ->
  run fl (Seq (lit_list lab) tail) (start_state p t) (fun s1 => Some s1) = None.
Proof.
  intros fl lab tail p t H.
  destruct (run fl _ _ _) as [s1|] eqn:R; [|reflexivity].
  apply run_sound in R. destruct R as (s1' & R & _).
  apply Run_seq_inv in R. destruct R as (s0 & L & _).
  destruct (Run_lit_list fl _ _ _ L) as (w & El & _ & Sl & _ & _).
  simpl in El. rewrite El, (starts_with_app _ _ _ _ Sl) in H. discriminate.
Qed.

Lemma word_prefixed_fails : forall fl lab tail p t,
  starts_with fl lab t = false ->
  run fl (Seq WordB (Seq (lit_list lab) tail)) (start_state p t)
      (fun s1 => Some s1) = None.
Proof.
  intros fl lab tail p t H.
  destruct (run fl _ _ _) as [s1|] eqn:R; [|reflexivity].
  apply run_sound in R. destruct R as (s1' & R & _).
  apply Run_seq_inv in R. destruct R as (s0 & B & R).
  destruct (Run_guard_inv fl WordB at_wordb _ _ eq_refl B) as (E0 & _). subst s0.
  apply Run_seq_inv in R. destruct R as (s0 & L & _).
  destruct (Run_lit_list fl _ _ _ L) as (w & El & _ & Sl & _ & _).
  simpl in El. rewrite El, (starts_with_app _ _ _ _ Sl) in H. discriminate.
Qed.

(** *** Searching a text whose first candidate position is known *)

Lemma search_all_fail : forall fl r t p off,
  (forall a b, t = a ++ b ->
     run fl r (start_state (prev_after p a) b) (fun s1 => Some s1) = None) ->
  search_from fl r p t off = None.
Proof.
  intros fl r. induction t as [|c t IH]; intros p off H; simpl.
  - rewrite (proj2 (match_at_None fl r p [] off)); [reflexivity|].
    apply (H [] []). reflexivity.
  - rewrite (proj2 (match_at_None fl r p (c :: t) off));
      [|apply (H [] (c :: t)); reflexivity].
    apply IH. intros a b E. apply (H (c :: a) b). rewrite E. reflexivity.
Qed.

Lemma search_skip_to : forall fl r pre x,
  (forall p1 c p2, pre = p1 ++ c :: p2 ->
     run fl r (start_state (prev_after None p1) (c :: p2 ++ x))
         (fun s1 => Some s1) = None) ->
  search fl r (pre ++ x)
  = search_from fl r (prev_after None pre) x (length pre).
Proof.
  intros fl r pre x H. unfold search. rewrite search_from_skip; [reflexivity|assumption].
Qed.

Lemma search_labelled_first : forall x lab tail pre t,
  plain x ->
  find_bullet (x :: lab) None (pre ++ t) = Some (length pre) ->
  search IM (labelled (x :: lab) tail) (pre ++ t)
  = search_from IM (labelled (x :: lab) tail) (prev_after None pre) t (length pre).
Proof.
  intros x lab tail pre t Px F. apply search_skip_to.
  intros p1 c p2 E. apply labelled_fails; [assumption|].
  apply (find_bullet_first _ _ _ _ F p1 c (p2 ++ t)).
  - rewrite E, <- app_assoc. reflexivity.
  - rewrite E, length_app. simpl. lia.
Qed.

Lemma search_labelled_none : forall x lab tail t,
  plain x ->
  find_bullet (x :: lab) None t = None ->
  search IM (labelled (x :: lab) tail) t = None.
Proof.
  intros x lab tail t Px F. apply search_all_fail.
  intros a b E. apply labelled_fails; [assumption|].
  apply (find_bullet_none _ _ _ F a b E).
Qed.

Lemma search_prefixed_first : forall fl lab tail pre t,
  find fl lab (pre ++ t) = Some (length pre) ->
  search fl (Seq (lit_list lab) tail) (pre ++ t)
  = search_from fl (Seq (lit_list lab) tail) (prev_after None pre) t (length pre).
Proof.
  intros fl lab tail pre t F. apply search_skip_to.
  intros p1 c p2 E. apply prefixed_fails.
  apply (find_first _ _ _ _ F p1 c (p2 ++ t)).
  - rewrite E, <- app_assoc. reflexivity.
  - rewrite E, length_app. simpl. lia.
Qed.

Lemma search_word_prefixed_first : forall fl lab tail pre t,
  find fl lab (pre ++ t) = Some (length pre) ->
  search fl (Seq WordB (Seq (lit_list lab) tail)) (pre ++ t)
  = search_from fl (Seq WordB (Seq (lit_list lab) tail))
      (prev_after None pre) t (length pre).
Proof.
  intros fl lab tail pre t F. apply search_skip_to.
  intros p1 c p2 E. apply word_prefixed_fails.
  apply (find_first _ _ _ _ F p1 c (p2 ++ t)).
  - rewrite E, <- app_assoc. reflexivity.
  - rewrite E, length_app. simpl. lia.
Qed.

End Where.

(** Proves that an attempt fails at its first character. *)
Ltac fails :=
  cbv beta;
  lazymatch goal with
  | |- Re.run _ (Seq _ _) _ _ = None => apply Eval.go_seq; fails
  | |- Re.run _ (Group _ _) _ _ = None => apply Eval.go_group; fails
  | |- Re.run _ _ _ _ = None =>
      eapply Eval.no_char; [reflexivity | vm_compute; reflexivity]
  end.

(** Follows an attempt through literals, classes, groups and alternatives,
    up to the next repetition or zero-width test. *)
Ltac follow :=
  cbv beta;
  lazymatch goal with
  | |- Re.run _ (Seq _ _) _ _ = _ => apply Eval.go_seq; follow
  | |- Re.run _ (Group _ _) _ _ = _ => apply Eval.go_group; follow
  | |- Re.run _ Eps _ _ = _ => apply Eval.go_eps; follow
  | |- Re.run _ (Alt _ _) _ _ = Some _ =>
      first [ solve [apply Eval.go_alt_l; follow]
            | apply Eval.go_alt_r; [fails | follow] ]
  | |- Re.run _ (Star _ _) _ _ = _ => idtac
  | |- Re.run _ Bol _ _ = _ => idtac
  | |- Re.run _ Eol _ _ = _ => idtac
  | |- Re.run _ WordB _ _ = _ => idtac
  | |- Re.run _ (NotAhead _) _ _ = _ => idtac
  | |- Re.run _ _ _ _ = _ =>
      eapply Eval.go_char; [reflexivity | vm_compute; reflexivity | follow]
  | |- Some _ = Some _ => reflexivity
  | |- _ => idtac
  end.

(** A greedy repetition that reads [w] and leaves [t]. *)
Ltac star w t :=
  eapply (Eval.go_star_run _ _ _ _ _ w _ t);
  [reflexivity | vm_compute; reflexivity | try (vm_compute; reflexivity) | follow].

(** A zero-width test that holds by [H]. *)
Ltac test H :=
  eapply Eval.go_guard; [reflexivity | exact H | follow].

(** * Sets and the removal of duplicates *)

Module Order.

Lemma dedup_In : forall l seen x,
  In x (dedup_loop seen l) <-> In x l /\ ~ In x seen.
Proof.
  induction l as [|d l IH]; intros seen x; simpl.
  - tauto.
  - destruct (in_dec text_eq_dec d seen) as [I|N].
    + rewrite IH. split.
      * intros (A & B). auto.
      * intros ([A|A] & B); [subst; contradiction|auto].
    + simpl. rewrite IH. simpl. split.
      * intros [A|(A & B)]; [subst; auto|]. split; [auto|]. intros C. apply B. auto.
      * intros ([A|A] & B); [auto|].
        destruct (text_eq_dec d x) as [E|E]; [auto|].
        right. split; [assumption|]. intros [C|C]; contradiction.
Qed.

Lemma dedup_NoDup : forall l seen, NoDup (dedup_loop seen l).
Proof.
  induction l as [|d l IH]; intros seen; simpl.
  - constructor.
  - destruct (in_dec text_eq_dec d seen) as [I|N]; [apply IH|].
    constructor; [|apply IH].
    rewrite dedup_In. intros (_ & B). apply B. left. reflexivity.
Qed.

Lemma first_seen_order_ok : set_order_ok first_seen_order.
Proof.
  intros l. unfold first_seen_order. split; [apply dedup_NoDup|].
  intros x. rewrite dedup_In. simpl. tauto.
Qed.

Lemma order_single : forall ord x, set_order_ok ord -> ord [x] = [x].
Proof.
  intros ord x H. destruct (H [x]) as (N & I).
  destruct (ord [x]) as [|a [|b l]].
  - exfalso. apply (I x). left. reflexivity.
  - f_equal. destruct (proj1 (I a) (or_introl eq_refl)) as [E|[]]. auto.
  - exfalso.
    destruct (proj1 (I a) (or_introl eq_refl)) as [E|[]].
    destruct (proj1 (I b) (or_intror (or_introl eq_refl))) as [E'|[]].
    subst. inversion N; subst. apply H2. left. reflexivity.
Qed.

Lemma order_nil : forall ord, set_order_ok ord -> ord [] = [].
Proof.
  intros ord H. destruct (H []) as (_ & I).
  destruct (ord []) as [|a l]; [reflexivity|].
  exfalso. apply (I a). left. reflexivity.
Qed.

Lemma order_perm : forall ord1 ord2 l,
  set_order_ok ord1 -> set_order_ok ord2 -> Permutation (ord1 l) (ord2 l).
Proof.
  intros ord1 ord2 l H1 H2.
  destruct (H1 l) as (N1 & I1). destruct (H2 l) as (N2 & I2).
  apply NoDup_Permutation; [assumption|assumption|].
  intros x. rewrite I1, I2. tauto.
Qed.

(** Removing duplicates from two arrangements of the same elements gives
    two arrangements of the same elements. *)
Lemma dedup_perm : forall l1 l2,
  Permutation l1 l2 -> Permutation (dedup_loop [] l1) (dedup_loop [] l2).
Proof.
  intros l1 l2 P. apply NoDup_Permutation; try apply dedup_NoDup.
  intros x. rewrite !dedup_In. split; intros (A & B); split; auto.
  - eapply Permutation_in; eassumption.
  - eapply Permutation_in; [apply Permutation_sym|]; eassumption.
Qed.

(** The list without duplicates grows at its end, and only by an element
    not seen before: the order is that of the first occurrences. *)
Lemma dedup_snoc_gen : forall l seen x,
  dedup_loop seen (l ++ [x])
  = if in_dec text_eq_dec x (seen ++ l) then dedup_loop seen l
    else dedup_loop seen l ++ [x].
Proof.
  induction l as [|d l IH]; intros seen x; simpl.
  - rewrite app_nil_r. destruct (in_dec text_eq_dec x seen); reflexivity.
  - destruct (in_dec text_eq_dec d seen) as [I|N].
    + rewrite IH.
      destruct (in_dec text_eq_dec x (seen ++ l)) as [A|A];
        destruct (in_dec text_eq_dec x (seen ++ d :: l)) as [B|B];
        try reflexivity; exfalso.
      * apply B. apply in_app_or in A. apply in_or_app. simpl. tauto.
      * apply A. apply in_app_or in B. apply in_or_app.
        destruct B as [B|[B|B]]; [auto|subst; auto|auto].
    + rewrite IH.
      destruct (in_dec text_eq_dec x ((d :: seen) ++ l)) as [A|A];
        destruct (in_dec text_eq_dec x (seen ++ d :: l)) as [B|B];
        try reflexivity; exfalso.
      * apply B. simpl in A. apply in_or_app. simpl.
        destruct A as [A|A]; [auto|]. apply in_app_or in A. tauto.
      * apply A. simpl. apply in_app_or in B.
        destruct B as [B|[B|B]]; [right; apply in_or_app; auto|auto|
                                  right; apply in_or_app; auto].
Qed.

Lemma dedup_snoc : forall l x,
  dedup_loop [] (l ++ [x])
  = if in_dec text_eq_dec x l then dedup_loop [] l else dedup_loop [] l ++ [x].
Proof. intros l x. apply (dedup_snoc_gen l [] x). Qed.

Lemma last_seen_order_ok : set_order_ok last_seen_order.
Proof.
  intros l. unfold last_seen_order. split.
  - apply NoDup_rev. apply dedup_NoDup.
  - intros x. rewrite <- in_rev, dedup_In. simpl. tauto.
Qed.

Lemma filter_perm : forall (A : Type) (f : A -> bool) l1 l2,
  Permutation l1 l2 -> Permutation (filter f l1) (filter f l2).
Proof.
  intros A f l1 l2 P. induction P; simpl.
  - constructor.
  - destruct (f x); [constructor|]; assumption.
  - destruct (f x); destruct (f y); try reflexivity. constructor.
  - eapply Permutation_trans; eassumption.
Qed.

(** The two lists the loop builds, under two orders of the candidate
    lines. *)
Lemma degrees_perm : forall ord1 ord2 t,
  set_order_ok ord1 -> set_order_ok ord2 ->
  Permutation
    (dedup_loop [] (map _norm (flat_map line_degrees (candidate_lines ord1 t)
                               ++ _extract_all1 Pat.CANDIDATE t)))
    (dedup_loop [] (map _norm (flat_map line_degrees (candidate_lines ord2 t)
                               ++ _extract_all1 Pat.CANDIDATE t))).
Proof.
  intros ord1 ord2 t H1 H2. apply dedup_perm. apply Permutation_map.
  apply Permutation_app_tail. apply Permutation_flat_map.
  unfold candidate_lines. apply order_perm; assumption.
Qed.

Lemma education_perm : forall ord1 ord2 t,
  set_order_ok ord1 -> set_order_ok ord2 ->
  Permutation
    (filter any_not_none (flat_map line_education (candidate_lines ord1 t)))
    (filter any_not_none (flat_map line_education (candidate_lines ord2 t))).
Proof.
  intros ord1 ord2 t H1 H2. apply filter_perm. apply Permutation_flat_map.
  unfold candidate_lines. apply order_perm; assumption.
Qed.

End Order.

Import Re Sem ReFacts SearchFacts Inv Eval Where Total Order.

(** * The labelled lines *)

Module Labelled.

Lemma first_of_None : forall r t,
  sets_group 1 r = true -> (first_of r t = None <-> search IM r t = None).
Proof.
  intros r t G. generalize (extract_first_eq r t G). unfold _extract_first, first_of.
  destruct (search IM r t) as [m|]; [|tauto].
  destruct (group 1 m); simpl; intros H; split; intros E; discriminate.
Qed.

Lemma first_of_at : forall r t p x off s1,
  search IM r t = search_from IM r p x off ->
  run IM r (start_state p x) (fun s => Some s) = Some s1 ->
  first_of r t = option_map strip (lookup 1 (caps s1)).
Proof.
  intros r t p x off s1 S R. unfold first_of.
  rewrite S, (search_from_here _ _ _ _ off _ R). reflexivity.
Qed.

Lemma at_bol_start : forall s, line_start (prev s) = true -> at_bol IM s = true.
Proof. intros s H. unfold at_bol. destruct (prev s); assumption. Qed.

Lemma at_eol_end : forall s, line_end (rest s) = true -> at_eol IM s = true.
Proof. intros s H. unfold at_eol. destruct (rest s) as [|c [|c' t]]; auto. Qed.

Lemma find_bullet_zero : forall lab p t,
  find_bullet lab p t = Some 0 -> line_start p = true.
Proof.
  intros lab p t H. destruct t as [|c t]; cbn [find_bullet] in H.
  - destruct (line_start p); [reflexivity|discriminate].
  - destruct (line_start p); [reflexivity|]. simpl in H.
    destruct (find_bullet lab (Some c) t); discriminate.
Qed.

Lemma bullet_line_start : forall lab t pre,
  find_bullet lab None (pre ++ t) = Some (length pre) ->
  line_start (prev_after None pre) = true.
Proof.
  intros lab t pre. generalize (@None ascii) as p.
  induction pre as [|c pre IH]; intros p H.
  - simpl. eapply find_bullet_zero. exact H.
  - simpl prev_after. apply IH. simpl length in H.
    cbn [find_bullet app] in H.
    destruct (line_start p && bullet lab (c :: pre ++ t)); [discriminate|].
    destruct (find_bullet lab (Some c) (pre ++ t)); [|discriminate].
    simpl in H. inversion H. reflexivity.
Qed.

Lemma occupation_shape :
  Pat.OCCUPATION
  = labelled (str "Occupation(s):")
      (Re.seqs [Star true Ws; Group 1 (plus true (Cls true [CChar Chars.newline])); Eol]).
Proof. reflexivity. Qed.

Lemma nationality_shape :
  Pat.NATIONALITY
  = labelled (str "Nationality:")
      (Re.seqs [Star true Ws;
                Group 1 (plus true (Cls false (Pat.letters ++ [CChar " "; CChar "-"])));
                Eol]).
Proof. reflexivity. Qed.

Lemma time_in_space_shape :
  Pat.TIME_IN_SPACE
  = labelled (str "Time in space:")
      (Re.seqs [Star true Ws; Group 1 (plus true (Cls true [CChar Chars.newline])); Eol]).
Proof. reflexivity. Qed.

Lemma occupation_none : forall t,
  find_bullet (str "Occupation(s):") None t = None -> first_of Pat.OCCUPATION t = None.
Proof.
  intros t H. apply first_of_None; [reflexivity|]. rewrite occupation_shape.
  apply (search_labelled_none "O" (str "ccupation(s):") _ t plain_O H).
Qed.

Lemma nationality_none : forall t,
  find_bullet (str "Nationality:") None t = None -> first_of Pat.NATIONALITY t = None.
Proof.
  intros t H. apply first_of_None; [reflexivity|]. rewrite nationality_shape.
  apply (search_labelled_none "N" (str "ationality:") _ t plain_N H).
Qed.

Lemma time_in_space_none : forall t,
  find_bullet (str "Time in space:") None t = None -> first_of Pat.TIME_IN_SPACE t = None.
Proof.
  intros t H. apply first_of_None; [reflexivity|]. rewrite time_in_space_shape.
  apply (search_labelled_none "T" (str "ime in space:") _ t plain_T H).
Qed.

(** Without a hyphen at the start of a line there is no bullet. *)
Lemma no_hyphen_no_bullet : forall lab t p,
  no_hyphen_start p t = true -> find_bullet lab p t = None.
Proof.
  intros lab. induction t as [|c t IH]; intros p H; cbn [find_bullet].
  - rewrite andb_false_r. reflexivity.
  - simpl in H. apply andb_prop in H. destruct H as (H1 & H2).
    rewrite (IH _ H2). simpl.
    destruct (line_start p); [|reflexivity]. simpl in *.
    destruct (is_hyphen c); [discriminate|reflexivity].
Qed.

(** The first bullet of the text is the line of the claim. *)
Lemma occupation_first : forall pre post,
  find_bullet (str "Occupation(s):") None (pre ++ occupation_line ++ post)
    = Some (length pre) ->
  line_end post = true ->
  first_of Pat.OCCUPATION (pre ++ occupation_line ++ post)
  = Some (str "Cosmonaut, Lieutenant Colonel, Russian Air Force").
Proof.
  intros pre post F E.
  assert (S := search_labelled_first "O" (str "ccupation(s):")
                 (Re.seqs [Star true Ws;
                           Group 1 (plus true (Cls true [CChar Chars.newline])); Eol])
                 pre (occupation_line ++ post) plain_O F).
  assert (B := bullet_line_start _ _ _ F).
  set (p := prev_after None pre) in *.
  rewrite (first_of_at _ _ p (occupation_line ++ post) (length pre)
             (st (Some "e"%char) post
                 [(1, str "Cosmonaut, Lieutenant Colonel, Russian Air Force")])).
  - reflexivity.
  - exact S.
  - let r := eval cbv in Pat.OCCUPATION in change Pat.OCCUPATION with r.
    unfold start_state. fold (st p (occupation_line ++ post) []).
    follow. test (at_bol_start (st p (occupation_line ++ post) []) B).
    star (@nil ascii)
         (str " Occupation(s): Cosmonaut, Lieutenant Colonel, Russian Air Force" ++ post).
    star (str " ")
         (str "Occupation(s): Cosmonaut, Lieutenant Colonel, Russian Air Force" ++ post).
    star (str " ") (str "Cosmonaut, Lieutenant Colonel, Russian Air Force" ++ post).
    star (str "osmonaut, Lieutenant Colonel, Russian Air Force") post.
    + destruct post as [|c post]; [reflexivity|]. simpl in E.
      apply Ascii.eqb_eq in E. subst c. reflexivity.
    + eapply go_guard; [reflexivity|apply at_eol_end; exact E|].
      unfold set_cap. simpl caps. simpl prev. simpl rest.
      rewrite (taken_st _ _ (str "Cosmonaut, Lieutenant Colonel, Russian Air Force")
                        post [] []).
      reflexivity.
Qed.

End Labelled.

Import Labelled.

(** * Stripping and splitting *)

Module Strings.

Lemma lstrip_suffix : forall p t, exists a, t = a ++ lstrip p t.
Proof.
  intros p. induction t as [|c t (a & IH)]; simpl.
  - exists []. reflexivity.
  - destruct (p c).
    + exists (c :: a). simpl. f_equal. exact IH.
    + exists []. reflexivity.
Qed.

Lemma lstrip_head : forall p t,
  match lstrip p t with c :: _ => p c = false | [] => True end.
Proof.
  intros p. induction t as [|c t IH]; simpl; [exact I|].
  destruct (p c) eqn:E; [exact IH|exact E].
Qed.

Lemma lstrip_idem : forall p t, lstrip p (lstrip p t) = lstrip p t.
Proof. intros p t. apply lstrip_keep. apply lstrip_head. Qed.

Lemma rstrip_prefix : forall p t, exists b, t = rstrip p t ++ b.
Proof.
  intros p t. unfold rstrip. destruct (lstrip_suffix p (rev t)) as (a & E).
  exists (rev a). rewrite <- rev_app_distr, <- E, rev_involutive. reflexivity.
Qed.

Lemma rstrip_idem : forall p t, rstrip p (rstrip p t) = rstrip p t.
Proof.
  intros p t. unfold rstrip. rewrite rev_involutive, lstrip_idem. reflexivity.
Qed.

Lemma strip_by_idem : forall p t, strip_by p (strip_by p t) = strip_by p t.
Proof.
  intros p t. unfold strip_by.
  rewrite (lstrip_keep p (rstrip p (lstrip p t))); [apply rstrip_idem|].
  destruct (rstrip_prefix p (lstrip p t)) as (b & E).
  generalize (lstrip_head p t). rewrite E at 1.
  destruct (rstrip p (lstrip p t)); simpl; auto.
Qed.

Lemma strip_by_In : forall p t c, In c (strip_by p t) -> In c t.
Proof.
  intros p t c H. unfold strip_by in H.
  destruct (rstrip_prefix p (lstrip p t)) as (b & E).
  destruct (lstrip_suffix p t) as (a & E').
  rewrite E'. apply in_or_app. right. rewrite E. apply in_or_app. left. exact H.
Qed.

Lemma split_char_no_sep : forall sep t piece,
  In piece (split_char sep t) -> ~ In sep piece.
Proof.
  intros sep. induction t as [|c t IH]; intros piece H; simpl in H.
  - destruct H as [H|[]]. subst. auto.
  - destruct (Ascii.eqb c sep) eqn:E.
    + destruct H as [H|H]; [subst; auto|apply IH; assumption].
    + destruct (split_char sep t) as [|q qs] eqn:S.
      * destruct H as [H|[]]. subst. intros [A|[]]. subst.
        rewrite Ascii.eqb_refl in E. discriminate.
      * destruct H as [H|H].
        -- subst. intros [A|A].
           ++ subst. rewrite Ascii.eqb_refl in E. discriminate.
           ++ revert A. apply IH. left. reflexivity.
        -- apply IH. right. assumption.
Qed.

Lemma split_char_cons : forall sep t, split_char sep t <> [].
Proof.
  intros sep [|c t]; simpl; [discriminate|].
  destruct (Ascii.eqb c sep); [discriminate|].
  destruct (split_char sep t); discriminate.
Qed.

Lemma split_char_join : forall t, join_commas (split_char "," t) = t.
Proof.
  induction t as [|c t IH]; [reflexivity|]. simpl split_char.
  generalize (split_char_cons "," t).
  destruct (split_char "," t) as [|q qs]; [congruence|]. intros _.
  destruct (Ascii.eqb c ",") eqn:E.
  - apply Ascii.eqb_eq in E. subst c.
    change (join_commas ([] :: q :: qs)) with ("," :: join_commas (q :: qs))%char.
    rewrite IH. reflexivity.
  - destruct qs as [|q' qs].
    + simpl in *. congruence.
    + change (join_commas ((c :: q) :: q' :: qs))
        with (c :: (q ++ "," :: join_commas (q' :: qs)))%char.
      change (join_commas (q :: q' :: qs))
        with (q ++ "," :: join_commas (q' :: qs))%char in IH.
      rewrite IH. reflexivity.
Qed.

(** The tokens of an occupation line are stripped, not empty and free of
    commas. *)
Lemma tokens_spec : forall v o,
  In o (tokens v) ->
  o <> [] /\ strip o = o /\ ~ In ","%char o.
Proof.
  intros v o H. unfold tokens in H. destruct v as [l|]; [|contradiction].
  destruct (truthy l); [|contradiction].
  apply in_map_iff in H. destruct H as (piece & E & H).
  apply filter_In in H. destruct H as (H & T). subst o.
  split; [destruct (strip piece); [discriminate|discriminate]|].
  split; [apply strip_by_idem|].
  intros C. apply strip_by_In in C. revert C. eapply split_char_no_sep. exact H.
Qed.

Lemma tokens_of_value : forall l,
  tokens (Some l)
  = map strip (filter (fun o => truthy (strip o)) (split_char "," l)).
Proof. intros [|c l]; reflexivity. Qed.

End Strings.

Import Strings.

(** * The age *)

Module Age.

Lemma cls_digit : forall c, cls_ok IM false [Pat.digit09] c = Chars.is_digit c.
Proof. intros c. each_char c; reflexivity. Qed.

Lemma Run_d09 : forall s s1,
  Run IM d09 s s1 ->
  exists c t, rest s = c :: t /\ Chars.is_digit c = true /\ s1 = advance c t s.
Proof.
  intros s s1 R.
  destruct (Run_char_inv IM d09 (cls_ok IM false [Pat.digit09]) _ _ eq_refl R)
    as (c & t & E & P & S).
  rewrite cls_digit in P. eauto.
Qed.

(** The digits of the annotation. *)
Lemma Run_age_digits : forall s s1,
  Run IM (range 1 3 d09) s s1 ->
  exists w, rest s = w ++ rest s1 /\ w <> [] /\ forallb Chars.is_digit w = true
            /\ caps s1 = caps s.
Proof.
  intros s s1 R. cbv [range rep upto Nat.sub] in R.
  apply Run_seq_inv in R. destruct R as (sa & R1 & R).
  apply Run_d09 in R1. destruct R1 as (c1 & t1 & E1 & D1 & S1). subst sa.
  apply Run_alt_inv in R. destruct R as [R|R].
  - apply Run_seq_inv in R. destruct R as (sb & R2 & R).
    apply Run_d09 in R2. destruct R2 as (c2 & t2 & E2 & D2 & S2). subst sb.
    simpl in E2. subst t1.
    apply Run_alt_inv in R. destruct R as [R|R].
    + apply Run_seq_inv in R. destruct R as (sc & R3 & R).
      apply Run_d09 in R3. destruct R3 as (c3 & t3 & E3 & D3 & S3). subst sc.
      simpl in E3. subst t2. apply Run_eps_inv in R. subst s1.
      exists [c1; c2; c3]. simpl. rewrite D1, D2, D3, E1.
      repeat split; discriminate.
    + apply Run_eps_inv in R. subst s1.
      exists [c1; c2]. simpl. rewrite D1, D2, E1. repeat split; discriminate.
  - apply Run_eps_inv in R. subst s1.
    exists [c1]. simpl. rewrite D1, E1. repeat split; discriminate.
Qed.

Lemma age_capture : forall t w,
  first_of Pat.AGE t = Some w -> w <> [] /\ forallb Chars.is_digit w = true.
Proof.
  intros t w H.
  assert (X : _extract_first Pat.AGE t = Ok (Some w))
    by (rewrite (extract_first_eq Pat.AGE t eq_refl), H; reflexivity).
  apply extract_first_Some in X.
  destruct X as (pre & suf & s1 & g & _ & R & L & W).
  change Pat.AGE
    with (Seq (lit_list (str "(age"))
              (Seq (Star true Ws) (Seq (Group 1 (range 1 3 d09)) (Lit ")")))) in R.
  apply Run_seq_inv in R. destruct R as (sa & _ & R).
  apply Run_seq_inv in R. destruct R as (sb & _ & R).
  apply Run_seq_inv in R. destruct R as (sd & R & C).
  destruct (Run_char_inv IM (Lit ")") (lit_ok IM ")") _ _ eq_refl C)
    as (c & t' & _ & _ & S). subst s1.
  apply Run_group_inv in R. destruct R as (sc & R & E). subst sd.
  simpl in L. inversion L; subst g. clear L.
  destruct (Run_age_digits _ _ R) as (d & Ed & Nd & Fd & _).
  rewrite (taken_app _ _ _ Ed), (strip_digits _ Fd) in W. subst w. auto.
Qed.

(** An annotation decides the age, whatever the birth date and the day. *)
Lemma age_explicit : forall t w,
  first_of Pat.AGE t = Some w ->
  exists n, int w = Ok n
            /\ forall today birth, _parse_age today t birth = Ok (Some n).
Proof.
  intros t w H. destruct (age_capture _ _ H) as (N & D).
  destruct (int_digits w N D) as (n & I). exists n. split; [assumption|].
  intros today birth. unfold _parse_age.
  rewrite (extract_first_eq Pat.AGE t eq_refl), H. cbn [bind].
  destruct w; [contradiction|]. cbn [truthy]. rewrite I. reflexivity.
Qed.

Lemma age_fallback : forall today t birth,
  first_of Pat.AGE t = None ->
  _parse_age today t birth
  = Ok (match birth with
        | Some b => Some (Date.year today - Date.year b
                          - (if Date.md_before today b then 1 else 0))%Z
        | None => None
        end).
Proof.
  intros today t birth H. unfold _parse_age.
  rewrite (extract_first_eq Pat.AGE t eq_refl), H. cbn [bind].
  destruct birth; reflexivity.
Qed.

(** The first "(age" of the text opens the annotation of the claim. *)
Lemma age_first : forall pre post,
  find IM (str "(age") (pre ++ str "(age 59)" ++ post) = Some (length pre) ->
  first_of Pat.AGE (pre ++ str "(age 59)" ++ post) = Some (str "59").
Proof.
  intros pre post F.
  assert (S := search_prefixed_first IM (str "(age")
                 (Seq (Star true Ws) (Seq (Group 1 (range 1 3 d09)) (Lit ")")))
                 pre (str "(age 59)" ++ post) F).
  set (p := prev_after None pre) in *.
  assert (R : exists s1,
    run IM Pat.AGE (start_state p (str "(age 59)" ++ post)) (fun s => Some s) = Some s1
    /\ lookup 1 (caps s1) = Some (str "59")).
  { eexists. split.
    - let r := eval cbv in Pat.AGE in change Pat.AGE with r.
      unfold start_state. fold (st p (str "(age 59)" ++ post) []).
      follow. star (str " ") (str "59)" ++ post).
    - unfold set_cap. cbn [caps lookup Nat.eqb].
      rewrite (taken_st _ _ (str "59") (str ")" ++ post) [] []). reflexivity. }
  destruct R as (s1 & R & L).
  rewrite (first_of_at Pat.AGE _ p _ _ s1 S R), L. reflexivity.
Qed.

(** *** An annotation anywhere in the text is found *)

Lemma has_match_search : forall r t, has_match r t <-> search IM r t <> None.
Proof.
  intros r t. split.
  - intros (pre & suf & s1 & E & R). subst t. unfold search.
    apply search_from_found.
    destruct (run_complete IM r _ _ R (fun s => Some s) s1 eq_refl) as (y & Y).
    rewrite Y. discriminate.
  - apply extract_first_match.
Qed.

Lemma lit_ok_refl : forall fl c, lit_ok fl c c = true.
Proof. intros. unfold lit_ok. rewrite Ascii.eqb_refl. reflexivity. Qed.

Lemma Run_lit_exact : forall fl cs p t c,
  Run fl (lit_list cs) (st p (cs ++ t) c) (st (prev_after p cs) t c).
Proof.
  intros fl. induction cs as [|x cs IH]; intros p t c.
  - apply Run_eps.
  - destruct cs as [|y cs].
    + apply (Run_char fl (Lit x) (lit_ok fl x) (st p ([x] ++ t) c) x t);
        [reflexivity|reflexivity|apply lit_ok_refl].
    + change (lit_list (x :: y :: cs)) with (Seq (Lit x) (lit_list (y :: cs))).
      eapply Run_seq; [|apply (IH (Some x) t c)].
      apply (Run_char fl (Lit x) (lit_ok fl x) (st p ((x :: y :: cs) ++ t) c) x
               ((y :: cs) ++ t));
        [reflexivity|reflexivity|apply lit_ok_refl].
Qed.

Lemma Run_star_run : forall fl g r f w p t c,
  char_pred fl r = Some f -> forallb f w = true ->
  Run fl (Star g r) (st p (w ++ t) c) (st (prev_after p w) t c).
Proof.
  intros fl g r f. induction w as [|x w IH]; intros p t c F W.
  - apply Run_star_done.
  - simpl in W. apply andb_prop in W. destruct W as (W1 & W2).
    eapply Run_star_more; [| |apply (IH (Some x) t c F W2)].
    + apply (Run_char fl r f (st p ((x :: w) ++ t) c) x (w ++ t));
        [assumption|reflexivity|assumption].
    + simpl. lia.
Qed.

Lemma Run_one_digit : forall p x t c,
  Chars.is_digit x = true ->
  Run IM d09 (st p (x :: t) c) (st (Some x) t c).
Proof.
  intros p x t c D.
  apply (Run_char IM d09 (cls_ok IM false [Pat.digit09]) (st p (x :: t) c) x t);
    [reflexivity|reflexivity|rewrite cls_digit; assumption].
Qed.

Lemma Run_digits : forall ds p t c,
  ds <> [] -> length ds <= 3 -> forallb Chars.is_digit ds = true ->
  Run IM (range 1 3 d09) (st p (ds ++ t) c) (st (prev_after p ds) t c).
Proof.
  intros ds p t c N L D. cbv [range rep upto Nat.sub].
  destruct ds as [|x1 [|x2 [|x3 [|x4 ds]]]]; try contradiction;
    simpl in L; try lia; simpl in D;
    repeat match goal with
           | H : _ && _ = true |- _ => apply andb_prop in H; destruct H
           end.
  - eapply Run_seq; [apply Run_one_digit; assumption|].
    apply Run_alt_r. apply Run_eps.
  - eapply Run_seq; [apply Run_one_digit; assumption|].
    apply Run_alt_l. eapply Run_seq; [apply Run_one_digit; assumption|].
    apply Run_alt_r. apply Run_eps.
  - eapply Run_seq; [apply Run_one_digit; assumption|].
    apply Run_alt_l. eapply Run_seq; [apply Run_one_digit; assumption|].
    apply Run_alt_l. eapply Run_seq; [apply Run_one_digit; assumption|].
    apply Run_eps.
Qed.

Lemma annotation_found : forall pre ws ds post,
  forallb Chars.is_space ws = true ->
  ds <> [] -> length ds <= 3 -> forallb Chars.is_digit ds = true ->
  first_of Pat.AGE (pre ++ str "(age" ++ ws ++ ds ++ str ")" ++ post) <> None.
Proof.
  intros pre ws ds post W N L D H.
  apply (first_of_None Pat.AGE _ eq_refl) in H. revert H.
  apply has_match_search.
  exists pre, (str "(age" ++ ws ++ ds ++ str ")" ++ post). eexists.
  split; [reflexivity|].
  change Pat.AGE
    with (Seq (lit_list (str "(age"))
              (Seq (Star true Ws) (Seq (Group 1 (range 1 3 d09)) (Lit ")")))).
  eapply Run_seq; [apply (Run_lit_exact IM (str "(age"))|].
  eapply Run_seq; [apply (Run_star_run IM true Ws Chars.is_space ws); [reflexivity|assumption]|].
  eapply Run_seq; [apply Run_group; apply (Run_digits ds); assumption|].
  apply (Run_char IM (Lit ")") (lit_ok IM ")") _ ")"%char post);
    [reflexivity|reflexivity|reflexivity].
Qed.

End Age.

(** * The birth date *)

Module Birth.

(** The first "Born:" of the text opens the line of the claim. *)
Lemma born_first : forall pre post,
  find IM (str "Born:") (pre ++ born_line ++ post) = Some (length pre) ->
  first_of Pat.BORN_ISO (pre ++ born_line ++ post) = Some (str "1966-01-12").
Proof.
  intros pre post F.
  assert (S := search_prefixed_first IM (str "Born:")
                 (Re.seqs [Star true Ws; lit "("; Star true Ws;
                           Group 1 (Re.seqs [rep 4 Digit; lit "-"; rep 2 Digit;
                                             lit "-"; rep 2 Digit]);
                           Star true Ws; lit ")"])
                 pre (born_line ++ post) F).
  set (p := prev_after None pre) in *.
  assert (R : exists s1,
    run IM Pat.BORN_ISO (start_state p (born_line ++ post)) (fun s => Some s) = Some s1
    /\ lookup 1 (caps s1) = Some (str "1966-01-12")).
  { eexists. split.
    - let r := eval cbv in Pat.BORN_ISO in change Pat.BORN_ISO with r.
      unfold start_state. fold (st p (born_line ++ post) []).
      follow. star (str " ") (str "(1966-01-12) January 12, 1966" ++ post).
      star (@nil ascii) (str "1966-01-12) January 12, 1966" ++ post).
      star (@nil ascii) (str ") January 12, 1966" ++ post).
    - unfold set_cap. cbn [caps lookup Nat.eqb].
      rewrite (taken_st _ _ (str "1966-01-12") (str ") January 12, 1966" ++ post) [] []).
      reflexivity. }
  destruct R as (s1 & R & L).
  rewrite (first_of_at Pat.BORN_ISO _ p _ _ s1 S R), L. reflexivity.
Qed.

Lemma born_line_date : forall pre post,
  find IM (str "Born:") (pre ++ born_line ++ post) = Some (length pre) ->
  _parse_birthdate (pre ++ born_line ++ post) = Ok (Some jan_12_1966).
Proof.
  intros pre post F. unfold _parse_birthdate.
  unfold attempt at 1.
  rewrite (extract_first_eq Pat.BORN_ISO _ eq_refl), (born_first pre post F).
  cbn [bind].
  replace (Date.strptime (strip (str "1966-01-12")) Date.fmt_iso)
    with (Ok jan_12_1966) by (vm_compute; reflexivity).
  reflexivity.
Qed.

(** The three blocks, one after the other. *)
Lemma attempt_parsed : forall pattern fmt t next w d,
  _extract_first pattern t = Ok (Some w) -> truthy w = true ->
  Date.strptime w fmt = Ok d ->
  attempt pattern fmt t next = Ok (Some d).
Proof.
  intros pattern fmt t next w d E T S. unfold attempt.
  rewrite E. cbn [bind]. rewrite T, S. reflexivity.
Qed.

Lemma attempt_unparsed : forall pattern fmt t next w,
  _extract_first pattern t = Ok (Some w) ->
  Date.strptime w fmt = Raise ValueError ->
  attempt pattern fmt t next = next.
Proof.
  intros pattern fmt t next w E S. unfold attempt.
  rewrite E. cbn [bind]. rewrite S. destruct (truthy w); reflexivity.
Qed.

Lemma attempt_unmatched : forall pattern fmt t next,
  _extract_first pattern t = Ok None -> attempt pattern fmt t next = next.
Proof.
  intros pattern fmt t next E. unfold attempt. rewrite E. reflexivity.
Qed.

End Birth.

Import Age.

(** * Splitting a text at the matches of a pattern *)

Module Split.

Section OnePattern.

Variable fl : flags.
Variable r : regex.
Variable is_sep : ascii -> bool.

(** A separator character always starts a match, and no match is empty. *)
Hypothesis hit : forall p c t,
  is_sep c = true -> run fl r (start_state p (c :: t)) (fun s => Some s) <> None.
Hypothesis consumes : forall p t off m,
  match_at fl r p t off = Some m -> m_whole m <> [].

Lemma skipn_two : forall (a b c : text),
  skipn (length a + length b) (a ++ b ++ c) = c.
Proof.
  intros a b c. rewrite app_assoc, <- length_app, skipn_app, skipn_all, Nat.sub_diag.
  reflexivity.
Qed.

Lemma no_sep_where_no_match : forall pre p t,
  (forall p1 c p2, pre = p1 ++ c :: p2 ->
     run fl r (start_state (prev_after p p1) (c :: p2 ++ t)) (fun s => Some s) = None) ->
  forallb (fun c => negb (is_sep c)) pre = true.
Proof.
  induction pre as [|c pre IH]; intros p t H; [reflexivity|]. simpl.
  rewrite (IH (Some c) t).
  - destruct (is_sep c) eqn:E; [|reflexivity].
    exfalso. apply (hit p c (pre ++ t) E). apply (H [] c pre). reflexivity.
  - intros p1 c' p2 E. apply (H (c :: p1) c' p2). rewrite E. reflexivity.
Qed.

Lemma scan_pieces : forall fuel p t off,
  length t < fuel ->
  let ms := scan fl r fuel p t off in
  Forall (fun piece => forallb (fun c => negb (is_sep c)) piece = true)
         (pieces t off ms)
  /\ interleave (pieces t off ms) (map (@m_whole) ms) = t.
Proof.
  induction fuel as [|fuel IH]; intros p t off L; [lia|].
  cbn [scan]. destruct (search_from fl r p t off) as [m|] eqn:S.
  - apply search_from_Some in S. destruct S as (pre & suf & E & M & B).
    destruct (match_at_Run _ _ _ _ _ _ M) as (_ & W & _).
    destruct (match_at_Some _ _ _ _ _ _ M) as (_ & St & _ & _).
    assert (Nw := consumes _ _ _ _ M).
    destruct (m_whole m) as [|x w] eqn:Ew; [contradiction|].
    cbn [pieces map]. rewrite Ew.
    replace (m_start m - off) with (length pre) by lia.
    assert (F : firstn (length pre) t = pre).
    { subst t. rewrite firstn_app, firstn_all, Nat.sub_diag. simpl.
      apply app_nil_r. }
    assert (K : skipn (length pre + length (x :: w)) t = rest (m_after m)).
    { subst t. rewrite W. apply skipn_two. }
    rewrite F, K.
    destruct (IH (prev (m_after m)) (rest (m_after m)) (m_start m + length (x :: w)))
      as (I1 & I2).
    { subst t. rewrite W in L. rewrite !length_app in L. simpl in L. simpl. lia. }
    split.
    + constructor; [|exact I1].
      apply (no_sep_where_no_match pre p suf). exact B.
    + cbn [interleave]. rewrite I2. subst t. rewrite W. reflexivity.
  - cbn [pieces map interleave]. split; [|reflexivity].
    constructor; [|constructor].
    apply (no_sep_where_no_match t p []).
    intros p1 c p2 E. rewrite app_nil_r.
    eapply search_from_None; [exact S|assumption].
Qed.

Theorem split_spec : forall t,
  Forall (fun piece => forallb (fun c => negb (is_sep c)) piece = true)
         (split fl r t)
  /\ interleave (split fl r t) (map (@m_whole) (finditer fl r t)) = t.
Proof.
  intros t. unfold split, finditer. apply scan_pieces. lia.
Qed.

(** Every element of a scan is a match at some position. *)
Lemma scan_In : forall fuel p t off m,
  In m (scan fl r fuel p t off) ->
  exists p' t' off', match_at fl r p' t' off' = Some m.
Proof.
  induction fuel as [|fuel IH]; intros p t off m H; [contradiction|].
  cbn [scan] in H. destruct (search_from fl r p t off) as [m0|] eqn:S;
    [|contradiction].
  destruct H as [H|H].
  - subst m0. apply search_from_Some in S.
    destruct S as (pre & suf & _ & M & _). eauto.
  - destruct (m_whole m0); [destruct (rest (m_after m0))|];
      [contradiction|eapply IH; exact H|eapply IH; exact H].
Qed.

End OnePattern.

End Split.



(** * The interests *)

Module Interests.

Lemma lit_exact : forall x c, lit_ok NOFLAGS x c = true -> c = x.
Proof.
  intros x c H. unfold lit_ok in H. simpl in H. rewrite orb_false_r in H.
  apply Ascii.eqb_eq in H. auto.
Qed.

Lemma comma_hit : forall p c t,
  is_comma c = true ->
  run NOFLAGS Pat.COMMA_AND (start_state p (c :: t)) (fun s => Some s) <> None.
Proof.
  intros p c t H. apply Ascii.eqb_eq in H. subst c.
  unfold Pat.COMMA_AND. simpl. discriminate.
Qed.

(** What [re.split] removes is a comma or the word "and". *)
Lemma separator : forall p t off m,
  match_at NOFLAGS Pat.COMMA_AND p t off = Some m ->
  m_whole m = str "," \/ m_whole m = str "and".
Proof.
  intros p t off m M.
  destruct (match_at_Some _ _ _ _ _ _ M) as (_ & _ & _ & W).
  apply match_at_Run in M. destruct M as (R & _ & _).
  change Pat.COMMA_AND
    with (Alt (Lit ",") (Seq WordB (Seq (lit_list (str "and")) WordB))) in R.
  apply Run_alt_inv in R. destruct R as [R|R].
  - destruct (Run_char_inv NOFLAGS (Lit ",") (lit_ok NOFLAGS ",") _ _ eq_refl R)
      as (c & t' & E & P & S).
    apply lit_exact in P. subst c. left. rewrite W, S.
    apply taken_app. simpl in *. rewrite E. reflexivity.
  - apply Run_seq_inv in R. destruct R as (s0 & B & R).
    destruct (Run_guard_inv NOFLAGS WordB at_wordb _ _ eq_refl B) as (E0 & _). subst s0.
    apply Run_seq_inv in R. destruct R as (s1 & L & B').
    destruct (Run_guard_inv NOFLAGS WordB at_wordb _ _ eq_refl B') as (E1 & _).
    rewrite E1 in *. clear E1.
    destruct (Run_lit_list NOFLAGS _ _ _ L) as (w & E & Lw & Sw & _ & _).
    right. rewrite W. rewrite (taken_app _ _ _ E).
    destruct w as [|a [|b [|c [|d w]]]]; try discriminate.
    simpl in Sw.
    repeat match goal with
           | H : _ && _ = true |- _ => apply andb_prop in H; destruct H
           end.
    repeat match goal with
           | H : lit_ok NOFLAGS _ _ = true |- _ => apply lit_exact in H; subst
           end.
    reflexivity.
Qed.

Lemma separator_consumes : forall p t off m,
  match_at NOFLAGS Pat.COMMA_AND p t off = Some m -> m_whole m <> [].
Proof.
  intros p t off m M. destruct (separator _ _ _ _ M) as [E|E]; rewrite E; discriminate.
Qed.

(** The pieces have no comma, and with the separators between them they
    make up the text again. *)
Lemma split_commas : forall s,
  Forall (fun piece => ~ In ","%char piece) (split NOFLAGS Pat.COMMA_AND s)
  /\ interleave (split NOFLAGS Pat.COMMA_AND s)
                (map (@m_whole) (finditer NOFLAGS Pat.COMMA_AND s)) = s
  /\ Forall (fun sep => sep = str "," \/ sep = str "and")
            (map (@m_whole) (finditer NOFLAGS Pat.COMMA_AND s)).
Proof.
  intros s.
  destruct (Split.split_spec NOFLAGS Pat.COMMA_AND is_comma comma_hit
              separator_consumes s) as (A & B).
  split; [|split; [exact B|]].
  - eapply Forall_impl; [|exact A]. intros piece H C.
    rewrite forallb_forall in H. apply H in C.
    unfold is_comma in C. rewrite Ascii.eqb_refl in C. discriminate.
  - apply Forall_forall. intros sep H. apply in_map_iff in H.
    destruct H as (m & E & H). subst sep. unfold finditer in H.
    apply Split.scan_In in H. destruct H as (p' & t' & off' & M).
    eapply separator. exact M.
Qed.

Lemma clean_eq : forall s,
  _clean_commas_list s
  = map (strip_by punct)
        (filter (fun q => truthy (strip_by punct q)) (split NOFLAGS Pat.COMMA_AND s)).
Proof.
  intros s. unfold _clean_commas_list. f_equal. apply filter_ext.
  intros q. destruct q; [reflexivity|]. reflexivity.
Qed.



Lemma phrases_of_value : forall w, phrases (Some w) = _clean_commas_list w.
Proof. intros [|c w]; [vm_compute|]; reflexivity. Qed.


(** The text after "enjoys" stops before a full stop or the end of the
    line. *)
Lemma enjoys_value : forall t v,
  first_of Pat.ENJOYS t = Some v ->
  ~ In "."%char v /\ ~ In Chars.newline v.
Proof.
  intros t v H.
  assert (X : _extract_first Pat.ENJOYS t = Ok (Some v))
    by (rewrite (extract_first_eq Pat.ENJOYS t eq_refl), H; reflexivity).
  apply extract_first_Some in X.
  destruct X as (pre & suf & s1 & g & _ & R & L & W).
  set (cls := Cls true [CChar "."; CChar Chars.newline]) in *.
  change Pat.ENJOYS
    with (Seq WordB (Seq (lit_list (str "enjoys"))
                         (Seq (plus true Ws) (Group 1 (Seq cls (Star true cls)))))) in R.
  apply Run_seq_inv in R. destruct R as (sa & _ & R).
  apply Run_seq_inv in R. destruct R as (sb & _ & R).
  apply Run_seq_inv in R. destruct R as (sc & _ & R).
  apply Run_group_inv in R. destruct R as (sd & R & E). subst s1.
  simpl in L. inversion L; subst g. clear L.
  apply Run_seq_inv in R. destruct R as (se & R1 & R2).
  destruct (Run_char_inv IM cls (cls_ok IM true [CChar "."; CChar Chars.newline])
              _ _ eq_refl R1) as (c & t1 & Ec & Pc & Es). subst se.
  destruct (Run_star_chars IM true cls (cls_ok IM true [CChar "."; CChar Chars.newline])
              _ _ eq_refl R2) as (w & Ew & Fw & _ & _).
  simpl in Ew. subst t1.
  assert (G : taken sc sd = c :: w) by (apply taken_app; rewrite Ec; reflexivity).
  rewrite G in W.
  assert (A : forall a, In a v -> cls_ok IM true [CChar "."; CChar Chars.newline] a = true).
  { intros a Ha. subst v. apply strip_by_In in Ha. destruct Ha as [Ha|Ha].
    - subst a. assumption.
    - rewrite forallb_forall in Fw. auto. }
  split; intros C; apply A in C; vm_compute in C; discriminate.
Qed.

End Interests.



(** * Replacing the matches of a pattern *)

Module Subst.

(** A text is a run of characters accepted by [f], then a rest on which
    the run cannot go on. *)
Lemma run_split : forall (f : ascii -> bool) t,
  exists a b, t = a ++ b /\ forallb f a = true /\ stops f b = true.
Proof.
  intros f. induction t as [|c t IH].
  - exists [], []. auto.
  - destruct (f c) eqn:E.
    + destruct IH as (a & b & E1 & E2 & E3). exists (c :: a), b.
      subst t. simpl. rewrite E, E2. auto.
    + exists [], (c :: t). simpl. rewrite E. auto.
Qed.

Lemma sub_eq : forall fl r by_ t,
  sub fl r by_ t = sub_from fl r by_ (S (length t)) None t 0.
Proof. reflexivity. Qed.

Lemma pieces_cons : forall t off ms, exists x xs, pieces t off ms = x :: xs.
Proof. intros t off [|m ms]; simpl; eauto. Qed.

Lemma sub_from_none : forall fl r by_ fuel p t off,
  search_from fl r p t off = None ->
  sub_from fl r by_ (S fuel) p t off = t.
Proof.
  intros fl r by_ fuel p t off H. unfold sub_from. cbn [scan]. rewrite H.
  simpl. apply app_nil_r.
Qed.

(** After a match that is not empty, the replacement goes on from the end
    of the match. *)
Lemma sub_from_hit : forall fl r by_ fuel p a w t off m,
  search_from fl r p (a ++ w ++ t) off = Some m ->
  m_start m = off + length a -> m_whole m = w -> w <> [] ->
  rest (m_after m) = t ->
  sub_from fl r by_ (S fuel) p (a ++ w ++ t) off
  = a ++ by_ ++ sub_from fl r by_ fuel (prev (m_after m)) t
                  (off + length a + length w).
Proof.
  intros fl r by_ fuel p a w t off m S St W N R. unfold sub_from.
  cbn [scan]. rewrite S, W, R, St.
  destruct w as [|x w]; [contradiction|].
  cbn [pieces]. rewrite W, St.
  replace (off + length a - off) with (length a) by lia.
  rewrite Split.skipn_two.
  rewrite firstn_app, firstn_all, Nat.sub_diag. simpl firstn. rewrite app_nil_r.
  destruct (pieces_cons t (off + length a + length (x :: w))
              (scan fl r fuel (prev (m_after m)) t (off + length a + length (x :: w))))
    as (y & ys & E).
  rewrite E. simpl. rewrite <- app_assoc. reflexivity.
Qed.

End Subst.

(** * [_norm]: white space normalized *)

Module Norm.

Import Subst.

Lemma spaces_shape : Pat.SPACES = Seq Ws (Star true Ws).
Proof. reflexivity. Qed.

Lemma spaces_at : forall p w t,
  w <> [] -> forallb Chars.is_space w = true -> stops Chars.is_space t = true ->
  run NOFLAGS Pat.SPACES (start_state p (w ++ t)) (fun s => Some s)
  = Some (st (prev_after p w) t []).
Proof.
  intros p [|c w] t N F S; [contradiction|]. simpl in F.
  apply andb_prop in F. destruct F as (F1 & F2).
  rewrite spaces_shape. unfold start_state. fold (st p ((c :: w) ++ t) []).
  apply go_seq. simpl app.
  eapply go_char; [reflexivity|exact F1|].
  eapply go_star_run; [reflexivity|exact F2|exact S|reflexivity].
Qed.

Lemma spaces_not_at : forall p t,
  stops Chars.is_space t = true ->
  run NOFLAGS Pat.SPACES (start_state p t) (fun s => Some s) = None.
Proof.
  intros p [|c t] S; [reflexivity|]. simpl in S.
  rewrite spaces_shape. unfold start_state. fold (st p (c :: t) []).
  apply go_seq. eapply no_char; [reflexivity|].
  destruct (Chars.is_space c); [discriminate|reflexivity].
Qed.

Lemma not_space_stops : forall a c p2 t,
  forallb not_space a = true -> forall p1, a = p1 ++ c :: p2 ->
  stops Chars.is_space (c :: p2 ++ t) = true.
Proof.
  intros a c p2 t F p1 E. subst a. rewrite forallb_app in F.
  apply andb_prop in F. destruct F as (_ & F). simpl in F.
  apply andb_prop in F. destruct F as (F & _). exact F.
Qed.

Lemma search_spaces : forall a w t p off,
  forallb not_space a = true ->
  w <> [] -> forallb Chars.is_space w = true -> stops Chars.is_space t = true ->
  search_from NOFLAGS Pat.SPACES p (a ++ w ++ t) off
  = Some {| m_start := off + length a;
            m_whole := w;
            m_caps := [];
            m_after := st (prev_after (prev_after p a) w) t [] |}.
Proof.
  intros a w t p off A N F S.
  rewrite search_from_skip.
  - rewrite (search_from_here _ _ _ _ _ _ (spaces_at (prev_after p a) w t N F S)).
    f_equal. f_equal. unfold start_state. fold (st (prev_after p a) (w ++ t) []).
    apply taken_st.
  - intros p1 c p2 E. apply spaces_not_at.
    apply (not_space_stops a c p2 (w ++ t) A p1 E).
Qed.

Lemma search_spaces_none : forall a p off,
  forallb not_space a = true ->
  search_from NOFLAGS Pat.SPACES p a off = None.
Proof.
  intros a p off A. apply search_all_fail. intros x y E.
  apply spaces_not_at. destruct y as [|c y]; [reflexivity|].
  rewrite <- (app_nil_r y). apply (not_space_stops a c y [] A x).
  exact E.
Qed.

(** *** The squeezed text *)

Lemma squeeze_plain : forall a b x,
  forallb not_space a = true -> a <> [] ->
  squeeze b (a ++ x) = a ++ squeeze false x.
Proof.
  induction a as [|c a IH]; intros b x F N; [contradiction|].
  simpl in F. apply andb_prop in F. destruct F as (F1 & F2).
  unfold not_space in F1. apply negb_true_iff in F1.
  simpl. rewrite F1. f_equal.
  destruct a as [|c' a]; [reflexivity|].
  apply IH; [exact F2|discriminate].
Qed.

Lemma squeeze_plain_all : forall a b,
  forallb not_space a = true -> squeeze b a = a.
Proof.
  intros [|c a] b F; [reflexivity|].
  rewrite <- (app_nil_r (c :: a)) at 1. rewrite squeeze_plain; auto.
  - simpl. rewrite app_nil_r. reflexivity.
  - discriminate.
Qed.

Lemma squeeze_run : forall w t,
  forallb Chars.is_space w = true -> squeeze true (w ++ t) = squeeze true t.
Proof.
  induction w as [|c w IH]; intros t F; [reflexivity|].
  simpl in F. apply andb_prop in F. destruct F as (F1 & F2).
  simpl. rewrite F1. apply IH. exact F2.
Qed.

Lemma squeeze_flag : forall t b,
  stops Chars.is_space t = true -> squeeze b t = squeeze false t.
Proof.
  intros [|c t] b S; [reflexivity|]. simpl in S. apply negb_true_iff in S.
  simpl. rewrite S. reflexivity.
Qed.

(** [re.sub(r"\s+", " ", t)] is the squeezed text. *)
Lemma sub_spaces_from : forall fuel p t off,
  length t < fuel ->
  sub_from NOFLAGS Pat.SPACES (str " ") fuel p t off = squeeze false t.
Proof.
  induction fuel as [|fuel IH]; intros p t off L; [lia|].
  destruct (run_split not_space t) as (a & b & E & A & B). subst t.
  destruct b as [|c b].
  - rewrite app_nil_r. rewrite sub_from_none by (apply search_spaces_none; exact A).
    symmetry. apply squeeze_plain_all. exact A.
  - simpl in B. unfold not_space in B. rewrite negb_involutive in B.
    destruct (run_split Chars.is_space b) as (w & t & E & W & T). subst b.
    change (c :: w ++ t) with ((c :: w) ++ t).
    assert (Fw : forallb Chars.is_space (c :: w) = true)
      by (simpl; rewrite B, W; reflexivity).
    rewrite (sub_from_hit _ _ _ _ _ _ _ _ _ _
               (search_spaces a (c :: w) t p off A ltac:(discriminate) Fw T)
               eq_refl eq_refl ltac:(discriminate) eq_refl).
    rewrite IH.
    + destruct a as [|x a].
      * simpl. rewrite B. f_equal.
        rewrite squeeze_run by exact W. symmetry. apply squeeze_flag. exact T.
      * rewrite squeeze_plain by (assumption || discriminate).
        f_equal. simpl. rewrite B. f_equal.
        rewrite squeeze_run by exact W. symmetry. apply squeeze_flag. exact T.
    + rewrite !length_app in L. simpl in L. rewrite !length_app in L. lia.
Qed.

Lemma sub_spaces : forall t,
  sub NOFLAGS Pat.SPACES (str " ") t = squeeze false t.
Proof. intros t. rewrite sub_eq. apply sub_spaces_from. lia. Qed.

(** *** Stripping at the right end, from the left *)

Lemma lstrip_snoc : forall p x c,
  lstrip p (x ++ [c])
  = match lstrip p x with
    | [] => if p c then [] else [c]
    | r => r ++ [c]
    end.
Proof.
  intros p. induction x as [|a x IH]; intros c; simpl.
  - destruct (p c); reflexivity.
  - destruct (p a) eqn:E; [apply IH|reflexivity].
Qed.

Lemma rstrip_cons : forall p c t,
  rstrip p (c :: t)
  = match rstrip p t with
    | [] => if p c then [] else [c]
    | r => c :: r
    end.
Proof.
  intros p c t. unfold rstrip. simpl rev. rewrite lstrip_snoc.
  destruct (lstrip p (rev t)) as [|a r] eqn:E; simpl.
  - destruct (p c); reflexivity.
  - rewrite rev_app_distr. simpl. destruct (rev r ++ [a]) eqn:E2; [|reflexivity].
    destruct (rev r); discriminate.
Qed.

Lemma space_is_space : Chars.is_space " " = true.
Proof. reflexivity. Qed.

Lemma lstrip_squeeze : forall t b,
  lstrip Chars.is_space (squeeze b t) = squeeze false (lstrip Chars.is_space t).
Proof.
  induction t as [|c t IH]; intros b; [reflexivity|].
  simpl. destruct (Chars.is_space c) eqn:E.
  - destruct b; [apply IH|]. cbn [lstrip]. rewrite space_is_space. apply IH.
  - cbn [lstrip squeeze]. rewrite E. reflexivity.
Qed.

Lemma words_lstrip : forall t, words (lstrip Chars.is_space t) = words t.
Proof.
  induction t as [|c t IH]; [reflexivity|].
  cbn [lstrip]. destruct (Chars.is_space c) eqn:E.
  - rewrite IH. simpl. rewrite E. reflexivity.
  - reflexivity.
Qed.

Lemma words_cons_space : forall c t,
  Chars.is_space c = true -> words (c :: t) = words t.
Proof. intros c t E. simpl. rewrite E. reflexivity. Qed.

Lemma words_cons_plain : forall c t,
  Chars.is_space c = false ->
  words (c :: t)
  = match t with
    | [] => [[c]]
    | c' :: _ => if Chars.is_space c' then [c] :: words t
                 else cons_head c (words t)
    end.
Proof. intros c t E. simpl. rewrite E. reflexivity. Qed.

Lemma words_some : forall t,
  stops Chars.is_space t = true -> t <> [] -> words t <> [].
Proof.
  intros [|c t] S N; [contradiction|]. simpl in S. apply negb_true_iff in S.
  rewrite words_cons_plain by exact S.
  destruct t as [|c' t]; [discriminate|].
  destruct (Chars.is_space c'); [discriminate|].
  destruct (words (c' :: t)); discriminate.
Qed.

Lemma unwords_cons_head : forall c (w : text) (ws : list text),
  unwords (cons_head c (w :: ws)) = c :: unwords (w :: ws).
Proof. intros c w [|w' ws]; reflexivity. Qed.

Lemma words_good : forall t, Forall is_word_text (words t).
Proof.
  induction t as [|c t IH]; [constructor|].
  destruct (Chars.is_space c) eqn:E.
  - rewrite words_cons_space by exact E. exact IH.
  - rewrite words_cons_plain by exact E.
    assert (G : is_word_text [c]).
    { split; [discriminate|]. simpl. unfold not_space. rewrite E. reflexivity. }
    destruct t as [|c' t]; [constructor; [exact G|constructor]|].
    destruct (Chars.is_space c'); [constructor; assumption|].
    destruct (words (c' :: t)) as [|w ws]; [constructor; [exact G|constructor]|].
    inversion IH as [|? ? (_ & Hw) Hws]. subst. constructor; [|assumption].
    split; [discriminate|]. simpl. unfold not_space at 1. rewrite E. exact Hw.
Qed.

Lemma unwords_head : forall (w : text) (ws : list text),
  w <> [] -> exists x y, unwords (w :: ws) = x :: y /\ hd x w = x.
Proof.
  intros [|x w] ws N; [contradiction|].
  destruct ws; simpl; eauto.
Qed.

Lemma unwords_starts : forall (w : text) (ws : list text),
  is_word_text w -> starts_space (unwords (w :: ws)) = false
                    /\ unwords (w :: ws) <> [].
Proof.
  intros [|x w] ws (N & F); [contradiction|]. simpl in F.
  apply andb_prop in F. destruct F as (F & _). apply negb_true_iff in F.
  destruct ws; simpl; (split; [exact F|discriminate]).
Qed.

(** The squeezed text without its white space at the end. *)
Lemma rstrip_squeeze : forall u b,
  rstrip Chars.is_space (squeeze b u)
  = match words u with
    | [] => []
    | ws => (if starts_space u && negb b then str " " else []) ++ unwords ws
    end.
Proof.
  induction u as [|c u IH]; intros b; [reflexivity|].
  assert (G := words_good u).
  destruct (Chars.is_space c) eqn:E.
  - rewrite words_cons_space by exact E.
    cbn [starts_space]. rewrite E. cbn [andb].
    cbn [squeeze]. rewrite E. destruct b.
    + rewrite IH. cbn [negb]. rewrite andb_false_r. reflexivity.
    + rewrite rstrip_cons, IH. cbn [negb]. rewrite andb_false_r.
      destruct (words u) as [|w ws]; [rewrite space_is_space; reflexivity|].
      inversion G as [|? ? (Nw & _) _]. subst.
      destruct (unwords_head w ws Nw) as (x & y & U & _). rewrite U. reflexivity.
  - rewrite words_cons_plain by exact E.
    cbn [starts_space]. rewrite E. cbn [andb app].
    cbn [squeeze]. rewrite E. rewrite rstrip_cons, IH. cbn [negb].
    rewrite andb_true_r.
    destruct u as [|c' u].
    + simpl. rewrite E. reflexivity.
    + cbn [starts_space].
      destruct (Chars.is_space c') eqn:E'.
      * rewrite words_cons_space in * by exact E'.
        destruct (words u) as [|w ws] eqn:Ew; [rewrite E; reflexivity|].
        reflexivity.
      * assert (N : words (c' :: u) <> []).
        { apply words_some; [simpl; rewrite E'; reflexivity|discriminate]. }
        destruct (words (c' :: u)) as [|w ws]; [contradiction|].
        inversion G as [|? ? (Nw & _) _]. subst.
        destruct (unwords_head w ws Nw) as (x & y & U & _).
        cbn [app cons_head]. rewrite U.
        change (unwords ((c :: w) :: ws)) with (unwords (cons_head c (w :: ws))).
        rewrite unwords_cons_head, U. reflexivity.
Qed.

(** [_norm(s)] is [" ".join(s.split())]. *)
Lemma norm_words : forall s, _norm s = unwords (words s).
Proof.
  intros s. unfold _norm. rewrite sub_spaces. unfold strip, strip_by.
  rewrite lstrip_squeeze, rstrip_squeeze, words_lstrip.
  assert (H : starts_space (lstrip Chars.is_space s) = false).
  { assert (L := lstrip_head Chars.is_space s).
    destruct (lstrip Chars.is_space s) as [|c t]; [reflexivity|exact L]. }
  rewrite H. destruct (words s); reflexivity.
Qed.

(** *** The normal form *)

Lemma spaced_plain : forall w f x,
  forallb not_space w = true -> w <> [] -> spaced f (w ++ x) = spaced false x.
Proof.
  induction w as [|c w IH]; intros f x F N; [contradiction|].
  simpl in F. apply andb_prop in F. destruct F as (F1 & F2).
  apply negb_true_iff in F1. simpl. rewrite F1.
  destruct w as [|c' w]; [reflexivity|].
  apply IH; [exact F2|discriminate].
Qed.

Lemma unwords_spaced : forall ws f,
  Forall is_word_text ws -> spaced f (unwords ws) = true.
Proof.
  induction ws as [|w ws IH]; intros f G; [reflexivity|].
  inversion G as [|? ? Hw Hws]. subst. destruct Hw as (N & F).
  destruct ws as [|w2 ws].
  - simpl. rewrite <- (app_nil_r w). rewrite spaced_plain by assumption.
    reflexivity.
  - change (unwords (w :: w2 :: ws)) with (w ++ " "%char :: unwords (w2 :: ws)).
    rewrite spaced_plain by assumption.
    inversion Hws as [|? ? Hw2 _]. subst.
    destruct (unwords_starts w2 ws Hw2) as (S & Nu).
    cbn [spaced]. rewrite space_is_space. rewrite (IH false Hws).
    destruct (unwords (w2 :: ws)) as [|x y]; [contradiction|].
    simpl in S. rewrite S. reflexivity.
Qed.

Lemma words_word : forall w, is_word_text w -> words w = [w].
Proof.
  induction w as [|c w IH]; intros (N & F); [contradiction|].
  simpl in F. apply andb_prop in F. destruct F as (F1 & F2).
  assert (E := F1). apply negb_true_iff in E.
  rewrite words_cons_plain by exact E.
  destruct w as [|c' w]; [reflexivity|].
  assert (E' : Chars.is_space c' = false).
  { simpl in F2. apply andb_prop in F2. destruct F2 as (F2 & _).
    apply negb_true_iff in F2. exact F2. }
  rewrite E', IH; [reflexivity|]. split; [discriminate|exact F2].
Qed.

Lemma words_word_space : forall w c x,
  is_word_text w -> Chars.is_space c = true -> words (w ++ c :: x) = w :: words x.
Proof.
  induction w as [|a w IH]; intros c x (N & F) Ec; [contradiction|].
  simpl in F. apply andb_prop in F. destruct F as (F1 & F2).
  assert (E := F1). apply negb_true_iff in E.
  change ((a :: w) ++ c :: x) with (a :: (w ++ c :: x)).
  rewrite words_cons_plain by exact E.
  destruct w as [|c' w].
  - cbn [app]. rewrite Ec. rewrite words_cons_space by exact Ec. reflexivity.
  - assert (E' : Chars.is_space c' = false).
    { simpl in F2. apply andb_prop in F2. destruct F2 as (F2 & _).
      apply negb_true_iff in F2. exact F2. }
    cbn [app]. rewrite E'.
    change (c' :: w ++ c :: x) with ((c' :: w) ++ c :: x).
    rewrite IH; [reflexivity| |exact Ec]. split; [discriminate|exact F2].
Qed.

Lemma words_unwords : forall ws, Forall is_word_text ws -> words (unwords ws) = ws.
Proof.
  induction ws as [|w ws IH]; intros G; [reflexivity|].
  inversion G as [|? ? Hw Hws]. subst.
  destruct ws as [|w2 ws]; [apply words_word; exact Hw|].
  change (unwords (w :: w2 :: ws)) with (w ++ " "%char :: unwords (w2 :: ws)).
  rewrite words_word_space by (assumption || reflexivity).
  rewrite IH by assumption. reflexivity.
Qed.

Lemma norm_idem : forall s, _norm (_norm s) = _norm s.
Proof.
  intros s. rewrite !norm_words. rewrite words_unwords by apply words_good.
  reflexivity.
Qed.

Lemma norm_spaced : forall s, single_spaced (_norm s) = true.
Proof. intros s. rewrite norm_words. apply unwords_spaced. apply words_good. Qed.

Lemma spaced_fixed : forall s f,
  spaced f s = true -> unwords (words s) = lstrip Chars.is_space s.
Proof.
  induction s as [|c s IH]; intros f H; [reflexivity|].
  cbn [spaced] in H. cbn [lstrip].
  destruct (Chars.is_space c) eqn:E.
  - rewrite words_cons_space by exact E.
    apply andb_prop in H. destruct H as (H & H3).
    apply andb_prop in H. destruct H as (_ & H2).
    rewrite (IH false H3). reflexivity.
  - rewrite words_cons_plain by exact E.
    destruct s as [|c' s]; [reflexivity|].
    assert (I := IH false H). cbn [lstrip] in I.
    destruct (Chars.is_space c') eqn:E'.
    + cbn [spaced] in H. rewrite E' in H.
      apply andb_prop in H. destruct H as (H & H3).
      apply andb_prop in H. destruct H as (H & H2).
      apply andb_prop in H. destruct H as (H1 & _).
      apply Ascii.eqb_eq in H1. subst c'.
      destruct s as [|c2 s]; [discriminate|].
      apply negb_true_iff in H2.
      assert (N : words (c2 :: s) <> []).
      { apply words_some; [simpl; rewrite H2; reflexivity|discriminate]. }
      rewrite words_cons_space in * by exact E'.
      cbn [lstrip] in I. rewrite H2 in I.
      destruct (words (c2 :: s)) as [|w ws]; [contradiction|].
      change (unwords ([c] :: w :: ws)) with (c :: " "%char :: unwords (w :: ws)).
      rewrite I. reflexivity.
    + assert (N : words (c' :: s) <> []).
      { apply words_some; [simpl; rewrite E'; reflexivity|discriminate]. }
      destruct (words (c' :: s)) as [|w ws]; [contradiction|].
      rewrite unwords_cons_head, I. reflexivity.
Qed.

Lemma norm_fixed : forall s, single_spaced s = true -> _norm s = s.
Proof.
  intros s H. rewrite norm_words, (spaced_fixed s true H).
  destruct s as [|c s]; [reflexivity|].
  unfold single_spaced in H. cbn [spaced] in H. cbn [lstrip].
  destruct (Chars.is_space c); [|reflexivity].
  rewrite andb_false_r in H. discriminate.
Qed.

End Norm.



(** * What the values found look like *)

Module Shapes.

Import Subst Norm.

(** *** Parts of a text *)

Lemma part_of_refl : forall t, part_of t t.
Proof. intros t. exists [], []. rewrite app_nil_r. reflexivity. Qed.

Lemma part_of_trans : forall a b c, part_of a b -> part_of b c -> part_of a c.
Proof.
  intros a b c (x & y & E1) (u & v & E2). subst b. subst c.
  exists (u ++ x), (y ++ v). rewrite <- !app_assoc. reflexivity.
Qed.

Lemma part_of_nil : forall t, part_of [] t.
Proof. intros t. exists [], t. reflexivity. Qed.

Lemma part_of_app : forall g a b, part_of g b -> part_of g (a ++ b).
Proof.
  intros g a b (x & y & E). subst b. exists (a ++ x), y.
  rewrite <- app_assoc. reflexivity.
Qed.

Lemma part_of_strip : forall p g, part_of (strip_by p g) g.
Proof.
  intros p g. unfold strip_by.
  destruct (lstrip_suffix p g) as (a & Ea).
  destruct (rstrip_prefix p (lstrip p g)) as (b & Eb).
  exists a, b. rewrite <- Eb. exact Ea.
Qed.

(** *** The ends of a stripped text *)

Lemma strip_head : forall p g c y, strip_by p g = c :: y -> p c = false.
Proof.
  intros p g c y H. unfold strip_by in H.
  destruct (rstrip_prefix p (lstrip p g)) as (b & Eb). rewrite H in Eb.
  assert (L := lstrip_head p g). rewrite Eb in L. exact L.
Qed.

Lemma strip_keeps_head : forall p c t,
  p c = false -> exists y, strip_by p (c :: t) = c :: y.
Proof.
  intros p c t H. unfold strip_by. cbn [lstrip]. rewrite H.
  rewrite rstrip_cons. destruct (rstrip p t); [rewrite H|]; eauto.
Qed.

Lemma strip_forallb : forall p f g,
  forallb f g = true -> forallb f (strip_by p g) = true.
Proof.
  intros p f g H. rewrite forallb_forall in *. intros c Hc.
  apply H. eapply strip_by_In. exact Hc.
Qed.

Lemma strip_idem : forall g, strip (strip g) = strip g.
Proof. intros g. apply strip_by_idem. Qed.

(** *** Captures are parts of the text *)

Lemma Run_caps_part : forall fl r s s1,
  Run fl r s s1 ->
  forall T a, T = a ++ rest s -> caps_in T (caps s) -> caps_in T (caps s1).
Proof.
  intros fl r s s1 R. induction R; intros T a E C; try assumption.
  - destruct (Run_rest _ _ _ _ R1) as (w & Ew & _).
    apply (IHR2 T (a ++ w)); [|apply (IHR1 T a); assumption].
    rewrite <- app_assoc, <- Ew. exact E.
  - apply (IHR T a); assumption.
  - apply (IHR T a); assumption.
  - destruct (Run_rest _ _ _ _ R1) as (w & Ew & _).
    apply (IHR2 T (a ++ w)); [|apply (IHR1 T a); assumption].
    rewrite <- app_assoc, <- Ew. exact E.
  - intros k g L. simpl in L. destruct (Nat.eqb n k).
    + inversion L. subst g.
      destruct (Run_rest _ _ _ _ R) as (w & Ew & _).
      rewrite (taken_app _ _ _ Ew). exists a, (rest s1).
      rewrite <- Ew. exact E.
    + apply (IHR T a E C k g L).
Qed.

(** What the first match captured is a part of the text, and so is the
    value made of it. *)
Lemma first_of_part : forall r t v, first_of r t = Some v -> part_of v t.
Proof.
  intros r t v H. unfold first_of in H.
  destruct (search IM r t) as [m|] eqn:S; [|discriminate].
  unfold search in S. apply search_from_Some in S.
  destruct S as (pre & suf & E & M & _).
  apply match_at_Run in M. destruct M as (R & _ & C).
  unfold group in H. rewrite C in H.
  destruct (lookup 1 (caps (m_after m))) as [g|] eqn:L; [|discriminate].
  inversion H. subst v.
  apply (part_of_trans _ g); [apply part_of_strip|].
  refine (Run_caps_part _ _ _ _ R t pre E _ 1 g L).
  intros n x Hx. discriminate.
Qed.

(** *** Pieces are parts *)

Lemma split_char_prefix : forall sep t q qs,
  split_char sep t = q :: qs -> exists r, t = q ++ r.
Proof.
  intros sep. induction t as [|c t IH]; intros q qs H.
  - simpl in H. inversion H. exists []. reflexivity.
  - simpl in H. destruct (Ascii.eqb c sep).
    + inversion H. exists (c :: t). reflexivity.
    + destruct (split_char sep t) as [|q' qs'] eqn:E.
      * inversion H. exists t. reflexivity.
      * inversion H. subst. destruct (IH q' qs eq_refl) as (r & Er).
        exists r. simpl. rewrite <- Er. reflexivity.
Qed.

Lemma split_char_part : forall sep t piece,
  In piece (split_char sep t) -> part_of piece t.
Proof.
  intros sep. induction t as [|c t IH]; intros piece H.
  - simpl in H. destruct H as [H|[]]. subst piece. apply part_of_refl.
  - simpl in H. destruct (Ascii.eqb c sep).
    + destruct H as [H|H]; [subst piece; apply part_of_nil|].
      apply (part_of_app piece [c] t). apply IH. exact H.
    + destruct (split_char sep t) as [|q qs] eqn:E.
      * destruct H as [H|[]]. subst piece. exists [], t. reflexivity.
      * destruct H as [H|H].
        -- subst piece. destruct (split_char_prefix sep t q qs E) as (r & Er).
           exists [], r. simpl. rewrite <- Er. reflexivity.
        -- apply (part_of_app piece [c] t). apply IH. right. exact H.
Qed.

Lemma tokens_part : forall l o, In o (tokens (Some l)) -> part_of o l.
Proof.
  intros l o H. rewrite tokens_of_value in H.
  apply in_map_iff in H. destruct H as (q & E & H). subst o.
  apply filter_In in H. destruct H as (H & _).
  apply (part_of_trans _ q); [apply part_of_strip|].
  eapply split_char_part. exact H.
Qed.

Lemma pieces_length : forall ms t off, length (pieces t off ms) = S (length ms).
Proof.
  induction ms as [|m ms IH]; intros t off; [reflexivity|].
  simpl. rewrite IH. reflexivity.
Qed.

Lemma interleave_part : forall (ps seps : list text) q,
  length ps = S (length seps) -> In q ps -> part_of q (interleave ps seps).
Proof.
  induction ps as [|p ps IH]; intros seps q L H; [contradiction|].
  destruct seps as [|x seps].
  - destruct ps; [|discriminate]. destruct H as [H|[]]. subst q.
    apply part_of_refl.
  - simpl. destruct H as [H|H].
    + subst q. exists [], (x ++ interleave ps seps). reflexivity.
    + apply part_of_app. apply part_of_app. apply IH; [simpl in L; lia|exact H].
Qed.

Lemma clean_part : forall w i, In i (_clean_commas_list w) -> part_of i w.
Proof.
  intros w i H. rewrite Interests.clean_eq in H.
  apply in_map_iff in H. destruct H as (q & E & H). subst i.
  apply filter_In in H. destruct H as (H & _).
  apply (part_of_trans _ q); [apply part_of_strip|].
  destruct (Interests.split_commas w) as (_ & I & _).
  assert (Q := interleave_part (split NOFLAGS Pat.COMMA_AND w)
                 (map (@m_whole) (finditer NOFLAGS Pat.COMMA_AND w)) q).
  rewrite I in Q. apply Q; [|exact H].
  unfold split. rewrite pieces_length, length_map. reflexivity.
Qed.

(** *** The matches of a scan are parts of the text *)

Lemma scan_part : forall fl r fuel p t off m,
  In m (scan fl r fuel p t off) ->
  part_of (m_whole m) t /\ caps_in t (m_caps m).
Proof.
  intros fl r. induction fuel as [|fuel IH]; intros p t off m H; [contradiction|].
  cbn [scan] in H. destruct (search_from fl r p t off) as [m0|] eqn:S;
    [|contradiction].
  apply search_from_Some in S. destruct S as (pre & suf & E & M & _).
  apply match_at_Run in M. destruct M as (R & W & C).
  assert (T : t = (pre ++ m_whole m0) ++ rest (m_after m0))
    by (rewrite <- app_assoc, <- W; exact E).
  destruct H as [H|H].
  - subst m0. split.
    + exists pre, (rest (m_after m)). rewrite <- W. exact E.
    + rewrite C. refine (Run_caps_part _ _ _ _ R t pre E _).
      intros n x Hx. discriminate.
  - assert (K : forall p' off', In m (scan fl r fuel p' (rest (m_after m0)) off') ->
                part_of (m_whole m) t /\ caps_in t (m_caps m)).
    { intros p' off' Hm. destruct (IH _ _ _ _ Hm) as (I1 & I2). split.
      - rewrite T. apply part_of_app. exact I1.
      - intros n g L. rewrite T. apply part_of_app. apply (I2 n g L). }
    destruct (m_whole m0) as [|c w] eqn:Ew.
    + destruct (rest (m_after m0)) as [|c t'] eqn:Er; [contradiction|].
      destruct (IH _ _ _ _ H) as (I1 & I2). split.
      * rewrite T. apply part_of_app. apply (part_of_app _ [c]). exact I1.
      * intros n g L. rewrite T. apply part_of_app. apply (part_of_app _ [c]).
        apply (I2 n g L).
    + eapply K. exact H.
Qed.

Lemma extract_all1_part : forall r t x, In x (_extract_all1 r t) -> part_of x t.
Proof.
  intros r t x H. unfold _extract_all1, findall1 in H.
  apply in_map_iff in H. destruct H as (g & E & H). subst x.
  apply in_map_iff in H. destruct H as (m & E & H). subst g.
  apply scan_part in H. destruct H as (_ & C).
  apply (part_of_trans _ _ _ (part_of_strip _ _)).
  unfold group. destruct (lookup 1 (m_caps m)) as [w|] eqn:L.
  - apply (C 1 w L).
  - apply part_of_nil.
Qed.

Lemma extract_all0_part : forall r t x, In x (_extract_all0 r t) -> part_of x t.
Proof.
  intros r t x H. unfold _extract_all0, findall0 in H.
  apply in_map_iff in H. destruct H as (g & E & H). subst x.
  apply in_map_iff in H. destruct H as (m & E & H). subst g.
  apply scan_part in H. destruct H as (W & _).
  apply (part_of_trans _ _ _ (part_of_strip _ _)). exact W.
Qed.

(** *** Expressions without groups *)

Lemma Run_plain : forall fl r s s1,
  Run fl r s s1 -> group_free r = true -> caps s1 = caps s.
Proof.
  intros fl r s s1 R. induction R; intros G; try reflexivity.
  - simpl in G. apply andb_prop in G. destruct G as (G1 & G2).
    rewrite IHR2, IHR1; auto.
  - simpl in G. apply andb_prop in G. destruct G as (G1 & G2). auto.
  - simpl in G. apply andb_prop in G. destruct G as (G1 & G2). auto.
  - rewrite IHR2, IHR1; auto.
  - discriminate.
Qed.

Lemma lit_list_plain : forall cs, group_free (lit_list cs) = true.
Proof.
  induction cs as [|c cs IH]; [reflexivity|].
  destruct cs; [reflexivity|]. simpl in *. exact IH.
Qed.

Lemma at_eol_line_end : forall s, at_eol IM s = line_end (rest s).
Proof. intros s. unfold at_eol, line_end. destruct (rest s) as [|c [|c' t]]; reflexivity. Qed.

(** *** The classes of the patterns, under [re.I] *)

Lemma cls_name : forall c,
  cls_ok IM false (Pat.letters ++ [CChar " "; CChar "-"]) c = name_char c.
Proof. intros c. each_char c; reflexivity. Qed.

Lemma cls_inst : forall c,
  cls_ok IM false (Pat.letters ++ [Pat.digit09; CChar " "; CChar "."; CChar "-";
                                   CChar "("; CChar ")"; CChar "'"]) c
  = inst_char c.
Proof. intros c. each_char c; reflexivity. Qed.

Lemma cls_capital : forall c, cls_ok IM false [CRange "A" "Z"] c = is_letter c.
Proof. intros c. each_char c; reflexivity. Qed.

Lemma cls_not_newline : forall c,
  cls_ok IM true [CChar Chars.newline] c = not_newline c.
Proof. intros c. each_char c; reflexivity. Qed.

Lemma letter_not_space : forall c, is_letter c = true -> Chars.is_space c = false.
Proof. intros c. each_char c; vm_compute; congruence. Qed.

Lemma letter_inst : forall c, is_letter c = true -> inst_char c = true.
Proof. intros c H. unfold inst_char. rewrite H. reflexivity. Qed.

(** *** A group made of one or more characters of a class *)

Lemma Run_class_group : forall g cls f s s1,
  char_pred IM cls = Some f ->
  Run IM (Group 1 (Seq cls (Star g cls))) s s1 ->
  exists c w, rest s = (c :: w) ++ rest s1
              /\ forallb f (c :: w) = true
              /\ caps s1 = (1, c :: w) :: caps s
              /\ prev s1 = prev_after (Some c) w.
Proof.
  intros g cls f s s1 P R.
  apply Run_group_inv in R. destruct R as (se & R & E). subst s1.
  apply Run_seq_inv in R. destruct R as (sf & R1 & R2).
  destruct (Run_char_inv IM cls f _ _ P R1) as (c & t1 & Ec & Pc & Es). subst sf.
  destruct (Run_star_chars IM g cls f _ _ P R2) as (w & Ew & Fw & Cw & Pw).
  simpl in Ew, Cw, Pw. exists c, w.
  assert (T : rest s = (c :: w) ++ rest se) by (rewrite Ec, Ew; reflexivity).
  split; [exact T|]. split; [simpl; rewrite Pc, Fw; reflexivity|].
  split; [|exact Pw].
  simpl. rewrite (taken_app _ _ _ T), Cw. reflexivity.
Qed.

(** *** The value of a labelled line *)

Lemma Run_labelled_value : forall lab cls f s s1,
  char_pred IM cls = Some f ->
  Run IM (labelled lab (Re.seqs [Star true Ws; Group 1 (plus true cls); Eol])) s s1 ->
  exists a c w,
    rest s = a ++ (c :: w) ++ rest s1
    /\ forallb f (c :: w) = true
    /\ caps s1 = (1, c :: w) :: caps s
    /\ line_end (rest s1) = true
    /\ prev s1 = prev_after (Some c) w.
Proof.
  intros lab cls f s s1 P R. unfold labelled in R.
  apply Run_seq_inv in R. destruct R as (s2 & R1 & R).
  apply (Run_guard_inv IM Bol (at_bol IM) _ _ eq_refl) in R1.
  destruct R1 as (E & _). subst s2.
  apply Run_seq_inv in R. destruct R as (s3 & R2 & R).
  apply Run_seq_inv in R. destruct R as (s4 & R3 & R).
  apply Run_seq_inv in R. destruct R as (s5 & R4 & R).
  cbn [Re.seqs] in R.
  apply Run_seq_inv in R. destruct R as (s6 & R5 & R).
  apply Run_seq_inv in R. destruct R as (s7 & R6 & R7).
  apply (Run_guard_inv IM Eol (at_eol IM) _ _ eq_refl) in R7.
  destruct R7 as (E & Z). subst s7. rewrite at_eol_line_end in Z.
  destruct (Run_rest _ _ _ _ R2) as (w2 & E2 & _).
  destruct (Run_rest _ _ _ _ R3) as (w3 & E3 & _).
  destruct (Run_rest _ _ _ _ R4) as (w4 & E4 & _).
  destruct (Run_rest _ _ _ _ R5) as (w5 & E5 & _).
  assert (C2 := Run_plain _ _ _ _ R2 eq_refl).
  assert (C3 := Run_plain _ _ _ _ R3 eq_refl).
  assert (C4 := Run_plain _ _ _ _ R4 (lit_list_plain lab)).
  assert (C5 := Run_plain _ _ _ _ R5 eq_refl).
  destruct (Run_class_group true cls f _ _ P R6) as (c & w & E6 & F6 & C6 & P6).
  exists (w2 ++ w3 ++ w4 ++ w5), c, w.
  split; [rewrite E2, E3, E4, E5, E6, <- !app_assoc; reflexivity|].
  split; [exact F6|]. split; [|split; assumption].
  rewrite C6, C5, C4, C3, C2. reflexivity.
Qed.

(** The value found by a labelled-line pattern: a stripped run of
    characters of the class, which the end of a line follows. *)
Lemma labelled_value : forall lab cls f t v,
  char_pred IM cls = Some f ->
  first_of (labelled lab (Re.seqs [Star true Ws; Group 1 (plus true cls); Eol])) t
    = Some v ->
  exists x c w post,
    t = x ++ (c :: w) ++ post
    /\ forallb f (c :: w) = true
    /\ v = strip (c :: w)
    /\ line_end post = true
    /\ prev_after None (x ++ c :: w) = prev_after (Some c) w.
Proof.
  intros lab cls f t v P H. unfold first_of in H.
  destruct (search IM _ t) as [m|] eqn:S; [|discriminate].
  unfold search in S. apply search_from_Some in S.
  destruct S as (pre & suf & E & M & _).
  apply match_at_Run in M. destruct M as (R & _ & C).
  unfold group in H. rewrite C in H.
  destruct (Run_labelled_value lab cls f _ _ P R) as (a & c & w & E1 & F & Cs & Z & Pv).
  rewrite Cs in H. simpl in H, E1. inversion H. subst v.
  exists (pre ++ a), c, w, (rest (m_after m)).
  split; [rewrite E, E1, <- app_assoc; reflexivity|].
  split; [exact F|]. split; [reflexivity|]. split; [exact Z|].
  rewrite prev_after_app. reflexivity.
Qed.

Lemma forallb_not_in : forall (f : ascii -> bool) x v,
  f x = false -> forallb f v = true -> ~ In x v.
Proof.
  intros f x v H F I. rewrite forallb_forall in F. apply F in I. congruence.
Qed.

Lemma nationality_value : forall t v,
  first_of Pat.NATIONALITY t = Some v ->
  strip v = v /\ forallb name_char v = true.
Proof.
  intros t v H. rewrite nationality_shape in H.
  eapply labelled_value in H; [|reflexivity].
  destruct H as (x & c & w & post & _ & F & E & _).
  subst v. split; [apply strip_idem|]. apply strip_forallb.
  rewrite <- F. apply forallb_eq. intros a. symmetry. apply cls_name.
Qed.

Lemma time_in_space_value : forall t v,
  first_of Pat.TIME_IN_SPACE t = Some v ->
  strip v = v /\ ~ In Chars.newline v.
Proof.
  intros t v H. rewrite time_in_space_shape in H.
  eapply labelled_value in H; [|reflexivity].
  destruct H as (x & c & w & post & _ & F & E & _).
  subst v. split; [apply strip_idem|].
  apply (forallb_not_in (cls_ok IM true [CChar Chars.newline])); [reflexivity|].
  apply strip_forallb. exact F.
Qed.

Lemma occupation_value : forall t v,
  first_of Pat.OCCUPATION t = Some v -> ~ In Chars.newline v.
Proof.
  intros t v H. rewrite occupation_shape in H.
  eapply labelled_value in H; [|reflexivity].
  destruct H as (x & c & w & post & _ & F & E & _).
  subst v.
  apply (forallb_not_in (cls_ok IM true [CChar Chars.newline])); [reflexivity|].
  apply strip_forallb. exact F.
Qed.

Lemma part_of_In : forall g t c, part_of g t -> In c g -> In c t.
Proof.
  intros g t c (a & b & E) H. subst t. apply in_or_app. right.
  apply in_or_app. left. exact H.
Qed.

(** *** Lines that end with a carriage return *)

Lemma crlf_line_end : forall x p y,
  crlf_lines p (x ++ y) = true -> line_end y = true ->
  match prev_after p x with
  | Some c => c = carriage_return \/ c = Chars.newline
  | None => True
  end.
Proof.
  induction x as [|a x IH]; intros p y H Z.
  - simpl in *. destruct y as [|c y].
    + destruct p as [c|]; [|exact I]. simpl in H.
      apply Ascii.eqb_eq in H. auto.
    + simpl in Z. simpl in H. rewrite Z in H.
      destruct p as [b|]; [|discriminate].
      apply andb_prop in H. destruct H as (H & _).
      apply Ascii.eqb_eq in H. auto.
  - simpl in H. apply andb_prop in H. destruct H as (_ & H).
    apply (IH (Some a) y H Z).
Qed.

Lemma prev_after_last : forall w c p, prev_after p (w ++ [c]) = Some c.
Proof.
  intros w c p. rewrite prev_after_app. reflexivity.
Qed.

Lemma prev_after_cons : forall w c,
  exists d, prev_after (Some c) w = Some d /\ In d (c :: w).
Proof.
  induction w as [|a w IH]; intros c.
  - exists c. simpl. auto.
  - destruct (IH a) as (d & E & I). exists d. split; [exact E|].
    right. exact I.
Qed.

Lemma nationality_crlf : forall t,
  crlf_lines None t = true -> first_of Pat.NATIONALITY t = None.
Proof.
  intros t H. destruct (first_of Pat.NATIONALITY t) as [v|] eqn:F; [|reflexivity].
  exfalso. rewrite nationality_shape in F.
  eapply labelled_value in F; [|reflexivity].
  destruct F as (x & c & w & post & E & Fc & _ & Z & Pv).
  subst t. rewrite app_assoc in H.
  assert (K := crlf_line_end _ _ _ H Z). rewrite Pv in K.
  destruct (prev_after_cons w c) as (d & Ed & Id). rewrite Ed in K.
  rewrite forallb_forall in Fc. apply Fc in Id. rewrite cls_name in Id.
  destruct K; subst d; discriminate.
Qed.

(** *** The parts of a candidate line *)

Lemma institution_value : forall lab line i,
  _extract_first (Seq (lit_list lab) (Group 1 Pat.inst_name)) line = Ok (Some i) ->
  strip i = i /\ forallb inst_char i = true
  /\ exists c y, i = c :: y /\ is_letter c = true.
Proof.
  intros lab line i H. apply extract_first_Some in H.
  destruct H as (pre & suf & s1 & g & _ & R & L & W).
  apply Run_seq_inv in R. destruct R as (sa & Ra & R).
  assert (Ca := Run_plain _ _ _ _ Ra (lit_list_plain lab)).
  apply Run_group_inv in R. destruct R as (sb & R & E). subst s1.
  simpl in L. inversion L. subst g. clear L.
  unfold Pat.inst_name in R.
  apply Run_seq_inv in R. destruct R as (sc & R1 & R2).
  eapply Run_char_inv in R1; [|reflexivity].
  destruct R1 as (c & t1 & Ec & Pc & Es).
  rewrite cls_capital in Pc.
  destruct (Run_rest _ _ _ _ R2) as (w & Ew & _).
  assert (T : rest sa = (c :: w) ++ rest sb).
  { rewrite Ec. rewrite Es in Ew. cbn [rest advance] in Ew. rewrite Ew. reflexivity. }
  rewrite (taken_app _ _ _ T) in W.
  assert (Fw : forallb inst_char w = true).
  { unfold plus in R2. apply Run_seq_inv in R2. destruct R2 as (sd & R3 & R4).
    eapply Run_char_inv in R3; [|reflexivity].
    destruct R3 as (c2 & t2 & Ec2 & Pc2 & Es2).
    eapply Run_star_chars in R4; [|reflexivity].
    destruct R4 as (w2 & Ew2 & Fw2 & _).
    rewrite cls_inst in Pc2.
    subst sd. cbn [rest advance] in Ew2. rewrite Ec2 in Ew. rewrite Ew2 in Ew.
    change (c2 :: w2 ++ rest sb) with ((c2 :: w2) ++ rest sb) in Ew.
    apply app_inv_tail in Ew. subst w. cbn [forallb].
    rewrite Pc2. cbn [andb].
    rewrite (forallb_eq _ _ w2 (fun a => eq_sym (cls_inst a))). exact Fw2. }
  subst i. split; [apply strip_idem|]. split.
  - apply strip_forallb. simpl. rewrite (letter_inst _ Pc), Fw. reflexivity.
  - destruct (strip_keeps_head Chars.is_space c w (letter_not_space _ Pc)) as (y & Ey).
    exists c, y. split; [exact Ey|exact Pc].
Qed.

Lemma inst_from_shape : Pat.INST_FROM = Seq (lit_list (str "from the ")) (Group 1 Pat.inst_name).
Proof. reflexivity. Qed.

Lemma inst_at_shape : Pat.INST_AT = Seq (lit_list (str "at the ")) (Group 1 Pat.inst_name).
Proof. reflexivity. Qed.

Lemma qualification_value : forall line q,
  _extract_first Pat.QUAL line = Ok (Some q) ->
  strip q = q /\ forallb name_char q = true.
Proof.
  intros line q H. apply extract_first_Some in H.
  destruct H as (pre & suf & s1 & g & _ & R & L & W).
  cbv [Pat.QUAL seqs] in R.
  apply Run_seq_inv in R. destruct R as (sa & Ra & R).
  apply Run_seq_inv in R. destruct R as (sb & Rb & R).
  apply Run_seq_inv in R. destruct R as (sc & R & Rc).
  assert (Cc := Run_plain _ _ _ _ Rc eq_refl).
  eapply Run_class_group in R; [|reflexivity].
  destruct R as (c & w & _ & F & C & _).
  rewrite Cc, C in L. simpl in L. inversion L. subst g q.
  split; [apply strip_idem|]. apply strip_forallb.
  rewrite <- F. apply forallb_eq. intros a. symmetry. apply cls_name.
Qed.

Lemma parse_line_parts : forall line inst year qual,
  parse_line line = Ok (inst, year, qual) ->
  (_extract_first Pat.INST_FROM line = Ok inst
   \/ _extract_first Pat.INST_AT line = Ok inst)
  /\ _extract_first Pat.YEAR line = Ok year
  /\ _extract_first Pat.QUAL line = Ok qual.
Proof.
  intros line inst year qual. unfold parse_line.
  destruct (extract_first_total Pat.INST_FROM line eq_refl) as (i0 & H0).
  destruct (extract_first_total Pat.INST_AT line eq_refl) as (i1 & H1).
  destruct (extract_first_total Pat.YEAR line eq_refl) as (y & Hy).
  destruct (extract_first_total Pat.QUAL line eq_refl) as (q & Hq).
  rewrite H0. simpl. destruct (negb (truthy_opt i0)).
  - rewrite H1. simpl. rewrite Hy. simpl. rewrite Hq. simpl.
    intros E. inversion E. subst. auto.
  - simpl. rewrite Hy. simpl. rewrite Hq. simpl.
    intros E. inversion E. subst. auto.
Qed.

(** [int] of [n] digits is below [10^n]. *)
Lemma int_fold_bound : forall w acc,
  forallb Chars.is_digit w = true -> (0 <= acc)%Z ->
  (0 <= fold_left (fun a c => 10 * a + digit_val c) w acc
   < (acc + 1) * 10 ^ Z.of_nat (length w))%Z.
Proof.
  induction w as [|c w IH]; intros acc F A.
  - simpl. lia.
  - simpl in F. apply andb_prop in F. destruct F as (F1 & F2).
    assert (D : (0 <= digit_val c <= 9)%Z).
    { unfold digit_val. unfold Chars.is_digit, Chars.between in F1.
      apply andb_prop in F1. destruct F1 as (L & U).
      apply Nat.leb_le in L. apply Nat.leb_le in U. lia. }
    cbn [fold_left length].
    assert (I := IH (10 * acc + digit_val c)%Z F2 ltac:(lia)).
    rewrite Nat2Z.inj_succ, Z.pow_succ_r by lia.
    assert (P : (0 < 10 ^ Z.of_nat (length w))%Z) by (apply Z.pow_pos_nonneg; lia).
    nia.
Qed.

Lemma int_bound : forall w n,
  forallb Chars.is_digit w = true -> int w = Ok n ->
  (0 <= n < 10 ^ Z.of_nat (length w))%Z.
Proof.
  intros w n F H. unfold int in H. destruct w as [|c w]; [discriminate|].
  rewrite F in H.
  assert (E : fold_left (fun a x => (10 * a + digit_val x)%Z) (c :: w) 0%Z = n)
    by congruence.
  assert (I := int_fold_bound (c :: w) 0%Z F ltac:(lia)).
  rewrite E in I. lia.
Qed.

(** *** Education entries *)

Lemma any_values_not_none : forall en, any_values en = true -> any_not_none en = true.
Proof.
  intros [[i|] [y|] [q|]] H; try reflexivity. discriminate.
Qed.

Lemma filter_all : forall (A : Type) (f : A -> bool) l,
  (forall x, In x l -> f x = true) -> filter f l = l.
Proof.
  intros A f. induction l as [|x l IH]; intros H; [reflexivity|].
  simpl. rewrite (H x (or_introl eq_refl)). f_equal.
  apply IH. intros y Hy. apply H. right. exact Hy.
Qed.

Lemma line_education_entry : forall line en,
  In en (line_education line) ->
  any_values en = true
  /\ (forall i, institution en = Some i ->
        (_extract_first Pat.INST_FROM line = Ok (Some i)
         \/ _extract_first Pat.INST_AT line = Ok (Some i)))
  /\ (forall y, year en = Some y ->
        exists w, _extract_first Pat.YEAR line = Ok (Some w) /\ int w = Ok y)
  /\ (forall q, qualification en = Some q ->
        _extract_first Pat.QUAL line = Ok (Some q)).
Proof.
  intros line en H. unfold line_education in H.
  destruct (parse_line line) as [[[inst yr] qual]|] eqn:P; [|contradiction].
  destruct (parse_line_parts _ _ _ _ P) as (Hi & Hy & Hq).
  match type of H with
  | In _ (if any_values ?e then _ else _) => destruct (any_values e) eqn:A
  end; [|contradiction].
  destruct H as [H|[]]. subst en. split; [exact A|].
  cbn [institution year qualification].
  split; [|split].
  - intros i E. subst inst. exact Hi.
  - intros y E. destruct yr as [w|]; [|discriminate].
    exists w. split; [exact Hy|].
    destruct (int w) eqn:I; [congruence|discriminate].
  - intros q E. subst qual. exact Hq.
Qed.

Lemma education_kept : forall lines,
  filter any_not_none (flat_map line_education lines)
  = flat_map line_education lines.
Proof.
  intros lines. apply filter_all. intros en H.
  apply in_flat_map in H. destruct H as (line & _ & H).
  apply any_values_not_none. apply (line_education_entry _ _ H).
Qed.

(** *** Degrees *)

Lemma degree_string_prefix : forall q inst yr,
  exists z, degree_string q inst yr = q ++ z.
Proof.
  intros q inst yr. unfold degree_string.
  destruct (truthy_opt inst), (truthy_opt yr); eexists;
    try reflexivity. symmetry. apply app_nil_r.
Qed.

Lemma line_degree_head : forall line x,
  In x (line_degrees line) ->
  exists c y, x = c :: y /\ Chars.is_space c = false.
Proof.
  intros line x H. unfold line_degrees in H.
  destruct (parse_line line) as [[[inst yr] [q|]]|] eqn:P; try contradiction.
  destruct (truthy q) eqn:T; [|contradiction].
  destruct H as [H|[]]. subst x.
  destruct (parse_line_parts _ _ _ _ P) as (_ & _ & Hq).
  apply extract_first_Some in Hq.
  destruct Hq as (_ & _ & _ & g & _ & _ & _ & W).
  destruct q as [|c q]; [discriminate|].
  symmetry in W. apply strip_head in W.
  destruct (degree_string_prefix (c :: q) inst yr) as (z & E).
  rewrite E. exists c, (q ++ z). auto.
Qed.

Lemma lit_C_not_space : forall c, lit_ok IM "C" c = true -> Chars.is_space c = false.
Proof. intros c. each_char c; vm_compute; congruence. Qed.

Lemma candidate_head : forall t x,
  In x (_extract_all1 Pat.CANDIDATE t) ->
  exists c y, x = c :: y /\ Chars.is_space c = false.
Proof.
  intros t x H. unfold _extract_all1, findall1 in H.
  apply in_map_iff in H. destruct H as (g & E & H). subst x.
  apply in_map_iff in H. destruct H as (m & E & H). subst g.
  apply Split.scan_In in H. destruct H as (p' & t' & off' & M).
  apply match_at_Run in M. destruct M as (R & _ & C).
  unfold group. rewrite C.
  cbv [Pat.CANDIDATE seqs] in R.
  apply Run_group_inv in R. destruct R as (s1 & R & E). rewrite E.
  cbn [set_cap caps lookup Nat.eqb].
  assert (K := Run_rest _ _ _ _ R). destruct K as (w & Ew & _).
  rewrite (taken_app _ _ _ Ew).
  apply Run_seq_inv in R. destruct R as (sa & Ra & Rb).
  apply Run_lit_list in Ra. destruct Ra as (w1 & E1 & L1 & S1 & _).
  destruct (Run_rest _ _ _ _ Rb) as (w2 & E2 & _).
  rewrite E2 in E1. rewrite Ew in E1. rewrite app_assoc in E1.
  apply app_inv_tail in E1. subst w.
  destruct w1 as [|c w1]; [discriminate|].
  simpl in S1. apply andb_prop in S1. destruct S1 as (S1 & _).
  destruct (strip_keeps_head Chars.is_space c (w1 ++ w2) (lit_C_not_space _ S1))
    as (y & Ey).
  exists c, y. split; [exact Ey|apply (lit_C_not_space _ S1)].
Qed.

Lemma norm_head : forall c y, Chars.is_space c = false -> _norm (c :: y) <> [].
Proof.
  intros c y H. rewrite norm_words.
  assert (N : words (c :: y) <> []).
  { apply words_some; [simpl; rewrite H; reflexivity|discriminate]. }
  assert (G := words_good (c :: y)).
  destruct (words (c :: y)) as [|w ws]; [contradiction|].
  inversion G as [|? ? Hw _]. subst.
  apply (proj2 (unwords_starts w ws Hw)).
Qed.

(** Every degree of the result is a text in normal form, and none is
    empty. *)
Lemma degrees_clean : forall ord t d,
  In d (dedup_loop [] (map _norm (flat_map line_degrees (candidate_lines ord t)
                                  ++ _extract_all1 Pat.CANDIDATE t))) ->
  d <> [] /\ _norm d = d /\ single_spaced d = true.
Proof.
  intros ord t d H. apply dedup_In in H. destruct H as (H & _).
  apply in_map_iff in H. destruct H as (x & E & H). subst d.
  split; [|split; [apply norm_idem|apply norm_spaced]].
  apply in_app_or in H. destruct H as [H|H].
  - apply in_flat_map in H. destruct H as (line & _ & H).
    destruct (line_degree_head _ _ H) as (c & y & E & S). subst x.
    apply norm_head. exact S.
  - destruct (candidate_head _ _ H) as (c & y & E & S). subst x.
    apply norm_head. exact S.
Qed.

End Shapes.


Import Subst Norm Shapes.

(** * The value read at the first bullet and after the first "enjoys" *)

Module Values.

Lemma go_lit_list : forall fl cs p t c k,
  run fl (lit_list cs) (st p (cs ++ t) c) k = k (st (prev_after p cs) t c).
Proof.
  intros fl. induction cs as [|x cs IH]; intros p t c k; [reflexivity|].
  destruct cs as [|y cs].
  - simpl. unfold one. simpl. rewrite lit_ok_refl. reflexivity.
  - change (lit_list (x :: y :: cs)) with (Seq (Lit x) (lit_list (y :: cs))).
    apply go_seq. change ((x :: y :: cs) ++ t) with (x :: (y :: cs) ++ t).
    eapply go_char; [reflexivity|apply lit_ok_refl|]. apply IH.
Qed.

Lemma hyphens_run : forall n, forallb (lit_ok IM "-") (repeat "-"%char n) = true.
Proof. induction n as [|n IH]; [reflexivity|]. simpl. exact IH. Qed.

Lemma stops_app : forall f a b,
  stops f b = true -> forallb (fun c => negb (f c)) a = true -> stops f (a ++ b) = true.
Proof.
  intros f [|c a] b B A; [exact B|]. simpl in *.
  apply andb_prop in A. destruct A as (A & _). exact A.
Qed.

Lemma spaces_not_hyphens : forall ws,
  forallb Chars.is_space ws = true ->
  forallb (fun c => negb (lit_ok IM "-" c)) ws = true.
Proof.
  intros ws H. rewrite forallb_forall in *. intros c Hc.
  rewrite lit_hyphen, (space_not_hyphen c (H c Hc)). reflexivity.
Qed.

Lemma line_end_stops : forall f post,
  f Chars.newline = false -> line_end post = true -> stops f post = true.
Proof.
  intros f [|c post] N Z; [reflexivity|]. simpl in *.
  apply Ascii.eqb_eq in Z. subst c. rewrite N. reflexivity.
Qed.


Lemma cls_sentence : forall c,
  cls_ok IM true [CChar "."; CChar Chars.newline] c = in_sentence c.
Proof. intros c. each_char c; reflexivity. Qed.

Lemma enjoys_shape :
  Pat.ENJOYS
  = Seq WordB (Seq (lit_list (str "enjoys"))
                   (Seq (plus true Ws)
                        (Group 1 (plus true (Cls true [CChar "."; CChar Chars.newline]))))).
Proof. reflexivity. Qed.

(** The first "enjoys" of the text, as a word or the end of one, and what
    follows it up to a full stop or the end of the line. *)
Lemma enjoys_first_value : forall pre ws v post,
  find IM (str "enjoys") (pre ++ str "enjoys" ++ ws ++ v ++ post) = Some (length pre) ->
  no_word_before pre = true ->
  ws <> [] -> forallb Chars.is_space ws = true ->
  v <> [] -> starts_space v = false -> forallb in_sentence v = true ->
  stops in_sentence post = true ->
  first_of Pat.ENJOYS (pre ++ str "enjoys" ++ ws ++ v ++ post) = Some (strip v).
Proof.
  intros pre ws v post F Wb Nw Fw Nv Sv Fv Z.
  rewrite enjoys_shape.
  set (cls := Cls true [CChar "."; CChar Chars.newline]).
  assert (S := search_word_prefixed_first IM (str "enjoys")
                 (Seq (plus true Ws) (Group 1 (plus true cls))) pre _ F).
  unfold no_word_before in Wb.
  set (p := prev_after None pre) in *.
  assert (R : exists s1,
    run IM (Seq WordB (Seq (lit_list (str "enjoys"))
                           (Seq (plus true Ws) (Group 1 (plus true cls)))))
        (start_state p (str "enjoys" ++ ws ++ v ++ post))
        (fun s => Some s) = Some s1
    /\ lookup 1 (caps s1) = Some v).
  { destruct v as [|c v]; [contradiction|].
    simpl in Fv. apply andb_prop in Fv. destruct Fv as (Fc & Fv).
    destruct ws as [|c0 ws]; [contradiction|].
    simpl in Fw. apply andb_prop in Fw. destruct Fw as (Fc0 & Fw).
    eexists. split.
    - unfold start_state.
      match goal with
      | |- run _ _ {| prev := ?a; rest := ?b; caps := ?c |} _ = _ =>
          fold (st a b c)
      end.
      apply go_seq.
      eapply go_guard; [reflexivity| |].
      { unfold at_wordb, word_before, word_after. cbn [prev rest st app str].
        destruct p as [b|]; [|reflexivity].
        apply negb_true_iff in Wb. rewrite Wb. reflexivity. }
      apply go_seq. rewrite go_lit_list.
      apply go_seq. unfold plus. apply go_seq. cbn [app].
      eapply go_char; [reflexivity|exact Fc0|].
      eapply go_star_run; [reflexivity|exact Fw| |].
      { simpl. simpl in Sv. rewrite Sv. reflexivity. }
      apply go_group. apply go_seq.
      eapply go_char; [reflexivity|rewrite cls_sentence; exact Fc|].
      eapply go_star_run; [reflexivity| | |reflexivity].
      + rewrite (forallb_eq _ _ v cls_sentence). exact Fv.
      + destruct post as [|d post]; [reflexivity|]. cbn [stops] in *.
        rewrite cls_sentence. exact Z.
    - unfold set_cap. cbn [caps lookup Nat.eqb]. f_equal.
      apply taken_app. reflexivity. }
  destruct R as (s1 & R & L).
  rewrite (first_of_at _ _ _ _ _ s1 S R), L. reflexivity.
Qed.

End Values.




(** * The age *)

Module Years.

Lemma Run_age_length : forall s s1,
  Run IM (range 1 3 d09) s s1 ->
  exists w, rest s = w ++ rest s1 /\ length w <= 3.
Proof.
  intros s s1 R. cbv [range rep upto Nat.sub] in R.
  apply Run_seq_inv in R. destruct R as (sa & R1 & R).
  apply Run_d09 in R1. destruct R1 as (c1 & t1 & E1 & D1 & S1). subst sa.
  apply Run_alt_inv in R. destruct R as [R|R].
  - apply Run_seq_inv in R. destruct R as (sb & R2 & R).
    apply Run_d09 in R2. destruct R2 as (c2 & t2 & E2 & D2 & S2). subst sb.
    simpl in E2. subst t1.
    apply Run_alt_inv in R. destruct R as [R|R].
    + apply Run_seq_inv in R. destruct R as (sc & R3 & R).
      apply Run_d09 in R3. destruct R3 as (c3 & t3 & E3 & D3 & S3). subst sc.
      simpl in E3. subst t2. apply Run_eps_inv in R. subst s1.
      exists [c1; c2; c3]. simpl. rewrite E1. auto.
    + apply Run_eps_inv in R. subst s1.
      exists [c1; c2]. simpl. rewrite E1. auto.
  - apply Run_eps_inv in R. subst s1.
    exists [c1]. simpl. rewrite E1. auto.
Qed.

Lemma age_capture_length : forall t w,
  first_of Pat.AGE t = Some w -> length w <= 3.
Proof.
  intros t w H.
  assert (X : _extract_first Pat.AGE t = Ok (Some w))
    by (rewrite (extract_first_eq Pat.AGE t eq_refl), H; reflexivity).
  apply extract_first_Some in X.
  destruct X as (pre & suf & s1 & g & _ & R & L & W).
  change Pat.AGE
    with (Seq (lit_list (str "(age"))
              (Seq (Star true Ws) (Seq (Group 1 (range 1 3 d09)) (Lit ")")))) in R.
  apply Run_seq_inv in R. destruct R as (sa & _ & R).
  apply Run_seq_inv in R. destruct R as (sb & _ & R).
  apply Run_seq_inv in R. destruct R as (sd & R & C).
  destruct (Run_char_inv IM (Lit ")") (lit_ok IM ")") _ _ eq_refl C)
    as (c & t' & _ & _ & S). subst s1.
  apply Run_group_inv in R. destruct R as (sc & R & E). subst sd.
  simpl in L. inversion L; subst g. clear L.
  destruct (Run_age_digits _ _ R) as (d & Ed & Nd & Fd & _).
  destruct (Run_age_length _ _ R) as (d' & Ed' & Ld).
  assert (d' = d).
  { rewrite Ed in Ed'. apply (f_equal (@length ascii)) in Ed' as Len.
    rewrite !length_app in Len.
    assert (K : length d = length d') by lia.
    clear Len. revert d' Ed' Ld K. clear. induction d as [|x d IH]; intros [|y d'] E L K;
      try discriminate; [reflexivity|].
    simpl in E. inversion E. f_equal. apply (IH d'); [assumption|simpl in L; lia|].
    simpl in K. lia. }
  subst d'.
  rewrite (taken_app _ _ _ Ed), (strip_digits _ Fd) in W. subst w. exact Ld.
Qed.

(** An annotated age has at most three digits. *)
Lemma age_explicit_range : forall t w n,
  first_of Pat.AGE t = Some w -> int w = Ok n -> (0 <= n <= 999)%Z.
Proof.
  intros t w n H I. destruct (age_capture _ _ H) as (_ & D).
  assert (L := age_capture_length _ _ H).
  assert (B := int_bound w n D I).
  assert (P : (10 ^ Z.of_nat (length w) <= 10 ^ 3)%Z).
  { apply Z.pow_le_mono_r; lia. }
  change (10 ^ 3)%Z with 1000%Z in P. lia.
Qed.

(** The age computed from a birth date counts the anniversaries that are
    not after today. *)
Lemma years_count_anniversaries : forall today b k,
  (k <= Date.year today - Date.year b - (if Date.md_before today b then 1 else 0))%Z
  <-> on_or_before (anniversary b k) today.
Proof.
  intros today b k. unfold on_or_before, anniversary, Date.md_before.
  cbn [Date.year Date.month Date.day].
  destruct (Date.month today <? Date.month b)%Z eqn:M.
  - apply Z.ltb_lt in M. cbn [orb]. split; intros H; lia.
  - apply Z.ltb_ge in M. cbn [orb].
    destruct (Date.month today =? Date.month b)%Z eqn:E.
    + apply Z.eqb_eq in E. cbn [andb].
      destruct (Date.day today <? Date.day b)%Z eqn:Dy.
      * apply Z.ltb_lt in Dy. split; intros H; lia.
      * apply Z.ltb_ge in Dy. split; intros H; lia.
    + apply Z.eqb_neq in E. cbn [andb]. split; intros H; lia.
Qed.

End Years.




(** * A list of phrases without separator *)

Module Phrases.

Lemma starts_with_exact : forall lab t,
  starts_with NOFLAGS lab t = true -> exists b, t = lab ++ b.
Proof.
  induction lab as [|x lab IH]; intros t H; [exists t; reflexivity|].
  destruct t as [|c t]; [discriminate|]. simpl in H.
  apply andb_prop in H. destruct H as (H1 & H2).
  apply Interests.lit_exact in H1. subst c.
  destruct (IH t H2) as (b & E). subst t. exists b. reflexivity.
Qed.

Lemma comma_and_shape :
  Pat.COMMA_AND = Alt (Lit ",") (Seq WordB (Seq (lit_list (str "and")) WordB)).
Proof. reflexivity. Qed.

(** Where there is neither a comma nor "and", the pattern matches
    nowhere. *)
Lemma no_separator : forall s,
  ~ In ","%char s -> (forall a b, s <> a ++ str "and" ++ b) ->
  finditer NOFLAGS Pat.COMMA_AND s = [].
Proof.
  intros s Hc Ha. unfold finditer. cbn [scan].
  rewrite search_all_fail; [reflexivity|].
  intros a b E. rewrite comma_and_shape. cbn [run].
  assert (X : run NOFLAGS (Lit ",") (start_state (prev_after None a) b)
                (fun s1 => Some s1) = None).
  { destruct b as [|c b]; [reflexivity|].
    unfold start_state. fold (st (prev_after None a) (c :: b) []).
    eapply no_char; [reflexivity|].
    destruct (lit_ok NOFLAGS "," c) eqn:L; [|reflexivity].
    apply Interests.lit_exact in L. subst c. exfalso. apply Hc.
    rewrite E. apply in_or_app. right. left. reflexivity. }
  change (one (lit_ok NOFLAGS ",") (start_state (prev_after None a) b)
            (fun s1 => Some s1))
    with (run NOFLAGS (Lit ",") (start_state (prev_after None a) b)
            (fun s1 => Some s1)).
  rewrite X.
  apply (word_prefixed_fails NOFLAGS (str "and") WordB).
  destruct (starts_with NOFLAGS (str "and") b) eqn:W; [|reflexivity].
  exfalso. apply starts_with_exact in W. destruct W as (b' & Eb).
  apply (Ha a b'). rewrite E, Eb. reflexivity.
Qed.

Lemma clean_whole : forall s,
  ~ In ","%char s -> (forall a b, s <> a ++ str "and" ++ b) ->
  _clean_commas_list s
  = match strip_by punct s with
    | [] => []
    | w => [w]
    end.
Proof.
  intros s Hc Ha. rewrite Interests.clean_eq. unfold split.
  rewrite (no_separator s Hc Ha). cbn [pieces filter map].
  destruct (strip_by punct s) eqn:E; [reflexivity|].
  cbn [truthy map]. rewrite E. reflexivity.
Qed.

End Phrases.




(** * Matching under [re.I] does not see the case of the text *)

Module Case.

(** *** Characters *)

Lemma swapcase_twice : forall c, Chars.swapcase (Chars.swapcase c) = c.
Proof. intros c. each_char c; reflexivity. Qed.

Lemma lower_cases : forall c, c = lower c \/ c = Chars.swapcase (lower c).
Proof. intros c. each_char c; vm_compute; auto. Qed.

Lemma lower_swapcase : forall c, lower c = c \/ lower c = Chars.swapcase c.
Proof. intros c. each_char c; vm_compute; auto. Qed.

Lemma same_lower : forall c c',
  lower c = lower c' -> c' = c \/ c' = Chars.swapcase c.
Proof.
  intros c c' H. destruct (lower_cases c') as [E|E]; rewrite <- H in E.
  - destruct (lower_swapcase c) as [L|L]; rewrite L in E; auto.
  - destruct (lower_swapcase c) as [L|L]; rewrite L in E; auto.
    rewrite swapcase_twice in E. auto.
Qed.

Lemma blind : forall p c c', case_blind p -> lower c = lower c' -> p c = p c'.
Proof.
  intros p c c' B H. destruct (same_lower c c' H) as [E|E]; subst c'.
  - reflexivity.
  - symmetry. apply B.
Qed.

Lemma blind_space : case_blind Chars.is_space.
Proof. intros c. each_char c; reflexivity. Qed.

Lemma blind_digit : case_blind Chars.is_digit.
Proof. intros c. each_char c; reflexivity. Qed.

Lemma blind_word : case_blind Chars.is_word.
Proof. intros c. each_char c; reflexivity. Qed.

Lemma blind_newline : case_blind (fun c => Ascii.eqb c Chars.newline).
Proof. intros c. each_char c; reflexivity. Qed.

Lemma blind_any : case_blind (fun c => negb (Ascii.eqb c Chars.newline)).
Proof. intros c. each_char c; reflexivity. Qed.

Lemma blind_comma : case_blind (fun c => Ascii.eqb c ",").
Proof. intros c. each_char c; reflexivity. Qed.

Lemma blind_blank : case_blind (Ascii.eqb " ").
Proof. intros c. each_char c; reflexivity. Qed.

Lemma blind_lit : forall x, case_blind (lit_ok IM x).
Proof.
  intros x c. unfold lit_ok. cbn [icase IM andb].
  rewrite swapcase_twice. apply orb_comm.
Qed.

Lemma blind_cls : forall neg items, case_blind (cls_ok IM neg items).
Proof.
  intros neg items c. unfold cls_ok. cbn [icase IM andb].
  rewrite swapcase_twice.
  rewrite (orb_comm (set_has items (Chars.swapcase c))). reflexivity.
Qed.

Lemma char_pred_blind : forall r p, char_pred IM r = Some p -> case_blind p.
Proof.
  intros r p H. destruct r; simpl in H; inversion H; subst p.
  - apply blind_lit.
  - apply blind_any.
  - apply blind_cls.
  - apply blind_space.
  - apply blind_digit.
Qed.

(** *** Texts and states *)

Lemma fold_length : forall a b, fold_case a = fold_case b -> length a = length b.
Proof.
  intros a b H. apply (f_equal (@length ascii)) in H.
  unfold fold_case in H. rewrite !length_map in H. exact H.
Qed.

Lemma fold_cons : forall c t b,
  fold_case (c :: t) = fold_case b ->
  exists c' t', b = c' :: t' /\ lower c = lower c' /\ fold_case t = fold_case t'.
Proof.
  intros c t [|c' t'] H; [discriminate|]. simpl in H. inversion H. eauto.
Qed.

Lemma fold_nil : forall b, fold_case [] = fold_case b -> b = [].
Proof. intros [|c b] H; [reflexivity|discriminate]. Qed.

Lemma fold_firstn : forall n a, fold_case (firstn n a) = firstn n (fold_case a).
Proof. intros n a. unfold fold_case. symmetry. apply firstn_map. Qed.

Lemma same_prev : forall s s', fold_state s = fold_state s' ->
  option_map lower (prev s) = option_map lower (prev s').
Proof. intros s s' H. apply (f_equal prev) in H. exact H. Qed.

Lemma same_rest : forall s s', fold_state s = fold_state s' ->
  fold_case (rest s) = fold_case (rest s').
Proof. intros s s' H. apply (f_equal rest) in H. exact H. Qed.

Lemma same_caps : forall s s', fold_state s = fold_state s' ->
  fold_caps (caps s) = fold_caps (caps s').
Proof. intros s s' H. apply (f_equal caps) in H. exact H. Qed.

Lemma same_state : forall s s',
  option_map lower (prev s) = option_map lower (prev s') ->
  fold_case (rest s) = fold_case (rest s') ->
  fold_caps (caps s) = fold_caps (caps s') ->
  fold_state s = fold_state s'.
Proof. intros s s' A B C. unfold fold_state. rewrite A, B, C. reflexivity. Qed.

Lemma same_taken : forall s s' x x',
  fold_state s = fold_state s' -> fold_state x = fold_state x' ->
  fold_case (taken s x) = fold_case (taken s' x').
Proof.
  intros s s' x x' H1 H2. unfold taken. rewrite !fold_firstn.
  rewrite (fold_length _ _ (same_rest _ _ H1)), (fold_length _ _ (same_rest _ _ H2)).
  rewrite (same_rest _ _ H1). reflexivity.
Qed.

(** *** The matcher *)

Lemma one_same : forall p s s' k k',
  case_blind p -> fold_state s = fold_state s' -> same_cont k k' ->
  option_map fold_state (one p s k) = option_map fold_state (one p s' k').
Proof.
  intros p s s' k k' B H K. unfold one.
  assert (R := same_rest _ _ H).
  destruct (rest s) as [|c t] eqn:E.
  - rewrite (fold_nil _ R). reflexivity.
  - destruct (fold_cons _ _ _ R) as (c' & t' & E' & L & T). rewrite E'.
    rewrite <- (blind p c c' B L). destruct (p c); [|reflexivity].
    apply K. apply same_state; cbn [advance prev rest caps].
    + simpl. rewrite L. reflexivity.
    + exact T.
    + apply (same_caps _ _ H).
Qed.

Lemma same_at_bol : forall s s',
  fold_state s = fold_state s' -> at_bol IM s = at_bol IM s'.
Proof.
  intros s s' H. apply same_prev in H. unfold at_bol.
  destruct (prev s) as [c|], (prev s') as [c'|]; try discriminate; [|reflexivity].
  simpl in H. inversion H as [L]. cbn [multiline IM andb].
  apply (blind _ c c' blind_newline L).
Qed.

Lemma same_at_eol : forall s s',
  fold_state s = fold_state s' -> at_eol IM s = at_eol IM s'.
Proof.
  intros s s' H. apply same_rest in H. rewrite !at_eol_line_end. unfold line_end.
  destruct (rest s) as [|c t].
  - rewrite (fold_nil _ H). reflexivity.
  - destruct (fold_cons _ _ _ H) as (c' & t' & E' & L & _). rewrite E'.
    apply (blind _ c c' blind_newline L).
Qed.

Lemma same_at_wordb : forall s s',
  fold_state s = fold_state s' -> at_wordb s = at_wordb s'.
Proof.
  intros s s' H. unfold at_wordb, word_before, word_after.
  assert (P := same_prev _ _ H). assert (R := same_rest _ _ H).
  assert (A : match prev s with Some c => Chars.is_word c | None => false end
            = match prev s' with Some c => Chars.is_word c | None => false end).
  { destruct (prev s) as [c|], (prev s') as [c'|]; try discriminate; [|reflexivity].
    simpl in P. inversion P as [L]. apply (blind _ c c' blind_word L). }
  assert (B : match rest s with c :: _ => Chars.is_word c | [] => false end
            = match rest s' with c :: _ => Chars.is_word c | [] => false end).
  { destruct (rest s) as [|c t].
    - rewrite (fold_nil _ R). reflexivity.
    - destruct (fold_cons _ _ _ R) as (c' & t' & E' & L & _). rewrite E'.
      apply (blind _ c c' blind_word L). }
  rewrite A, B. reflexivity.
Qed.

Lemma guard_same : forall b s s' k k',
  fold_state s = fold_state s' -> same_cont k k' ->
  option_map fold_state (guard b s k) = option_map fold_state (guard b s' k').
Proof.
  intros b s s' k k' H K. unfold guard. destruct b; [|reflexivity].
  apply K. exact H.
Qed.

Lemma same_results : forall (a b : option mstate),
  option_map fold_state a = option_map fold_state b ->
  (a = None /\ b = None) \/ (exists x y, a = Some x /\ b = Some y).
Proof.
  intros [x|] [y|] H; try discriminate; eauto.
Qed.

Lemma star_loop_same : forall body body' g,
  (forall s s' k k', fold_state s = fold_state s' -> same_cont k k' ->
     option_map fold_state (body s k) = option_map fold_state (body' s' k')) ->
  forall n s s' k k', fold_state s = fold_state s' -> same_cont k k' ->
    option_map fold_state (star_loop body g k n s)
    = option_map fold_state (star_loop body' g k' n s').
Proof.
  intros body body' g B. induction n as [|n IH]; intros s s' k k' H K.
  - simpl. apply K. exact H.
  - rewrite !star_loop_S.
    assert (M : same_cont
                  (fun s1 => if length (rest s1) <? length (rest s)
                             then star_loop body g k n s1 else None)
                  (fun s1 => if length (rest s1) <? length (rest s')
                             then star_loop body' g k' n s1 else None)).
    { intros x x' Hx.
      rewrite (fold_length _ _ (same_rest _ _ Hx)), (fold_length _ _ (same_rest _ _ H)).
      destruct (length (rest x') <? length (rest s')); [|reflexivity].
      apply IH; assumption. }
    assert (X := B s s' _ _ H M). assert (Y := K s s' H).
    destruct g.
    + destruct (same_results _ _ X) as [(E1 & E2)|(a & b & E1 & E2)];
        rewrite E1, E2 in *; [exact Y|exact X].
    + destruct (same_results _ _ Y) as [(E1 & E2)|(a & b & E1 & E2)];
        rewrite E1, E2 in *; [exact X|exact Y].
Qed.

(** Two attempts on states that are the same up to case make the same
    choices. *)
Theorem run_same : forall r s s' k k',
  fold_state s = fold_state s' -> same_cont k k' ->
  option_map fold_state (run IM r s k) = option_map fold_state (run IM r s' k').
Proof.
  induction r; intros s s' k k' H K; cbn [run].
  - apply K. exact H.
  - apply one_same; [apply blind_lit|assumption|assumption].
  - apply one_same; [apply blind_any|assumption|assumption].
  - apply one_same; [apply blind_cls|assumption|assumption].
  - apply one_same; [apply blind_space|assumption|assumption].
  - apply one_same; [apply blind_digit|assumption|assumption].
  - rewrite (same_at_bol _ _ H). apply guard_same; assumption.
  - rewrite (same_at_eol _ _ H). apply guard_same; assumption.
  - rewrite (same_at_wordb _ _ H). apply guard_same; assumption.
  - apply IHr1; [exact H|]. intros x x' Hx. apply IHr2; assumption.
  - assert (X := IHr1 s s' k k' H K).
    destruct (same_results _ _ X) as [(E1 & E2)|(a & b & E1 & E2)];
      rewrite E1, E2 in *; [|exact X].
    apply IHr2; assumption.
  - rewrite (fold_length _ _ (same_rest _ _ H)).
    apply star_loop_same; [|exact H|exact K].
    intros. apply IHr; assumption.
  - apply IHr; [exact H|]. intros x x' Hx. apply K.
    apply same_state; cbn [set_cap prev rest caps].
    + apply (same_prev _ _ Hx).
    + apply (same_rest _ _ Hx).
    + unfold fold_caps. cbn [map fst snd].
      rewrite (same_taken _ _ _ _ H Hx). f_equal. apply (same_caps _ _ Hx).
  - assert (X := IHr s s' (fun s1 => Some s1) (fun s1 => Some s1) H).
    destruct (same_results _ _ (X ltac:(intros x x' Hx; simpl; rewrite Hx; reflexivity)))
      as [(E1 & E2)|(a & b & E1 & E2)]; rewrite E1, E2; [|reflexivity].
    apply K. exact H.
Qed.

(** *** Searching *)

Lemma same_some : forall x x',
  fold_state x = fold_state x' ->
  option_map fold_state (Some x) = option_map fold_state (Some x').
Proof. intros x x' H. simpl. rewrite H. reflexivity. Qed.

Lemma start_same : forall p p' t t',
  option_map lower p = option_map lower p' -> fold_case t = fold_case t' ->
  fold_state (start_state p t) = fold_state (start_state p' t').
Proof. intros p p' t t' P T. apply same_state; simpl; auto. Qed.

Lemma match_at_same : forall r p p' t t' off,
  option_map lower p = option_map lower p' -> fold_case t = fold_case t' ->
  same_match (match_at IM r p t off) (match_at IM r p' t' off).
Proof.
  intros r p p' t t' off P T. unfold match_at.
  assert (S := start_same p p' t t' P T).
  assert (X := run_same r _ _ (fun s1 => Some s1) (fun s1 => Some s1) S same_some).
  destruct (run IM r (start_state p t) (fun s1 => Some s1)) as [x|],
           (run IM r (start_state p' t') (fun s1 => Some s1)) as [y|];
    try discriminate; [|exact I].
  assert (Hx : fold_state x = fold_state y) by (simpl in X; congruence).
  cbn [same_match m_start m_whole m_caps].
  split; [reflexivity|]. split.
  - apply same_taken; assumption.
  - apply (f_equal caps) in Hx. exact Hx.
Qed.

Lemma search_from_same : forall r t t' p p' off,
  option_map lower p = option_map lower p' -> fold_case t = fold_case t' ->
  same_match (search_from IM r p t off) (search_from IM r p' t' off).
Proof.
  intros r. induction t as [|c t IH]; intros t' p p' off P T.
  - rewrite (fold_nil _ T). cbn [search_from].
    assert (M := match_at_same r p p' [] [] off P eq_refl).
    destruct (match_at IM r p [] off), (match_at IM r p' [] off);
      try contradiction; exact M.
  - destruct (fold_cons _ _ _ T) as (c' & t1 & E & L & T1). subst t'.
    cbn [search_from].
    assert (M := match_at_same r p p' (c :: t) (c' :: t1) off P T).
    destruct (match_at IM r p (c :: t) off), (match_at IM r p' (c' :: t1) off);
      try contradiction; [exact M|].
    apply IH; [simpl; rewrite L; reflexivity|exact T1].
Qed.

Lemma lookup_same : forall n cs cs',
  fold_caps cs = fold_caps cs' ->
  option_map fold_case (lookup n cs) = option_map fold_case (lookup n cs').
Proof.
  intros n. induction cs as [|[k w] cs IH]; intros [|[k' w'] cs'] H;
    try discriminate; [reflexivity|].
  simpl in H. inversion H. subst k'. simpl.
  destruct (Nat.eqb k n); [simpl; congruence|]. apply IH. assumption.
Qed.

Lemma lstrip_same : forall p a b,
  case_blind p -> fold_case a = fold_case b ->
  fold_case (lstrip p a) = fold_case (lstrip p b).
Proof.
  intros p. induction a as [|c a IH]; intros b B H.
  - rewrite (fold_nil _ H). reflexivity.
  - destruct (fold_cons _ _ _ H) as (c' & b' & E & L & T). subst b.
    cbn [lstrip]. rewrite <- (blind p c c' B L).
    destruct (p c); [apply IH; assumption|exact H].
Qed.

Lemma fold_rev : forall a, fold_case (rev a) = rev (fold_case a).
Proof. intros a. unfold fold_case. apply map_rev. Qed.

Lemma rstrip_same : forall p a b,
  case_blind p -> fold_case a = fold_case b ->
  fold_case (rstrip p a) = fold_case (rstrip p b).
Proof.
  intros p a b B H. unfold rstrip. rewrite !fold_rev. f_equal.
  apply lstrip_same; [exact B|]. rewrite !fold_rev, H. reflexivity.
Qed.

Lemma strip_same : forall a b,
  fold_case a = fold_case b -> fold_case (strip a) = fold_case (strip b).
Proof.
  intros a b H. unfold strip, strip_by.
  apply rstrip_same; [apply blind_space|].
  apply lstrip_same; [apply blind_space|exact H].
Qed.

(** The first match of a pattern in two texts that are the same up to
    case. *)
Theorem first_of_same : forall r t t',
  same_but_case t t' ->
  option_map fold_case (first_of r t) = option_map fold_case (first_of r t').
Proof.
  intros r t t' H. unfold first_of, search.
  assert (M := search_from_same r t t' None None 0 eq_refl H).
  destruct (search_from IM r None t 0) as [m|],
           (search_from IM r None t' 0) as [m'|]; try contradiction; [|reflexivity].
  destruct M as (_ & _ & C). unfold group.
  assert (L := lookup_same 1 _ _ C).
  destruct (lookup 1 (m_caps m)) as [g|], (lookup 1 (m_caps m')) as [g'|];
    try discriminate; [|reflexivity].
  simpl in *. inversion L as [G]. rewrite (strip_same _ _ G). reflexivity.
Qed.

(** *** The fields *)

Lemma truthy_same : forall a b, fold_case a = fold_case b -> truthy a = truthy b.
Proof. intros [|c a] [|c' b] H; try discriminate; reflexivity. Qed.

Lemma split_char_same : forall a b,
  fold_case a = fold_case b ->
  map fold_case (split_char "," a) = map fold_case (split_char "," b).
Proof.
  induction a as [|c a IH]; intros b H.
  - rewrite (fold_nil _ H). reflexivity.
  - destruct (fold_cons _ _ _ H) as (c' & b' & E & L & T). subst b.
    cbn [split_char]. rewrite <- (blind _ c c' blind_comma L).
    assert (I := IH b' T).
    destruct (Ascii.eqb c ","); [simpl; rewrite I; reflexivity|].
    destruct (split_char "," a) as [|q qs], (split_char "," b') as [|q' qs'];
      try discriminate; simpl in *.
    + rewrite L. reflexivity.
    + inversion I. rewrite L. congruence.
Qed.

Lemma tokens_list_same : forall (l l' : list text),
  map fold_case l = map fold_case l' ->
  map fold_case (map strip (filter (fun o => truthy (strip o)) l))
  = map fold_case (map strip (filter (fun o => truthy (strip o)) l')).
Proof.
  induction l as [|o l IH]; intros [|o' l'] H; try discriminate; [reflexivity|].
  simpl in H. inversion H as [[Ho Hl]]. cbn [filter].
  assert (S := strip_same o o' Ho). rewrite (truthy_same _ _ S).
  destruct (truthy (strip o')); [|apply IH; exact Hl].
  cbn [map]. rewrite S, (IH l' Hl). reflexivity.
Qed.

Lemma tokens_same : forall v v',
  option_map fold_case v = option_map fold_case v' ->
  map fold_case (tokens v) = map fold_case (tokens v').
Proof.
  intros [l|] [l'|] H; try discriminate; [|reflexivity].
  simpl in H. inversion H as [L]. unfold tokens.
  rewrite (truthy_same _ _ L). destruct (truthy l'); [|reflexivity].
  apply tokens_list_same. apply split_char_same. exact L.
Qed.

Lemma digits_same : forall a b,
  fold_case a = fold_case b -> forallb Chars.is_digit a = true -> b = a.
Proof.
  induction a as [|c a IH]; intros b H D.
  - apply fold_nil. exact H.
  - destruct (fold_cons _ _ _ H) as (c' & b' & E & L & T). subst b.
    simpl in D. apply andb_prop in D. destruct D as (D1 & D2).
    rewrite (IH b' T D2). f_equal.
    destruct (same_lower c c' L) as [X|X]; [exact X|].
    rewrite X. revert D1. clear. each_char c; vm_compute; congruence.
Qed.

Lemma forallb_same : forall p a b,
  case_blind p -> fold_case a = fold_case b -> forallb p a = forallb p b.
Proof.
  intros p. induction a as [|c a IH]; intros b B H.
  - rewrite (fold_nil _ H). reflexivity.
  - destruct (fold_cons _ _ _ H) as (c' & b' & E & L & T). subst b.
    simpl. rewrite (blind p c c' B L), (IH b' B T). reflexivity.
Qed.

Lemma int_same : forall a b, fold_case a = fold_case b -> int a = int b.
Proof.
  intros a b H. destruct (forallb Chars.is_digit a) eqn:D.
  - rewrite (digits_same a b H D). reflexivity.
  - assert (D' := forallb_same _ a b blind_digit H). rewrite D in D'.
    unfold int. rewrite D, <- D'.
    destruct a as [|c a], b as [|c' b]; try discriminate; reflexivity.
Qed.

Lemma index_of_same : forall names w w' i,
  fold_case w = fold_case w' ->
  Date.index_of names w i = Date.index_of names w' i.
Proof.
  induction names as [|n names IH]; intros w w' i H; [reflexivity|].
  cbn [Date.index_of].
  change (map (fun c => if Chars.is_upper c then Chars.swapcase c else c) w)
    with (fold_case w).
  change (map (fun c => if Chars.is_upper c then Chars.swapcase c else c) w')
    with (fold_case w').
  rewrite H. rewrite (IH w w' (i + 1)%Z H). reflexivity.
Qed.

Lemma field_same : forall n m m' d,
  fold_caps (m_caps m) = fold_caps (m_caps m') ->
  Date.field n m d = Date.field n m' d.
Proof.
  intros n m m' d C. unfold Date.field, group.
  assert (L := lookup_same n _ _ C).
  destruct (lookup n (m_caps m)) as [w|], (lookup n (m_caps m')) as [w'|];
    try discriminate; [|reflexivity].
  simpl in L. inversion L as [W]. apply int_same.
  apply lstrip_same; [apply blind_blank|exact W].
Qed.

Lemma strptime_same : forall w w' fmt,
  fold_case w = fold_case w' -> Date.strptime w fmt = Date.strptime w' fmt.
Proof.
  intros w w' fmt H. unfold Date.strptime.
  assert (M := match_at_same (Date.format_regex fmt) None None w w' 0 eq_refl H).
  destruct (match_at IM (Date.format_regex fmt) None w 0) as [m|],
           (match_at IM (Date.format_regex fmt) None w' 0) as [m'|];
    try contradiction; [|reflexivity].
  destruct M as (_ & W & C).
  rewrite (fold_length _ _ W), (fold_length _ _ H).
  destruct (negb (length (m_whole m') =? length w')); [reflexivity|].
  rewrite (field_same Date.gY m m' _ C), (field_same Date.gd m m' _ C),
          (field_same Date.gm m m' _ C).
  unfold group. assert (L := lookup_same Date.gB _ _ C).
  destruct (lookup Date.gB (m_caps m)) as [g|], (lookup Date.gB (m_caps m')) as [g'|];
    try discriminate; [|reflexivity].
  simpl in L. inversion L as [G].
  rewrite (index_of_same Date.month_names g g' 1%Z G). reflexivity.
Qed.

Lemma attempt_same : forall pattern fmt t t' next,
  sets_group 1 pattern = true -> same_but_case t t' ->
  attempt pattern fmt t next = attempt pattern fmt t' next.
Proof.
  intros pattern fmt t t' next G H. unfold attempt.
  rewrite !(extract_first_eq pattern _ G). cbn [bind].
  assert (F := first_of_same pattern t t' H).
  destruct (first_of pattern t) as [w|], (first_of pattern t') as [w'|];
    try discriminate; [|reflexivity].
  simpl in F. inversion F as [W].
  rewrite (truthy_same _ _ W), (strptime_same w w' fmt W). reflexivity.
Qed.

Lemma birthdate_same : forall t t',
  same_but_case t t' -> _parse_birthdate t = _parse_birthdate t'.
Proof.
  intros t t' H. unfold _parse_birthdate.
  rewrite (attempt_same Pat.D_MONTH_YYYY _ t t' _ eq_refl H).
  rewrite (attempt_same Pat.MONTH_D_YYYY _ t t' _ eq_refl H).
  rewrite (attempt_same Pat.BORN_ISO _ t t' _ eq_refl H).
  reflexivity.
Qed.

Lemma age_same : forall today t t' b,
  same_but_case t t' -> _parse_age today t b = _parse_age today t' b.
Proof.
  intros today t t' b H. unfold _parse_age.
  rewrite !(extract_first_eq Pat.AGE _ eq_refl). cbn [bind].
  assert (F := first_of_same Pat.AGE t t' H).
  destruct (first_of Pat.AGE t) as [w|], (first_of Pat.AGE t') as [w'|];
    try discriminate; [|reflexivity].
  simpl in F. inversion F as [W].
  rewrite (truthy_same _ _ W), (int_same w w' W). reflexivity.
Qed.

End Case.




(** * File names and person names *)

Module Names.

Import Sc.

Lemma cls_forbidden : forall c,
  cls_ok NOFLAGS false (map CChar forbidden_chars) c = forbidden c.
Proof. intros c. each_char c; reflexivity. Qed.

Lemma forbidden_at : forall p c t,
  forbidden c = true ->
  run NOFLAGS FORBIDDEN (start_state p (c :: t)) (fun s => Some s)
  = Some (st (Some c) t []).
Proof.
  intros p c t H. unfold FORBIDDEN, start_state. fold (st p (c :: t) []).
  eapply go_char; [reflexivity|rewrite cls_forbidden; exact H|reflexivity].
Qed.

Lemma forbidden_not_at : forall p t,
  stops forbidden t = true ->
  run NOFLAGS FORBIDDEN (start_state p t) (fun s => Some s) = None.
Proof.
  intros p [|c t] H; [reflexivity|]. simpl in H. apply negb_true_iff in H.
  unfold FORBIDDEN, start_state. fold (st p (c :: t) []).
  eapply no_char; [reflexivity|rewrite cls_forbidden; exact H].
Qed.

Lemma allowed_stops : forall a c p2 t,
  forallb allowed a = true -> forall p1, a = p1 ++ c :: p2 ->
  stops forbidden (c :: p2 ++ t) = true.
Proof.
  intros a c p2 t F p1 E. subst a. rewrite forallb_app in F.
  apply andb_prop in F. destruct F as (_ & F). simpl in F.
  apply andb_prop in F. destruct F as (F & _). exact F.
Qed.

Lemma search_forbidden : forall a c t p off,
  forallb allowed a = true -> forbidden c = true ->
  search_from NOFLAGS FORBIDDEN p (a ++ [c] ++ t) off
  = Some {| m_start := off + length a;
            m_whole := [c];
            m_caps := [];
            m_after := st (Some c) t [] |}.
Proof.
  intros a c t p off A F. rewrite search_from_skip.
  - rewrite (search_from_here _ _ _ _ _ _ (forbidden_at (prev_after p a) c t F)).
    f_equal. f_equal.
    change (taken (st (prev_after p a) ([c] ++ t) []) (st (Some c) t []) = [c]).
    apply taken_st.
  - intros p1 x p2 E. apply forbidden_not_at.
    apply (allowed_stops a x p2 ([c] ++ t) A p1 E).
Qed.

Lemma search_forbidden_none : forall a p off,
  forallb allowed a = true ->
  search_from NOFLAGS FORBIDDEN p a off = None.
Proof.
  intros a p off A. apply search_all_fail. intros x y E.
  apply forbidden_not_at. destruct y as [|c y]; [reflexivity|].
  rewrite <- (app_nil_r y). apply (allowed_stops a c y [] A x). exact E.
Qed.

Lemma filter_allowed : forall a, forallb allowed a = true -> filter allowed a = a.
Proof.
  intros a H. apply filter_all. intros c Hc.
  rewrite forallb_forall in H. auto.
Qed.

Lemma sub_forbidden_from : forall fuel p t off,
  length t < fuel ->
  sub_from NOFLAGS FORBIDDEN [] fuel p t off = filter allowed t.
Proof.
  induction fuel as [|fuel IH]; intros p t off L; [lia|].
  destruct (run_split allowed t) as (a & b & E & A & B). subst t.
  destruct b as [|c b].
  - rewrite app_nil_r. rewrite sub_from_none by (apply search_forbidden_none; exact A).
    symmetry. apply filter_allowed. exact A.
  - simpl in B. unfold allowed in B. rewrite negb_involutive in B.
    change (c :: b) with ([c] ++ b).
    rewrite (sub_from_hit _ _ _ _ _ _ _ _ _ _
               (search_forbidden a c b p off A B)
               eq_refl eq_refl ltac:(discriminate) eq_refl).
    rewrite IH by (rewrite !length_app in L; simpl in L; lia).
    rewrite filter_app, (filter_allowed a A). cbn [app filter].
    unfold allowed at 2. rewrite B. reflexivity.
Qed.

(** [sanitize_filename] drops the characters of the class and keeps the
    others. *)
Lemma sanitize_filter : forall name,
  sanitize_filename name = filter allowed name.
Proof.
  intros name. unfold sanitize_filename. rewrite sub_eq.
  apply sub_forbidden_from. lia.
Qed.

Lemma filter_forbidden : forall a,
  forallb forbidden a = true -> filter allowed a = [].
Proof.
  induction a as [|c a IH]; intros H; [reflexivity|].
  simpl in H. apply andb_prop in H. destruct H as (H1 & H2).
  cbn [filter]. unfold allowed at 1. rewrite H1. cbn [negb]. apply IH. exact H2.
Qed.

Lemma filter_fixed : forall (A : Type) (f : A -> bool) l,
  filter f l = l -> forallb f l = true.
Proof.
  intros A f l H. apply forallb_forall. intros x Hx.
  rewrite <- H in Hx. apply filter_In in Hx. apply Hx.
Qed.

(** *** Stripped texts *)

(** A text with no white space at its ends. *)
Lemma strip_fixed_ends : forall c t,
  Chars.is_space c = false -> rstrip Chars.is_space (c :: t) = c :: t ->
  strip (c :: t) = c :: t.
Proof.
  intros c t H R. unfold strip, strip_by. cbn [lstrip]. rewrite H. exact R.
Qed.

Lemma rstrip_app_keep : forall p a b,
  rstrip p b <> [] -> rstrip p (a ++ b) = a ++ rstrip p b.
Proof.
  intros p. induction a as [|c a IH]; intros b N; [reflexivity|].
  simpl. rewrite rstrip_cons, (IH b N).
  destruct (a ++ rstrip p b) eqn:E; [|reflexivity].
  destruct a; simpl in E; [contradiction|discriminate].
Qed.

Lemma rstrip_idem' : forall p t, rstrip p (rstrip p t) = rstrip p t.
Proof. apply rstrip_idem. Qed.

Lemma strip_nonempty_rstrip : forall t,
  strip t <> [] -> rstrip Chars.is_space t <> [].
Proof.
  intros t N E. apply N. unfold strip, strip_by.
  destruct (lstrip_suffix Chars.is_space t) as (a & Ea).
  assert (K : forall a b, rstrip Chars.is_space (a ++ b) = [] ->
              rstrip Chars.is_space b = []).
  { clear. induction a as [|c a IH]; intros b H; [exact H|].
    simpl in H. rewrite rstrip_cons in H.
    destruct (rstrip Chars.is_space (a ++ b)) eqn:R; [|discriminate].
    apply IH. exact R. }
  apply (K a). rewrite <- Ea. exact E.
Qed.

(** [s.strip()] of a text with a comma in the middle. *)
Lemma strip_around : forall a x b,
  strip a <> [] -> strip b <> [] ->
  strip (a ++ x :: b)
  = lstrip Chars.is_space a ++ x :: rstrip Chars.is_space b.
Proof.
  intros a x b Na Nb. unfold strip, strip_by.
  assert (La : lstrip Chars.is_space (a ++ x :: b)
               = lstrip Chars.is_space a ++ x :: b).
  { assert (N : lstrip Chars.is_space a <> []).
    { intros E. apply Na. unfold strip, strip_by. rewrite E. reflexivity. }
    clear Na Nb. induction a as [|c a IH]; [contradiction|].
    cbn [lstrip app] in *. destruct (Chars.is_space c); [apply IH; exact N|reflexivity]. }
  rewrite La.
  change (lstrip Chars.is_space a ++ x :: b)
    with (lstrip Chars.is_space a ++ [x] ++ b).
  rewrite app_assoc, rstrip_app_keep by (apply strip_nonempty_rstrip; exact Nb).
  rewrite <- app_assoc. reflexivity.
Qed.

Lemma contains_app : forall sep a b,
  contains sep (a ++ b) = contains sep a || contains sep b.
Proof. intros. unfold contains. apply existsb_app. Qed.

Lemma contains_part : forall sep g t,
  part_of g t -> contains sep t = false -> contains sep g = false.
Proof.
  intros sep g t (a & b & E) H. subst t. rewrite !contains_app in H.
  apply orb_false_iff in H. destruct H as (_ & H).
  apply orb_false_iff in H. apply H.
Qed.

Lemma split_once_first : forall sep a b,
  contains sep a = false -> split_once sep (a ++ sep :: b) = (a, b).
Proof.
  intros sep. induction a as [|c a IH]; intros b H.
  - simpl. rewrite Ascii.eqb_refl. reflexivity.
  - simpl in H. apply orb_false_iff in H. destruct H as (H1 & H2).
    simpl. rewrite Ascii.eqb_sym, H1, (IH b H2). reflexivity.
Qed.

Lemma lstrip_part : forall p t, part_of (lstrip p t) t.
Proof.
  intros p t. destruct (lstrip_suffix p t) as (a & E).
  exists a, []. rewrite app_nil_r. exact E.
Qed.

Lemma strip_lstrip : forall t, strip (lstrip Chars.is_space t) = strip t.
Proof. intros t. unfold strip, strip_by. rewrite lstrip_idem. reflexivity. Qed.

Lemma rstrip_nil_lstrip : forall t,
  rstrip Chars.is_space t = [] -> lstrip Chars.is_space t = [].
Proof.
  intros t H. destruct (lstrip Chars.is_space t) as [|c u] eqn:E; [reflexivity|].
  exfalso. apply (strip_nonempty_rstrip t); [|exact H].
  unfold strip, strip_by. rewrite E.
  assert (Hc := lstrip_head Chars.is_space t). rewrite E in Hc.
  rewrite rstrip_cons. destruct (rstrip Chars.is_space u); [rewrite Hc|]; discriminate.
Qed.

Lemma lstrip_rstrip : forall t,
  lstrip Chars.is_space (rstrip Chars.is_space t)
  = rstrip Chars.is_space (lstrip Chars.is_space t).
Proof.
  induction t as [|c t IH]; [reflexivity|].
  rewrite rstrip_cons. cbn [lstrip].
  destruct (Chars.is_space c) eqn:E.
  - destruct (rstrip Chars.is_space t) as [|x r] eqn:R.
    + rewrite (rstrip_nil_lstrip t R). reflexivity.
    + cbn [lstrip]. rewrite E. exact IH.
  - rewrite rstrip_cons.
    destruct (rstrip Chars.is_space t) as [|x r] eqn:R.
    + rewrite E. cbn [lstrip]. rewrite E. reflexivity.
    + cbn [lstrip]. rewrite E. reflexivity.
Qed.

Lemma strip_rstrip : forall t, strip (rstrip Chars.is_space t) = strip t.
Proof.
  intros t. unfold strip, strip_by. rewrite lstrip_rstrip. apply rstrip_idem.
Qed.

Lemma strip_ends : forall t c u,
  strip t = c :: u ->
  Chars.is_space c = false /\ rstrip Chars.is_space (c :: u) = c :: u.
Proof.
  intros t c u H. split; [apply (strip_head _ _ _ _ H)|].
  rewrite <- H. unfold strip, strip_by. apply rstrip_idem.
Qed.

(** The text made of two stripped texts with a space between them is
    stripped. *)
Lemma strip_joined : forall a b,
  strip a = a -> strip b = b -> a <> [] -> b <> [] ->
  strip (a ++ " "%char :: b) = a ++ " "%char :: b.
Proof.
  intros a b Ha Hb Na Nb.
  destruct a as [|c a]; [contradiction|].
  destruct b as [|d b]; [contradiction|].
  destruct (strip_ends _ _ _ Ha) as (Hc & _).
  destruct (strip_ends _ _ _ Hb) as (_ & Rb).
  apply strip_fixed_ends; [exact Hc|].
  change (rstrip Chars.is_space (((c :: a) ++ [" "%char] ++ d :: b))
          = (c :: a) ++ [" "%char] ++ d :: b).
  rewrite app_assoc.
  rewrite rstrip_app_keep by (rewrite Rb; discriminate).
  rewrite Rb. reflexivity.
Qed.

(** *** [normalize_name] *)

Lemma contains_nil : forall sep t, contains sep t = true -> t <> [].
Proof. intros sep [|c t] H; [discriminate|discriminate]. Qed.

Lemma normalize_swap : forall last first,
  contains "," last = false -> strip last <> [] -> strip first <> [] ->
  normalize_name (CStr (last ++ ","%char :: first))
  = strip first ++ " "%char :: strip last.
Proof.
  intros last first C Nl Nf. unfold normalize_name.
  rewrite (strip_around last "," first Nl Nf).
  assert (Cl : contains "," (lstrip Chars.is_space last) = false)
    by (apply (contains_part _ _ last (lstrip_part _ _) C)).
  rewrite contains_app. rewrite Cl. cbn [orb contains existsb Ascii.eqb Bool.eqb].
  rewrite (split_once_first "," _ _ Cl).
  rewrite strip_lstrip, strip_rstrip.
  destruct (strip first) as [|c f] eqn:Ef; [contradiction|].
  destruct (strip last) as [|d l] eqn:El; [contradiction|].
  cbn [truthy andb]. rewrite <- Ef, <- El.
  apply strip_joined; try apply strip_idem; [rewrite Ef|rewrite El]; discriminate.
Qed.

Lemma normalize_stripped : forall v, strip (normalize_name v) = normalize_name v.
Proof.
  intros [s| | |]; try reflexivity. unfold normalize_name.
  destruct (contains "," (strip s)); [|apply strip_idem].
  destruct (split_once "," (strip s)) as (l0, f0).
  destruct (truthy (strip f0) && truthy (strip l0)); apply strip_idem.
Qed.

Lemma normalize_blank : forall s, normalize_name (CStr s) = [] <-> strip s = [].
Proof.
  intros s. unfold normalize_name.
  destruct (contains "," (strip s)) eqn:C; [|reflexivity].
  destruct (split_once "," (strip s)) as (l0, f0).
  destruct (truthy (strip f0) && truthy (strip l0)) eqn:T; [|reflexivity].
  apply andb_prop in T. destruct T as (T & _).
  destruct (strip f0) as [|c f] eqn:Ef; [discriminate|].
  assert (Hc := strip_head _ _ _ _ Ef).
  destruct (strip_keeps_head Chars.is_space c (f ++ " "%char :: strip l0) Hc) as (y & Ey).
  change (strip ((c :: f) ++ " "%char :: strip l0))
    with (strip_by Chars.is_space (c :: f ++ " "%char :: strip l0)).
  rewrite Ey. split; [discriminate|].
  intros E. rewrite E in C. discriminate.
Qed.

(** *** [guess_id] *)

Lemma usable_value : forall c r i,
  usable c r = Some i -> i <> [] /\ strip i = i.
Proof.
  intros c r i H. unfold usable in H.
  destruct (get c r) as [v|]; [|discriminate].
  destruct (notna v); [|discriminate]. cbn [andb] in H.
  destruct (truthy (strip (py_str v))) eqn:T; [|discriminate].
  inversion H. subst i. split; [|apply strip_idem].
  intros E. rewrite E in T. discriminate.
Qed.

Lemma first_usable_first : forall before c after r i,
  Forall (fun c' => usable c' r = None) before ->
  usable c r = Some i ->
  first_usable (before ++ c :: after) r = Some i.
Proof.
  induction before as [|b before IH]; intros c after r i F U.
  - simpl. rewrite U. reflexivity.
  - inversion F as [|? ? Hb Hrest]. subst. simpl. rewrite Hb.
    apply IH; assumption.
Qed.

Lemma first_usable_found : forall cs r i,
  first_usable cs r = Some i ->
  exists before c after,
    cs = before ++ c :: after
    /\ Forall (fun c' => usable c' r = None) before
    /\ usable c r = Some i.
Proof.
  induction cs as [|c cs IH]; intros r i H; [discriminate|].
  simpl in H. destruct (usable c r) as [j|] eqn:U.
  - inversion H. subst j. exists [], c, cs. auto.
  - destruct (IH r i H) as (before & c' & after & E & F & U').
    exists (c :: before), c', after. subst cs. auto.
Qed.

Lemma guess_id_some : forall r, guess_id r <> [].
Proof.
  intros r. unfold guess_id.
  destruct (first_usable id_candidates r) as [i|] eqn:F.
  - apply first_usable_found in F. destruct F as (_ & c & _ & _ & _ & U).
    apply (usable_value _ _ _ U).
  - destruct (sanitize_filename _); discriminate.
Qed.

End Names.

(** * The retry loop and the search reply *)

Module Net.

Import Sc.

Lemma retried_codes : forall status,
  retried status = true
  <-> (status = 429 \/ status = 500 \/ status = 502 \/ status = 503
       \/ status = 504)%Z.
Proof.
  intros status. unfold retried.
  rewrite !orb_true_iff, !Z.eqb_eq. tauto.
Qed.

End Net.




(** * Lists of texts and folder names *)

Module Lists.

Import Sc Linto.

Lemma kept_texts : forall l,
  flat_map kept (map VStr l)
  = map strip (filter (fun s => truthy (strip s)) l).
Proof.
  induction l as [|s l IH]; [reflexivity|].
  simpl. destruct (truthy (strip s)); simpl; rewrite IH; reflexivity.
Qed.

Lemma kept_clean : forall items s,
  In s (flat_map kept items) -> s <> [] /\ strip s = s.
Proof.
  intros items s H. apply in_flat_map in H. destruct H as (x & _ & H).
  destruct x; simpl in H; try contradiction.
  destruct (truthy (strip s0)) eqn:T; [|contradiction].
  destruct H as [H|[]]. subst s. split; [|apply strip_idem].
  intros E. rewrite E in T. discriminate.
Qed.

Lemma filter_clean : forall l : list text,
  (forall s, In s l -> s <> [] /\ strip s = s) ->
  map strip (filter (fun s => truthy (strip s)) l) = l.
Proof.
  induction l as [|s l IH]; intros H; [reflexivity|].
  destruct (H s (or_introl eq_refl)) as (N & E).
  simpl. rewrite E. destruct s as [|c s]; [contradiction|].
  cbn [truthy map]. rewrite E, IH; [reflexivity|].
  intros x Hx. apply H. right. exact Hx.
Qed.

Lemma replace_back : forall name,
  ~ In "_"%char name ->
  replace_char "_" " " (replace_char " " "_" name) = name.
Proof.
  induction name as [|c name IH]; intros H; [reflexivity|].
  unfold replace_char in *. cbn [map]. rewrite IH by (intros X; apply H; right; exact X).
  f_equal. destruct (Ascii.eqb c " ") eqn:E.
  - apply Ascii.eqb_eq in E. subst c. reflexivity.
  - destruct (Ascii.eqb c "_") eqn:E2; [|reflexivity].
    apply Ascii.eqb_eq in E2. exfalso. apply H. left. auto.
Qed.

Lemma replace_removes : forall name, ~ In "_"%char (replace_char "_" " " name).
Proof.
  intros name H. unfold replace_char in H. apply in_map_iff in H.
  destruct H as (c & E & _). destruct (Ascii.eqb c "_") eqn:X.
  - discriminate.
  - apply Ascii.eqb_neq in X. congruence.
Qed.

End Lists.




(** * Dates of birth in ISO form *)

Module Iso.

Lemma in_range : forall (P : Z -> Prop) lo n,
  Forall P (map (fun i => (lo + Z.of_nat i)%Z) (seq 0 n)) ->
  forall m, (lo <= m < lo + Z.of_nat n)%Z -> P m.
Proof.
  intros P lo n F m H. rewrite Forall_forall in F. apply F.
  apply in_map_iff. exists (Z.to_nat (m - lo)). split; [lia|].
  apply in_seq. lia.
Qed.

Lemma digit_char_ok : forall n, (0 <= n <= 9)%Z ->
  Chars.is_digit (digit_char n) = true
  /\ digit_val (digit_char n) = n
  /\ Chars.is_space (digit_char n) = false
  /\ Ascii.eqb " " (digit_char n) = false.
Proof.
  intros n H.
  apply (in_range (fun n => Chars.is_digit (digit_char n) = true
                            /\ digit_val (digit_char n) = n
                            /\ Chars.is_space (digit_char n) = false
                            /\ Ascii.eqb " " (digit_char n) = false) 0 10);
    [|lia].
  repeat constructor.
Qed.

Lemma year_run : forall a b c e p t cs k x,
  Chars.is_digit a = true -> Chars.is_digit b = true ->
  Chars.is_digit c = true -> Chars.is_digit e = true ->
  k (st (Some e) t ((Date.gY, [a; b; c; e]) :: cs)) = Some x ->
  run IM (Date.directive_regex Date.FY) (st p ([a; b; c; e] ++ t) cs) k = Some x.
Proof.
  intros a b c e p t cs k x A B C E K.
  cbn [Date.directive_regex rep]. apply go_group.
  apply go_seq. eapply go_char; [reflexivity|exact A|]. cbv beta.
  apply go_seq. eapply go_char; [reflexivity|exact B|]. cbv beta.
  apply go_seq. eapply go_char; [reflexivity|exact C|]. cbv beta.
  eapply go_char; [reflexivity|exact E|]. cbv beta.
  rewrite (taken_st p (Some e) [a; b; c; e] t cs cs). exact K.
Qed.

(** The two characters of a number from 0 to 99, written out. *)
Ltac written :=
  repeat match goal with
         | |- context [two_digits ?m] =>
             let v := eval vm_compute in (two_digits m) in
             change (two_digits m) with v
         | |- context [digit_char ?m] =>
             let v := eval vm_compute in (digit_char m) in
             change (digit_char m) with v
         | H : context [two_digits ?m] |- _ =>
             let v := eval vm_compute in (two_digits m) in
             change (two_digits m) with v in H
         | H : context [digit_char ?m] |- _ =>
             let v := eval vm_compute in (digit_char m) in
             change (digit_char m) with v in H
         end.

(** Two characters read by one of the alternatives of a directive. *)
Ltac two_chars K :=
  lazymatch goal with
  | |- run _ (Alt _ _) _ _ = Some _ =>
      first [ apply go_alt_r; [solve [fails] | two_chars K]
            | apply go_alt_l; two_chars K ]
  | |- run _ (Seq _ _) _ _ = Some _ =>
      apply go_seq;
      (eapply go_char; [reflexivity | vm_compute; reflexivity | cbv beta]);
      two_chars K
  | |- run _ _ _ _ = Some _ =>
      (eapply go_char; [reflexivity | vm_compute; reflexivity | cbv beta]);
      two_chars K
  | |- _ =>
      match goal with
      | |- context [taken (st ?p (?a :: ?b :: ?t) ?cs) (st ?q ?t ?cs')] =>
          change (a :: b :: t) with ([a; b] ++ t);
          rewrite (taken_st p q [a; b] t cs cs'); exact K
      end
  end.

Lemma month_run : forall m, (1 <= m <= 12)%Z -> forall p t cs k x,
  k (st (Some (digit_char (m mod 10))) t ((Date.gm, two_digits m) :: cs)) = Some x ->
  run IM (Date.directive_regex Date.Fm) (st p (two_digits m ++ t) cs) k = Some x.
Proof.
  intros m H.
  apply (in_range (fun m => forall p t cs k x,
    k (st (Some (digit_char (m mod 10))) t ((Date.gm, two_digits m) :: cs)) = Some x ->
    run IM (Date.directive_regex Date.Fm) (st p (two_digits m ++ t) cs) k = Some x)
    1 12); [|lia].
  cbn [seq map].
  repeat (apply Forall_cons || apply Forall_nil);
    intros p t cs k x K; written;
    cbn [Date.directive_regex alts map]; apply go_group; cbn [app];
    two_chars K.
Qed.

Lemma day_run : forall d, (1 <= d <= 31)%Z -> forall p t cs k x,
  k (st (Some (digit_char (d mod 10))) t ((Date.gd, two_digits d) :: cs)) = Some x ->
  run IM (Date.directive_regex Date.Fd) (st p (two_digits d ++ t) cs) k = Some x.
Proof.
  intros d H.
  apply (in_range (fun d => forall p t cs k x,
    k (st (Some (digit_char (d mod 10))) t ((Date.gd, two_digits d) :: cs)) = Some x ->
    run IM (Date.directive_regex Date.Fd) (st p (two_digits d ++ t) cs) k = Some x)
    1 31); [|lia].
  cbn [seq map].
  repeat (apply Forall_cons || apply Forall_nil);
    intros p t cs k x K; written;
    cbn [Date.directive_regex alts map]; apply go_group; cbn [app];
    two_chars K.
Qed.

Lemma int_four_digits : forall y, (0 <= y <= 9999)%Z ->
  Py.int (lstrip (Ascii.eqb " ") (four_digits y)) = Ok y.
Proof.
  intros y H. unfold four_digits.
  destruct (digit_char_ok (y / 1000)) as (A1 & A2 & _ & A4);
    [Z.to_euclidean_division_equations; lia|].
  destruct (digit_char_ok (y / 100 mod 10)) as (B1 & B2 & _);
    [Z.to_euclidean_division_equations; lia|].
  destruct (digit_char_ok (y / 10 mod 10)) as (C1 & C2 & _);
    [Z.to_euclidean_division_equations; lia|].
  destruct (digit_char_ok (y mod 10)) as (E1 & E2 & _);
    [Z.to_euclidean_division_equations; lia|].
  cbn [lstrip]. rewrite A4. unfold Py.int. cbn [forallb fold_left].
  rewrite A1, B1, C1, E1, A2, B2, C2, E2. cbn [andb]. f_equal.
  Z.to_euclidean_division_equations; lia.
Qed.

Lemma int_two_digits : forall n, (0 <= n <= 99)%Z ->
  Py.int (lstrip (Ascii.eqb " ") (two_digits n)) = Ok n.
Proof.
  intros n H. unfold two_digits.
  destruct (digit_char_ok (n / 10)) as (A1 & A2 & _ & A4);
    [Z.to_euclidean_division_equations; lia|].
  destruct (digit_char_ok (n mod 10)) as (B1 & B2 & _);
    [Z.to_euclidean_division_equations; lia|].
  cbn [lstrip]. rewrite A4. unfold Py.int. cbn [forallb fold_left].
  rewrite A1, B1, A2, B2. cbn [andb]. f_equal.
  Z.to_euclidean_division_equations; lia.
Qed.

Lemma valid_ranges : forall y m d, Date.valid y m d = true ->
  (1 <= y <= 9999 /\ 1 <= m <= 12 /\ 1 <= d <= 31)%Z.
Proof.
  intros y m d V. unfold Date.valid in V.
  repeat (apply andb_prop in V; destruct V as (V & ?)).
  assert (Date.days_in_month y m <= 31)%Z.
  { unfold Date.days_in_month.
    destruct (m =? 2)%Z; [destruct (Date.is_leap y); lia|].
    destruct ((m =? 4) || (m =? 6) || (m =? 9) || (m =? 11))%Z; lia. }
  lia.
Qed.

(** [strptime] reads back what [isoformat] writes. *)
Lemma strptime_isoformat : forall d,
  Date.valid (Date.year d) (Date.month d) (Date.day d) = true ->
  Date.strptime (isoformat d) Date.fmt_iso = Ok d.
Proof.
  intros [y m d] V. cbn [Date.year Date.month Date.day] in V.
  destruct (valid_ranges y m d V) as (Hy & Hm & Hd).
  unfold Date.strptime, isoformat. cbn [Date.year Date.month Date.day].
  assert (R : run IM (Date.format_regex Date.fmt_iso)
                (start_state None
                   (four_digits y ++ "-"%char :: two_digits m ++ "-"%char :: two_digits d))
                (fun s1 => Some s1)
              = Some (st (Some (digit_char (d mod 10))) []
                        [(Date.gd, two_digits d); (Date.gm, two_digits m);
                         (Date.gY, four_digits y)])).
  { unfold Date.format_regex, Date.fmt_iso. cbn [map seqs].
    unfold start_state. fold (st None
      (four_digits y ++ "-"%char :: two_digits m ++ "-"%char :: two_digits d) []).
    destruct (digit_char_ok (y / 1000)) as (A1 & _);
      [Z.to_euclidean_division_equations; lia|].
    destruct (digit_char_ok (y / 100 mod 10)) as (B1 & _);
      [Z.to_euclidean_division_equations; lia|].
    destruct (digit_char_ok (y / 10 mod 10)) as (C1 & _);
      [Z.to_euclidean_division_equations; lia|].
    destruct (digit_char_ok (y mod 10)) as (E1 & _);
      [Z.to_euclidean_division_equations; lia|].
    apply go_seq. unfold four_digits at 1.
    apply year_run; try assumption. cbv beta.
    apply go_seq. eapply go_char; [reflexivity|vm_compute; reflexivity|]. cbv beta.
    apply go_seq. apply (month_run m Hm). cbv beta.
    apply go_seq. eapply go_char; [reflexivity|vm_compute; reflexivity|]. cbv beta.
    rewrite <- (app_nil_r (two_digits d)).
    apply (day_run d Hd). rewrite app_nil_r. reflexivity. }
  unfold match_at. rewrite R.
  cbn [m_whole m_caps caps Date.field group lookup Nat.eqb Date.gY Date.gm Date.gd Date.gB].
  replace (length (taken _ _) =? length _) with true.
  2:{ symmetry. apply Nat.eqb_eq. unfold taken, start_state, st. cbn [rest].
      unfold four_digits, two_digits. cbn [app length Nat.sub firstn]. reflexivity. }
  cbn [negb]. unfold Date.field, group, st, Date.gB, Date.gY, Date.gm, Date.gd.
  cbn [m_caps caps lookup Nat.eqb].
  rewrite (int_four_digits y) by lia. cbn [bind].
  rewrite (int_two_digits d) by lia. cbn [bind].
  rewrite (int_two_digits m) by lia. cbn [bind].
  unfold Date.make. rewrite V. reflexivity.
Qed.

Lemma born_iso_app : forall ws1 ws2 d ws3 post,
  born_iso ws1 ws2 d ws3 ++ post
  = str "Born:" ++ ws1 ++ "("%char :: ws2 ++ isoformat d ++ ws3 ++ ")"%char :: post.
Proof.
  intros. unfold born_iso.
  rewrite <- !app_assoc. cbn [app]. do 2 f_equal.
  rewrite <- !app_assoc. reflexivity.
Qed.

Lemma isoformat_stripped : forall d,
  Date.valid (Date.year d) (Date.month d) (Date.day d) = true ->
  strip (isoformat d) = isoformat d /\ truthy (isoformat d) = true.
Proof.
  intros [y m d] V. cbn [Date.year Date.month Date.day] in V.
  destruct (valid_ranges y m d V) as (Hy & Hm & Hd).
  split; [|reflexivity].
  destruct (digit_char_ok (y / 1000)) as (_ & _ & A & _);
    [Z.to_euclidean_division_equations; lia|].
  destruct (digit_char_ok (d mod 10)) as (_ & _ & B & _);
    [Z.to_euclidean_division_equations; lia|].
  unfold isoformat, four_digits, two_digits. cbn [Date.year Date.month Date.day app].
  apply Names.strip_fixed_ends; [exact A|].
  set (e := digit_char (d mod 10)) in *.
  change (rstrip Chars.is_space
            ([digit_char (y / 1000); digit_char (y / 100 mod 10);
              digit_char (y / 10 mod 10); digit_char (y mod 10); "-"%char;
              digit_char (m / 10); digit_char (m mod 10); "-"%char;
              digit_char (d / 10)] ++ [e])
          = [digit_char (y / 1000); digit_char (y / 100 mod 10);
             digit_char (y / 10 mod 10); digit_char (y mod 10); "-"%char;
             digit_char (m / 10); digit_char (m mod 10); "-"%char;
             digit_char (d / 10)] ++ [e]).
  assert (X : rstrip Chars.is_space [e] = [e])
    by (unfold rstrip; cbn [rev app lstrip]; rewrite B; reflexivity).
  rewrite Names.rstrip_app_keep; rewrite X; [reflexivity|discriminate].
Qed.

(** Through literals and digits, up to the next repetition. *)
Ltac read :=
  cbv beta;
  lazymatch goal with
  | |- run _ (Seq _ _) _ _ = _ => apply go_seq; read
  | |- run _ (Group _ _) _ _ = _ => apply go_group; read
  | |- run _ Digit _ _ = _ =>
      eapply go_char; [reflexivity | assumption | read]
  | |- run _ (Lit _) _ _ = _ =>
      eapply go_char; [reflexivity | vm_compute; reflexivity | read]
  | |- _ => idtac
  end.

Lemma born_iso_first : forall pre ws1 ws2 d ws3 post,
  Date.valid (Date.year d) (Date.month d) (Date.day d) = true ->
  forallb Chars.is_space ws1 = true -> forallb Chars.is_space ws2 = true ->
  forallb Chars.is_space ws3 = true ->
  find IM (str "Born:") (pre ++ born_iso ws1 ws2 d ws3 ++ post) = Some (length pre) ->
  first_of Pat.BORN_ISO (pre ++ born_iso ws1 ws2 d ws3 ++ post) = Some (isoformat d).
Proof.
  intros pre ws1 ws2 d ws3 post V W1 W2 W3 F.
  destruct (isoformat_stripped d V) as (St & _).
  rewrite born_iso_app in *.
  assert (S := search_prefixed_first IM (str "Born:")
                 (Re.seqs [Star true Ws; lit "("; Star true Ws;
                           Group 1 (Re.seqs [rep 4 Digit; lit "-"; rep 2 Digit;
                                             lit "-"; rep 2 Digit]);
                           Star true Ws; lit ")"])
                 pre _ F).
  set (p := prev_after None pre) in *.
  destruct d as [y m d]. cbn [Date.year Date.month Date.day] in V.
  destruct (valid_ranges y m d V) as (Hy & Hm & Hd).
  destruct (digit_char_ok (y / 1000)) as (Y1 & _ & Y1s & _);
    [Z.to_euclidean_division_equations; lia|].
  destruct (digit_char_ok (y / 100 mod 10)) as (Y2 & _);
    [Z.to_euclidean_division_equations; lia|].
  destruct (digit_char_ok (y / 10 mod 10)) as (Y3 & _);
    [Z.to_euclidean_division_equations; lia|].
  destruct (digit_char_ok (y mod 10)) as (Y4 & _);
    [Z.to_euclidean_division_equations; lia|].
  destruct (digit_char_ok (m / 10)) as (M1 & _);
    [Z.to_euclidean_division_equations; lia|].
  destruct (digit_char_ok (m mod 10)) as (M2 & _);
    [Z.to_euclidean_division_equations; lia|].
  destruct (digit_char_ok (d / 10)) as (D1 & _);
    [Z.to_euclidean_division_equations; lia|].
  destruct (digit_char_ok (d mod 10)) as (D2 & _);
    [Z.to_euclidean_division_equations; lia|].
  set (iso := isoformat {| Date.year := y; Date.month := m; Date.day := d |}) in *.
  assert (R : exists s1,
    run IM Pat.BORN_ISO
      (start_state p (str "Born:" ++ ws1 ++ "("%char :: ws2 ++ iso ++ ws3 ++ ")"%char :: post))
      (fun s => Some s) = Some s1
    /\ lookup 1 (caps s1) = Some iso).
  { eexists. split.
    - let r := eval cbv in Pat.BORN_ISO in change Pat.BORN_ISO with r.
      unfold start_state.
      fold (st p (str "Born:" ++ ws1 ++ "("%char :: ws2 ++ iso ++ ws3 ++ ")"%char :: post) []).
      read.
      eapply (go_star_run _ _ _ _ _ ws1 _ ("("%char :: ws2 ++ iso ++ ws3 ++ ")"%char :: post));
        [reflexivity | exact W1 | reflexivity | ].
      read.
      eapply (go_star_run _ _ _ _ _ ws2 _ (iso ++ ws3 ++ ")"%char :: post));
        [reflexivity | exact W2
        | unfold iso, isoformat, four_digits; cbn [Date.year app stops];
          rewrite Y1s; reflexivity | ].
      unfold iso at 1, isoformat, four_digits, two_digits.
      cbn [Date.year Date.month Date.day app].
      read.
      eapply (go_star_run _ _ _ _ _ ws3 _ (")"%char :: post));
        [reflexivity | exact W3 | reflexivity | ].
      read. reflexivity.
    - unfold set_cap, st. cbn [caps lookup Nat.eqb]. f_equal.
      exact (taken_st _ _ iso (ws3 ++ ")"%char :: post) [] []). }
  destruct R as (s1 & R & L).
  rewrite (first_of_at Pat.BORN_ISO _ p _ _ s1 S R), L.
  cbn [option_map]. rewrite St. reflexivity.
Qed.

End Iso.




(** * One row of the scraper *)

Module Scrape.

Import Sc.

(** One call of [http_get]: the requests it makes and the one it answers
    with. *)
Lemma http_get_made : forall w,
  server (snd (http_get w)) = server w
  /\ made w < made (snd (http_get w)) <= made w + MAX_RETRIES
  /\ (forall s, fst (http_get w) = Returned (Some s) ->
        server w (made (snd (http_get w)) - 1) = Answer s).
Proof.
  intros w. unfold http_get, MAX_RETRIES.
  cbn [seq http_get_loop request].
  destruct (server w (made w)) as [s0| |] eqn:E0;
    [destruct (retried s0) eqn:R0|..];
    cbn [http_get_loop request record server made log fst snd];
    try (split; [reflexivity|]; split; [lia|]; intros s H;
         try discriminate; injection H as H; subst;
         replace (S (made w) - 1) with (made w) by lia; assumption).
  all: destruct (server w (S (made w))) as [s1| |] eqn:E1;
    [destruct (retried s1) eqn:R1|..];
    cbn [http_get_loop request record server made log fst snd];
    try (split; [reflexivity|]; split; [lia|]; intros s H;
         try discriminate; injection H as H; subst;
         replace (S (S (made w)) - 1) with (S (made w)) by lia; assumption).
  all: destruct (server w (S (S (made w)))) as [s2| |] eqn:E2;
    [destruct (retried s2) eqn:R2|..];
    cbn [http_get_loop request record server made log fst snd];
    (split; [reflexivity|]; split; [lia|]; intros s H;
     try discriminate; injection H as H; subst;
     replace (S (S (S (made w))) - 1) with (S (S (made w))) by lia; assumption).
Qed.

Lemma has_status_eq : forall code resp,
  has_status code resp = true -> resp = Some code.
Proof.
  intros code [s|] H; [|discriminate]. simpl in H.
  apply Z.eqb_eq in H. subst s. reflexivity.
Qed.

(** The name of the row, as [scrape_one] takes it. *)
Lemma name_blank : forall v,
  negb (truthy (strip (normalize_name v))) = true <-> normalize_name v = [].
Proof.
  intros v. rewrite Names.normalize_stripped.
  destruct (normalize_name v); simpl; split; congruence.
Qed.

(** The ways [scrape_one] ends. *)
Lemma scrape_cases : forall r content found w e outs w',
  scrape_one r content found w = (e, outs, w') ->
  (normalize_name (or_else (get_or_empty "Profile.Name" r)
                     (or_else (get_or_empty "Name" r) (get_or_empty "FullName" r))) = []
   /\ e = Returned Skipped /\ outs = [] /\ w' = w)
  \/ (normalize_name (or_else (get_or_empty "Profile.Name" r)
                        (or_else (get_or_empty "Name" r) (get_or_empty "FullName" r))) <> []
      /\ made w < made w' <= made w + 2 * MAX_RETRIES
      /\ server w' = server w
      /\ ((e = Propagated /\ outs = [MakeDir (sanitize_filename (guess_id r))])
          \/ (e = Returned NoSearchResult
              /\ exists m, outs = [MakeDir (sanitize_filename (guess_id r)); WriteMeta m]
                   /\ status m = Some StatusSearchFailed)
          \/ (e = Returned FallbackFailed
              /\ exists m resp,
                   outs = [MakeDir (sanitize_filename (guess_id r)); WriteMeta m]
                   /\ status m = Some (StatusHttp resp)
                   /\ has_status 200 resp = false)
          \/ (e = Returned Saved
              /\ exists m mid,
                   outs = MakeDir (sanitize_filename (guess_id r))
                          :: WriteIndex (content (made w' - 1)) :: mid ++ [WriteMeta m]
                   /\ status m = Some StatusOk
                   /\ final_url m = Some (address (content (made w' - 1)))
                   /\ server w (made w' - 1) = Answer 200
                   /\ (mid = []
                       \/ exists name, mid = [WriteTitled name (content (made w' - 1))]
                                       /\ name <> str "index.html")))).
Proof.
  intros r content found w e outs w' H. unfold scrape_one in H.
  set (raw := or_else _ _) in *. set (nm := normalize_name raw) in *.
  set (dir := sanitize_filename _) in *.
  destruct (negb (truthy (strip nm))) eqn:B.
  { left. apply name_blank in B. injection H as <- <- <-. auto. }
  right. split.
  { intros E. apply name_blank in E. fold nm in E. congruence. }
  assert (Save : forall resp m w1 e outs w',
    has_status 200 resp = true ->
    server w1 (made w1 - 1) = Answer 200 ->
    save_page nm resp (Some (content (made w1 - 1))) m [MakeDir dir] w1 = (e, outs, w') ->
    w' = w1 /\ e = Returned Saved
    /\ exists m' mid,
         outs = MakeDir dir :: WriteIndex (content (made w1 - 1)) :: mid ++ [WriteMeta m']
         /\ status m' = Some StatusOk
         /\ final_url m' = Some (address (content (made w1 - 1)))
         /\ server w1 (made w1 - 1) = Answer 200
         /\ (mid = []
             \/ exists name, mid = [WriteTitled name (content (made w1 - 1))]
                             /\ name <> str "index.html")).
  { clear. intros resp m w1 e outs w' S A X. unfold save_page in X. rewrite S in X.
    cbv zeta in X. set (name := titled_filename _) in X.
    injection X as <- <- <-. split; [reflexivity|]. split; [reflexivity|].
    exists (set_status StatusOk (set_final_url (address (content (made w1 - 1))) m)),
           (if text_eqb name (str "index.html") then []
            else [WriteTitled name (content (made w1 - 1))]).
    split; [reflexivity|].
    split; [reflexivity|]. split; [reflexivity|]. split; [exact A|].
    destruct (text_eqb name (str "index.html")) eqn:T; [left; reflexivity|].
    right. exists name. split; [reflexivity|].
    intros E. rewrite E in T. discriminate. }
  destruct (http_get_made w) as (Sv1 & M1 & A1).
  destruct (http_get w) as [[resp|] w1] eqn:G1; cbn [fst snd] in *.
  2:{ injection H as <- <- <-. unfold MAX_RETRIES in *.
      split; [lia|]. split; [exact Sv1|]. left. auto. }
  assert (Fallback : forall m2 e outs w',
    match wiki_search_best_title found with
    | Returned (Some (c :: t)) =>
        match http_get w1 with
        | (Returned resp2, w2) =>
            if has_status 200 resp2
            then save_page nm resp2 (Some (content (made w2 - 1)))
                   (add_title (c :: t) m2) [MakeDir dir] w2
            else (Returned FallbackFailed,
                  [MakeDir dir]
                  ++ [WriteMeta (set_status (StatusHttp resp2)
                                   (add_title (c :: t) m2))], w2)
        | (Propagated, w2) => (Propagated, [MakeDir dir], w2)
        end
    | Returned _ =>
        (Returned NoSearchResult,
         [MakeDir dir]
         ++ [WriteMeta (add_note "Wikipedia search returned no results."
                          (set_status StatusSearchFailed m2))], w1)
    | Propagated => (Propagated, [MakeDir dir], w1)
    end = (e, outs, w') ->
    made w < made w' <= made w + 2 * MAX_RETRIES
    /\ server w' = server w
    /\ ((e = Propagated /\ outs = [MakeDir dir])
        \/ (e = Returned NoSearchResult
            /\ exists m, outs = [MakeDir dir; WriteMeta m]
                 /\ status m = Some StatusSearchFailed)
        \/ (e = Returned FallbackFailed
            /\ exists m resp,
                 outs = [MakeDir dir; WriteMeta m]
                 /\ status m = Some (StatusHttp resp)
                 /\ has_status 200 resp = false)
        \/ (e = Returned Saved
            /\ exists m mid,
                 outs = MakeDir dir
                        :: WriteIndex (content (made w' - 1)) :: mid ++ [WriteMeta m]
                 /\ status m = Some StatusOk
                 /\ final_url m = Some (address (content (made w' - 1)))
                 /\ server w (made w' - 1) = Answer 200
                 /\ (mid = []
                     \/ exists name, mid = [WriteTitled name (content (made w' - 1))]
                                     /\ name <> str "index.html")))).
  { clear H. intros m2 e0 outs0 w0 X. unfold MAX_RETRIES in *.
    destruct (wiki_search_best_title found) as [[[|c t]|]|].
    - injection X as <- <- <-. split; [lia|]. split; [exact Sv1|].
      right. left. split; [reflexivity|]. eexists. split; reflexivity.
    - destruct (http_get_made w1) as (Sv2 & M2 & A2). unfold MAX_RETRIES in M2.
      destruct (http_get w1) as [[resp2|] w2] eqn:G2; cbn [fst snd] in *.
      + destruct (has_status 200 resp2) eqn:S2.
        * assert (R2 := has_status_eq _ _ S2). subst resp2.
          assert (A : server w2 (made w2 - 1) = Answer 200)
            by (rewrite Sv2; apply A2; reflexivity).
          destruct (Save _ _ _ _ _ _ S2 A X) as (-> & -> & m' & mid & P1 & P2 & P3 & P4 & P5).
          split; [lia|]. split; [congruence|].
          right. right. right. split; [reflexivity|].
          exists m', mid. repeat split; try assumption. congruence.
        * injection X as <- <- <-. split; [lia|]. split; [congruence|].
          right. right. left. split; [reflexivity|].
          eexists. exists resp2. split; [reflexivity|]. split; [reflexivity|exact S2].
      + injection X as <- <- <-. split; [lia|]. split; [congruence|]. left. auto.
    - injection X as <- <- <-. split; [lia|]. split; [exact Sv1|].
      right. left. split; [reflexivity|]. eexists. split; reflexivity.
    - injection X as <- <- <-. split; [lia|]. split; [exact Sv1|]. left. auto. }
  destruct (has_status 200 resp) eqn:S.
  - destruct (negb (disambiguation (content (made w1 - 1)))).
    + cbv beta iota zeta in H.
      assert (R := has_status_eq _ _ S). subst resp.
      assert (A : server w1 (made w1 - 1) = Answer 200)
        by (rewrite Sv1; apply A1; reflexivity).
      destruct (Save _ _ _ _ _ _ S A H) as (-> & -> & m' & mid & P1 & P2 & P3 & P4 & P5).
      unfold MAX_RETRIES in *. split; [lia|]. split; [exact Sv1|].
      right. right. right. split; [reflexivity|].
      exists m', mid. repeat split; try assumption. congruence.
    + cbv beta iota zeta in H. apply (Fallback _ _ _ _ H).
  - destruct (has_status 404 resp); cbv beta iota zeta in H;
      apply (Fallback _ _ _ _ H).
Qed.

End Scrape.




(** * The list of phrases, cut at the commas and at the word "and" *)

Module Cut.









End Cut.

(** * The number of an "(age N)" annotation *)

Module Written.

(** The first "(age" of the text opens an annotation; its digits are
    found. *)
Lemma go_lit_list_as : forall fl cs w p t c k,
  length w = length cs -> starts_with fl cs w = true ->
  run fl (lit_list cs) (st p (w ++ t) c) k = k (st (prev_after p w) t c).
Proof.
  intros fl. induction cs as [|x cs IH]; intros w p t c k L S.
  - destruct w; [reflexivity|discriminate].
  - destruct w as [|y w]; [discriminate|].
    simpl in S. apply andb_prop in S. destruct S as (Sy & S).
    simpl in L. injection L as L.
    destruct cs as [|x' cs].
    + destruct w; [|discriminate]. simpl. unfold one. simpl. rewrite Sy. reflexivity.
    + change (lit_list (x :: x' :: cs)) with (Seq (Lit x) (lit_list (x' :: cs))).
      apply go_seq. change ((y :: w) ++ t) with (y :: w ++ t).
      eapply go_char; [reflexivity|exact Sy|]. cbv beta.
      change (prev_after p (y :: w)) with (prev_after (Some y) w).
      apply IH; assumption.
Qed.

Lemma written_parts : forall lab w,
  written_as lab w = true -> length w = length lab /\ starts_with IM lab w = true.
Proof.
  intros lab w H. unfold written_as in H. apply andb_prop in H.
  destruct H as (L & S). apply Nat.eqb_eq in L. auto.
Qed.

Lemma age_first_digits : forall pre lab ws ds post,
  written_as (str "(age") lab = true ->
  forallb Chars.is_space ws = true ->
  forallb Chars.is_digit ds = true -> 1 <= length ds <= 3 ->
  find IM (str "(age") (pre ++ lab ++ ws ++ ds ++ str ")" ++ post)
    = Some (length pre) ->
  first_of Pat.AGE (pre ++ lab ++ ws ++ ds ++ str ")" ++ post) = Some ds.
Proof.
  intros pre lab ws ds post Wl W D L F.
  destruct (written_parts _ _ Wl) as (Ll & Sl).
  assert (S := search_prefixed_first IM (str "(age")
                 (Seq (Star true Ws) (Seq (Group 1 (range 1 3 d09)) (Lit ")")))
                 pre (lab ++ ws ++ ds ++ str ")" ++ post) F).
  set (p := prev_after None pre) in *.
  assert (R : exists s1,
    run IM Pat.AGE (start_state p (lab ++ ws ++ ds ++ str ")" ++ post))
        (fun s => Some s) = Some s1
    /\ lookup 1 (caps s1) = Some ds).
  { assert (St : stops Chars.is_space (ds ++ str ")" ++ post) = true).
    { destruct ds as [|a ds]; [simpl in L; lia|].
      simpl in D. apply andb_prop in D. destruct D as (Da & _).
      simpl. rewrite (digit_not_space a Da). reflexivity. }
    assert (G : forall x, In x ds -> cls_ok IM false [Pat.digit09] x = true).
    { intros x I. rewrite cls_digit. rewrite forallb_forall in D. exact (D x I). }
    change Pat.AGE
      with (Seq (lit_list (str "(age"))
                (Seq (Star true Ws)
                     (Seq (Group 1 (Seq d09 (Alt (Seq d09 (Alt (Seq d09 Eps) Eps)) Eps)))
                          (Lit ")")))).
    unfold start_state.
    fold (st p (lab ++ ws ++ ds ++ str ")" ++ post) []).
    destruct ds as [|a [|b [|c [|d ds]]]]; try (simpl in L; lia);
      (eexists; split;
       [ apply go_seq; rewrite (go_lit_list_as IM (str "(age") lab _ _ _ _ Ll Sl);
         apply go_seq;
         match goal with
         | |- run _ _ (st _ (ws ++ ?t) _) _ = _ =>
             eapply (go_star_run _ _ _ _ _ ws _ t);
             [reflexivity|exact W|exact St|]
         end;
         apply go_seq; apply go_group; apply go_seq; cbn [app];
         (eapply go_char; [reflexivity|apply G; simpl; auto|])
       | ]).
    - apply go_alt_r; [apply go_seq; eapply no_char; reflexivity|].
      apply go_eps. eapply go_char; [reflexivity|reflexivity|]. reflexivity.
    - cbn [caps lookup Nat.eqb set_cap st]. f_equal.
      exact (taken_st _ _ [a] (str ")" ++ post) [] []).
    - apply go_alt_l. apply go_seq.
      eapply go_char; [reflexivity|apply G; simpl; auto|].
      apply go_alt_r; [apply go_seq; eapply no_char; reflexivity|].
      apply go_eps. eapply go_char; [reflexivity|reflexivity|]. reflexivity.
    - cbn [caps lookup Nat.eqb set_cap st]. f_equal.
      exact (taken_st _ _ [a; b] (str ")" ++ post) [] []).
    - apply go_alt_l. apply go_seq.
      eapply go_char; [reflexivity|apply G; simpl; auto|].
      apply go_alt_l. apply go_seq.
      eapply go_char; [reflexivity|apply G; simpl; auto|].
      apply go_eps. eapply go_char; [reflexivity|reflexivity|]. reflexivity.
    - cbn [caps lookup Nat.eqb set_cap st]. f_equal.
      exact (taken_st _ _ [a; b; c] (str ")" ++ post) [] []). }
  destruct R as (s1 & R & Lk).
  rewrite (first_of_at Pat.AGE _ p _ _ s1 S R), Lk. cbn [option_map].
  rewrite (strip_digits _ D). reflexivity.
Qed.

Lemma decimal_value : forall N, (0 <= N <= 999)%Z ->
  decimal N <> []
  /\ length (decimal N) <= 3
  /\ forallb Chars.is_digit (decimal N) = true
  /\ fold_left (fun acc c => (10 * acc + digit_val c)%Z) (decimal N) 0%Z = N.
Proof.
  intros N H. unfold decimal, two_digits.
  destruct (N <? 10)%Z eqn:A; [|destruct (N <? 100)%Z eqn:B].
  - apply Z.ltb_lt in A.
    destruct (Iso.digit_char_ok N) as (D1 & D2 & _); [lia|].
    cbn [forallb fold_left length]. rewrite D1, D2.
    split; [discriminate|split; [lia|split; [reflexivity|lia]]].
  - apply Z.ltb_ge in A. apply Z.ltb_lt in B.
    destruct (Iso.digit_char_ok (N / 10)) as (D1 & D2 & _);
      [Z.to_euclidean_division_equations; lia|].
    destruct (Iso.digit_char_ok (N mod 10)) as (E1 & E2 & _);
      [Z.to_euclidean_division_equations; lia|].
    cbn [forallb fold_left length]. rewrite D1, D2, E1, E2.
    split; [discriminate|split; [lia|split; [reflexivity|]]].
    Z.to_euclidean_division_equations; lia.
  - apply Z.ltb_ge in A, B.
    destruct (Iso.digit_char_ok (N / 100)) as (D1 & D2 & _);
      [Z.to_euclidean_division_equations; lia|].
    destruct (Iso.digit_char_ok (N / 10 mod 10)) as (E1 & E2 & _);
      [Z.to_euclidean_division_equations; lia|].
    destruct (Iso.digit_char_ok (N mod 10)) as (F1 & F2 & _);
      [Z.to_euclidean_division_equations; lia|].
    cbn [forallb fold_left length]. rewrite D1, D2, E1, E2, F1, F2.
    split; [discriminate|split; [lia|split; [reflexivity|]]].
    Z.to_euclidean_division_equations; lia.
Qed.

Lemma zeros_digits : forall k,
  forallb Chars.is_digit (repeat "0"%char k) = true
  /\ fold_left (fun acc c => (10 * acc + digit_val c)%Z) (repeat "0"%char k) 0%Z = 0%Z.
Proof.
  induction k as [|k (A & B)]; [split; reflexivity|].
  cbn [repeat forallb fold_left]. rewrite A. split; [reflexivity|exact B].
Qed.

(** The number that leading zeros and the digits of [N] write. *)
Lemma int_written : forall k N, (0 <= N <= 999)%Z ->
  forallb Chars.is_digit (repeat "0"%char k ++ decimal N) = true
  /\ int (repeat "0"%char k ++ decimal N) = Ok N.
Proof.
  intros k N H. destruct (decimal_value N H) as (Ne & _ & D & V).
  destruct (zeros_digits k) as (Z1 & Z2).
  assert (F : forallb Chars.is_digit (repeat "0"%char k ++ decimal N) = true)
    by (rewrite forallb_app, Z1, D; reflexivity).
  split; [exact F|]. unfold int. rewrite F, fold_left_app, Z2, V.
  destruct (repeat "0"%char k ++ decimal N) eqn:E; [|reflexivity].
  apply app_eq_nil in E. destruct E as (_ & E). contradiction.
Qed.

(** The first annotation of the text gives the age it writes. *)
Lemma age_written : forall k N pre lab ws post day b,
  (0 <= N <= 999)%Z -> length (repeat "0"%char k ++ decimal N) <= 3 ->
  written_as (str "(age") lab = true ->
  forallb Chars.is_space ws = true ->
  find IM (str "(age")
    (pre ++ lab ++ ws ++ (repeat "0"%char k ++ decimal N) ++ str ")" ++ post)
    = Some (length pre) ->
  _parse_age day
    (pre ++ lab ++ ws ++ (repeat "0"%char k ++ decimal N) ++ str ")" ++ post) b
  = Ok (Some N).
Proof.
  intros k N pre lab ws post day b H L Wl W F.
  destruct (int_written k N H) as (D & I).
  destruct (decimal_value N H) as (Ne & _).
  assert (L1 : 1 <= length (repeat "0"%char k ++ decimal N) <= 3).
  { split; [|exact L]. rewrite length_app.
    destruct (decimal N); [contradiction|simpl; lia]. }
  unfold _parse_age.
  rewrite (extract_first_eq Pat.AGE _ eq_refl),
          (age_first_digits pre lab ws _ post Wl W D L1 F).
  cbn [bind]. rewrite I.
  destruct (repeat "0"%char k ++ decimal N) eqn:E; [simpl in L1; lia|reflexivity].
Qed.

End Written.

(** * Labels written in any case *)

Module AnyCase.

Import Written.

(** The first bullet with the label, in any case, and its value [v]. *)
Lemma labelled_value_any_case : forall x lab w cls f pre n ws1 ws2 v post,
  plain x -> char_pred IM cls = Some f -> f Chars.newline = false ->
  written_as (x :: lab) w = true ->
  forallb Chars.is_space ws1 = true -> forallb Chars.is_space ws2 = true ->
  v <> [] -> starts_space v = false -> forallb f v = true ->
  line_end post = true ->
  find_bullet (x :: lab) None (pre ++ bullet_line n ws1 w ws2 v ++ post)
    = Some (length pre) ->
  first_of (labelled (x :: lab) (Re.seqs [Star true Ws; Group 1 (plus true cls); Eol]))
           (pre ++ bullet_line n ws1 w ws2 v ++ post)
  = Some (strip v).
Proof.
  intros x lab w cls f pre n ws1 ws2 v post Px Pf Nl Ww W1 W2 Nv Sv Fv Z F.
  destruct (written_parts _ _ Ww) as (Lw & Sw).
  set (tail := Re.seqs [Star true Ws; Group 1 (plus true cls); Eol]).
  assert (S := search_labelled_first x lab tail pre _ Px F).
  assert (B := bullet_line_start _ _ _ F).
  set (p := prev_after None pre) in *.
  destruct w as [|y w]; [discriminate|].
  assert (Sy : lit_ok IM x y = true).
  { simpl in Sw. apply andb_prop in Sw. apply Sw. }
  destruct (Px y Sy) as (Xh & Xs).
  assert (R : exists s1,
    run IM (labelled (x :: lab) tail)
        (start_state p (bullet_line n ws1 (y :: w) ws2 v ++ post))
        (fun s => Some s) = Some s1
    /\ lookup 1 (caps s1) = Some v).
  { destruct v as [|c v]; [contradiction|].
    simpl in Fv. apply andb_prop in Fv. destruct Fv as (Fc & Fv).
    eexists. split.
    - unfold labelled, bullet_line, hyphens, start_state.
      rewrite <- !app_assoc. cbn [repeat app].
      match goal with
      | |- run _ _ {| prev := ?a; rest := ?b; caps := ?c |} _ = _ =>
          fold (st a b c)
      end.
      apply go_seq.
      eapply go_guard; [reflexivity|apply at_bol_start; exact B|].
      apply go_seq. unfold plus. apply go_seq.
      eapply go_char; [reflexivity|reflexivity|].
      eapply go_star_run; [reflexivity|apply Values.hyphens_run| |].
      { apply Values.stops_app; [|apply Values.spaces_not_hyphens; exact W1].
        simpl. rewrite lit_hyphen, Xh. reflexivity. }
      apply go_seq.
      eapply go_star_run; [reflexivity|exact W1| |].
      { simpl. rewrite Xs. reflexivity. }
      apply go_seq.
      change (y :: w ++ ws2 ++ c :: v ++ post)
        with ((y :: w) ++ ws2 ++ c :: v ++ post).
      rewrite (go_lit_list_as IM (x :: lab) (y :: w) _ _ _ _ Lw Sw).
      unfold tail. cbn [Re.seqs].
      apply go_seq.
      eapply go_star_run; [reflexivity|exact W2| |].
      { simpl. simpl in Sv. rewrite Sv. reflexivity. }
      apply go_seq. apply go_group. apply go_seq.
      eapply go_char; [exact Pf|exact Fc|].
      eapply go_star_run; [exact Pf|exact Fv|apply Values.line_end_stops; assumption|].
      eapply go_guard; [reflexivity|apply at_eol_end; exact Z|].
      reflexivity.
    - unfold set_cap. cbn [caps lookup Nat.eqb]. f_equal.
      apply taken_app. reflexivity. }
  destruct R as (s1 & R & L).
  rewrite (first_of_at _ _ _ _ _ s1 S R), L. reflexivity.
Qed.



End AnyCase.



(** * The properties of the specification *)

Lemma single_candidate : forall ord t x,
  set_order_ok ord ->
  _extract_all1 Pat.EDU_LINES t ++ _extract_all0 Pat.EDU_SECTION t = [x] ->
  candidate_lines ord t = [x].
Proof.
  intros ord t x H E. unfold candidate_lines. rewrite E.
  apply order_single. assumption.
Qed.

Lemma post_graduate_education : forall ord,
  set_order_ok ord ->
  filter any_not_none
    (flat_map line_education (candidate_lines ord post_graduate_text))
  = [{| institution := Some (str "Korolev School");
        year := Some 2003%Z;
        qualification := None |}].
Proof.
  intros ord H. apply Permutation_length_1_inv.
  eapply Permutation_trans;
    [|apply (education_perm first_seen_order ord post_graduate_text
               first_seen_order_ok H)].
  vm_compute. apply Permutation_refl.
Qed.

(** C1.  A bullet line with the trigger phrase "graduated", or with
    "qualified as", holds an institution, a year or a qualification, and yet
    no education entry comes out of it: the loop over the candidates is
    given the trigger phrase that the first pattern captured, not the line,
    and finds nothing in it.  A line with "post-graduate" is a candidate,
    through the second pattern, which has no group; of such a line whose
    only part found is the year 0000 the loop keeps no entry either, since
    the number 0 counts as nothing found. *)
Theorem graduated_line_yields_no_entry :
  parse_line graduated_text
  = Ok (Some (str "Moscow Institute of Electronic Technology in 1989."),
        Some (str "1989"), None)
  /\ parse_line qualified_text = Ok (None, None, Some (str "test cosmonaut"))
  /\ parse_line (str "graduated") = Ok (None, None, None)
  /\ parse_line (str "qualified as") = Ok (None, None, None)
  /\ parse_line year_zero_line = Ok (None, Some (str "0000"), None)
  /\ line_step year_zero_line ([], []) = Ok ([], [])
  /\ forall e, set_order_ok (set_order e) ->
       candidate_lines (set_order e) graduated_text = [str "graduated"]
       /\ candidate_lines (set_order e) qualified_text = [str "qualified as"]
       /\ (exists p, parse_astronaut_profile e graduated_text = Ok p
                     /\ education p = [] /\ degrees p = [])
       /\ (exists p, parse_astronaut_profile e qualified_text = Ok p
                     /\ education p = [] /\ degrees p = [])
       /\ (exists p, parse_astronaut_profile e post_graduate_text = Ok p
                     /\ education p
                        = [{| institution := Some (str "Korolev School");
                              year := Some 2003%Z;
                              qualification := None |}]).
Proof.
  do 6 (split; [vm_compute; reflexivity|]).
  intros e H.
  assert (G : candidate_lines (set_order e) graduated_text = [str "graduated"])
    by (apply single_candidate; [assumption|vm_compute; reflexivity]).
  assert (Q : candidate_lines (set_order e) qualified_text = [str "qualified as"])
    by (apply single_candidate; [assumption|vm_compute; reflexivity]).
  split; [exact G|]. split; [exact Q|].
  split; [|split].
  - destruct (profile_eq e graduated_text) as (b & a & _ & _ & P).
    eexists. split; [exact P|]. cbn [education degrees].
    rewrite G. split; vm_compute; reflexivity.
  - destruct (profile_eq e qualified_text) as (b & a & _ & _ & P).
    eexists. split; [exact P|]. cbn [education degrees].
    rewrite Q. split; vm_compute; reflexivity.
  - destruct (profile_eq e post_graduate_text) as (b & a & _ & _ & P).
    eexists. split; [exact P|]. cbn [education].
    apply post_graduate_education. exact H.
Qed.

Lemma graduated_line_yields_no_entry_witness :
  set_order_ok (set_order env0)
  /\ exists p, parse_astronaut_profile env0 graduated_text = Ok p
               /\ education p = [] /\ degrees p = [].
Proof.
  split; [exact first_seen_order_ok|].
  destruct graduated_line_yields_no_entry as (_ & _ & _ & _ & _ & _ & A).
  destruct (A env0 first_seen_order_ok) as (_ & _ & R & _).
  exact R.
Defined.

(** C2, as the claim states it: the line labelled "Occupation(s):" without a
    leading hyphen gives no occupation at all. *)
Lemma occupation_label_without_hyphen :
  parse_astronaut_profile env0 occupation_label_line = Ok empty_profile
  /\ occupations empty_profile <> three_occupations.
Proof. split; [vm_compute; reflexivity|discriminate]. Qed.

(** C2, amended.  When the first bullet labelled "Occupation(s):" of the text
    is the line "- Occupation(s): Cosmonaut, Lieutenant Colonel, Russian Air
    Force", the occupations are these three.  In general, at the first
    place of the text where a line begins with hyphens, white space if any
    and the label, the value is what follows the label and the white space
    after it, up to the end of the line where it begins; that white space
    can run over ends of lines, so that a bullet with nothing after the
    label on its line takes the next line that is not blank as its value.
    The value is split at its commas, the pieces stripped and the empty
    ones dropped; without any such bullet the list is empty. *)
Theorem occupations_of_first_bullet : forall e t,
  exists p, parse_astronaut_profile e t = Ok p
    /\ (forall pre post,
          t = pre ++ occupation_line ++ post ->
          find_bullet (str "Occupation(s):") None t = Some (length pre) ->
          line_end post = true ->
          occupations p = three_occupations)
    /\ (forall pre n ws1 lab ws2 v post,
          written_as (str "Occupation(s):") lab = true ->
          t = pre ++ bullet_line n ws1 lab ws2 v ++ post ->
          find_bullet (str "Occupation(s):") None t = Some (length pre) ->
          forallb Chars.is_space ws1 = true -> forallb Chars.is_space ws2 = true ->
          v <> [] -> starts_space v = false -> forallb not_newline v = true ->
          line_end post = true ->
          occupations p
          = map strip (filter (fun o => truthy (strip o)) (split_char "," (strip v))))
    /\ (t = empty_occupation_bullet ->
        occupations p = [str "- Nationality: Russian"])
    /\ (forall v,
          _extract_first Pat.OCCUPATION t = Ok (Some v) ->
          occupations p
          = map strip (filter (fun o => truthy (strip o)) (split_char "," v))
          /\ join_commas (split_char "," v) = v)
    /\ (forall o, In o (occupations p) ->
          o <> [] /\ strip o = o /\ ~ In ","%char o)
    /\ (find_bullet (str "Occupation(s):") None t = None -> occupations p = []).
Proof.
  intros e t. destruct (profile_eq e t) as (b & a & _ & _ & P).
  eexists. split; [exact P|]. cbn [occupations].
  assert (G : forall pre n ws1 lab ws2 v post,
    written_as (str "Occupation(s):") lab = true ->
    t = pre ++ bullet_line n ws1 lab ws2 v ++ post ->
    find_bullet (str "Occupation(s):") None t = Some (length pre) ->
    forallb Chars.is_space ws1 = true -> forallb Chars.is_space ws2 = true ->
    v <> [] -> starts_space v = false -> forallb not_newline v = true ->
    line_end post = true ->
    tokens (first_of Pat.OCCUPATION t)
    = map strip (filter (fun o => truthy (strip o)) (split_char "," (strip v)))).
  { intros pre n ws1 lab ws2 v post Wl E F W1 W2 Nv Sv Fv Z. subst t.
    assert (V : first_of Pat.OCCUPATION
                  (pre ++ bullet_line n ws1 lab ws2 v ++ post)
                = Some (strip v)).
    { rewrite occupation_shape.
      apply (AnyCase.labelled_value_any_case "O" (str "ccupation(s):") lab
               (Cls true [CChar Chars.newline])
               (cls_ok IM true [CChar Chars.newline]) pre n ws1 ws2 v post
               plain_O eq_refl eq_refl Wl W1 W2 Nv Sv); [|exact Z|exact F].
      rewrite (forallb_eq _ _ v Shapes.cls_not_newline). exact Fv. }
    rewrite V. apply tokens_of_value. }
  split; [|split; [exact G|split; [|split; [|split]]]].
  - intros pre post E F L. subst t.
    rewrite (occupation_first pre post F L). vm_compute. reflexivity.
  - intros E.
    rewrite (G [] 0 (str " ") (str "Occupation(s):") [Chars.newline]
               (str "- Nationality: Russian") []);
      subst t; try reflexivity; try discriminate.
  - intros v H. rewrite (extract_first_eq Pat.OCCUPATION t eq_refl) in H.
    inversion H as [H']. rewrite H'. split; [apply tokens_of_value|apply split_char_join].
  - apply tokens_spec.
  - intros H. rewrite (occupation_none t H). reflexivity.
Qed.

Lemma occupations_of_first_bullet_witness :
  exists p,
    parse_astronaut_profile env0
      (str "Yuri
" ++ occupation_line ++ str "
- Nationality: Russian") = Ok p
    /\ occupations p = three_occupations.
Proof.
  destruct (occupations_of_first_bullet env0
              (str "Yuri
" ++ occupation_line ++ str "
- Nationality: Russian")) as (p & P & A & _).
  exists p. split; [exact P|].
  apply (A (str "Yuri
") (str "
- Nationality: Russian")); vm_compute; reflexivity.
Defined.

(** C3.  The extractor returns a profile for every text, and a field whose
    patterns find nothing in the text is empty or null. *)
Theorem extract_never_raises : forall e t,
  exists p, parse_astronaut_profile e t = Ok p
    /\ (search IM Pat.OCCUPATION t = None -> occupations p = [])
    /\ (search IM Pat.NATIONALITY t = None -> nationality p = None)
    /\ (search IM Pat.TIME_IN_SPACE t = None -> time_in_space p = None)
    /\ (search IM Pat.ENJOYS t = None -> interests p = [])
    /\ (set_order_ok (set_order e) ->
        findall1 IM Pat.EDU_LINES t = [] -> findall0 IM Pat.EDU_SECTION t = [] ->
        education p = []
        /\ (findall1 IM Pat.CANDIDATE t = [] -> degrees p = []))
    /\ (search IM Pat.AGE t = None -> search IM Pat.BORN_ISO t = None ->
        search IM Pat.MONTH_D_YYYY t = None -> search IM Pat.D_MONTH_YYYY t = None ->
        age p = None).
Proof.
  intros e t. destruct (profile_eq e t) as (b & a & B & A & P).
  eexists. split; [exact P|].
  cbn [occupations nationality time_in_space interests education degrees age].
  split; [|split; [|split; [|split; [|split]]]].
  - intros S. unfold first_of. rewrite S. reflexivity.
  - intros S. unfold first_of. rewrite S. reflexivity.
  - intros S. unfold first_of. rewrite S. reflexivity.
  - intros S. unfold first_of. rewrite S. reflexivity.
  - intros O E1 E2. unfold candidate_lines, _extract_all1, _extract_all0.
    rewrite E1, E2. simpl. rewrite (order_nil _ O).
    split; [reflexivity|]. intros C. rewrite C. reflexivity.
  - intros S1 S2 S3 S4.
    assert (Hb : b = None).
    { revert B. unfold _parse_birthdate, attempt.
      rewrite (proj2 (extract_first_None _ _) S2). cbn [bind].
      rewrite (proj2 (extract_first_None _ _) S3). cbn [bind].
      rewrite (proj2 (extract_first_None _ _) S4). cbn [bind].
      intros B. inversion B. reflexivity. }
    subst b. revert A. unfold _parse_age.
    rewrite (proj2 (extract_first_None _ _) S1). cbn [bind].
    intros A. inversion A. reflexivity.
Qed.

Lemma extract_never_raises_witness :
  exists p, parse_astronaut_profile env0 (str "A short note.") = Ok p
    /\ occupations p = [] /\ nationality p = None /\ time_in_space p = None
    /\ interests p = [] /\ education p = [] /\ degrees p = [] /\ age p = None.
Proof.
  destruct (extract_never_raises env0 (str "A short note."))
    as (p & P & O & N & T & I & E & A).
  exists p. split; [exact P|].
  split; [apply O; vm_compute; reflexivity|].
  split; [apply N; vm_compute; reflexivity|].
  split; [apply T; vm_compute; reflexivity|].
  split; [apply I; vm_compute; reflexivity|].
  destruct (E first_seen_order_ok) as (E1 & E2);
    [vm_compute; reflexivity|vm_compute; reflexivity|].
  split; [exact E1|]. split; [apply E2; vm_compute; reflexivity|].
  apply A; vm_compute; reflexivity.
Defined.

(** C4.  A "Month D, YYYY" date is not read.  The month names are
    alternatives at the top of the second pattern, so that it captures the
    bare name "January"; that is no date, and the third pattern does not fit
    the text either.  The same text is a date for [strptime], and of the
    twelve months the pattern reads December.  The rest holds: the three
    patterns are tried in order, the first that matches and parses decides,
    a failure to parse or to match passes on to the next, and the ISO date
    after the first "Born:" wins over a textual date beside it. *)
Theorem month_day_year_is_not_read :
  _extract_first Pat.MONTH_D_YYYY textual_birth = Ok (Some (str "January"))
  /\ Date.strptime (str "January") Date.fmt_BdY = Raise ValueError
  /\ _parse_birthdate textual_birth = Ok None
  /\ Date.strptime (str "January 12, 1966") Date.fmt_BdY = Ok jan_12_1966
  /\ _parse_birthdate (str "Born: December 12, 1966")
     = Ok (Some {| Date.year := 1966; Date.month := 12; Date.day := 12 |})
  /\ (forall t,
        _parse_birthdate t
        = attempt Pat.BORN_ISO Date.fmt_iso t
            (attempt Pat.MONTH_D_YYYY Date.fmt_BdY t
               (attempt Pat.D_MONTH_YYYY Date.fmt_dBY t (Ok None))))
  /\ (forall pattern fmt t next w d,
        _extract_first pattern t = Ok (Some w) -> truthy w = true ->
        Date.strptime w fmt = Ok d ->
        attempt pattern fmt t next = Ok (Some d))
  /\ (forall pattern fmt t next w,
        _extract_first pattern t = Ok (Some w) ->
        Date.strptime w fmt = Raise ValueError ->
        attempt pattern fmt t next = next)
  /\ (forall pattern fmt t next,
        _extract_first pattern t = Ok None -> attempt pattern fmt t next = next)
  /\ (forall pre post,
        find IM (str "Born:") (pre ++ born_line ++ post) = Some (length pre) ->
        _parse_birthdate (pre ++ born_line ++ post) = Ok (Some jan_12_1966))
  /\ _parse_birthdate (str "Born: 12 January 1966") = Ok (Some jan_12_1966)
  /\ _parse_birthdate (str "Born: (1966-02-30) 12 January 1966")
     = Ok (Some jan_12_1966).
Proof.
  do 5 (split; [vm_compute; reflexivity|]).
  split; [reflexivity|].
  split; [exact Birth.attempt_parsed|].
  split; [exact Birth.attempt_unparsed|].
  split; [exact Birth.attempt_unmatched|].
  split; [exact Birth.born_line_date|].
  split; vm_compute; reflexivity.
Qed.

Lemma month_day_year_is_not_read_witness :
  _parse_birthdate (str "Gennady Padalka
" ++ born_line ++ str " (age 59)") = Ok (Some jan_12_1966).
Proof.
  destruct month_day_year_is_not_read as (_ & _ & _ & _ & _ & _ & _ & _ & _ & A & _).
  apply (A (str "Gennady Padalka
") (str " (age 59)")). vm_compute. reflexivity.
Defined.

(** C5, as the claim states it: a text that holds "(age 59)" and no date of
    birth, and whose age is not 59, since an annotation stands before. *)
Lemma later_annotation_is_not_read :
  (exists pre post, two_annotations = pre ++ str "(age 59)" ++ post)
  /\ _parse_birthdate two_annotations = Ok None
  /\ exists p, parse_astronaut_profile env0 two_annotations = Ok p
               /\ age p = Some 12%Z /\ age p <> Some 59%Z.
Proof.
  split; [exists (str "On the 1978 photo (age 12) and today "), (str "."); reflexivity|].
  split; [vm_compute; reflexivity|].
  eexists. split; [vm_compute; reflexivity|]. split; [reflexivity|discriminate].
Qed.

(** C5, amended.  An "(age N)" annotation anywhere in the text decides the
    age, whatever the birth date and the day of the run, and the first
    annotation of the text is the one that is read: when the first "(age"
    of the text is followed by white space, if any, by the number [N]
    written with one to three digits, and by ")", the age is [N]; so it is
    59 when the first annotation is "(age 59)".  Without annotation the age
    is the difference of the years of today and of the birth date found,
    less one when today's month and day come before those of the birth;
    without a birth date either, it is null. *)
Theorem age_resolution : forall e t,
  exists p birth,
    parse_astronaut_profile e t = Ok p
    /\ _parse_birthdate t = Ok birth
    /\ (forall pre ws ds post,
          t = pre ++ str "(age" ++ ws ++ ds ++ str ")" ++ post ->
          forallb Chars.is_space ws = true ->
          forallb Chars.is_digit ds = true ->
          1 <= length ds <= 3 ->
          exists n, age p = Some n
                    /\ forall day b, _parse_age day t b = Ok (Some n))
    /\ (forall N zeros pre lab ws post,
          (0 <= N <= 999)%Z ->
          length (repeat "0"%char zeros ++ decimal N) <= 3 ->
          written_as (str "(age") lab = true ->
          t = pre ++ lab ++ ws ++ (repeat "0"%char zeros ++ decimal N)
                  ++ str ")" ++ post ->
          forallb Chars.is_space ws = true ->
          find IM (str "(age") t = Some (length pre) ->
          age p = Some N
          /\ forall day b, _parse_age day t b = Ok (Some N))
    /\ (forall pre post,
          t = pre ++ str "(age 59)" ++ post ->
          find IM (str "(age") t = Some (length pre) ->
          age p = Some 59%Z)
    /\ (search IM Pat.AGE t = None ->
        age p = match birth with
                | Some b =>
                    Some (Date.year (today e) - Date.year b
                          - (if Date.md_before (today e) b then 1 else 0))%Z
                | None => None
                end)
    /\ (forall a b,
          Date.md_before a b = true <->
          (Date.month a < Date.month b
           \/ (Date.month a = Date.month b /\ Date.day a < Date.day b))%Z).
Proof.
  intros e t. destruct (profile_eq e t) as (b & a & B & A & P).
  eexists. exists b. split; [exact P|]. split; [exact B|]. cbn [age].
  split; [|split; [|split; [|split]]].
  - intros pre ws ds post E W D L.
    destruct (first_of Pat.AGE t) as [w|] eqn:F.
    + destruct (age_explicit t w F) as (n & _ & H). exists n.
      split; [|exact H]. rewrite H in A. inversion A. reflexivity.
    + exfalso. subst t. revert F. apply annotation_found; try assumption; try lia.
      destruct ds; [simpl in L; lia|discriminate].
  - intros N zeros pre lab ws post H L Wl E W F. subst t.
    assert (X := fun day b0 =>
                   Written.age_written zeros N pre lab ws post day b0 H L Wl W F).
    split; [|exact X]. rewrite X in A. inversion A. reflexivity.
  - intros pre post E F. subst t.
    destruct (age_explicit _ _ (age_first pre post F)) as (n & I & H).
    rewrite H in A. inversion A. subst a.
    vm_compute in I. inversion I. reflexivity.
  - intros S. apply (first_of_None Pat.AGE t eq_refl) in S.
    rewrite (age_fallback _ _ _ S) in A. inversion A. reflexivity.
  - intros x y. unfold Date.md_before.
    rewrite orb_true_iff, andb_true_iff, !Z.ltb_lt, Z.eqb_eq. tauto.
Qed.

Lemma age_resolution_witness :
  exists p,
    parse_astronaut_profile env0 (str "Yuri (age 59) is a cosmonaut.") = Ok p
    /\ age p = Some 59%Z.
Proof.
  destruct (age_resolution env0 (str "Yuri (age 59) is a cosmonaut."))
    as (p & b & P & _ & _ & A & _).
  exists p. split; [exact P|].
  apply (A 59%Z 0 (str "Yuri ") (str "(age") (str " ") (str " is a cosmonaut.")).
  - lia.
  - vm_compute. lia.
  - reflexivity.
  - reflexivity.
  - reflexivity.
  - vm_compute. reflexivity.
Defined.




Lemma twice_qualified_degrees : forall ord,
  set_order_ok ord ->
  dedup_loop [] (map _norm (flat_map line_degrees (candidate_lines ord twice_qualified)
                            ++ _extract_all1 Pat.CANDIDATE twice_qualified))
  = [str "engineer"].
Proof.
  intros ord H. apply Permutation_length_1_inv.
  eapply Permutation_trans;
    [|apply (degrees_perm first_seen_order ord twice_qualified first_seen_order_ok H)].
  vm_compute. apply Permutation_refl.
Qed.

(** C7.  A candidate line with a qualification adds one degree string, made
    of the qualification and of the institution and the year that were
    found: "Q (I, Y)", "Q (I)", "Q (Y)" or "Q".  The degrees of the result
    are these strings and the explicit "Candidate of ..." ones, normalized,
    without duplicates and in the order of their first occurrences; two
    different candidate lines with the same degree give one entry. *)
Theorem degrees_synthesized_and_deduplicated :
  (forall q i y,
     truthy i = true -> truthy y = true ->
     degree_string q (Some i) (Some y)
     = q ++ str " (" ++ i ++ str ", " ++ y ++ str ")")
  /\ (forall q i,
        truthy i = true ->
        degree_string q (Some i) None = q ++ str " (" ++ i ++ str ")")
  /\ (forall q y,
        truthy y = true ->
        degree_string q None (Some y) = q ++ str " (" ++ y ++ str ")")
  /\ (forall q, degree_string q None None = q)
  /\ (forall line inst year q ds es,
        parse_line line = Ok (inst, year, Some q) -> truthy q = true ->
        exists es', line_step line (ds, es)
                    = Ok (ds ++ [degree_string q inst year], es'))
  /\ (forall e t,
        exists p, parse_astronaut_profile e t = Ok p
          /\ degrees p
             = dedup_loop []
                 (map _norm (flat_map line_degrees (candidate_lines (set_order e) t)
                             ++ _extract_all1 Pat.CANDIDATE t))
          /\ NoDup (degrees p))
  /\ (forall l x,
        dedup_loop [] (l ++ [x])
        = if in_dec text_eq_dec x l then dedup_loop [] l
          else dedup_loop [] l ++ [x])
  /\ _norm (str "  engineer 	  (Moscow,
 1989) ") = str "engineer (Moscow, 1989)"
  /\ (forall e,
        set_order_ok (set_order e) ->
        line_degrees (str "- Revin qualified as an engineer.") = [str "engineer"]
        /\ line_degrees (str "-  Revin qualified as an engineer.") = [str "engineer"]
        /\ In (str "- Revin qualified as an engineer.")
              (candidate_lines (set_order e) twice_qualified)
        /\ In (str "-  Revin qualified as an engineer.")
              (candidate_lines (set_order e) twice_qualified)
        /\ exists p, parse_astronaut_profile e twice_qualified = Ok p
                     /\ degrees p = [str "engineer"]).
Proof.
  split; [intros q [|? ?] [|? ?] Hi Hy; try discriminate; reflexivity|].
  split; [intros q [|? ?] Hi; try discriminate; reflexivity|].
  split; [intros q [|? ?] Hy; try discriminate; reflexivity|].
  split; [reflexivity|].
  split.
  { intros line inst year q ds es H T. rewrite line_step_eq.
    unfold line_degrees. rewrite H, T. eauto. }
  split.
  { intros e t. destruct (profile_eq e t) as (b & a & _ & _ & P).
    eexists. split; [exact P|]. cbn [degrees]. split; [reflexivity|apply dedup_NoDup]. }
  split; [apply dedup_snoc|].
  split; [vm_compute; reflexivity|].
  intros e H.
  split; [vm_compute; reflexivity|]. split; [vm_compute; reflexivity|].
  assert (I : forall x,
    In x (_extract_all1 Pat.EDU_LINES twice_qualified
          ++ _extract_all0 Pat.EDU_SECTION twice_qualified) ->
    In x (candidate_lines (set_order e) twice_qualified)).
  { intros x Hx. unfold candidate_lines. apply (proj2 (H _)). exact Hx. }
  split; [apply I; vm_compute; tauto|]. split; [apply I; vm_compute; tauto|].
  destruct (profile_eq e twice_qualified) as (b & a & _ & _ & P).
  eexists. split; [exact P|]. cbn [degrees]. apply twice_qualified_degrees. exact H.
Qed.

Lemma degrees_synthesized_and_deduplicated_witness :
  exists p, parse_astronaut_profile env0 twice_qualified = Ok p
            /\ degrees p = [str "engineer"].
Proof.
  destruct degrees_synthesized_and_deduplicated as (_ & _ & _ & _ & _ & _ & _ & _ & A).
  destruct (A env0 first_seen_order_ok) as (_ & _ & _ & _ & R).
  exact R.
Defined.

(** C8.  In the JSON object of the result the members "degrees",
    "education", "occupations" and "interests" are arrays, for every text;
    "time_in_space" and "nationality" are null exactly when their pattern
    matches nowhere, and "age" exactly when there is neither an "(age N)"
    annotation nor a birth date. *)
Theorem list_fields_never_null : forall e t,
  exists p, parse_astronaut_profile e t = Ok p
    /\ Json.is_array (Json.member "degrees" (Json.of_profile p))
    /\ Json.is_array (Json.member "education" (Json.of_profile p))
    /\ Json.is_array (Json.member "occupations" (Json.of_profile p))
    /\ Json.is_array (Json.member "interests" (Json.of_profile p))
    /\ (Json.member "time_in_space" (Json.of_profile p) = Some Json.JNull
        <-> search IM Pat.TIME_IN_SPACE t = None)
    /\ (Json.member "nationality" (Json.of_profile p) = Some Json.JNull
        <-> search IM Pat.NATIONALITY t = None)
    /\ (Json.member "age" (Json.of_profile p) = Some Json.JNull
        <-> search IM Pat.AGE t = None /\ _parse_birthdate t = Ok None).
Proof.
  intros e t. destruct (profile_eq e t) as (b & a & B & A & P).
  eexists. split; [exact P|].
  split; [eexists; reflexivity|]. split; [eexists; reflexivity|].
  split; [eexists; reflexivity|]. split; [eexists; reflexivity|].
  cbn [Json.member Json.of_profile Json.assoc String.eqb Ascii.eqb Bool.eqb
       time_in_space nationality age].
  split; [|split].
  - rewrite <- (first_of_None Pat.TIME_IN_SPACE t eq_refl).
    destruct (first_of Pat.TIME_IN_SPACE t); simpl; split; intros H;
      try discriminate; reflexivity.
  - rewrite <- (first_of_None Pat.NATIONALITY t eq_refl).
    destruct (first_of Pat.NATIONALITY t); simpl; split; intros H;
      try discriminate; reflexivity.
  - rewrite <- (first_of_None Pat.AGE t eq_refl). rewrite B.
    destruct (first_of Pat.AGE t) as [w|] eqn:F.
    + destruct (age_explicit t w F) as (n & _ & H).
      rewrite H in A. inversion A. subst a. simpl.
      split; [discriminate|]. intros (X & _). discriminate.
    + rewrite (age_fallback _ _ _ F) in A. inversion A. subst a.
      destruct b; simpl; split; intros H; try discriminate; auto.
      destruct H as (_ & H). discriminate.
Qed.

Lemma list_fields_never_null_witness :
  exists p, parse_astronaut_profile env0 (str "A short note.") = Ok p
    /\ Json.member "nationality" (Json.of_profile p) = Some Json.JNull
    /\ Json.member "time_in_space" (Json.of_profile p) = Some Json.JNull
    /\ Json.member "age" (Json.of_profile p) = Some Json.JNull.
Proof.
  destruct (list_fields_never_null env0 (str "A short note."))
    as (p & P & _ & _ & _ & _ & T & N & A).
  exists p. split; [exact P|].
  split; [apply N; vm_compute; reflexivity|].
  split; [apply T; vm_compute; reflexivity|].
  apply A. split; vm_compute; reflexivity.
Defined.

(** C9, as the claim states it: on the same text and the same day, two runs
    whose sets list their elements in different orders give the degrees and
    the education entries in different orders. *)
Lemma set_order_changes_output :
  set_order_ok (set_order env0) /\ set_order_ok (set_order env1)
  /\ today env0 = today env1
  /\ option_map degrees
       (match parse_astronaut_profile env0 two_qualifications with
        | Ok p => Some p | Raise _ => None end)
     = Some [str "engineer"; str "pilot"]
  /\ option_map degrees
       (match parse_astronaut_profile env1 two_qualifications with
        | Ok p => Some p | Raise _ => None end)
     = Some [str "pilot"; str "engineer"]
  /\ parse_astronaut_profile env0 two_qualifications
     <> parse_astronaut_profile env1 two_qualifications.
Proof.
  split; [exact first_seen_order_ok|]. split; [exact last_seen_order_ok|].
  split; [reflexivity|]. split; [vm_compute; reflexivity|].
  split; [vm_compute; reflexivity|]. vm_compute. discriminate.
Qed.

(** C9, amended.  On the same text and the same day two runs agree on every
    field but for the order of the degrees and of the education entries,
    which follows the order in which the set of candidate lines lists them:
    the two runs give the same degrees and the same entries, and in the same
    order when their sets list the candidates in the same order.  The day of
    the run changes nothing when the text has an "(age N)" annotation. *)
Theorem runs_agree_up_to_order : forall day t ord1 ord2,
  set_order_ok ord1 -> set_order_ok ord2 ->
  exists p1 p2,
    parse_astronaut_profile {| today := day; set_order := ord1 |} t = Ok p1
    /\ parse_astronaut_profile {| today := day; set_order := ord2 |} t = Ok p2
    /\ occupations p1 = occupations p2
    /\ time_in_space p1 = time_in_space p2
    /\ interests p1 = interests p2
    /\ nationality p1 = nationality p2
    /\ age p1 = age p2
    /\ Permutation (degrees p1) (degrees p2)
    /\ Permutation (education p1) (education p2)
    /\ (candidate_lines ord1 t = candidate_lines ord2 t -> p1 = p2)
    /\ (search IM Pat.AGE t <> None ->
        forall day', parse_astronaut_profile {| today := day'; set_order := ord1 |} t
                     = Ok p1).
Proof.
  intros day t ord1 ord2 H1 H2.
  destruct (profile_eq {| today := day; set_order := ord1 |} t) as (b1 & a1 & B1 & A1 & P1).
  destruct (profile_eq {| today := day; set_order := ord2 |} t) as (b2 & a2 & B2 & A2 & P2).
  cbn [today set_order] in *.
  rewrite B1 in B2. inversion B2. subst b2. rewrite A1 in A2. inversion A2. subst a2.
  eexists. eexists. split; [exact P1|]. split; [exact P2|].
  cbn [occupations time_in_space interests nationality age degrees education].
  repeat (split; [reflexivity|]).
  split; [apply degrees_perm; assumption|].
  split; [apply education_perm; assumption|].
  split; [intros E; rewrite E; reflexivity|].
  intros S day'.
  destruct (profile_eq {| today := day'; set_order := ord1 |} t) as (b & a & B & A & P).
  cbn [today set_order] in *. rewrite P.
  rewrite B1 in B. inversion B. subst b.
  destruct (first_of Pat.AGE t) as [w|] eqn:F.
  - destruct (age_explicit t w F) as (n & _ & H).
    rewrite H in A, A1. inversion A. inversion A1. reflexivity.
  - exfalso. apply S. apply (first_of_None Pat.AGE t eq_refl). exact F.
Qed.

Lemma runs_agree_up_to_order_witness :
  exists p1 p2,
    parse_astronaut_profile env0 two_qualifications = Ok p1
    /\ parse_astronaut_profile env1 two_qualifications = Ok p2
    /\ Permutation (degrees p1) (degrees p2)
    /\ Permutation (education p1) (education p2).
Proof.
  destruct (runs_agree_up_to_order (today env0) two_qualifications
              first_seen_order last_seen_order
              first_seen_order_ok last_seen_order_ok)
    as (p1 & p2 & P1 & P2 & _ & _ & _ & _ & _ & D & E & _).
  exists p1, p2. split; [exact P1|]. split; [exact P2|]. split; [exact D|exact E].
Defined.

(** C10, as the claim states it: each of the three labels stands at the
    start of a line, without hyphen, and its field is found all the same,
    since the line above holds a hyphen and the white space that the
    pattern allows between the hyphens and the label can be the end of a
    line. *)
Lemma label_below_a_hyphen_is_found :
  label_starts_line (str "Occupation(s):") None labels_below_hyphens = true
  /\ label_starts_line (str "Nationality:") None labels_below_hyphens = true
  /\ label_starts_line (str "Time in space:") None labels_below_hyphens = true
  /\ exists p, parse_astronaut_profile env0 labels_below_hyphens = Ok p
               /\ occupations p = [str "Cosmonaut"]
               /\ nationality p = Some (str "Russian")
               /\ time_in_space p = Some (str "12 days").
Proof.
  repeat (split; [vm_compute; reflexivity|]).
  eexists. split; [vm_compute; reflexivity|]. repeat split.
Qed.

(** C10, amended.  The occupations, the nationality and the time in space
    are found only where a line begins with one or more hyphens, followed
    by white space if any, ends of lines included, and by the label: in a
    text without such a place, and so in a text where no line begins with
    a hyphen, the three fields are empty or null.  At the first such place
    the field is read: the value is what follows the label and the white
    space after it, up to the end of its line, for the nationality when it
    is made of letters, spaces and hyphens. *)
Theorem labels_need_leading_hyphen : forall e t,
  exists p, parse_astronaut_profile e t = Ok p
    /\ (find_bullet (str "Occupation(s):") None t = None -> occupations p = [])
    /\ (find_bullet (str "Nationality:") None t = None -> nationality p = None)
    /\ (find_bullet (str "Time in space:") None t = None -> time_in_space p = None)
    /\ (no_hyphen_start None t = true ->
        occupations p = [] /\ nationality p = None /\ time_in_space p = None)
    /\ (forall pre n ws1 lab ws2 v post,
          t = pre ++ bullet_line n ws1 lab ws2 v ++ post ->
          forallb Chars.is_space ws1 = true -> forallb Chars.is_space ws2 = true ->
          v <> [] -> starts_space v = false -> line_end post = true ->
          (written_as (str "Occupation(s):") lab = true ->
           find_bullet (str "Occupation(s):") None t = Some (length pre) ->
           forallb not_newline v = true ->
           occupations p
           = map strip (filter (fun o => truthy (strip o)) (split_char "," (strip v))))
          /\ (written_as (str "Nationality:") lab = true ->
              find_bullet (str "Nationality:") None t = Some (length pre) ->
              forallb name_char v = true ->
              nationality p = Some (strip v))
          /\ (written_as (str "Time in space:") lab = true ->
              find_bullet (str "Time in space:") None t = Some (length pre) ->
              forallb not_newline v = true ->
              time_in_space p = Some (strip v))).
Proof.
  intros e t. destruct (profile_eq e t) as (b & a & _ & _ & P).
  eexists. split; [exact P|]. cbn [occupations nationality time_in_space].
  assert (O : find_bullet (str "Occupation(s):") None t = None ->
              tokens (first_of Pat.OCCUPATION t) = [])
    by (intros H; rewrite (occupation_none t H); reflexivity).
  split; [exact O|]. split; [apply nationality_none|].
  split; [apply time_in_space_none|]. split.
  { intros H. split; [apply O; apply no_hyphen_no_bullet; exact H|].
    split; [apply nationality_none|apply time_in_space_none];
      apply no_hyphen_no_bullet; exact H. }
  intros pre n ws1 lab ws2 v post E W1 W2 Nv Sv Z. subst t. split; [|split].
  - intros Wl F Fv.
    assert (V : first_of Pat.OCCUPATION
                  (pre ++ bullet_line n ws1 lab ws2 v ++ post)
                = Some (strip v)).
    { rewrite occupation_shape.
      apply (AnyCase.labelled_value_any_case "O" (str "ccupation(s):") lab
               (Cls true [CChar Chars.newline])
               (cls_ok IM true [CChar Chars.newline]) pre n ws1 ws2 v post
               plain_O eq_refl eq_refl Wl W1 W2 Nv Sv); [|exact Z|exact F].
      rewrite (forallb_eq _ _ v Shapes.cls_not_newline). exact Fv. }
    rewrite V. apply tokens_of_value.
  - intros Wl F Fv. rewrite nationality_shape.
    apply (AnyCase.labelled_value_any_case "N" (str "ationality:") lab
             (Cls false (Pat.letters ++ [CChar " "; CChar "-"]))
             (cls_ok IM false (Pat.letters ++ [CChar " "; CChar "-"]))
             pre n ws1 ws2 v post
             plain_N eq_refl eq_refl Wl W1 W2 Nv Sv); [|exact Z|exact F].
    rewrite (forallb_eq _ _ v Shapes.cls_name). exact Fv.
  - intros Wl F Fv. rewrite time_in_space_shape.
    apply (AnyCase.labelled_value_any_case "T" (str "ime in space:") lab
             (Cls true [CChar Chars.newline])
             (cls_ok IM true [CChar Chars.newline]) pre n ws1 ws2 v post
             plain_T eq_refl eq_refl Wl W1 W2 Nv Sv); [|exact Z|exact F].
    rewrite (forallb_eq _ _ v Shapes.cls_not_newline). exact Fv.
Qed.

Lemma labels_need_leading_hyphen_witness :
  exists p, parse_astronaut_profile env0 plain_labels = Ok p
    /\ occupations p = [] /\ nationality p = None /\ time_in_space p = None.
Proof.
  destruct (labels_need_leading_hyphen env0 plain_labels) as (p & P & _ & _ & _ & A & _).
  exists p. split; [exact P|]. apply A. vm_compute. reflexivity.
Defined.




(** * Further properties of the code *)

(** X1.  [_norm] returns the words of its argument, the maximal runs of
    characters that are not white space, joined by single spaces: what
    [" ".join(s.split())] gives.  So in its result white space occurs only
    as single spaces between two other characters. *)
Theorem norm_joins_words : forall s,
  _norm s = unwords (words s) /\ single_spaced (_norm s) = true.
Proof.
  intros s. split; [apply norm_words|apply norm_spaced].
Qed.

(** X2.  [_norm] is idempotent, and the texts it leaves unchanged are the
    texts in which white space occurs only as single spaces between two
    other characters. *)
Theorem norm_fixed_points : forall s,
  _norm (_norm s) = _norm s
  /\ (_norm s = s <-> single_spaced s = true).
Proof.
  intros s. split; [apply norm_idem|]. split.
  - intros H. rewrite <- H. apply norm_spaced.
  - apply norm_fixed.
Qed.

Lemma norm_fixed_points_witness :
  single_spaced (str "test cosmonaut (Moscow, 1996)") = true
  /\ _norm (str "test cosmonaut (Moscow, 1996)") = str "test cosmonaut (Moscow, 1996)".
Proof.
  assert (H : single_spaced (str "test cosmonaut (Moscow, 1996)") = true)
    by (vm_compute; reflexivity).
  split; [exact H|].
  apply (proj2 (proj2 (norm_fixed_points (str "test cosmonaut (Moscow, 1996)")))).
  exact H.
Defined.

(** X3.  Every degree of the result is a text that is not empty and is in
    the normal form of [_norm]: no white space at its ends, and inside only
    single spaces. *)
Theorem degrees_are_normalized : forall e t,
  exists p, parse_astronaut_profile e t = Ok p
    /\ Forall (fun d => d <> [] /\ _norm d = d /\ single_spaced d = true)
              (degrees p).
Proof.
  intros e t. destruct (profile_eq e t) as (b & a & _ & _ & P).
  eexists. split; [exact P|]. cbn [degrees].
  apply Forall_forall. intros d H. eapply degrees_clean. exact H.
Qed.

Lemma degrees_are_normalized_witness :
  exists p, parse_astronaut_profile env0 twice_qualified = Ok p
    /\ Forall (fun d => d <> [] /\ _norm d = d /\ single_spaced d = true)
              (degrees p).
Proof. exact (degrees_are_normalized env0 twice_qualified). Defined.

(** X4.  In every education entry of the result something was found: an
    institution or a qualification that is not empty, or a year other than
    0.  An institution begins with a letter and is made of letters, digits,
    spaces and the characters [.-()'], a year lies between 0 and 9999, a
    qualification is made of letters, spaces and hyphens, and both texts are
    stripped.  The entries are those the loop over the candidate lines
    collected: the pass that drops empty entries afterwards removes none. *)
Theorem education_entries_are_found : forall e t,
  exists p, parse_astronaut_profile e t = Ok p
    /\ Forall (fun en =>
         any_values en = true
         /\ (forall i, institution en = Some i ->
               strip i = i /\ forallb inst_char i = true
               /\ exists c y, i = c :: y /\ is_letter c = true)
         /\ (forall y, year en = Some y -> (0 <= y <= 9999)%Z)
         /\ (forall q, qualification en = Some q ->
               strip q = q /\ forallb name_char q = true))
       (education p)
    /\ exists ds, lines_loop (candidate_lines (set_order e) t) ([], [])
                  = Ok (ds, education p).
Proof.
  intros e t. destruct (profile_eq e t) as (b & a & _ & _ & P).
  eexists. split; [exact P|]. cbn [education].
  rewrite education_kept. split.
  - apply Forall_forall. intros en H.
    apply in_flat_map in H. destruct H as (line & _ & H).
    destruct (line_education_entry _ _ H) as (A & Hi & Hy & Hq).
    split; [exact A|]. split; [|split].
    + intros i E. destruct (Hi i E) as [X|X].
      * rewrite inst_from_shape in X. apply (institution_value _ _ _ X).
      * rewrite inst_at_shape in X. apply (institution_value _ _ _ X).
    + intros y E. destruct (Hy y E) as (w & X & I).
      destruct (year_capture _ _ X) as (L & F).
      assert (B := int_bound w y F I). rewrite L in B.
      change (10 ^ Z.of_nat 4)%Z with 10000%Z in B. lia.
    + intros q E. apply (qualification_value _ _ (Hq q E)).
  - eexists. rewrite lines_loop_eq. reflexivity.
Qed.

Lemma education_entries_are_found_witness :
  exists p, parse_astronaut_profile env0 post_graduate_text = Ok p
    /\ Forall (fun en =>
         forall i, institution en = Some i ->
           strip i = i /\ forallb inst_char i = true
           /\ exists c y, i = c :: y /\ is_letter c = true)
       (education p)
    /\ education p <> [].
Proof.
  destruct (education_entries_are_found env0 post_graduate_text) as (p & P & F & _).
  exists p. split; [exact P|]. split.
  - apply Forall_forall. intros en H. rewrite Forall_forall in F.
    apply (proj1 (proj2 (F en H))).
  - assert (Q : parse_astronaut_profile env0 post_graduate_text
               = Ok {| degrees := [];
                       education := [{| institution := Some (str "Korolev School");
                                        year := Some 2003%Z;
                                        qualification := None |}];
                       occupations := []; time_in_space := None; interests := [];
                       nationality := None; age := None |})
      by (vm_compute; reflexivity).
    rewrite Q in P. inversion P. discriminate.
Defined.

(** X5.  The extractor takes its values out of the text: the time in space,
    the nationality, each occupation and each interest is a contiguous part
    of the input, and so is the institution and the qualification of each
    education entry when the set of candidate lines lists the lines it was
    given. *)
Theorem values_are_parts_of_the_text : forall e t,
  exists p, parse_astronaut_profile e t = Ok p
    /\ (forall v, time_in_space p = Some v -> part_of v t)
    /\ (forall v, nationality p = Some v -> part_of v t)
    /\ Forall (fun o => part_of o t) (occupations p)
    /\ Forall (fun i => part_of i t) (interests p)
    /\ (set_order_ok (set_order e) ->
        Forall (fun en =>
          (forall i, institution en = Some i -> part_of i t)
          /\ (forall q, qualification en = Some q -> part_of q t))
        (education p)).
Proof.
  intros e t. destruct (profile_eq e t) as (b & a & _ & _ & P).
  eexists. split; [exact P|].
  cbn [time_in_space nationality occupations interests education].
  split; [apply first_of_part|]. split; [apply first_of_part|].
  split; [|split].
  - apply Forall_forall. intros o H.
    destruct (first_of Pat.OCCUPATION t) as [l|] eqn:F; [|contradiction].
    apply (part_of_trans _ l); [apply tokens_part; exact H|].
    eapply first_of_part. exact F.
  - apply Forall_forall. intros i H.
    destruct (first_of Pat.ENJOYS t) as [w|] eqn:F; [|contradiction].
    rewrite Interests.phrases_of_value in H.
    apply (part_of_trans _ w); [apply clean_part; exact H|].
    eapply first_of_part. exact F.
  - intros O. rewrite education_kept.
    apply Forall_forall. intros en H.
    apply in_flat_map in H. destruct H as (line & Hl & H).
    assert (L : part_of line t).
    { unfold candidate_lines in Hl. apply (proj1 (proj2 (O _) _)) in Hl.
      apply in_app_or in Hl. destruct Hl as [Hl|Hl].
      - eapply extract_all1_part. exact Hl.
      - eapply extract_all0_part. exact Hl. }
    destruct (line_education_entry _ _ H) as (_ & Hi & _ & Hq).
    split.
    + intros i E. apply (part_of_trans _ line); [|exact L].
      destruct (Hi i E) as [X|X].
      * rewrite (extract_first_eq Pat.INST_FROM line eq_refl) in X.
        inversion X as [X']. eapply first_of_part. exact X'.
      * rewrite (extract_first_eq Pat.INST_AT line eq_refl) in X.
        inversion X as [X']. eapply first_of_part. exact X'.
    + intros q E. apply (part_of_trans _ line); [|exact L].
      assert (X := Hq q E).
      rewrite (extract_first_eq Pat.QUAL line eq_refl) in X. inversion X as [X'].
      eapply first_of_part. exact X'.
Qed.

Lemma values_are_parts_of_the_text_witness :
  exists p, parse_astronaut_profile env0 post_graduate_text = Ok p
    /\ Forall (fun en =>
          (forall i, institution en = Some i -> part_of i post_graduate_text)
          /\ (forall q, qualification en = Some q -> part_of q post_graduate_text))
        (education p).
Proof.
  destruct (values_are_parts_of_the_text env0 post_graduate_text)
    as (p & P & _ & _ & _ & _ & E).
  exists p. split; [exact P|]. apply E. exact first_seen_order_ok.
Defined.

(** X6.  What the scalar fields and the list items can contain.  The
    nationality and the time in space have no white space at their ends; the
    nationality is made of letters, spaces and hyphens only; neither the
    time in space nor an occupation holds a newline, and an interest holds
    neither a newline nor a full stop. *)
Theorem found_values_shape : forall e t,
  exists p, parse_astronaut_profile e t = Ok p
    /\ (forall v, nationality p = Some v ->
          strip v = v /\ forallb name_char v = true)
    /\ (forall v, time_in_space p = Some v ->
          strip v = v /\ ~ In Chars.newline v)
    /\ Forall (fun o => ~ In Chars.newline o) (occupations p)
    /\ Forall (fun i => ~ In Chars.newline i /\ ~ In "."%char i) (interests p).
Proof.
  intros e t. destruct (profile_eq e t) as (b & a & _ & _ & P).
  eexists. split; [exact P|].
  cbn [nationality time_in_space occupations interests].
  split; [apply nationality_value|]. split; [apply time_in_space_value|].
  split.
  - apply Forall_forall. intros o H.
    destruct (first_of Pat.OCCUPATION t) as [l|] eqn:F; [|contradiction].
    intros N. apply (occupation_value t l F).
    eapply part_of_In; [apply tokens_part; exact H|exact N].
  - apply Forall_forall. intros i H.
    destruct (first_of Pat.ENJOYS t) as [w|] eqn:F; [|contradiction].
    rewrite Interests.phrases_of_value in H.
    destruct (Interests.enjoys_value t w F) as (N1 & N2).
    split; intros N; [apply N2|apply N1];
      (eapply part_of_In; [apply clean_part; exact H|exact N]).
Qed.

Lemma found_values_shape_witness :
  exists p,
    parse_astronaut_profile env0 (str "- Nationality: Russian
- Time in space: 12 days") = Ok p
    /\ nationality p = Some (str "Russian")
    /\ strip (str "Russian") = str "Russian"
    /\ forallb name_char (str "Russian") = true.
Proof.
  destruct (found_values_shape env0 (str "- Nationality: Russian
- Time in space: 12 days")) as (p & P & N & _).
  exists p. split; [exact P|].
  assert (Q : nationality p = Some (str "Russian")).
  { revert P. vm_compute. intros P. inversion P. reflexivity. }
  split; [exact Q|]. apply N. exact Q.
Defined.



(** X8.  The interests after the first "enjoys".  When "enjoys" first occurs
    at a place that is not inside or at the end of a word, and white space
    and then a text [v] without full stop and newline follow it, up to a
    full stop, a newline or the end of the text, the interests are the
    phrases of [v]. *)
Theorem interests_of_first_enjoys : forall e pre ws v post,
  find IM (str "enjoys") (pre ++ str "enjoys" ++ ws ++ v ++ post) = Some (length pre) ->
  no_word_before pre = true ->
  ws <> [] -> forallb Chars.is_space ws = true ->
  v <> [] -> starts_space v = false -> forallb in_sentence v = true ->
  stops in_sentence post = true ->
  exists p,
    parse_astronaut_profile e (pre ++ str "enjoys" ++ ws ++ v ++ post) = Ok p
    /\ interests p = _clean_commas_list (strip v).
Proof.
  intros e pre ws v post F Wb Nw Fw Nv Sv Fv Z.
  destruct (profile_eq e (pre ++ str "enjoys" ++ ws ++ v ++ post))
    as (b & a & _ & _ & P).
  eexists. split; [exact P|]. cbn [interests].
  rewrite (Values.enjoys_first_value pre ws v post F Wb Nw Fw Nv Sv Fv Z).
  apply Interests.phrases_of_value.
Qed.

Lemma interests_of_first_enjoys_witness :
  exists p,
    parse_astronaut_profile env0
      (str "She " ++ str "enjoys" ++ str " " ++ str "chess and long walks" ++ str ".") = Ok p
    /\ interests p = [str "chess"; str "long walks"].
Proof.
  destruct (interests_of_first_enjoys env0 (str "She ") (str " ")
              (str "chess and long walks") (str "."))
    as (p & P & I);
    try (vm_compute; reflexivity); try discriminate.
  exists p. split; [exact P|]. rewrite I. vm_compute. reflexivity.
Defined.

(** X9.  In a text whose lines all end with a carriage return and a newline
    no nationality is found: the value must reach the end of its line, and
    the carriage return before the newline is none of its characters. *)
Theorem nationality_needs_unix_line_ends : forall e t,
  crlf_lines None t = true ->
  exists p, parse_astronaut_profile e t = Ok p /\ nationality p = None.
Proof.
  intros e t H. destruct (profile_eq e t) as (b & a & _ & _ & P).
  eexists. split; [exact P|]. cbn [nationality].
  apply nationality_crlf. exact H.
Qed.

Lemma nationality_needs_unix_line_ends_witness :
  exists p,
    parse_astronaut_profile env0
      (str "- Nationality: Russian" ++ [carriage_return; Chars.newline]) = Ok p
    /\ nationality p = None.
Proof.
  apply (nationality_needs_unix_line_ends env0
           (str "- Nationality: Russian" ++ [carriage_return; Chars.newline])).
  vm_compute. reflexivity.
Defined.

(** X10.  Without an "(age N)" annotation, the age computed from a birth
    date counts the anniversaries of the birth that are not after today:
    [k] is at most the age exactly when the month and the day of the birth,
    [k] years after it, are on or before today.  So the age is negative
    exactly when the birth date is after today. *)
Theorem computed_age_counts_anniversaries : forall today t b,
  search IM Pat.AGE t = None ->
  exists n,
    _parse_age today t (Some b) = Ok (Some n)
    /\ (forall k, (k <= n)%Z <-> on_or_before (anniversary b k) today)
    /\ ((n < 0)%Z <-> ~ on_or_before b today).
Proof.
  intros today t b S. apply (first_of_None Pat.AGE t eq_refl) in S.
  rewrite (age_fallback today t (Some b) S). eexists. split; [reflexivity|].
  split; [intros k; apply Years.years_count_anniversaries|].
  assert (A := Years.years_count_anniversaries today b 0).
  assert (E : anniversary b 0 = b).
  { destruct b. unfold anniversary. simpl. rewrite Z.add_0_r. reflexivity. }
  rewrite E in A. split; intros H.
  - intros O. apply A in O. lia.
  - destruct (Z_lt_ge_dec
                (Date.year today - Date.year b
                 - (if Date.md_before today b then 1 else 0)) 0) as [L|G];
      [exact L|].
    exfalso. apply H. apply A. lia.
Qed.

Lemma computed_age_counts_anniversaries_witness :
  exists n,
    _parse_age (today env0) (str "Born: (1966-01-12)") (Some jan_12_1966)
    = Ok (Some n)
    /\ (59 <= n)%Z /\ ~ (60 <= n)%Z.
Proof.
  destruct (computed_age_counts_anniversaries (today env0)
              (str "Born: (1966-01-12)") jan_12_1966)
    as (n & P & K & _).
  - vm_compute. reflexivity.
  - exists n. split; [exact P|]. split.
    + apply K. unfold on_or_before. simpl. lia.
    + intros H. apply K in H. unfold on_or_before in H. simpl in H. lia.
Defined.

(** X11.  An "(age N)" annotation gives an age between 0 and 999, whatever
    the birth date and the day. *)
Theorem annotated_age_range : forall e t,
  search IM Pat.AGE t <> None ->
  exists p n, parse_astronaut_profile e t = Ok p
    /\ age p = Some n /\ (0 <= n <= 999)%Z.
Proof.
  intros e t S. destruct (profile_eq e t) as (b & a & _ & A & P).
  destruct (first_of Pat.AGE t) as [w|] eqn:F.
  - destruct (age_explicit t w F) as (n & I & H).
    rewrite H in A. inversion A. subst a.
    eexists. exists n. split; [exact P|]. split; [reflexivity|].
    apply (Years.age_explicit_range t w n F I).
  - exfalso. apply S. apply (first_of_None Pat.AGE t eq_refl). exact F.
Qed.

Lemma annotated_age_range_witness :
  exists p n,
    parse_astronaut_profile env0 (str "Yuri (age 007) is a cosmonaut.") = Ok p
    /\ age p = Some n /\ (0 <= n <= 999)%Z.
Proof.
  apply (annotated_age_range env0 (str "Yuri (age 007) is a cosmonaut.")).
  vm_compute. discriminate.
Defined.

(** X12.  A text with neither a comma nor "and" in small letters is one
    phrase: [_clean_commas_list] returns it whole, stripped of spaces and of
    the characters [.;:] at its ends, or nothing when that leaves nothing.
    "And" or "AND" do not separate. *)
Theorem phrase_without_separator : forall s,
  ~ In ","%char s -> (forall a b, s <> a ++ str "and" ++ b) ->
  _clean_commas_list s
  = match strip_by punct s with
    | [] => []
    | w => [w]
    end.
Proof. exact Phrases.clean_whole. Qed.

Lemma phrase_without_separator_witness :
  _clean_commas_list (str " Track And Field.") = [str "Track And Field"].
Proof.
  rewrite (phrase_without_separator (str " Track And Field.")).
  - vm_compute. reflexivity.
  - vm_compute. intuition discriminate.
  - intros a b E.
    assert (H : forall x : text, In x [a; b] -> length x <= 17).
    { intros x Hx. apply (f_equal (@length ascii)) in E.
      rewrite !length_app in E. simpl in E, Hx.
      destruct Hx as [Hx|[Hx|[]]]; subst x; lia. }
    assert (La := H a (or_introl eq_refl)).
    do 18 (destruct a as [|? a]; [simpl in E; discriminate E|]).
    simpl in La. lia.
Defined.

(** X13.  The case of the letters A to Z of the text plays no part in what
    is matched.  Two texts that differ by case only give the same birth
    date and the same age, and a nationality, a time in space and
    occupations that differ by case only. *)
Theorem letter_case_is_ignored : forall e t t',
  same_but_case t t' ->
  exists p p',
    parse_astronaut_profile e t = Ok p
    /\ parse_astronaut_profile e t' = Ok p'
    /\ _parse_birthdate t = _parse_birthdate t'
    /\ age p = age p'
    /\ option_map fold_case (nationality p) = option_map fold_case (nationality p')
    /\ option_map fold_case (time_in_space p) = option_map fold_case (time_in_space p')
    /\ map fold_case (occupations p) = map fold_case (occupations p').
Proof.
  intros e t t' H.
  destruct (profile_eq e t) as (b & a & B & A & P).
  destruct (profile_eq e t') as (b' & a' & B' & A' & P').
  eexists. eexists. split; [exact P|]. split; [exact P'|].
  cbn [age nationality time_in_space occupations].
  assert (Eb := Case.birthdate_same t t' H).
  split; [exact Eb|].
  split.
  - rewrite B, B' in Eb. inversion Eb. subst b'.
    rewrite (Case.age_same (today e) t t' b H) in A. rewrite A in A'.
    inversion A'. reflexivity.
  - split; [apply Case.first_of_same; exact H|].
    split; [apply Case.first_of_same; exact H|].
    apply Case.tokens_same. apply Case.first_of_same. exact H.
Qed.

Lemma letter_case_is_ignored_witness :
  exists p p',
    parse_astronaut_profile env0 (str "- NATIONALITY: Russian
(AGE 59)") = Ok p
    /\ parse_astronaut_profile env0 (str "- nationality: RUSSIAN
(age 59)") = Ok p'
    /\ nationality p = Some (str "Russian")
    /\ age p = age p'
    /\ option_map fold_case (nationality p) = option_map fold_case (nationality p').
Proof.
  destruct (letter_case_is_ignored env0 (str "- NATIONALITY: Russian
(AGE 59)") (str "- nationality: RUSSIAN
(age 59)"))
    as (p & p' & P & P' & _ & A & N & _).
  - reflexivity.
  - exists p, p'. split; [exact P|]. split; [exact P'|].
    split; [|split; [exact A|exact N]].
    revert P. vm_compute. intros P. inversion P. reflexivity.
Defined.

(** X14.  A date of birth written by [isoformat] is read back.  When the
    first "Born:" of the text is followed by a valid date in ISO form
    between parentheses, with white space, if any, after the label and
    inside the parentheses, [_parse_birthdate] returns that date. *)
Theorem iso_birth_date_is_read_back : forall d pre ws1 ws2 ws3 post,
  Date.valid (Date.year d) (Date.month d) (Date.day d) = true ->
  forallb Chars.is_space ws1 = true -> forallb Chars.is_space ws2 = true ->
  forallb Chars.is_space ws3 = true ->
  find IM (str "Born:") (pre ++ born_iso ws1 ws2 d ws3 ++ post) = Some (length pre) ->
  _parse_birthdate (pre ++ born_iso ws1 ws2 d ws3 ++ post) = Ok (Some d).
Proof.
  intros d pre ws1 ws2 ws3 post V W1 W2 W3 F. unfold _parse_birthdate.
  apply (Birth.attempt_parsed _ _ _ _ (isoformat d)).
  - rewrite (extract_first_eq Pat.BORN_ISO _ eq_refl).
    rewrite (Iso.born_iso_first pre ws1 ws2 d ws3 post V W1 W2 W3 F). reflexivity.
  - apply (Iso.isoformat_stripped d V).
  - apply (Iso.strptime_isoformat d V).
Qed.

Lemma iso_birth_date_is_read_back_witness :
  _parse_birthdate
    (str "Sergey Revin
" ++ born_iso (str " ") [] {| Date.year := 1966; Date.month := 1; Date.day := 12 |} (str " ")
     ++ str " January 12, 1966")
  = Ok (Some {| Date.year := 1966; Date.month := 1; Date.day := 12 |}).
Proof.
  apply (iso_birth_date_is_read_back
           {| Date.year := 1966; Date.month := 1; Date.day := 12 |}
           (str "Sergey Revin
") (str " ") [] (str " ") (str " January 12, 1966")).
  - reflexivity.
  - reflexivity.
  - reflexivity.
  - reflexivity.
  - vm_compute. reflexivity.
Defined.

(** ** The page scraper *)

(** X15.  [sanitize_filename] removes the nine characters of its class and
    nothing else: the result is the text without them, in the same order.
    So it is idempotent, and it returns a name unchanged exactly when the
    name has none of them; dots, spaces and control characters stay. *)
Theorem sanitize_filename_filters : forall name,
  Sc.sanitize_filename name = filter Sc.allowed name
  /\ Sc.sanitize_filename (Sc.sanitize_filename name) = Sc.sanitize_filename name
  /\ (forall c, In c (Sc.sanitize_filename name) -> Sc.forbidden c = false)
  /\ (Sc.sanitize_filename name = name <-> forallb Sc.allowed name = true).
Proof.
  intros name. rewrite !Names.sanitize_filter.
  split; [reflexivity|]. split; [|split].
  - apply Names.filter_allowed. apply forallb_forall. intros c H.
    apply filter_In in H. apply H.
  - intros c H. apply filter_In in H. destruct H as (_ & H).
    apply negb_true_iff in H. exact H.
  - split; [apply Names.filter_fixed|apply Names.filter_allowed].
Qed.

Lemma sanitize_filename_filters_witness :
  forallb Sc.allowed (str "..") = true
  /\ Sc.sanitize_filename (str "..") = str "..".
Proof.
  assert (H : forallb Sc.allowed (str "..") = true) by reflexivity.
  split; [exact H|].
  apply (proj2 (proj2 (proj2 (sanitize_filename_filters (str ".."))))). exact H.
Defined.

(** X16.  [normalize_name] turns "Last, First" into "First Last": the name
    is cut at its first comma, and when neither side is blank the result is
    the second side, a space and the first side, each without the white
    space at its ends.  Further commas stay in the second side. *)
Theorem normalize_name_swaps : forall last first,
  Sc.contains "," last = false -> strip last <> [] -> strip first <> [] ->
  Sc.normalize_name (Sc.CStr (last ++ ","%char :: first))
  = strip first ++ " "%char :: strip last.
Proof. exact Names.normalize_swap. Qed.

Lemma normalize_name_swaps_witness :
  Sc.normalize_name (Sc.CStr (str " Armstrong " ++ ","%char :: str " Neil A., Jr. "))
  = str "Neil A., Jr. Armstrong".
Proof.
  rewrite (normalize_name_swaps (str " Armstrong ") (str " Neil A., Jr. ")).
  - vm_compute. reflexivity.
  - reflexivity.
  - vm_compute. discriminate.
  - vm_compute. discriminate.
Defined.

(** X17.  What [normalize_name] returns has no white space at its ends, and
    it is empty exactly when the argument is no text or a blank one; a text
    without comma is returned stripped. *)
Theorem normalize_name_result : forall v,
  strip (Sc.normalize_name v) = Sc.normalize_name v
  /\ (Sc.normalize_name v = []
      <-> match v with Sc.CStr s => strip s = [] | _ => True end)
  /\ (forall s, v = Sc.CStr s -> Sc.contains "," (strip s) = false ->
        Sc.normalize_name v = strip s).
Proof.
  intros v. split; [apply Names.normalize_stripped|]. split.
  - destruct v as [s| | |]; try (simpl; tauto). apply Names.normalize_blank.
  - intros s E C. subst v. unfold Sc.normalize_name. rewrite C. reflexivity.
Qed.

Lemma normalize_name_result_witness :
  Sc.normalize_name (Sc.CStr (str "  Yuri Gagarin ")) = str "Yuri Gagarin".
Proof.
  destruct (normalize_name_result (Sc.CStr (str "  Yuri Gagarin "))) as (_ & _ & H).
  rewrite (H (str "  Yuri Gagarin ") eq_refl); [vm_compute; reflexivity|].
  vm_compute. reflexivity.
Defined.

(** X18.  [guess_id] never returns the empty text.  It returns the stripped
    value of the first of the nine id columns that is present, not missing
    and not blank, whatever the other columns hold; when no id column is
    usable it returns the sanitized normalized name of the column
    "Profile.Name", or "unknown" when that is empty. *)
Theorem guess_id_takes_first_usable_column : forall r,
  Sc.guess_id r <> []
  /\ (forall before c after i,
        Sc.id_candidates = before ++ c :: after ->
        Forall (fun c' => Sc.usable c' r = None) before ->
        Sc.usable c r = Some i ->
        Sc.guess_id r = i /\ strip i = i)
  /\ (Forall (fun c => Sc.usable c r = None) Sc.id_candidates ->
      forall name,
        Sc.sanitize_filename
          (Sc.normalize_name (match Sc.get "Profile.Name" r with
                              | Some v => v
                              | None => Sc.CStr []
                              end)) = name ->
        Sc.guess_id r = match name with [] => str "unknown" | _ => name end).
Proof.
  intros r. split; [apply Names.guess_id_some|]. split.
  - intros before c after i E F U. unfold Sc.guess_id. rewrite E.
    rewrite (Names.first_usable_first before c after r i F U).
    split; [reflexivity|apply (Names.usable_value _ _ _ U)].
  - intros F name E. unfold Sc.guess_id.
    destruct (Sc.first_usable Sc.id_candidates r) as [i|] eqn:X.
    + apply Names.first_usable_found in X.
      destruct X as (before & c & after & Ec & _ & U).
      rewrite Forall_forall in F.
      rewrite (F c) in U; [discriminate|].
      rewrite Ec. apply in_or_app. right. left. reflexivity.
    + rewrite E. destruct name; reflexivity.
Qed.

Lemma guess_id_takes_first_usable_column_witness :
  Sc.guess_id [("Profile.Name"%string, Sc.CStr (str "Revin, Sergey"));
               ("Profile.ID"%string, Sc.CNaN);
               ("ID"%string, Sc.CNum true (str "42"))]
  = str "42".
Proof.
  destruct (guess_id_takes_first_usable_column
              [("Profile.Name"%string, Sc.CStr (str "Revin, Sergey"));
               ("Profile.ID"%string, Sc.CNaN);
               ("ID"%string, Sc.CNum true (str "42"))]) as (_ & H & _).
  apply (H ["Profile.ID"; "Profile.Id"; "ProfileId"]%string "ID"%string
           ["Id"; "id"; "AstronautID"; "Astronaut.Id"; "PersonID"]%string (str "42")).
  - reflexivity.
  - repeat constructor.
  - reflexivity.
Defined.

Ltac use_outcomes :=
  repeat match goal with
         | H : Sc.server _ _ = _ |- _ => rewrite H
         | H : Sc.retried _ = _ |- _ => rewrite H
         end.

Ltac http_get_case :=
  cbn [fst snd Sc.http_get_loop Sc.record Sc.server Sc.made Sc.log];
  split; [lia|];
  split; [reflexivity|];
  split; [rewrite <- ?app_assoc; reflexivity|];
  split; [intros [|[|j]] Hj; simpl; use_outcomes; simpl; auto; lia
         |simpl; use_outcomes; simpl; auto].

(** X19.  [http_get] makes one, two or three requests and no more.  It goes
    on to the next attempt exactly after a response with one of the five
    statuses 429, 500, 502, 503, 504 or after one of the two errors it
    catches, and after each such attempt it sleeps, with the number of the
    attempt as exponent of the delay, also after the third.  A response it
    returns has none of the five statuses; it returns no response exactly
    when all three attempts failed; another exception passes through at
    once. *)
Theorem http_get_tries_three_times : forall w,
  exists k new,
    1 <= k <= Sc.MAX_RETRIES
    /\ Sc.made (snd (Sc.http_get w)) = k + Sc.made w
    /\ Sc.log (snd (Sc.http_get w)) = Sc.log w ++ new
    /\ (forall j, j < k - 1 -> Sc.failed (Sc.server w (j + Sc.made w)) = true)
    /\ match fst (Sc.http_get w) with
       | Sc.Returned (Some status) =>
           Sc.server w (k - 1 + Sc.made w) = Sc.Answer status
           /\ Sc.retried status = false
           /\ Sc.sleeps new = seq 1 (k - 1)
       | Sc.Returned None =>
           k = Sc.MAX_RETRIES
           /\ Sc.failed (Sc.server w (k - 1 + Sc.made w)) = true
           /\ Sc.sleeps new = seq 1 k
       | Sc.Propagated =>
           Sc.server w (k - 1 + Sc.made w) = Sc.OtherError
           /\ Sc.sleeps new = seq 1 (k - 1)
       end.
Proof.
  intros w. unfold Sc.http_get, Sc.MAX_RETRIES.
  cbn [seq Sc.http_get_loop Sc.request].
  destruct (Sc.server w (Sc.made w)) as [s0| |] eqn:E0;
    [destruct (Sc.retried s0) eqn:R0|..];
    cbn [Sc.http_get_loop Sc.request Sc.record Sc.server Sc.made Sc.log];
    try (exists 1; eexists; http_get_case).
  all: destruct (Sc.server w (S (Sc.made w))) as [s1| |] eqn:E1;
    [destruct (Sc.retried s1) eqn:R1|..];
    cbn [Sc.http_get_loop Sc.request Sc.record Sc.server Sc.made Sc.log];
    try (exists 2; eexists; http_get_case).
  all: destruct (Sc.server w (S (S (Sc.made w)))) as [s2| |] eqn:E2;
    [destruct (Sc.retried s2) eqn:R2|..];
    cbn [Sc.http_get_loop Sc.request Sc.record Sc.server Sc.made Sc.log];
    exists 3; eexists; http_get_case.
Qed.

Lemma http_get_tries_three_times_witness :
  fst (Sc.http_get {| Sc.server := fun n => if n <? 2 then Sc.Answer 503 else Sc.Answer 200;
                      Sc.made := 0; Sc.log := [] |})
  = Sc.Returned (Some 200%Z)
  /\ exists k new,
    1 <= k <= Sc.MAX_RETRIES
    /\ Sc.made (snd (Sc.http_get {| Sc.server := fun n => if n <? 2 then Sc.Answer 503 else Sc.Answer 200;
                                    Sc.made := 0; Sc.log := [] |})) = k + 0
    /\ Sc.sleeps new = seq 1 (k - 1).
Proof.
  split; [reflexivity|].
  destruct (http_get_tries_three_times
              {| Sc.server := fun n => if n <? 2 then Sc.Answer 503 else Sc.Answer 200;
                 Sc.made := 0; Sc.log := [] |}) as (k & new & K & M & _ & _ & H).
  exists k, new. split; [exact K|]. split; [exact M|].
  change (fst (Sc.http_get {| Sc.server := fun n => if n <? 2 then Sc.Answer 503 else Sc.Answer 200;
                              Sc.made := 0; Sc.log := [] |}))
    with (@Sc.Returned (option Z) (Some 200%Z)) in H.
  apply H.
Defined.

(** X20.  A title that [wiki_search_best_title] returns is not empty, has no
    white space at its ends, and is the stripped text of the member "title"
    of the first hit of a reply with status 200 whose body was read as
    JSON: the hits are the member "search" of the member "query" of the
    reply. *)
Theorem search_title_comes_from_first_hit : forall o t,
  Sc.wiki_search_best_title o = Sc.Returned (Some t) ->
  t <> [] /\ strip t = t
  /\ exists data q hits hit title,
       o = Sc.SearchAnswer 200 (Sc.Parsed data)
       /\ Sc.dict_get data "query" (Sc.VDict []) = Sc.Returned q
       /\ Sc.dict_get q "search" (Sc.VList []) = Sc.Returned hits
       /\ Sc.first_item hits = Sc.Returned hit
       /\ Sc.dict_get hit "title" (Sc.VStr []) = Sc.Returned (Sc.VStr title)
       /\ t = strip title.
Proof.
  intros o t H. unfold Sc.wiki_search_best_title in H.
  destruct o as [status b| |]; try discriminate.
  destruct (status =? 200)%Z eqn:S; [|discriminate].
  apply Z.eqb_eq in S. subst status.
  destruct b as [data| |]; try discriminate.
  destruct (Sc.dict_get data "query" (Sc.VDict [])) as [q|] eqn:Q; [|discriminate].
  cbn [Sc.and_then] in H.
  destruct (Sc.dict_get q "search" (Sc.VList [])) as [hits|] eqn:Hs; [|discriminate].
  cbn [Sc.and_then] in H.
  destruct (Sc.value_truthy hits); [|discriminate].
  destruct (Sc.first_item hits) as [hit|] eqn:F; [|discriminate].
  cbn [Sc.and_then] in H.
  destruct (Sc.dict_get hit "title" (Sc.VStr [])) as [tv|] eqn:T; [|discriminate].
  cbn [Sc.and_then] in H.
  destruct tv as [| | |title| |]; try discriminate.
  cbn [Sc.value_strip Sc.and_then] in H.
  destruct (strip title) as [|c u] eqn:E; [discriminate|].
  cbn [truthy] in H. injection H as H. subst t.
  split; [discriminate|]. split; [rewrite <- E; apply strip_idem|].
  exists data, q, hits, hit, title. rewrite E. repeat split; assumption.
Qed.

Lemma search_title_comes_from_first_hit_witness :
  Sc.wiki_search_best_title
    (Sc.SearchAnswer 200 (Sc.Parsed (Sc.search_reply (str " Neil Armstrong ")
       [("pageid"%string, Sc.VNum 21247)] [] [] [])))
  = Sc.Returned (Some (str "Neil Armstrong"))
  /\ strip (str "Neil Armstrong") = str "Neil Armstrong".
Proof.
  assert (H : Sc.wiki_search_best_title
    (Sc.SearchAnswer 200 (Sc.Parsed (Sc.search_reply (str " Neil Armstrong ")
       [("pageid"%string, Sc.VNum 21247)] [] [] [])))
    = Sc.Returned (Some (str "Neil Armstrong"))) by (vm_compute; reflexivity).
  split; [exact H|].
  exact (proj1 (proj2 (search_title_comes_from_first_hit _ _ H))).
Defined.

(** X21.  The name of the second copy of the page in [scrape_one] is the
    sanitized title followed by ".html": the sanitized text is never empty,
    so the alternative "page.html" is never taken, and a title made of
    forbidden characters only gives the name ".html". *)
Theorem titled_filename_keeps_extension : forall title_text,
  Sc.sanitize_filename (title_text ++ str ".html") <> []
  /\ Sc.titled_filename title_text
     = Sc.sanitize_filename title_text ++ str ".html"
  /\ (forallb Sc.forbidden title_text = true ->
      Sc.titled_filename title_text = str ".html").
Proof.
  intros t.
  assert (E : Sc.sanitize_filename (t ++ str ".html")
              = Sc.sanitize_filename t ++ str ".html").
  { rewrite !Names.sanitize_filter, filter_app. reflexivity. }
  assert (N : Sc.sanitize_filename t ++ str ".html" <> []).
  { intros X. apply app_eq_nil in X. destruct X as (_ & X). discriminate. }
  split; [rewrite E; exact N|]. split.
  - unfold Sc.titled_filename. rewrite E.
    destruct (Sc.sanitize_filename t ++ str ".html"); [contradiction|reflexivity].
  - intros F. unfold Sc.titled_filename. rewrite E, Names.sanitize_filter.
    rewrite (Names.filter_forbidden t F). reflexivity.
Qed.

Lemma titled_filename_keeps_extension_witness :
  forallb Sc.forbidden (str "???") = true
  /\ Sc.titled_filename (str "???") = str ".html".
Proof.
  assert (H : forallb Sc.forbidden (str "???") = true) by reflexivity.
  split; [exact H|].
  exact (proj2 (proj2 (titled_filename_keeps_extension (str "???"))) H).
Defined.

(** X22.  The last test of the response in [scrape_one] never fails.
    Whenever the function gets to it, the response has the status 200 and
    its page was parsed, so the function never ends by the [return] of that
    test: a page that was not retrieved ends the function earlier, in the
    search fallback. *)
Theorem scrape_one_last_test_never_fails : forall r content found w,
  fst (fst (Sc.scrape_one r content found w)) <> Sc.Returned Sc.NotRetrieved.
Proof.
  intros r content found w. unfold Sc.scrape_one.
  set (raw := Sc.or_else _ _). set (nm := Sc.normalize_name raw).
  set (dir := Sc.sanitize_filename _).
  destruct (negb (truthy (strip nm))); [discriminate|].
  destruct (Sc.http_get w) as [[resp|] w1]; [|discriminate].
  destruct (Sc.has_status 200 resp) eqn:S.
  - destruct (negb (Sc.disambiguation (content (Sc.made w1 - 1)))).
    + cbv beta iota zeta. unfold Sc.save_page. rewrite S. discriminate.
    + cbv beta iota zeta.
      destruct (Sc.wiki_search_best_title found) as [[[|c t]|]|]; try discriminate.
      destruct (Sc.http_get w1) as [[resp2|] w2]; [|discriminate].
      destruct (Sc.has_status 200 resp2) eqn:S2; [|discriminate].
      unfold Sc.save_page. rewrite S2. discriminate.
  - assert (X : forall m2,
      fst (fst (match Sc.wiki_search_best_title found with
                | Sc.Returned (Some (c :: t)) =>
                    match Sc.http_get w1 with
                    | (Sc.Returned resp2, w2) =>
                        if Sc.has_status 200 resp2
                        then Sc.save_page nm resp2 (Some (content (Sc.made w2 - 1)))
                               (Sc.add_title (c :: t) m2) [Sc.MakeDir dir] w2
                        else (Sc.Returned Sc.FallbackFailed,
                              [Sc.MakeDir dir]
                              ++ [Sc.WriteMeta (Sc.set_status (Sc.StatusHttp resp2)
                                                  (Sc.add_title (c :: t) m2))], w2)
                    | (Sc.Propagated, w2) => (Sc.Propagated, [Sc.MakeDir dir], w2)
                    end
                | Sc.Returned _ =>
                    (Sc.Returned Sc.NoSearchResult,
                     [Sc.MakeDir dir]
                     ++ [Sc.WriteMeta
                           (Sc.add_note "Wikipedia search returned no results."
                              (Sc.set_status Sc.StatusSearchFailed m2))], w1)
                | Sc.Propagated => (Sc.Propagated, [Sc.MakeDir dir], w1)
                end)) <> Sc.Returned Sc.NotRetrieved).
    { intros m2.
      destruct (Sc.wiki_search_best_title found) as [[[|c t]|]|]; try discriminate.
      destruct (Sc.http_get w1) as [[resp2|] w2]; [|discriminate].
      destruct (Sc.has_status 200 resp2) eqn:S2; [|discriminate].
      unfold Sc.save_page. rewrite S2. discriminate. }
    destruct (Sc.has_status 404 resp); cbv beta iota zeta; apply X.
Qed.





(** X25.  The name of a row is taken from "Profile.Name" whenever that cell
    counts as true, and the missing value NaN does.  So a row whose
    "Profile.Name" is missing is skipped, whatever "Name" and "FullName"
    hold; a row without the column "Profile.Name" and with a name that is
    not blank in "Name" is not skipped. *)
Theorem missing_profile_name_hides_other_columns : forall r content found w,
  (Sc.get "Profile.Name" r = Some Sc.CNaN ->
   Sc.scrape_one r content found w = (Sc.Returned Sc.Skipped, [], w))
  /\ (forall s, Sc.get "Profile.Name" r = None ->
        Sc.get "Name" r = Some (Sc.CStr s) -> strip s <> [] ->
        fst (fst (Sc.scrape_one r content found w)) <> Sc.Returned Sc.Skipped).
Proof.
  intros r content found w. split.
  - intros G. unfold Sc.scrape_one, Sc.get_or_empty. rewrite G. reflexivity.
  - intros s G1 G2 N E.
    destruct (Sc.scrape_one r content found w) as [[e outs] w'] eqn:H.
    cbn [fst] in E. subst e.
    destruct (Scrape.scrape_cases r content found w _ outs w' H)
      as [(B & _)|(_ & _ & _ & C)].
    + unfold Sc.get_or_empty in B. rewrite G1, G2 in B.
      assert (T : Sc.cell_truthy (Sc.CStr s) = true).
      { destruct s; [exfalso; apply N; reflexivity|reflexivity]. }
      unfold Sc.or_else in B. cbn [Sc.cell_truthy truthy] in B.
      cbn [Sc.cell_truthy] in T. rewrite T in B.
      apply Names.normalize_blank in B. contradiction.
    + destruct C as [(X & _)|[(X & _)|[(X & _)|(X & _)]]]; discriminate.
Qed.

Lemma missing_profile_name_hides_other_columns_witness :
  Sc.scrape_one [("Profile.Name"%string, Sc.CNaN); ("Name"%string, Sc.CStr (str "Yuri Gagarin"))]
    (fun n => {| Sc.disambiguation := false; Sc.heading := None; Sc.address := [] |})
    Sc.SearchNetError
    {| Sc.server := fun n => Sc.Answer 200; Sc.made := 0; Sc.log := [] |}
  = (Sc.Returned Sc.Skipped, [],
     {| Sc.server := fun n => Sc.Answer 200; Sc.made := 0; Sc.log := [] |}).
Proof.
  apply (proj1 (missing_profile_name_hides_other_columns
                  [("Profile.Name"%string, Sc.CNaN);
                   ("Name"%string, Sc.CStr (str "Yuri Gagarin"))]
                  (fun n => {| Sc.disambiguation := false; Sc.heading := None;
                               Sc.address := [] |})
                  Sc.SearchNetError
                  {| Sc.server := fun n => Sc.Answer 200; Sc.made := 0; Sc.log := [] |})).
  reflexivity.
Defined.

(** X26.  The folder of a row is named by the sanitized id.  When the id is
    made from the name, the folder name is the id itself and is not empty.
    When the id comes from an id column, it is that value without the
    forbidden characters, and it is empty when the value has no other
    character: the files of the row then go to the output folder itself. *)
Theorem folder_name_of_row : forall r,
  (Sc.first_usable Sc.id_candidates r = None ->
   Sc.sanitize_filename (Sc.guess_id r) = Sc.guess_id r
   /\ Sc.sanitize_filename (Sc.guess_id r) <> [])
  /\ (forall i, Sc.first_usable Sc.id_candidates r = Some i ->
        Sc.sanitize_filename (Sc.guess_id r) = filter Sc.allowed i
        /\ (forallb Sc.forbidden i = true -> Sc.sanitize_filename (Sc.guess_id r) = [])).
Proof.
  intros r. split.
  - intros U.
    assert (E : Sc.sanitize_filename (Sc.guess_id r) = Sc.guess_id r).
    { unfold Sc.guess_id. rewrite U.
      destruct (Sc.sanitize_filename (Sc.normalize_name _)) as [|c t] eqn:X.
      - vm_compute. reflexivity.
      - rewrite <- X, !Names.sanitize_filter. apply Names.filter_allowed.
        apply forallb_forall. intros a I. apply filter_In in I. apply I. }
    split; [exact E|]. rewrite E. apply Names.guess_id_some.
  - intros i U. unfold Sc.guess_id. rewrite U, Names.sanitize_filter.
    split; [reflexivity|]. apply Names.filter_forbidden.
Qed.

Lemma folder_name_of_row_witness :
  Sc.sanitize_filename (Sc.guess_id [("ID"%string, Sc.CStr (str " ?? "))]) = [].
Proof.
  destruct (folder_name_of_row [("ID"%string, Sc.CStr (str " ?? "))]) as (_ & H).
  apply (H (str "??")); reflexivity.
Defined.

(** ** The structured extraction *)

(** X27.  [strip_list_items] keeps the texts of a list that are not blank,
    stripped and in order, and drops every other item.  Each text of the
    result is not empty and has no white space at its ends, and the
    validator run on its own result gives the same list. *)
Theorem strip_list_items_cleans : forall items,
  exists l,
    Linto.strip_list_items (Sc.VList items) = Sc.Returned l
    /\ l = flat_map Linto.kept items
    /\ (forall s, In s l -> s <> [] /\ strip s = s)
    /\ Linto.strip_list_items (Sc.VList (map Sc.VStr l)) = Sc.Returned l
    /\ (forall texts, items = map Sc.VStr texts ->
          l = map strip (filter (fun s => truthy (strip s)) texts)).
Proof.
  intros items. exists (flat_map Linto.kept items).
  assert (C : forall s, In s (flat_map Linto.kept items) -> s <> [] /\ strip s = s)
    by (intros s; apply Lists.kept_clean).
  split; [destruct items; reflexivity|]. split; [reflexivity|].
  split; [exact C|]. split.
  - unfold Linto.strip_list_items.
    destruct (flat_map Linto.kept items) as [|x l] eqn:E; [reflexivity|].
    cbn [map Sc.value_truthy negb Linto.items_of Sc.and_then].
    change (Sc.VStr x :: map Sc.VStr l) with (map Sc.VStr (x :: l)).
    rewrite Lists.kept_texts, Lists.filter_clean; [reflexivity|exact C].
  - intros texts E. subst items. apply Lists.kept_texts.
Qed.

Lemma strip_list_items_cleans_witness :
  Linto.strip_list_items
    (Sc.VList [Sc.VStr (str " PhD "); Sc.VNull; Sc.VStr (str "  "); Sc.VStr (str "MSc")])
  = Sc.Returned [str "PhD"; str "MSc"].
Proof.
  destruct (strip_list_items_cleans
              [Sc.VStr (str " PhD "); Sc.VNull; Sc.VStr (str "  "); Sc.VStr (str "MSc")])
    as (l & H & E & _).
  rewrite H, E. vm_compute. reflexivity.
Defined.

(** X28.  The name [guess_name_from_folder] gives has no underscore and no
    white space at its ends.  For a name without underscore and without
    white space at its ends, it undoes the replacement of the spaces by
    underscores. *)
Theorem guess_name_from_folder_undoes_underscores : forall folder_name,
  ~ In "_"%char (Linto.guess_name_from_folder folder_name)
  /\ strip (Linto.guess_name_from_folder folder_name)
     = Linto.guess_name_from_folder folder_name
  /\ (~ In "_"%char folder_name -> strip folder_name = folder_name ->
      Linto.guess_name_from_folder (Sc.replace_char " " "_" folder_name)
      = folder_name).
Proof.
  intros n. unfold Linto.guess_name_from_folder. split; [|split].
  - intros H. apply (Lists.replace_removes n).
    destruct (part_of_strip Chars.is_space (Sc.replace_char "_" " " n)) as (a & b & E).
    rewrite E. apply in_or_app. right. apply in_or_app. left. exact H.
  - apply strip_idem.
  - intros U S. rewrite Lists.replace_back by exact U. exact S.
Qed.

Lemma guess_name_from_folder_undoes_underscores_witness :
  Linto.guess_name_from_folder (str "Sergey_Revin") = str "Sergey Revin".
Proof.
  change (str "Sergey_Revin") with (Sc.replace_char " " "_" (str "Sergey Revin")).
  apply (proj2 (proj2 (guess_name_from_folder_undoes_underscores (str "Sergey Revin")))).
  - vm_compute. intros H. repeat (destruct H as [H|H]; [discriminate|]). exact H.
  - vm_compute. reflexivity.
Defined.
